(* ===== verification/_CoqProject ===== *)
-Q . S2P
Prelude.v
GoLib.v
Errors.v
GoIo.v
StateFile.v
Virtual.v
Examples.v
OutputPathFactory.v
OutputService.v
Store.v
CleanRace.v
OutputPath.v
OutputPathRoundTrip.v
OutputPathResources.v
OutputPathStack.v
OutputPathExamples.v
ErrorRetrying.v
FilterMissing.v
TreeWalker.v
PathWalk.v
StageArtifacts.v
BatchStat.v
OutputServiceServer.v
CasDirectory.v
CasDirectoryFactories.v
CommandFile.v
ParsingDirectories.v
BlobsDirectory.v
CasPath.v
CasTree.v
Main.v
MainExamples.v
