(* ===== verification/Prelude.v ===== *)
(** * bb_clientd in Rocq

    bb_clientd is a daemon that runs next to Bazel. It mounts a virtual file system
    with the objects of a Content Addressable Storage (CAS) below "cas", and the
    output paths of builds below "outputs"; Bazel manages the latter through the
    gRPC calls of the Bazel Output Service, and creates files in them that are only
    downloaded when they are read. The contents of output paths are written to
    state files, so that they survive restarts.

    This development models the Go code below [cmd] and [pkg] by translating it to
    functions, and proves what makes it correct. Libraries that are not part of the
    repository (bb-storage, bb-remote-execution, gRPC, Protobuf) are parameters:
    their operations are fields of classes, and what is documented of them and used
    in proofs is a separate class of laws. The concrete instances in [Examples] and
    in the [Example...] module at the end of each file satisfy these laws, and the
    lemmas named [..._witness] apply the theorems to them.

    ** Conventions

    - A function that returns [(T, error)] yields [res err T]; one that may panic
      yields an [outcome]; statuses of the virtual file system are [Status], and
      [vres T] for functions that return a value as well ([Virtual]).
    - Calls to collaborators change their state: they are functions of type
      [st W A], that is [W -> A * W], and are composed in the order of the code. The
      theorems on resources and on errors instantiate [W] with a state that also records
      calls, with their results.
    - Integers are [Z], with the wrap-around of their width ([u64], [i64], ...)
      written out where the code computes with them.
    - Code that may panic, and whose recursion takes fuel, is a [run W A]; [run_rel]
      relates two of them step by step.
    - Recursion that is not structural takes fuel and yields [None] without it.
      Recursion over directories needs as much fuel as they are deep. Restoring a
      state file never needs more than one level per byte ([restore_terminates]),
      since references point backwards; iterating over output paths needs one step
      for each ([VirtualReadDir_spec]); saving and uploading need one level for each
      level of directories ([stack_FinalizeBuild_terminates]); the retry loop needs
      [maximumDelay / delta + 2] attempts that take [delta] ([retry_terminates]).
    - Contexts, logging of successful operations, and masks of requested attributes
      that only save work are left out. Locks are modelled by their critical
      sections, which are atomic steps: [Clean], which takes its lock twice, is two.

    ** Libraries

    - [Prelude]: results, effects, machine integers, shared lemmas and automation.
    - [GoLib], [GoIo]: [sort.Search], [strings.LastIndex], [strconv.ParseInt],
      [encoding/binary], [io.ReadFull] and [bufio.Writer], executable, with lemmas.
    - [Errors], [Virtual], [PathWalk], [OutputPathFactory]: the interfaces of errors,
      paths, digests, the virtual file system, path resolution and output paths.
      [OutputPathFactory] also has [in_memory_output_path_factory.go].

    ** State of output paths ([pkg/outputpathpersistency])

    - [StateFile]: [header.go], [file_writer.go], [file_reader.go]. A file that was
      written is read back ([state_file_roundtrip]) whatever the size of the buffers
      and however much is read at a time; references are confined to the messages
      that precede them ([ReadDirectory_descends], [ReadDirectory_rejects]).
    - [Store]: [store.go], [directory_backed_store.go], [maximum_age_store.go]. The
      class [Store] is the Go interface, [StoreLaws] is what it promises its clients,
      which [directoryBackedStore_laws] shows of the directory. Finalizing replaces a
      file as the last step, after every write to it succeeded, and does not leak
      ([Finalize_atomic], [store_roundtrip]); output bases do not share files, apart
      from the names of temporary ones ([store_isolation]); state expires with its epoch ([maximumAgeStore_expires]).
      Two theorems are about defects: [temporary_name_collision] and
      [Close_loses_removal_error].
    - [CleanRace]: [FinalizeBuild] saves under the lock of the service, but [Clean]
      removes files without it. A step relation of both sides: in every interleaving a
      writer is stopped once [Clean] returned ([Clean_stops_saving]), but one that is
      finalized in between its two removals survives ([Clean_loses_race], a defect).
    - [OutputPath]: [persistent_output_path_factory.go] and
      [local_file_uploading_output_path_factory.go], against the interfaces [Store],
      [OutputPathFactory] and [PrepopulatedDirectory].
    - [OutputPathRoundTrip]: what is saved of an output path is well formed
      ([saved_messages_wf]) and is what is restored ([output_path_roundtrip]), proved
      against [StoreLaws] and the laws of directories.
    - [OutputPathResources]: restoring, saving and uploading end, and release what they
      acquire ([restore_terminates], [saveOutputPath_releases],
      [restore_leaves_unlinks], [StartInitialBuild_closes]); nothing is left out of
      uploads ([upload_complete]).
    - [OutputPathStack]: the factories on top of each other, as [main.go] creates them.
      The service of [OutputService] on top of the stack keeps its output paths
      across restarts, files that only existed locally included ([service_restart]);
      what was cleaned is not restored ([cleaned_stays_empty]), and the end of a build
      terminates ([stack_FinalizeBuild_terminates]). [OutputPathExamples] has concrete
      directories and runs for all of these.

    ** The Bazel Output Service ([bazel_output_service_directory.go])

    - [OutputService]: the state that is protected by the lock. [service] is the
      abstract view, a list of output paths, each with the build that runs in it;
      [implements] relates it to the circular doubly-linked list of heap nodes and
      the two maps. Every critical section refines a step of the abstract service
      ([StartBuild_refines], [Clean_refines], [FinalizeBuild_refines]), and so does
      any interleaving of them ([reachable_refines]). Lookups and directory reads
      show what the abstract service contains ([lookups_refine],
      [VirtualReadDir_spec]), also when it changes between pages
      ([read_pages_complete]).
    - [OutputServiceServer]: [StartBuild] and [Clean] as a whole
      ([StartBuild_request], [Clean_request]), on top of the refinement and of
      [FilterMissing], the removal of children that are absent from the CAS
      ([filterMissingChildren_correct], [FindMissing_batches]).
    - [StageArtifacts], [BatchStat]: the walkers with which paths are resolved,
      and the requests. Directories have a location, in one of the output paths or
      outside of them. Files are created exactly where a path denotes, and whatever is
      entered or created lies in the output path of the build
      ([stageSingleArtifact_location], [stageSingleArtifact_safe]). For lookups,
      [BatchStat_correct] compares the walker with a reference that follows paths,
      including symbolic links in the middle of them, through the contents of the
      output path. What the resolver of bb-storage makes of a path is described by
      [run_links] of [PathWalk]: it follows at most [maximum_links] links.

    ** The CAS in the file system

    - [TreeWalker]: [pkg/cas/tree_directory_walker.go].
    - [CasDirectory], [CasDirectoryFactories]: [cas_directory.go],
      [decomposed_cas_directory_factory.go], [tree_cas_directory_factory.go]. The
      binary searches find what linear search finds ([VirtualLookup_linear]), reading
      in pages yields every entry once ([read_pages_listing]), and file handles
      resolve to the nodes that they were made for ([tree_handles_resolve]).
    - [CommandFile]: [blob_access_command_file_factory.go] and
      [handle_allocating_command_file_factory.go]. Reads return the requested part of
      a script that is generated again each time ([VirtualRead_script]).
    - [ParsingDirectories]: [digest_parsing_directory.go],
      [instance_name_parsing_directory.go], [non_iterable_directory.go]
      ([digest_filenames], [instance_name_walk], [WriteTo_prefix_free]).
    - [BlobsDirectory]: the "blobs" directories that [cmd/bb_clientd/main.go] creates
      ([blobs_layout]).
    - [CasPath]: resolving paths below "cas" through all of these: objects are found
      under their documented names ([cas_path]).
    - [CasTree]: paths that continue below directories and trees. What the directories
      of both factories show, one below the other, is what following the path along
      the messages yields ([cas_tree_path]); for trees, these are the messages of the
      directory walkers of [TreeWalker].
    - [ErrorRetrying]: [pkg/blobstore/error_retrying_blob_access.go], through which
      the file system reads the CAS ([retry_policy], [retry_terminates], [backoff]).
      [delay_overshoot] shows by how much an operation can exceed its deadline.

    ** The program

    - [Main]: [cmd/bb_clientd/main.go] and the messages of [bb_clientd.proto]: reading
      the configuration, creating the components and connecting them, exposing the
      file system and serving requests. The daemon starts in a fixed order and stops
      at the first error ([main_order], on a trace of calls that tells which ones
      succeeded); what it mounts and what it serves belong together, and every factory
      below "cas" reads from the storage that it should ([main_wiring]); output paths
      are created by the configured factory, whose store uses the configured directory,
      size and age, and keeps its promises ([configured_factory]). [zero_age_panics] is
      about a configuration that should not be accepted. [MainExamples] has concrete
      configurations.

    ** Not modelled

    - Generated code ([bb_clientd.pb.go]).
    - What libraries create is opaque: [main.go] passes attribute setters, symbolic link
      and named attribute factories, handle allocators and loggers from one library
      function to another.
    - Constructors that only store their arguments, where these are the parameters of
      the section that models the methods; methods that only return a constant for
      every argument ([VirtualApply]) or do nothing ([VirtualClose], [Done]), and fields
      that only forward a context or a logger. *)

From Stdlib Require Export ZArith Lia.
From Stdlib Require Export Strings.Ascii Strings.Byte.
From stdpp Require Export gmap strings sorting list.

Declare Scope go_scope.
Delimit Scope go_scope with go.

(** ** Results of fallible Go functions

    A Go function returning [(T, error)] is modelled by [res E T]: [Ok v] when
    the error is nil, [Err e] when it is not. *)

Inductive res (E A : Type) : Type :=
| Ok (a : A)
| Err (e : E).
Arguments Ok {E A} a.
Arguments Err {E A} e.

Notation "'let?' x ':=' c 'in' k" :=
  (match c with Ok x => k | Err e => Err e end)
  (at level 10, x pattern, c at level 100, k at level 200) : go_scope.

Definition is_Ok {E A} (r : res E A) : bool :=
  match r with Ok _ => true | Err _ => false end.

#[export] Instance res_eq_dec `{EqDecision E, EqDecision A} : EqDecision (res E A).
Proof. solve_decision. Defined.

(** A Go function that may panic returns an [outcome]. *)
Inductive outcome (A : Type) : Type :=
| Ret (a : A)
| Panic (msg : string).
Arguments Ret {A} a.
Arguments Panic {A} msg.

(** ** Effects

    Code that calls into stateful collaborators (the Content Addressable
    Storage, a clock, a directory) is written in the state monad over the
    collaborator's state [W]. *)

Definition st (W A : Type) : Type := W -> A * W.

#[export] Instance st_ret W : MRet (st W) := fun A a w => (a, w).
#[export] Instance st_bind W : MBind (st W) :=
  fun A B f m w => let '(a, w') := m w in f a w'.

(** Code that may panic, and whose recursion is bounded by fuel: [None] is running
    out of it. The state is that of the moment at which the code stopped. *)
Definition run (W A : Type) : Type := st W (option (outcome A)).

#[export] Instance run_ret W : MRet (run W) := fun A a w => (Some (Ret a), w).
#[export] Instance run_bind W : MBind (run W) := fun A B f m w =>
  match m w with
  | (Some (Ret a), w) => f a w
  | (Some (Panic msg), w) => (Some (Panic msg), w)
  | (None, w) => (None, w)
  end.
#[export] Instance run_fmap W : FMap (run W) := fun A B f m w =>
  match m w with
  | (Some (Ret a), w) => (Some (Ret (f a)), w)
  | (Some (Panic msg), w) => (Some (Panic msg), w)
  | (None, w) => (None, w)
  end.

(** Code that always returns. *)
Definition returning {W A : Type} (m : st W A) : run W A := fun w =>
  let '(a, w) := m w in (Some (Ret a), w).

Lemma run_bind_ret {W A B : Type} (m : run W A) (f : A -> run W B) w a w' :
  m w = (Some (Ret a), w') -> (m ≫= f) w = f a w'.
Proof. unfold mbind, run_bind. by intros ->. Qed.

Lemma run_fmap_ret {W A B : Type} (m : run W A) (f : A -> B) w a w' :
  m w = (Some (Ret a), w') -> (f <$> m) w = (Some (Ret (f a)), w').
Proof. unfold fmap, run_fmap. by intros ->. Qed.

Lemma run_fmap_inv {W A B : Type} (m : run W A) (f : A -> B) w b w' :
  (f <$> m) w = (Some (Ret b), w') -> exists a, m w = (Some (Ret a), w') /\ b = f a.
Proof.
  unfold fmap, run_fmap. destruct (m w) as [[[a|]|] w1]; intros [= <- <-]. by exists a.
Qed.

(** One computation refines another: they stop in the same state and for the same
    reason, with results that are related by [R]. *)
Definition run_rel {W A B : Type} (R : A -> B -> Prop)
    (x : option (outcome A) * W) (y : option (outcome B) * W) : Prop :=
  x.2 = y.2 /\
  match x.1, y.1 with
  | Some (Ret a), Some (Ret b) => R a b
  | Some (Panic m), Some (Panic m') => m = m'
  | None, None => True
  | _, _ => False
  end.

Lemma run_rel_ret {W A B : Type} (R : A -> B -> Prop) a b (w : W) :
  R a b -> run_rel R ((mret a : run W A) w) ((mret b : run W B) w).
Proof. done. Qed.

Lemma run_rel_fmap {W A B C : Type} (R : B -> C -> Prop) (f : A -> B) (g : A -> C) (m : run W A) w :
  (forall a, R (f a) (g a)) -> run_rel R ((f <$> m) w) ((g <$> m) w).
Proof. intros HR. unfold fmap, run_fmap. destruct (m w) as [[[a|]|] w']; split; cbn; auto. Qed.

Lemma run_rel_impl {W A B : Type} (R R' : A -> B -> Prop) (x : option (outcome A) * W) y :
  run_rel R x y -> (forall a b, R a b -> x.1 = Some (Ret a) -> R' a b) -> run_rel R' x y.
Proof.
  intros [Hw Hx] HR. split; [done|]. destruct x.1 as [[|]|], y.1 as [[|]|]; auto.
Qed.

Lemma run_rel_Ret {W A B : Type} (R : A -> B -> Prop) a w (y : option (outcome B) * W) :
  run_rel R (Some (Ret a), w) y -> exists b, y = (Some (Ret b), w) /\ R a b.
Proof.
  destruct y as [[[b|]|] w']; intros [Hw HR]; try done. cbn in *. subst. by exists b.
Qed.

(** ** Machine integers

    Go's fixed-width integers are [Z] with the wrap-around written out. *)

Definition u8 (z : Z) : Z := (z mod 2 ^ 8)%Z.
Definition u32 (z : Z) : Z := (z mod 2 ^ 32)%Z.
Definition u64 (z : Z) : Z := (z mod 2 ^ 64)%Z.
Definition i32 (z : Z) : Z := ((z + 2 ^ 31) mod 2 ^ 32 - 2 ^ 31)%Z.
Definition i64 (z : Z) : Z := ((z + 2 ^ 63) mod 2 ^ 64 - 2 ^ 63)%Z.

Lemma u32_id z : (0 <= z < 2 ^ 32)%Z -> u32 z = z.
Proof. apply Z.mod_small. Qed.
Lemma u64_id z : (0 <= z < 2 ^ 64)%Z -> u64 z = z.
Proof. apply Z.mod_small. Qed.
Lemma i32_id z : (- 2 ^ 31 <= z < 2 ^ 31)%Z -> i32 z = z.
Proof. intros ?. unfold i32. rewrite Z.mod_small; lia. Qed.
Lemma i64_id z : (- 2 ^ 63 <= z < 2 ^ 63)%Z -> i64 z = z.
Proof. intros ?. unfold i64. rewrite Z.mod_small; lia. Qed.
Lemma i32_u32 z : (- 2 ^ 31 <= z < 2 ^ 31)%Z -> i32 (u32 z) = z.
Proof. intros ?. unfold i32, u32. rewrite Zplus_mod_idemp_l, Z.mod_small; lia. Qed.
Lemma i64_u64 z : (- 2 ^ 63 <= z < 2 ^ 63)%Z -> i64 (u64 z) = z.
Proof. intros ?. unfold i64, u64. rewrite Zplus_mod_idemp_l, Z.mod_small; lia. Qed.
Lemma i64_add_l a b : i64 (i64 a + b) = i64 (a + b).
Proof.
  unfold i64. replace ((a + 2 ^ 63) mod 2 ^ 64 - 2 ^ 63 + b + 2 ^ 63)%Z
    with ((a + 2 ^ 63) mod 2 ^ 64 + b)%Z by lia.
  rewrite Zplus_mod_idemp_l. by replace (a + 2 ^ 63 + b)%Z with (a + b + 2 ^ 63)%Z by lia.
Qed.
Lemma u64_add_l a b : u64 (u64 a + b) = u64 (a + b).
Proof. apply Zplus_mod_idemp_l. Qed.
Lemma u32_add_r a b : u32 (a + u32 b) = u32 (a + b).
Proof. apply Zplus_mod_idemp_r. Qed.
Lemma u64_range z : (0 <= u64 z < 2 ^ 64)%Z.
Proof. apply Z.mod_pos_bound. lia. Qed.
Lemma i64_range z : (- 2 ^ 63 <= i64 z < 2 ^ 63)%Z.
Proof. unfold i64. pose proof (Z.mod_pos_bound (z + 2 ^ 63) (2 ^ 64)). lia. Qed.

Create Rewrite HintDb go.
#[export] Hint Rewrite u32_id u64_id i32_id i64_id i32_u32 i64_u64 using lia : go.

(** [lia_wrap] removes the wrap-arounds that the context rules out. *)
Ltac lia_wrap := autorewrite with go in *; try lia.

(** [go_cases] splits on the matches and boolean tests of the goal, in the
    order in which the code evaluates them. *)
Ltac go_cases := repeat (case_match; simplify_eq/=; try done).

#[export] Instance byte_eq_dec : EqDecision byte := Byte.byte_eq_dec.

(** ** Lists *)

Lemma omap_fmap_ext {A B C} (f : A -> option C) (g : A -> option B) (h : B -> C) (l : list A) :
  (forall k, k ∈ l -> f k = h <$> g k) -> omap f l = h <$> omap g l.
Proof.
  induction l as [|x l IH]; intros Hk; [done|]. cbn.
  rewrite Hk by set_solver. rewrite IH by set_solver. by destruct (g x).
Qed.

Lemma omap_ext_in {A B} (f g : A -> option B) (l : list A) :
  (forall k, k ∈ l -> f k = g k) -> omap f l = omap g l.
Proof.
  intros Hk. rewrite (omap_fmap_ext f g id).
  - apply list_fmap_id.
  - intros k Hk'. rewrite Hk by done. by destruct (g k).
Qed.

Lemma fmap_omap_ext {A B C} (f g : A -> option B) (h : B -> C) (l : list A) :
  (forall k, k ∈ l -> h <$> f k = h <$> g k) -> h <$> omap f l = h <$> omap g l.
Proof.
  induction l as [|x l IH]; intros Hk; [done|]. specialize (IH ltac:(set_solver)).
  pose proof (Hk x ltac:(set_solver)) as Hx. cbn.
  destruct (f x), (g x); simplify_eq/=; rewrite ?IH; congruence.
Qed.

Lemma existsb_omap {A B} (f : A -> option B) (p : B -> bool) (l : list A) :
  existsb p (omap f l) = true <-> exists x y, x ∈ l /\ f x = Some y /\ p y = true.
Proof.
  rewrite existsb_exists. setoid_rewrite <-list_elem_of_In.
  setoid_rewrite list_elem_of_omap. naive_solver.
Qed.

Lemma filter_all {A} (P : A -> Prop) `{forall x, Decision (P x)} (l : list A) :
  Forall P l -> filter P l = l.
Proof.
  induction 1 as [|x l Hx _ IH]; [done|]. by rewrite filter_cons_True, IH.
Qed.

Lemma length_omap_total {A B} (f : A -> option B) (l : list A) :
  Forall (fun x => is_Some (f x)) l -> length (omap f l) = length l.
Proof. induction 1 as [|x l [y Hy] _ IH]; [done|]. cbn. by rewrite Hy, <-IH. Qed.

Lemma StronglySorted_fmap_filter {A B} (R : relation B) (f : A -> B) (P : A -> Prop)
    `{forall x, Decision (P x)} (l : list A) :
  StronglySorted R (f <$> l) -> StronglySorted R (f <$> filter P l).
Proof.
  induction l as [|x l IH]; intros Hs; [done|]. cbn in Hs.
  apply StronglySorted_inv in Hs as [Hs Hall]. destruct (decide (P x)).
  - rewrite filter_cons_True by done. cbn. constructor; [by apply IH|].
    rewrite Forall_forall in *. intros y (z & -> & [_ Hz]%list_elem_of_filter)%list_elem_of_fmap.
    apply Hall. by apply list_elem_of_fmap_2.
  - rewrite filter_cons_False by done. by apply IH.
Qed.

Lemma NoDup_omap_fst {A B C} (l : list (A * B)) (f : A * B -> option (A * C)) :
  (forall x y, f x = Some y -> y.1 = x.1) -> NoDup l.*1 -> NoDup (omap f l).*1.
Proof.
  intros Hf. induction l as [|x l IH]; intros Hnd; [done|]. cbn in Hnd.
  apply NoDup_cons in Hnd as [Hx Hnd]. cbn. destruct (f x) as [y|] eqn:Hy; [|by apply IH].
  cbn. apply NoDup_cons. split; [|by apply IH]. rewrite (Hf x y Hy).
  intros (z & Heq & (x' & Hin & Hz)%list_elem_of_omap)%list_elem_of_fmap.
  apply Hx. rewrite Heq, (Hf x' z Hz). by apply list_elem_of_fmap_2.
Qed.

Lemma app_self_nil {A} (l x : list A) : l ++ x = l -> x = [].
Proof. intros H. apply (app_inv_head l). by rewrite app_nil_r. Qed.

(** ** Strings *)

Lemma string_length_app s t : String.length (s +:+ t) = (String.length s + String.length t)%nat.
Proof. induction s as [|c s IH]; [done|]. exact (f_equal S IH). Qed.

Lemma string_app_assoc s t u : (s +:+ t) +:+ u = s +:+ (t +:+ u).
Proof. induction s as [|c s IH]; [done|]. exact (f_equal (String c) IH). Qed.

Lemma string_app_nil_r s : s +:+ "" = s.
Proof. induction s as [|c s IH]; [done|]. exact (f_equal (String c) IH). Qed.
