(* ===== verification/GoLib.v ===== *)
(** * The parts of Go's standard library the program uses

    Executable models of [sort.Search], [strings.LastIndex], [strconv.ParseInt],
    [encoding/binary] (little-endian words and unsigned varints) and of the
    reading and writing helpers of [io] and [bufio], with the lemmas the
    components apply. *)

From S2P Require Import Prelude.
Local Open Scope Z_scope.

(** ** [sort.Search] *)

Module Sort.

(** The loop of [sort.Search]: [i] and [j] delimit the range that is left, and
    [fuel] bounds the number of iterations. *)
Fixpoint search_loop (fuel : nat) (f : nat -> bool) (i j : nat) : nat :=
  match fuel with
  | O => i
  | S fuel' =>
      if (i <? j)%nat then
        let h := ((i + j) / 2)%nat in
        if f h then search_loop fuel' f i h else search_loop fuel' f (h + 1) j
      else i
  end.

(** [sort.Search(n, f)]; every iteration shrinks the range, so that [n]
    iterations are enough. *)
Definition Search (n : nat) (f : nat -> bool) : nat := search_loop n f 0 n.

(** [f] is false up to some index and true from there on. *)
Definition monotone (n : nat) (f : nat -> bool) : Prop :=
  forall i j, (i <= j < n)%nat -> f i = true -> f j = true.

Lemma midpoint i j : (i < j)%nat -> (i <= (i + j) / 2 < j)%nat.
Proof.
  intros H. pose proof (Nat.div_mod_eq (i + j) 2).
  pose proof (Nat.mod_upper_bound (i + j) 2). lia.
Qed.

Lemma search_loop_spec fuel f i j n :
  (j - i <= fuel)%nat -> (i <= j <= n)%nat -> monotone n f ->
  (forall k, (k < i)%nat -> f k = false) ->
  (forall k, (j <= k < n)%nat -> f k = true) ->
  let r := search_loop fuel f i j in
  (r <= n)%nat /\ (forall k, (k < r)%nat -> f k = false) /\
  (forall k, (r <= k < n)%nat -> f k = true).
Proof.
  revert i j. induction fuel as [|fuel IH]; intros i j Hf Hij Hm Hlo Hhi;
    cbn [search_loop].
  { assert (i = j) as -> by lia. split; [lia|split; intros; [apply Hlo|apply Hhi]; lia]. }
  destruct (Nat.ltb_spec i j) as [Hlt|Hge].
  2: { assert (i = j) as -> by lia. split; [lia|split; intros; [apply Hlo|apply Hhi]; lia]. }
  assert (i <= (i + j) / 2 < j)%nat as Hh.
  { apply midpoint; lia. }
  set (h := ((i + j) / 2)%nat) in *. clearbody h.
  destruct (f h) eqn:Hfh; (apply IH; [lia|lia|done| |]).
  - done.
  - intros k Hk. apply (Hm h k); [lia|done].
  - intros k Hk. destruct (f k) eqn:Hfk; [|done].
    rewrite (Hm k h) in Hfh; [done|lia|done].
  - intros k Hk. apply Hhi. lia.
Qed.

Lemma Search_spec n f :
  monotone n f ->
  (Search n f <= n)%nat /\ (forall k, (k < Search n f)%nat -> f k = false) /\
  (forall k, (Search n f <= k < n)%nat -> f k = true).
Proof. intros Hm. apply search_loop_spec; try done; intros; lia. Qed.

(** More fuel never changes the result: the loop stops by itself. *)
Lemma search_loop_fuel fuel f i j :
  (j - i <= fuel)%nat -> search_loop (S fuel) f i j = search_loop fuel f i j.
Proof.
  revert i j. induction fuel as [|fuel IH]; intros i j Hf.
  { simpl. destruct (Nat.ltb_spec i j); [lia|done]. }
  remember (S fuel) as fuel1 eqn:E. cbn [search_loop]. rewrite E at 3. cbn [search_loop].
  destruct (Nat.ltb_spec i j); [|done].
  assert (i <= (i + j) / 2 < j)%nat as Hh.
  { apply midpoint; lia. }
  set (h := ((i + j) / 2)%nat) in *. clearbody h. subst fuel1.
  destruct (f h); apply IH; lia.
Qed.

End Sort.

(** ** [strings.LastIndex] for a separator of one character *)

Module Strings.

#[local] Arguments String.append : simpl nomatch.

Fixpoint LastIndex (s : string) (c : ascii) : option nat :=
  match s with
  | EmptyString => None
  | String a s' =>
      match LastIndex s' c with
      | Some i => Some (S i)
      | None => if decide (a = c) then Some O else None
      end
  end.

(** Go's [s[i:]] and [s[:i]] for [i <= len(s)]. *)
Fixpoint slice_from (s : string) (i : nat) {struct i} : string :=
  match i, s with
  | O, _ => s
  | S i', String _ s' => slice_from s' i'
  | S _, EmptyString => EmptyString
  end.

Fixpoint slice_to (s : string) (i : nat) {struct i} : string :=
  match i, s with
  | O, _ => EmptyString
  | S i', String a s' => String a (slice_to s' i')
  | S _, EmptyString => EmptyString
  end.

Fixpoint In (c : ascii) (s : string) : Prop :=
  match s with
  | EmptyString => False
  | String a s' => a = c \/ In c s'
  end.

Lemma LastIndex_None s c : ~ In c s -> LastIndex s c = None.
Proof.
  induction s as [|a s IH]; simpl; [done|]; intros Hn.
  rewrite IH by tauto. rewrite decide_False by tauto. done.
Qed.

Lemma LastIndex_None_inv s c : LastIndex s c = None -> ~ In c s.
Proof.
  induction s as [|b s IH]; cbn; [tauto|].
  destruct (LastIndex s c); [done|]. case_decide; [done|].
  intros _ [?|?]; [done|]. by apply IH.
Qed.

Lemma LastIndex_app s c t :
  ~ In c t -> LastIndex (s +:+ String c t) c = Some (String.length s).
Proof.
  intros Ht. induction s as [|a s IH]; cbn.
  - rewrite LastIndex_None by done. by rewrite decide_True.
  - by rewrite IH.
Qed.

Lemma LastIndex_Some s c i :
  LastIndex s c = Some i ->
  s = slice_to s i +:+ String c (slice_from s (S i)) /\ ~ In c (slice_from s (S i)).
Proof.
  revert i. induction s as [|a s IH]; intros i; cbn -[slice_from]; [done|].
  destruct (LastIndex s c) as [k|] eqn:E; intros ?; simplify_eq.
  - destruct (IH k) as [H1 H2]; [done|]. split; [|done]. cbn. by f_equal.
  - case_decide; simplify_eq. split; [done|]. by apply LastIndex_None_inv.
Qed.

Lemma slice_to_app s t : slice_to (s +:+ t) (String.length s) = s.
Proof. induction s as [|a s IH]; cbn; [done|by rewrite IH]. Qed.

Lemma slice_from_app s c t :
  slice_from (s +:+ String c t) (S (String.length s)) = t.
Proof. induction s as [|a s IH]; cbn; [done|done]. Qed.

End Strings.

(** ** [strconv.ParseInt(s, 10, 64)]

    Only success or failure of the conversion matters to the callers, so the
    syntax and range errors are both [None]. *)

Module Strconv.

Definition digit (a : ascii) : option Z :=
  let n := Z.of_N (N_of_ascii a) in
  if bool_decide (48 <= n <= 57) then Some (n - 48) else None.

(** The loop of [strconv.ParseUint] in base 10: [acc] is the value of the
    digits read so far. *)
Fixpoint parse_digits (acc : Z) (s : string) : option Z :=
  match s with
  | EmptyString => Some acc
  | String a s' =>
      match digit a with
      | None => None
      | Some d =>
          let acc' := acc * 10 + d in
          if bool_decide (acc' < 2 ^ 64) then parse_digits acc' s' else None
      end
  end.

Definition ParseUint (s : string) : option Z :=
  match s with EmptyString => None | _ => parse_digits 0 s end.

Definition ParseInt (s : string) : option Z :=
  let '(neg, digits) :=
    match s with
    | String a s' =>
        if decide (a = "+"%char) then (false, s')
        else if decide (a = "-"%char) then (true, s') else (false, s)
    | EmptyString => (false, s)
    end in
  match ParseUint digits with
  | None => None
  | Some un =>
      if negb neg && bool_decide (2 ^ 63 <= un) then None
      else if neg && bool_decide (2 ^ 63 < un) then None
      else Some (if neg then - un else un)
  end.

(** A parsed value is a signed 64-bit integer. *)
Lemma parse_digits_range acc s v :
  0 <= acc -> parse_digits acc s = Some v -> acc <= v.
Proof.
  revert acc. induction s as [|a s IH]; cbn; intros acc Ha; [by intros [= ->]|].
  unfold digit. case_bool_decide; [|done]. case_bool_decide; [|done].
  intros Hp. apply IH in Hp; lia.
Qed.

Lemma ParseUint_nonneg s v : ParseUint s = Some v -> 0 <= v.
Proof.
  unfold ParseUint. destruct s; [done|]. intros Hp.
  apply parse_digits_range in Hp; lia.
Qed.

Lemma ParseInt_range s v : ParseInt s = Some v -> - 2 ^ 63 <= v < 2 ^ 63.
Proof.
  unfold ParseInt. destruct (match s with EmptyString => _ | _ => _ end) as [neg ds].
  destruct (ParseUint ds) as [un|] eqn:E; [|done]. apply ParseUint_nonneg in E.
  destruct neg; cbn; case_bool_decide; intros; simplify_eq; lia.
Qed.

(** Go's decimal rendering of a natural number, most significant digit first,
    as a list of digits. *)
Fixpoint of_digits (ds : list Z) : string :=
  match ds with
  | [] => EmptyString
  | d :: ds => String (ascii_of_N (Z.to_N (d + 48))) (of_digits ds)
  end.

Definition digits_value (ds : list Z) (acc : Z) : Z :=
  foldl (fun a d => a * 10 + d) acc ds.

Lemma digit_of_digit d : 0 <= d < 10 -> digit (ascii_of_N (Z.to_N (d + 48))) = Some d.
Proof.
  intros Hd. unfold digit. rewrite N_ascii_embedding by lia.
  rewrite Z2N.id by lia. rewrite bool_decide_true by lia. f_equal. lia.
Qed.

Lemma digits_value_mono ds acc :
  Forall (fun d => 0 <= d < 10) ds -> 0 <= acc -> acc <= digits_value ds acc.
Proof.
  intros Hds. revert acc. induction Hds as [|d ds Hd _ IH]; cbn; intros acc Ha; [lia|].
  etrans; [|apply IH]; lia.
Qed.

Lemma parse_of_digits ds acc :
  Forall (fun d => 0 <= d < 10) ds -> 0 <= acc -> digits_value ds acc < 2 ^ 64 ->
  parse_digits acc (of_digits ds) = Some (digits_value ds acc).
Proof.
  intros Hds. revert acc. induction Hds as [|d ds Hd Hds IH]; intros acc Ha Hlt; [done|].
  cbn [of_digits parse_digits]. rewrite digit_of_digit by done.
  pose proof (digits_value_mono ds (acc * 10 + d) Hds ltac:(lia)).
  cbn in Hlt. rewrite bool_decide_true by (unfold digits_value in *; lia).
  apply IH; [lia|done].
Qed.

(** [strconv.FormatInt(v, 10)] for [v >= 0]. *)
Fixpoint format_digits (fuel : nat) (v : Z) (acc : list Z) : list Z :=
  match fuel with
  | O => acc
  | S fuel' =>
      if bool_decide (v < 10) then v :: acc
      else format_digits fuel' (v / 10) (v mod 10 :: acc)
  end.

Definition FormatInt (v : Z) : string := of_digits (format_digits 20 v []).

Lemma format_digits_spec fuel v acc :
  0 <= v < 10 ^ Z.of_nat fuel -> Forall (fun d => 0 <= d < 10) acc ->
  let ds := format_digits fuel v acc in
  Forall (fun d => 0 <= d < 10) ds /\ digits_value ds 0 = digits_value acc v /\
  (fuel <> O -> ds <> []).
Proof.
  revert v acc. induction fuel as [|fuel IH]; cbn [format_digits]; intros v acc Hv Hacc.
  { assert (v = 0) as -> by (cbn in Hv; lia). done. }
  case_bool_decide as Hv10.
  { split_and!; [constructor; [lia|done]|done|done]. }
  destruct (IH (v / 10) (v mod 10 :: acc)) as (H1 & H2 & H3).
  - rewrite Nat2Z.inj_succ, Z.pow_succ_r in Hv by lia.
    split; [apply Z.div_pos; lia|apply Z.div_lt_upper_bound; lia].
  - constructor; [apply Z.mod_pos_bound; lia|done].
  - split_and!; [done| |].
    + rewrite H2. cbn. unfold digits_value. f_equal.
      rewrite (Z.div_mod v 10) at 3 by lia. lia.
    + intros _. destruct fuel; [|by apply H3].
      rewrite Nat2Z.inj_succ, Z.pow_succ_r in Hv by lia. cbn in Hv. lia.
Qed.

Lemma of_digits_head ds a s :
  Forall (fun d => 0 <= d < 10) ds -> of_digits ds = String a s ->
  a <> "+"%char /\ a <> "-"%char.
Proof.
  intros Hds E. destruct Hds as [|d ds Hd]; simplify_eq/=.
  split; intros E; apply (f_equal N_of_ascii) in E;
    rewrite N_ascii_embedding in E by lia; cbn in E; lia.
Qed.

Lemma ParseInt_FormatInt v : 0 <= v < 2 ^ 63 -> ParseInt (FormatInt v) = Some v.
Proof.
  intros Hv. unfold FormatInt.
  destruct (format_digits_spec 20 v []) as (Hds & Hval & Hne); [lia|done|].
  revert Hds Hval Hne. generalize (format_digits 20 v []) as ds. intros ds Hds Hval Hne.
  cbn in Hval. pose proof (parse_of_digits ds 0 Hds ltac:(lia)) as Hp.
  rewrite Hval in Hp. specialize (Hp ltac:(lia)).
  unfold ParseInt. destruct (of_digits ds) as [|a s] eqn:E.
  { destruct ds; [by destruct Hne|done]. }
  destruct (of_digits_head ds a s Hds E).
  rewrite !decide_False by done. unfold ParseUint. rewrite Hp. cbn.
  rewrite bool_decide_false by lia. done.
Qed.

Lemma of_digits_no_dash ds :
  Forall (fun d => 0 <= d < 10) ds -> ~ Strings.In "-"%char (of_digits ds).
Proof.
  intros Hds. induction Hds as [|d ds Hd _ IH]; cbn; [tauto|].
  intros [E|?]; [|done]. apply (f_equal N_of_ascii) in E.
  rewrite N_ascii_embedding in E by lia. cbn in E. lia.
Qed.

Lemma FormatInt_no_dash v : 0 <= v < 2 ^ 63 -> ~ Strings.In "-"%char (FormatInt v).
Proof.
  intros Hv. destruct (format_digits_spec 20 v []) as (Hds & _); [lia|done|].
  by apply of_digits_no_dash.
Qed.

End Strconv.

(** ** [encoding/binary] *)

Module Binary.

Definition byte_of_Z (z : Z) : byte :=
  match Byte.of_N (Z.to_N (z mod 256)) with Some b => b | None => x00 end.
Definition Z_of_byte (b : byte) : Z := Z.of_N (Byte.to_N b).

Lemma Z_of_byte_of_Z z : Z_of_byte (byte_of_Z z) = z mod 256.
Proof.
  unfold Z_of_byte, byte_of_Z.
  pose proof (Z.mod_pos_bound z 256 ltac:(lia)).
  destruct (Byte.of_N _) eqn:E.
  - apply Byte.to_of_N in E. rewrite E. lia.
  - apply Byte.of_N_None_iff in E. lia.
Qed.

Lemma Z_of_byte_range b : 0 <= Z_of_byte b < 256.
Proof. unfold Z_of_byte. pose proof (Byte.to_N_bounded b). lia. Qed.

Lemma byte_of_Z_of_byte b : byte_of_Z (Z_of_byte b) = b.
Proof.
  unfold byte_of_Z. rewrite Z.mod_small by apply Z_of_byte_range.
  unfold Z_of_byte. by rewrite N2Z.id, Byte.of_to_N.
Qed.

(** [LittleEndian.PutUint32] and [PutUint64] write [n] = 4 or 8 bytes, the
    least significant first; [Uint32] and [Uint64] read them back. *)
Fixpoint le_put (n : nat) (v : Z) : list byte :=
  match n with
  | O => []
  | S n' => byte_of_Z v :: le_put n' (Z.shiftr v 8)
  end.

Fixpoint le_get (bs : list byte) : Z :=
  match bs with
  | [] => 0
  | b :: bs' => Z.lor (Z_of_byte b) (Z.shiftl (le_get bs') 8)
  end.

Definition PutUint32 : Z -> list byte := le_put 4.
Definition PutUint64 : Z -> list byte := le_put 8.
Definition Uint32 (bs : list byte) : Z := le_get (take 4 bs).
Definition Uint64 (bs : list byte) : Z := le_get (take 8 bs).

Lemma lor_shiftl_add a b n : 0 <= n -> 0 <= a < 2 ^ n -> Z.lor a (Z.shiftl b n) = a + b * 2 ^ n.
Proof.
  intros Hn Ha. rewrite <-Z.lxor_lor, <-Z.add_nocarry_lxor, Z.shiftl_mul_pow2; try done.
  all: apply Z.bits_inj'; intros k Hk; rewrite Z.land_spec, Z.bits_0.
  all: destruct (Z.lt_ge_cases k n).
  all: try (rewrite Z.shiftl_spec_low by done; apply andb_false_r).
  all: rewrite <-(Z.mod_small a (2 ^ n)), Z.mod_pow2_bits_high by lia; done.
Qed.

Lemma length_le_put n v : length (le_put n v) = n.
Proof. revert v. induction n; intros; cbn; auto. Qed.

Lemma le_get_put n v : le_get (le_put n v) = v mod 2 ^ (8 * Z.of_nat n).
Proof.
  revert v. induction n as [|n IH]; intros v; cbn [le_put le_get].
  { by rewrite Z.mod_1_r. }
  rewrite IH, Z_of_byte_of_Z, lor_shiftl_add by
    (try lia; apply Z.mod_pos_bound; lia).
  rewrite Z.shiftr_div_pow2 by lia.
  replace (8 * Z.of_nat (S n)) with (8 + 8 * Z.of_nat n) by lia.
  rewrite Z.pow_add_r, Z.rem_mul_r by lia. change (2 ^ 8) with 256. lia.
Qed.

Lemma Uint32_PutUint32 v bs : Uint32 (PutUint32 v ++ bs) = v mod 2 ^ 32.
Proof. unfold Uint32. rewrite take_app_length' by (symmetry; apply length_le_put). apply le_get_put. Qed.
Lemma Uint64_PutUint64 v bs : Uint64 (PutUint64 v ++ bs) = v mod 2 ^ 64.
Proof. unfold Uint64. rewrite take_app_length' by (symmetry; apply length_le_put). apply le_get_put. Qed.

(** [binary.PutUvarint]: the loop emits seven bits per byte, the top bit set on
    all bytes but the last. A 64-bit value needs at most ten bytes. *)
Fixpoint put_uvarint (fuel : nat) (x : Z) : list byte :=
  match fuel with
  | O => []
  | S fuel' =>
      if bool_decide (128 <= x)
      then byte_of_Z (Z.lor (x mod 256) 128) :: put_uvarint fuel' (Z.shiftr x 7)
      else [byte_of_Z x]
  end.

Definition MaxVarintLen64 : nat := 10.
Definition PutUvarint (x : Z) : list byte := put_uvarint MaxVarintLen64 x.

(** [binary.ReadUvarint] over an [io.ByteReader], which is the list of bytes
    still to be read. [i] is the number of bytes read, [s] the shift, [x] the
    value so far. [None] stands for [io.EOF], [io.ErrUnexpectedEOF] and the
    overflow error. *)
Fixpoint read_uvarint (fuel : nat) (i : nat) (x s : Z) (r : list byte)
  : option (Z * list byte) :=
  match fuel with
  | O => None
  | S fuel' =>
      match r with
      | [] => None
      | b :: r' =>
          let b := Z_of_byte b in
          if bool_decide (b < 128) then
            if bool_decide (i = (MaxVarintLen64 - 1)%nat) && bool_decide (1 < b) then None
            else Some (Z.lor x (u64 (Z.shiftl b s)), r')
          else
            read_uvarint fuel' (S i) (Z.lor x (u64 (Z.shiftl (Z.land b 127) s))) (s + 7) r'
      end
  end.

Definition ReadUvarint (r : list byte) : option (Z * list byte) :=
  read_uvarint MaxVarintLen64 0 0 0 r.

Lemma lor_byte_128 x : Z_of_byte (byte_of_Z (Z.lor (x mod 256) 128)) = x mod 128 + 128.
Proof.
  rewrite Z_of_byte_of_Z.
  assert (x mod 256 = x mod 128 + 128 * ((x / 128) mod 2)) as Hx.
  { change 256 with (128 * 2). by rewrite Z.rem_mul_r. }
  pose proof (Z.mod_pos_bound x 128 ltac:(lia)) as Hr.
  assert (forall r, 0 <= r < 128 -> Z.lor r 128 = r + 128) as Hlor.
  { intros r Hr'. change 128 with (Z.shiftl 1 7). by rewrite lor_shiftl_add. }
  assert (Z.lor (x mod 256) 128 = x mod 128 + 128) as ->.
  { rewrite Hx. pose proof (Z.mod_pos_bound (x / 128) 2 ltac:(lia)).
    assert ((x / 128) mod 2 = 0 \/ (x / 128) mod 2 = 1) as [-> | ->] by lia.
    - rewrite Z.mul_0_r, Z.add_0_r. by apply Hlor.
    - rewrite Z.mul_1_r, <-Hlor, <-Z.lor_assoc by done. by rewrite Z.lor_diag. }
  apply Z.mod_small. lia.
Qed.

Lemma land_127 x : Z.land (x mod 128 + 128) 127 = x mod 128.
Proof.
  change 127 with (Z.ones 7). rewrite Z.land_ones by lia. change (2 ^ 7) with 128.
  rewrite Z.add_mod, Z.mod_mod, Z.mod_same, Z.add_0_r, Z.mod_mod by lia. done.
Qed.

Lemma lor_u64_shiftl a v s :
  0 <= s -> 0 <= a < 2 ^ s -> 0 <= v -> v * 2 ^ s < 2 ^ 64 ->
  Z.lor a (u64 (Z.shiftl v s)) = a + v * 2 ^ s.
Proof.
  intros. rewrite u64_id by (rewrite Z.shiftl_mul_pow2; lia). by apply lor_shiftl_add.
Qed.

(** Reading continues from any prefix [x] of the value: after [k] bytes the
    shift is [7k] and [x] holds the low [7k] bits. *)
Lemma read_put_uvarint fuel i acc x r :
  let s := 7 * Z.of_nat i in
  (i + fuel = MaxVarintLen64)%nat -> 0 <= acc < 2 ^ s -> 0 <= x ->
  acc + x * 2 ^ s < 2 ^ 64 -> (0 < fuel)%nat ->
  read_uvarint fuel i acc s (put_uvarint fuel x ++ r) = Some (acc + x * 2 ^ s, r).
Proof.
  revert i acc x. induction fuel as [|fuel IH]; intros i acc x s Hi Hacc Hx Hlt Hf; [lia|].
  assert (0 < 2 ^ s) by (apply Z.pow_pos_nonneg; lia).
  cbn [put_uvarint]. case_bool_decide as H128; cbn [app read_uvarint].
  - rewrite lor_byte_128. pose proof (Z.mod_pos_bound x 128 ltac:(lia)).
    rewrite bool_decide_false by lia. rewrite land_127.
    assert (x = 128 * (x / 128) + x mod 128) as Hdiv by (apply Z.div_mod; lia).
    assert (x mod 128 * 2 ^ s <= x * 2 ^ s) by (apply Z.mul_le_mono_nonneg_r; lia).
    rewrite lor_u64_shiftl by lia.
    replace (s + 7) with (7 * Z.of_nat (S i)) by lia.
    assert (2 ^ (7 * Z.of_nat (S i)) = 2 ^ s * 128) as Hpow.
    { replace (7 * Z.of_nat (S i)) with (s + 7) by lia. by rewrite Z.pow_add_r by lia. }
    rewrite Z.shiftr_div_pow2 by lia. change (2 ^ 7) with 128.
    assert (acc + x mod 128 * 2 ^ s + x / 128 * (2 ^ s * 128) = acc + x * 2 ^ s) as Heq by nia.
    rewrite <-Heq, <-Hpow. rewrite IH; [done|lia|rewrite Hpow; nia|apply Z.div_pos; lia| |].
    + rewrite Hpow. lia.
    + destruct fuel; [|lia]. exfalso.
      assert (i = 9)%nat as -> by (unfold MaxVarintLen64 in Hi; lia).
      subst s. cbn in *. lia.
  - rewrite Z_of_byte_of_Z, Z.mod_small by lia. rewrite bool_decide_true by lia.
    destruct (bool_decide_reflect (i = (MaxVarintLen64 - 1)%nat)) as [->|]; cbn [andb].
    + subst s. rewrite bool_decide_false by (cbn in Hlt; lia).
      by rewrite lor_u64_shiftl by lia.
    + by rewrite lor_u64_shiftl by lia.
Qed.

Lemma ReadUvarint_PutUvarint x r :
  0 <= x < 2 ^ 64 -> ReadUvarint (PutUvarint x ++ r) = Some (x, r).
Proof.
  intros Hx. pose proof (read_put_uvarint MaxVarintLen64 0 0 x r) as H.
  cbv zeta in H. change (7 * Z.of_nat 0) with 0 in H. change (2 ^ 0) with 1 in H.
  rewrite Z.mul_1_r, Z.add_0_l in H. apply H; [done|lia|lia|lia|cbv; lia].
Qed.

Lemma read_uvarint_range fuel i x s r v r' :
  0 <= x < 2 ^ 64 -> read_uvarint fuel i x s r = Some (v, r') -> 0 <= v < 2 ^ 64.
Proof.
  assert (forall a b, 0 <= a < 2 ^ 64 -> 0 <= b < 2 ^ 64 -> 0 <= Z.lor a b < 2 ^ 64) as Hlor.
  { intros a b Ha Hb. split; [apply Z.lor_nonneg; lia|].
    destruct (decide (Z.lor a b = 0)) as [->|]; [lia|].
    assert (0 <= Z.lor a b) by (apply Z.lor_nonneg; lia).
    apply Z.log2_lt_pow2; [lia|]. rewrite Z.log2_lor by lia.
    assert (forall c, 0 <= c < 2 ^ 64 -> Z.log2 c < 64).
    { intros c Hc. destruct (decide (c = 0)) as [->|]; [done|]. apply Z.log2_lt_pow2; lia. }
    apply Z.max_lub_lt; auto. }
  revert i x s r. induction fuel as [|fuel IH]; intros i x s r Hx; cbn; [done|].
  destruct r as [|b r]; [done|]. case_bool_decide.
  - case_match; [done|]. intros [= <- <-]. apply Hlor; [done|apply u64_range].
  - apply IH. apply Hlor; [done|apply u64_range].
Qed.

End Binary.
