(* ===== verification/Errors.v ===== *)
(** * Errors

    Non-nil values of Go's [error] type, the errors of the standard library the
    program names, and the interface of the two error libraries it calls:
    [google.golang.org/grpc/status] and bb-storage's [pkg/util]. The libraries
    are not part of this repository, so that their functions are the fields of a
    class and what the components rely on is stated in [ErrorsLaws]. *)

From S2P Require Import Prelude.

(** [google.golang.org/grpc/codes.Code]. *)
Inductive code : Type :=
| OK | Canceled | Unknown | InvalidArgument | DeadlineExceeded | NotFound
| AlreadyExists | PermissionDenied | ResourceExhausted | FailedPrecondition
| Aborted | OutOfRange | Unimplemented | Internal | Unavailable | DataLoss
| Unauthenticated.

#[export] Instance code_eq_dec : EqDecision code.
Proof. solve_decision. Defined.

(** An argument of a formatting verb. *)
Inductive fmtarg : Type :=
| FStr (s : string)
| FInt (z : Z).

#[export] Instance fmtarg_eq_dec : EqDecision fmtarg.
Proof. solve_decision. Defined.

Class Errors : Type := {
  err : Type;
  err_eq_dec :: EqDecision err;
  (** [io.EOF], [io.ErrUnexpectedEOF], [io.ErrShortWrite], [io.ErrNoProgress] *)
  EOF : err;
  ErrUnexpectedEOF : err;
  ErrShortWrite : err;
  ErrNoProgress : err;
  (** [syscall.ENOENT], [syscall.ENOTDIR] *)
  ENOENT : err;
  ENOTDIR : err;
  (** [status.Error] and [status.Errorf], for a code other than [OK] *)
  status_Error : code -> string -> err;
  status_Errorf : code -> string -> list fmtarg -> err;
  (** [status.Code] of a non-nil error *)
  status_Code : err -> code;
  (** [err.Error()] *)
  err_Error : err -> string;
  (** [util.StatusWrap] and [util.StatusWrapf] of a non-nil error, and what
      [util.StatusWrap] does when it is called with a nil error *)
  StatusWrap : err -> string -> err;
  StatusWrapf : err -> string -> list fmtarg -> err;
  StatusWrap_nil : string -> outcome (option err);
  (** [util.StatusWrapWithCode] *)
  StatusWrapWithCode : err -> code -> string -> err;
  (** [util.IsInfrastructureError] *)
  IsInfrastructureError : err -> bool;
}.

(** The documented behaviour the theorems rely on: wrapping prepends to the
    message and keeps the code. *)
Class ErrorsLaws (E : Errors) : Prop := {
  status_Code_Error c m : c <> OK -> status_Code (status_Error c m) = c;
  status_Code_Errorf c m l : c <> OK -> status_Code (status_Errorf c m l) = c;
  status_Code_Wrap e m : status_Code (StatusWrap e m) = status_Code e;
  status_Code_Wrapf e m l : status_Code (StatusWrapf e m l) = status_Code e;
  status_Code_WrapWithCode e c m :
    c <> OK -> status_Code (StatusWrapWithCode e c m) = c;
  IsInfrastructureError_spec e :
    IsInfrastructureError e = true <->
    status_Code e = Internal \/ status_Code e = Unavailable \/ status_Code e = Unknown;
}.

(** ** A concrete instance

    Errors as the history of how they were built; used to evaluate the
    definitions on concrete inputs and to show that the laws are satisfiable. *)

Module ErrorTree.

Inductive tree : Type :=
| Sys (name : string)
| Status (c : code) (msg : string) (args : list fmtarg)
| Wrap (e : tree) (msg : string) (args : list fmtarg)
| Recode (e : tree) (c : code) (msg : string).

#[export] Instance tree_eq_dec : EqDecision tree.
Proof. solve_decision. Defined.

Fixpoint code_of (e : tree) : code :=
  match e with
  | Sys _ => Unknown
  | Status c _ _ => c
  | Wrap e _ _ => code_of e
  | Recode _ c _ => c
  end.

Fixpoint message (e : tree) : string :=
  match e with
  | Sys n => n
  | Status _ m _ => m
  | Wrap e m _ => m +:+ ": " +:+ message e
  | Recode e _ m => m +:+ ": " +:+ message e
  end.

#[export] Instance errors : Errors := {|
  err := tree;
  EOF := Sys "EOF";
  ErrUnexpectedEOF := Sys "unexpected EOF";
  ErrShortWrite := Sys "short write";
  ErrNoProgress := Sys "no progress";
  ENOENT := Sys "no such file or directory";
  ENOTDIR := Sys "not a directory";
  status_Error c m := Status c m [];
  status_Errorf := Status;
  status_Code := code_of;
  err_Error := message;
  StatusWrap e m := Wrap e m [];
  StatusWrapf := Wrap;
  StatusWrap_nil _ := Ret None;
  StatusWrapWithCode := Recode;
  IsInfrastructureError e :=
    bool_decide (code_of e = Internal) || bool_decide (code_of e = Unavailable) ||
    bool_decide (code_of e = Unknown);
|}.

#[export] Instance errors_laws : ErrorsLaws errors.
Proof.
  split; try done. intros e; cbn. repeat case_bool_decide; cbn; intuition congruence.
Qed.

End ErrorTree.
