(* ===== verification/GoIo.v ===== *)
(** * Reading and writing: [io] and [bufio]

    Executable models of [io.ReadFull] and of [bufio.Writer], over a reader and
    a writer given as functions, with the contracts that Go's documentation
    puts on them. *)

From S2P Require Import Prelude Errors.

Section WithErrors.
Context {E : Errors}.

(** ** [io.ReaderAt] and [io.WriterAt]

    [ReadAt(p, off)] returns the bytes it stored at the start of [p] and an
    error. [WriteAt(p, off)] returns the number of bytes written and an error,
    and changes the state [F] of the file. *)

Definition ReaderAt : Type := Z -> nat -> list byte * option err.
Definition WriterAt (F : Type) : Type := list byte -> Z -> st F (nat * option err).

(** [r] reads the file contents [content]: it returns the bytes that are there
    and, as [io.ReaderAt] demands, an error when they are fewer than asked. *)
Definition reads_from (r : ReaderAt) (content : list byte) : Prop :=
  forall off n, (0 <= off)%Z ->
    (r off n).1 = take n (drop (Z.to_nat off) content) /\
    (length (r off n).1 < n -> is_Some (r off n).2).

(** The contents after the bytes [p] are stored at offset [off]; a gap reads as
    zeroes. *)
Definition pwrite (content p : list byte) (off : nat) : list byte :=
  take off (content ++ replicate (off - length content) x00) ++ p ++
  drop (off + length p) content.

(** ** [io.ReadFull] over a reader with state [R] *)

Section ReadFull.
Context {R : Type} (Read : R -> nat -> (list byte * option err) * R).

(** The loop of [io.ReadAtLeast] with [min = len(buf)]: [acc] holds the bytes
    read so far. A reader that returns neither data nor an error makes Go loop;
    the fuel cuts the loop off. *)
Fixpoint read_loop (fuel min : nat) (acc : list byte) (r : R)
  : (list byte * option err) * R :=
  if bool_decide (min <= length acc) then ((acc, None), r)
  else
    match fuel with
    | O => ((acc, Some ErrNoProgress), r)
    | S fuel' =>
        let '((data, e), r') := Read r (min - length acc) in
        match e with
        | None => read_loop fuel' min (acc ++ data) r'
        | Some _ => ((acc ++ data, e), r')
        end
    end.

Definition ReadFull (r : R) (len : nat) : (list byte * option err) * R :=
  let '((data, e), r') := read_loop len len [] r in
  if bool_decide (len <= length data) then ((data, None), r')
  else if bool_decide (0 < length data) && bool_decide (e = Some EOF)
  then ((data, Some ErrUnexpectedEOF), r')
  else ((data, e), r').

(** A read that returns an error whenever it returns fewer bytes than asked, as
    every [io.ReaderAt] does, ends the loop. *)
Lemma ReadFull_spec r n data e r' :
  length data <= n -> (length data < n -> is_Some e) ->
  0 < n -> Read r n = ((data, e), r') ->
  ReadFull r n =
    ((data, if bool_decide (length data = n) then None
            else if bool_decide (0 < length data) && bool_decide (e = Some EOF)
            then Some ErrUnexpectedEOF else e), r').
Proof using.
  intros Hlen Herr Hn Er.
  assert (read_loop n n [] r = ((data, e), r')) as Hloop.
  { destruct n as [|n]; [lia|]. cbn [read_loop app length].
    rewrite bool_decide_false, Nat.sub_0_r, Er by lia. destruct e as [e|]; [done|].
    destruct (decide (length data < S n)) as [Hlt|]; [by destruct (Herr Hlt)|].
    destruct n; cbn [read_loop]; by rewrite bool_decide_true by lia. }
  unfold ReadFull. rewrite Hloop.
  destruct (decide (length data = n)).
  - by rewrite !bool_decide_true by lia.
  - rewrite !(bool_decide_false (n <= _)), (bool_decide_false (_ = n)) by lia.
    by destruct (bool_decide (0 < length data) && _).
Qed.
End ReadFull.

(** ** [bufio.Writer] over a writer with state [F]

    [b_buf] are the buffered bytes, [b_size] the capacity of the buffer and
    [b_err] the sticky error. *)

Record bufio_Writer (F : Type) : Type := {
  b_wr : F;
  b_size : Z;
  b_buf : list byte;
  b_err : option err;
}.
Arguments b_wr {F}. Arguments b_size {F}. Arguments b_buf {F}. Arguments b_err {F}.

Section Bufio.
Context {F : Type} (Write : list byte -> st F (nat * option err)).

Definition NewWriterSize (w : F) (size : Z) : bufio_Writer F :=
  {| b_wr := w; b_size := size; b_buf := []; b_err := None |}.

Definition Available (b : bufio_Writer F) : Z := (b_size b - Z.of_nat (length (b_buf b)))%Z.

Definition Flush (b : bufio_Writer F) : option err * bufio_Writer F :=
  match b_err b with
  | Some e => (Some e, b)
  | None =>
      if bool_decide (b_buf b = []) then (None, b)
      else
        let '((n, e), w') := Write (b_buf b) (b_wr b) in
        let e := if bool_decide (n < length (b_buf b)) && bool_decide (e = None)
                 then Some ErrShortWrite else e in
        match e with
        | Some _ =>
            (e, {| b_wr := w'; b_size := b_size b; b_buf := drop n (b_buf b); b_err := e |})
        | None => (None, {| b_wr := w'; b_size := b_size b; b_buf := []; b_err := None |})
        end
  end.

Definition append_buf (b : bufio_Writer F) (p : list byte) : bufio_Writer F :=
  {| b_wr := b_wr b; b_size := b_size b; b_buf := b_buf b ++ p; b_err := b_err b |}.

(** The loop of [Writer.Write]: [nn] counts the bytes taken from the caller.
    The second iteration already finds an empty buffer, from where every write
    goes to the underlying writer directly. *)
Fixpoint write_loop (fuel : nat) (b : bufio_Writer F) (p : list byte) (nn : nat)
  : (nat * list byte) * bufio_Writer F :=
  if bool_decide (Available b < Z.of_nat (length p))%Z && bool_decide (b_err b = None) then
    match fuel with
    | O => ((nn, p), {| b_wr := b_wr b; b_size := b_size b; b_buf := b_buf b;
                        b_err := Some ErrNoProgress |})
    | S fuel' =>
        if bool_decide (b_buf b = []) then
          let '((n, e), w') := Write p (b_wr b) in
          write_loop fuel' {| b_wr := w'; b_size := b_size b; b_buf := []; b_err := e |}
            (drop n p) (nn + n)
        else
          let n := Z.to_nat (Z.min (Available b) (Z.of_nat (length p))) in
          let '(_, b') := Flush (append_buf b (take n p)) in
          write_loop fuel' b' (drop n p) (nn + n)
    end
  else ((nn, p), b).

Definition bufio_Write (b : bufio_Writer F) (p : list byte)
  : (nat * option err) * bufio_Writer F :=
  let '((nn, p), b) := write_loop (S (S (length p))) b p 0 in
  match b_err b with
  | Some e => ((nn, Some e), b)
  | None =>
      let n := Z.to_nat (Z.min (Available b) (Z.of_nat (length p))) in
      ((nn + n, None), append_buf b (take n p))
  end.

(** *** What a [bufio.Writer] promises

    [Inv w bs] says that the bytes [bs] were handed to the underlying writer,
    whose [Write] keeps the contract of [io.Writer]. *)

Context (Inv : F -> list byte -> Prop).

Definition Writer_ok : Prop :=
  forall p w bs n e w', Inv w bs -> Write p w = ((n, e), w') ->
    n <= length p /\ (e = None -> n = length p /\ Inv w' (bs ++ p)).

(** The state of a writer without errors: [bs] is everything written to it. *)
Definition holds (b : bufio_Writer F) (bs : list byte) : Prop :=
  b_err b = None /\ (Z.of_nat (length (b_buf b)) <= b_size b)%Z /\
  exists flushed, Inv (b_wr b) flushed /\ bs = flushed ++ b_buf b.

Context (HW : Writer_ok).

Lemma Flush_spec b bs e b' :
  holds b bs -> Flush b = (e, b') ->
  e = b_err b' /\ b_size b' = b_size b /\
  (e = None -> holds b' bs /\ b_buf b' = []).
Proof using HW.
  intros (He & Hsz & fl & Hinv & ->). unfold Flush. rewrite He.
  case_bool_decide as Hb.
  { intros [= <- <-]. rewrite Hb. split_and!; [done|done|]. intros _. split; [|done].
    split_and!; [done|lia|]. exists fl. by rewrite Hb. }
  destruct (Write (b_buf b) (b_wr b)) as [[n e'] w'] eqn:EW.
  destruct (HW _ _ _ _ _ _ Hinv EW) as [Hn Hok].
  destruct e' as [e'|].
  - rewrite (bool_decide_false (Some e' = None)), andb_false_r by done.
    intros [= <- <-]. done.
  - destruct (Hok eq_refl) as [-> Hinv'].
    rewrite bool_decide_false by lia. intros [= <- <-]. split_and!; [done|done|].
    intros _. split; [|done]. split_and!; cbn; [done|lia|].
    eexists; split; [done|]. by rewrite app_nil_r.
Qed.

Lemma write_loop_stop fuel b p nn :
  b_err b <> None \/ p = [] /\ (0 <= Available b)%Z -> write_loop fuel b p nn = ((nn, p), b).
Proof using.
  intros H. destruct fuel; cbn [write_loop]; destruct H as [H|[-> H]]; cbn [length].
  all: rewrite ?(bool_decide_false (b_err b = None)), ?andb_false_r by done.
  all: rewrite ?(bool_decide_false (_ < _)%Z) by (cbn; lia); done.
Qed.

Lemma write_loop_spec fuel b p nn nn' p' b' bs :
  holds b bs -> 1 <= fuel -> (b_buf b <> [] -> 2 <= fuel) ->
  write_loop fuel b p nn = ((nn', p'), b') ->
  b_size b' = b_size b /\
  (b_err b' = None ->
     nn' + length p' = nn + length p /\ (Z.of_nat (length p') <= Available b')%Z /\
  exists bs', holds b' bs' /\ bs' ++ p' = bs ++ p).
Proof using HW.
  revert b p nn bs. induction fuel as [|fuel IH]; intros b p nn bs Hb Hf Hf2; [lia|].
  pose proof Hb as (He & Hsz & fl & Hinv & Hbs). cbn [write_loop].
  rewrite (bool_decide_true (b_err b = None)), andb_true_r by done.
  destruct (bool_decide_reflect (Available b < Z.of_nat (length p))%Z) as [Hav|Hav].
  2: { intros [= <- <- <-]. split; [done|]. intros _. split_and!; [done|lia|].
       by exists bs. }
  destruct (bool_decide_reflect (b_buf b = [])) as [Hnil|Hnil].
  - destruct (Write p (b_wr b)) as [[n e] w'] eqn:EW.
    destruct (HW _ _ _ _ _ _ Hinv EW) as [Hn Hok].
    destruct e as [e|].
    { rewrite write_loop_stop by (by left). by intros [= <- <- <-]. }
    destruct (Hok eq_refl) as [-> Hinv'].
    rewrite drop_all, write_loop_stop by (right; unfold Available; cbn; split; [done|lia]). intros [= <- <- <-].
    split; [done|]. intros _. split_and!; unfold Available; cbn; [lia|lia|].
    exists (bs ++ p); split; [|by rewrite app_nil_r].
    split_and!; cbn; [done|lia|]. exists (fl ++ p). by rewrite Hbs, Hnil, !app_nil_r.
  - specialize (Hf2 Hnil). set (k := Z.to_nat (Z.min (Available b) (Z.of_nat (length p)))).
    assert (length (take k p) = k) as Hk by (rewrite length_take; lia).
    destruct (Flush _) as [e1 b1] eqn:EF.
    assert (holds (append_buf b (take k p)) (bs ++ take k p)) as Hh.
    { split_and!; cbn; [done|rewrite length_app; unfold Available in *; lia|].
      exists fl. rewrite Hbs. by rewrite app_assoc. }
    destruct (Flush_spec _ _ _ _ Hh EF) as (-> & Hs1 & Hok).
    destruct (b_err b1) as [e|] eqn:E1.
    { rewrite write_loop_stop by (left; by rewrite E1). intros [= <- <- <-].
      split; [done|]. by rewrite E1. }
    destruct (Hok eq_refl) as [Hh1 Hb1]. intros Hl.
    destruct (IH _ _ _ _ Hh1 ltac:(lia) ltac:(done) Hl) as (Hs' & Hres).
    split; [cbn in Hs1; congruence|]. intros He'. destruct (Hres He') as (Hc & Hav' & bs' & Hb' & Heq).
    split_and!; [rewrite length_drop in Hc; lia|done|]. exists bs'. split; [done|].
    by rewrite Heq, <-app_assoc, take_drop.
Qed.

(** A successful [Write] takes all of [p]; an unsuccessful one leaves the error
    behind, which makes every later [Write] and [Flush] fail. *)
Lemma bufio_Write_spec b p n e b' bs :
  holds b bs -> bufio_Write b p = ((n, e), b') ->
  e = b_err b' /\ b_size b' = b_size b /\
  (e = None -> n = length p /\ holds b' (bs ++ p)).
Proof using HW.
  intros Hb. unfold bufio_Write.
  destruct (write_loop _ _ _ _) as [[nn p'] b1] eqn:EL.
  apply write_loop_spec with (bs := bs) in EL as (Hs & Hok); [|done|lia|lia].
  destruct (b_err b1) as [e1|] eqn:E1.
  { intros [= <- <- <-]. split_and!; [congruence|done|done]. }
  destruct (Hok eq_refl) as (Hc & Hav & bs' & Hb' & Heq).
  rewrite Z.min_r, take_ge, Nat2Z.id by lia. intros [= <- <- <-].
  split_and!; [cbn; congruence|done|]. intros _. split; [lia|].
  destruct Hb' as (He' & Hsz & fl & Hinv & ->).
  split_and!; cbn; [done|rewrite length_app; unfold Available in *; lia|].
  exists fl. by rewrite <-Heq, <-app_assoc.
Qed.

Lemma NewWriterSize_holds w size : (0 <= size)%Z -> Inv w [] -> holds (NewWriterSize w size) [].
Proof using. intros ? H. split_and!; cbn; [done|lia|]. by exists []. Qed.

End Bufio.

(** What the underlying writer preserves, the buffered writer preserves, however
    many calls it makes and whether or not they fail. *)
Section Preserved.
Context {F : Type} (Write : list byte -> st F (nat * option err)) (J : F -> Prop).
Context (HJ : forall p w, J w -> J (Write p w).2).

Lemma Flush_preserves b : J (b_wr b) -> J (b_wr (Flush Write b).2).
Proof using HJ.
  intros Hb. unfold Flush. destruct (b_err b); [done|]. case_bool_decide; [done|].
  pose proof (HJ (b_buf b) _ Hb) as Hw. destruct (Write _ _) as [[n e] w'].
  by destruct (bool_decide (n < length (b_buf b)) && bool_decide (e = None)), e.
Qed.

Lemma write_loop_preserves fuel b p nn :
  J (b_wr b) -> J (b_wr (write_loop Write fuel b p nn).2).
Proof using HJ.
  revert b p nn. induction fuel as [|fuel IH]; intros b p nn Hb; cbn [write_loop];
    (destruct (bool_decide _ && bool_decide _); [|done]); [done|]. case_bool_decide.
  - pose proof (HJ p _ Hb) as Hw. destruct (Write _ _) as [[n e] w']. by apply IH.
  - pose proof (Flush_preserves (append_buf b
      (take (Z.to_nat (Z.min (Available b) (Z.of_nat (length p)))) p)) Hb) as Hf.
    destruct (Flush _ _) as [e b']. by apply IH.
Qed.

Lemma bufio_Write_preserves b p : J (b_wr b) -> J (b_wr (bufio_Write Write b p).2).
Proof using HJ.
  intros Hb. unfold bufio_Write. pose proof (write_loop_preserves (S (S (length p))) b p 0 Hb) as Hw.
  destruct (write_loop _ _ _ _ _) as [[nn p'] b']. by destruct (b_err b').
Qed.
End Preserved.

(** What calls that succeed preserve holds for as long as the buffered writer has
    not run into an error, as it keeps the first one. *)
Section Clean.
Context {F : Type} (Write : list byte -> st F (nat * option err)) (J : F -> Prop).
Context (HJ : forall p w, J w -> (Write p w).1.2 = None -> J (Write p w).2).

Definition clean (b : bufio_Writer F) : Prop := b_err b = None -> J (b_wr b).

Lemma Flush_error b : (Flush Write b).1 = b_err (Flush Write b).2.
Proof using.
  unfold Flush. destruct (b_err b) as [e|] eqn:Hb; [done|]. case_bool_decide; [done|].
  destruct (Write _ _) as [[n e] w']. by destruct (bool_decide (n < length (b_buf b)) && bool_decide (e = None)), e.
Qed.

Lemma Flush_clean b : clean b -> clean (Flush Write b).2.
Proof using HJ.
  unfold clean, Flush. intros Hb. destruct (b_err b) as [e|] eqn:He; cbn [snd]; [congruence|].
  case_bool_decide; cbn [snd]; [by intros _; apply Hb|]. pose proof (HJ (b_buf b) _ (Hb eq_refl)) as Hw.
  destruct (Write _ _) as [[n [e|]] w']; [by rewrite andb_false_r|].
  destruct (bool_decide (n < length (b_buf b))); [done|]. intros _. by apply Hw.
Qed.

Lemma write_loop_clean fuel b p nn : clean b -> clean (write_loop Write fuel b p nn).2.
Proof using HJ.
  revert b p nn. induction fuel as [|fuel IH]; intros b p nn Hb; cbn [write_loop];
    (destruct (bool_decide (Available b < _)%Z && bool_decide _) eqn:Hc; [|done]); [done|].
  apply andb_true_iff in Hc as [_ He%bool_decide_eq_true].
  case_bool_decide.
  - pose proof (HJ p _ (Hb He)) as Hw. destruct (Write _ _) as [[n e] w']. apply IH.
    unfold clean. cbn. by intros ->; apply Hw.
  - pose proof (Flush_clean (append_buf b
      (take (Z.to_nat (Z.min (Available b) (Z.of_nat (length p)))) p)) Hb) as Hf.
    destruct (Flush _ _) as [e b']. by apply IH.
Qed.

Lemma bufio_Write_clean b p : clean b -> clean (bufio_Write Write b p).2.
Proof using HJ.
  intros Hb. unfold bufio_Write. pose proof (write_loop_clean (S (S (length p))) b p 0 Hb) as Hw.
  destruct (write_loop _ _ _ _ _) as [[nn p'] b']. by destruct (b_err b').
Qed.
End Clean.

End WithErrors.

Arguments b_wr {E F}. Arguments b_size {E F}. Arguments b_buf {E F}. Arguments b_err {E F}.
