(* ===== verification/StateFile.v ===== *)
(** * Output path state files

    [pkg/outputpathpersistency/header.go], [file_writer.go] and
    [file_reader.go]: the file format in which the contents of an output path
    are kept, its writer and its reader. *)

From S2P Require Import Prelude GoLib Errors GoIo.
Import Binary.
Local Open Scope Z_scope.

(** ** The messages

    The fields of the Protobuf messages of bb-remote-execution's
    [outputpathpersistency] package and of the REv2 [Digest]. *)

Record ProtoDigest : Type := { hash : string; size_bytes : Z }.
Record Timestamp : Type := { seconds : Z; nanos : Z }.
Record FileRegion : Type := { OffsetBytes : Z; SizeBytes : Z }.
Record FileNode : Type :=
  { fn_Name : string; fn_Digest : option ProtoDigest; fn_IsExecutable : bool }.
Record DirectoryNode : Type := { dn_Name : string; dn_FileRegion : option FileRegion }.
Record SymlinkNode : Type := { sn_Name : string; sn_Target : string }.
Record Directory : Type := {
  Files : list FileNode;
  Directories : list DirectoryNode;
  Symlinks : list SymlinkNode;
}.
Record RootDirectory : Type := {
  InitialCreationTime : option Timestamp;
  Contents : option Directory;
}.

Definition empty_Directory : Directory :=
  {| Files := []; Directories := []; Symlinks := [] |}.
Definition empty_RootDirectory : RootDirectory :=
  {| InitialCreationTime := None; Contents := None |}.

#[export] Instance Timestamp_eq_dec : EqDecision Timestamp.
Proof. solve_decision. Defined.
#[export] Instance FileRegion_eq_dec : EqDecision FileRegion.
Proof. solve_decision. Defined.
#[export] Instance Directory_eq_dec : EqDecision Directory.
Proof.
  assert (EqDecision ProtoDigest) by solve_decision.
  assert (EqDecision FileNode) by solve_decision.
  assert (EqDecision DirectoryNode) by solve_decision.
  assert (EqDecision SymlinkNode) by solve_decision.
  solve_decision.
Defined.

(** [proto.Marshal] and [proto.Unmarshal] of one message type. *)
Class ProtoCodec {E : Errors} (M : Type) : Type := {
  Marshal : M -> res err (list byte);
  Unmarshal : list byte -> res err M;
}.

(** Parsing undoes serialising; a message without any field set is
    serialised to no bytes at all, and no other message is. *)
Class ProtoLaws {E : Errors} (M : Type) {C : ProtoCodec M} (zero : M) : Prop := {
  Unmarshal_Marshal m bs : Marshal m = Ok bs -> Unmarshal bs = Ok m;
  Unmarshal_nil : Unmarshal [] = Ok zero;
}.

(** ** [header.go] *)

Definition headerSizeBytes : Z := 4 + 8 + 4.
Definition headerMagic : list byte := [xfa; x12; xa4; xa5].

Section StateFile.
Context {E : Errors} {CD : ProtoCodec Directory} {CR : ProtoCodec RootDirectory}.

(** ** [file_writer.go]

    [F] is the state of the file that is written to. The file is shared between
    the [offsetWriter] at the bottom of the buffered writer and the
    [rawWriter] through which [Finalize] stores the header, so that the model
    keeps it in one place, the [offsetWriter]. *)

Section Writer.
Context {F : Type} (WriteAt : WriterAt F).

Record offsetWriter : Type := { ow_w : F; ow_offsetBytes : Z }.

Definition offsetWriter_Write (p : list byte) : st offsetWriter (nat * option err) := fun w =>
  let '((n, e), f) := WriteAt p (ow_offsetBytes w) (ow_w w) in
  ((n, e), {| ow_w := f; ow_offsetBytes := i64 (ow_offsetBytes w + Z.of_nat n) |}).

Record fileWriter : Type := {
  bufferedWriter : bufio_Writer offsetWriter;
  offsetBytes : Z;
}.

Definition bufferSizeBytes : Z := 1024 * 1024.

Definition NewFileWriter (rawWriter : F) : fileWriter := {|
  bufferedWriter :=
    NewWriterSize {| ow_w := rawWriter; ow_offsetBytes := headerSizeBytes |} bufferSizeBytes;
  offsetBytes := headerSizeBytes;
|}.

Definition writeMessage {M : Type} {C : ProtoCodec M} (m : M)
  : st fileWriter (res err (option FileRegion)) := fun w =>
  match Marshal m with
  | Err e => (Err (status_Error InvalidArgument (err_Error e)), w)
  | Ok data =>
      if bool_decide (length data = 0%nat) then (Ok None, w)
      else
        let offset := offsetBytes w in
        let '((n, e), bw) := bufio_Write offsetWriter_Write (bufferedWriter w) data in
        let w' := {| bufferedWriter := bw; offsetBytes := i64 (offsetBytes w + Z.of_nat n) |} in
        match e with
        | Some e => (Err e, w')
        | None =>
            (Ok (Some {| OffsetBytes := offset; SizeBytes := i32 (Z.of_nat (length data)) |}), w')
        end
  end.

Definition WriteDirectory (directory : Directory) : st fileWriter (res err (option FileRegion)) :=
  writeMessage directory.

(** The header: the magic, and the position of the root directory. A nil
    region reads as zeroes. *)
Definition header (r : option FileRegion) : list byte :=
  headerMagic ++
  PutUint64 (u64 (from_option OffsetBytes 0 r)) ++
  PutUint32 (u32 (from_option SizeBytes 0 r)).

Definition set_bufferedWriter (w : fileWriter) (b : bufio_Writer offsetWriter) : fileWriter :=
  {| bufferedWriter := b; offsetBytes := offsetBytes w |}.

Definition Finalize (rootDirectory : RootDirectory) : st fileWriter (option err) := fun w =>
  let '(r, w) := writeMessage rootDirectory w in
  match r with
  | Err e => (Some e, w)
  | Ok fileRegion =>
      let '(e, b) := Flush offsetWriter_Write (bufferedWriter w) in
      let w := set_bufferedWriter w b in
      match e with
      | Some e => (Some e, w)
      | None =>
          let '((_, e), f) := WriteAt (header fileRegion) 0 (ow_w (b_wr b)) in
          let ow := {| ow_w := f; ow_offsetBytes := ow_offsetBytes (b_wr b) |} in
          (e, set_bufferedWriter w
                {| b_wr := ow; b_size := b_size b; b_buf := b_buf b; b_err := b_err b |})
      end
  end.

(** The file behind a writer. *)
Definition rawWriter (w : fileWriter) : F := ow_w (b_wr (bufferedWriter w)).
End Writer.

(** ** [file_reader.go] *)

Record offsetReader : Type := { or_r : ReaderAt; or_offset : Z }.

Definition offsetReader_Read (r : offsetReader) (len : nat)
  : (list byte * option err) * offsetReader :=
  let '(data, e) := or_r r (or_offset r) len in
  ((data, e), {| or_r := or_r r; or_offset := i64 (or_offset r + Z.of_nat (length data)) |}).

Record fileReader : Type := { rawReader : ReaderAt; maximumOffsetBytes : Z }.

Definition readMessage {M : Type} {C : ProtoCodec M} (r : fileReader)
    (offsetBytes sizeBytes : Z) : res err (fileReader * M) :=
  let endBytes := i64 (offsetBytes + sizeBytes) in
  if bool_decide (offsetBytes < headerSizeBytes)
     || bool_decide (maximumOffsetBytes r < offsetBytes)
     || bool_decide (sizeBytes <= 0)
     || bool_decide (maximumOffsetBytes r < endBytes)
  then Err (status_Errorf InvalidArgument
         "Message at offset [%d, %d) does not lie in permitted range [%d, %d)"
         [FInt offsetBytes; FInt endBytes; FInt headerSizeBytes; FInt (maximumOffsetBytes r)])
  else
    let '((data, e), _) :=
      ReadFull offsetReader_Read {| or_r := rawReader r; or_offset := offsetBytes |}
        (Z.to_nat sizeBytes) in
    match e with
    | Some e => Err e
    | None =>
        match Unmarshal data with
        | Err e => Err (status_Error InvalidArgument (err_Error e))
        | Ok m => Ok ({| rawReader := rawReader r; maximumOffsetBytes := offsetBytes |}, m)
        end
    end.

Definition NewFileReader (rawReader : ReaderAt) (maximumStateFileSizeBytes : Z)
  : res err (fileReader * RootDirectory) :=
  let '((hdr, e), _) :=
    ReadFull offsetReader_Read {| or_r := rawReader; or_offset := 0 |}
      (Z.to_nat headerSizeBytes) in
  match e with
  | Some e => Err (StatusWrap e "Failed to read header")
  | None =>
      if negb (bool_decide (take 4 hdr = headerMagic))
      then Err (status_Error InvalidArgument "Header contains invalid magic")
      else
        let r := {| rawReader := rawReader; maximumOffsetBytes := maximumStateFileSizeBytes |} in
        match readMessage r (i64 (Uint64 (drop 4 hdr))) (i32 (Uint32 (drop (4 + 8) hdr))) with
        | Err e => Err (StatusWrap e "Failed to read root directory")
        | Ok x => Ok x
        end
  end.

(** The reader that is returned along with an empty subdirectory has a nil
    [rawReader]: [nil_reader] is what a call on it would do. No reader with a
    maximum offset of zero is ever called. *)
Definition ReadDirectory (nil_reader : ReaderAt) (r : fileReader)
    (fileRegion : option FileRegion) : res err (fileReader * Directory) :=
  match fileRegion with
  | None => Ok ({| rawReader := nil_reader; maximumOffsetBytes := 0 |}, empty_Directory)
  | Some region => readMessage r (OffsetBytes region) (SizeBytes region)
  end.

End StateFile.

(** ** Writing *)

Section WriterProofs.
Context {E : Errors} {CD : ProtoCodec Directory} {CR : ProtoCodec RootDirectory}.
Context {F : Type} (WriteAt : WriterAt F) (bytes_of : F -> list byte).

(** [io.WriterAt]: a write that returns no error stored all of [p] at [off]. *)
Definition WriterAt_ok : Prop :=
  forall p off f n e f', WriteAt p off f = ((n, e), f') ->
    (n <= length p)%nat /\
    (e = None ->
     n = length p /\ (0 <= off -> bytes_of f' = pwrite (bytes_of f) p (Z.to_nat off))).

Context (HWA : WriterAt_ok).

(** The state of the [offsetWriter] after the bytes [bs] went through it: the
    file holds them behind the space left for the header. *)
Definition ow_inv (w : offsetWriter) (bs : list byte) : Prop :=
  headerSizeBytes + Z.of_nat (length bs) < 2 ^ 63 ->
  ow_offsetBytes w = headerSizeBytes + Z.of_nat (length bs) /\
  (bytes_of (ow_w w) = replicate 16 x00 ++ bs \/ bs = [] /\ bytes_of (ow_w w) = []).

Lemma pwrite_append content p : pwrite content p (length content) = content ++ p.
Proof using.
  unfold pwrite. rewrite Nat.sub_diag, app_nil_r, firstn_all, drop_ge by lia.
  by rewrite app_nil_r.
Qed.

Lemma pwrite_prefix h0 h rest :
  length h0 = length h -> pwrite (h0 ++ rest) h 0 = h ++ rest.
Proof using.
  intros Hl. unfold pwrite. cbn. by rewrite <-Hl, drop_app_length.
Qed.

Lemma offsetWriter_ok : Writer_ok (offsetWriter_Write WriteAt) ow_inv.
Proof using HWA.
  intros p w bs n e w' Hinv. unfold offsetWriter_Write.
  destruct (WriteAt _ _ _) as [[n' e'] f'] eqn:EW. intros [= <- <- <-].
  destruct (HWA _ _ _ _ _ _ EW) as [Hn Hok]. split; [done|]. intros ->.
  destruct (Hok eq_refl) as [-> Hbytes]. split; [done|].
  unfold ow_inv in *. rewrite length_app. cbn [ow_w ow_offsetBytes]. intros Hb.
  destruct Hinv as [Hoff Hc]; [lia|]. rewrite Hoff in *. unfold headerSizeBytes in *.
  split; [rewrite i64_id by lia; lia|]. left. rewrite Hbytes by lia.
  destruct Hc as [-> | [-> ->]]; [|unfold pwrite; cbn; by rewrite drop_nil, app_nil_r].
  rewrite (app_assoc _ bs p), <-(pwrite_append (replicate 16 x00 ++ bs) p). f_equal.
  change (length (replicate 16 x00 ++ bs)) with (16 + length bs)%nat. lia.
Qed.

(** [fw_inv w bs]: no error occurred so far and [bs] is the concatenation of
    the messages written. *)
Definition fw_inv (w : fileWriter) (bs : list byte) : Prop :=
  holds ow_inv (bufferedWriter w) bs /\
  offsetBytes w = i64 (headerSizeBytes + Z.of_nat (length bs)).

Lemma NewFileWriter_inv f : bytes_of f = [] -> fw_inv (NewFileWriter f) [].
Proof using.
  intros Hf. split; [|done]. apply NewWriterSize_holds; [done|]. intros _. cbn. split; [done|by right].
Qed.

Definition region_at (off : nat) (data : list byte) : option FileRegion :=
  if bool_decide (length data = 0%nat) then None
  else Some {| OffsetBytes := i64 (headerSizeBytes + Z.of_nat off);
               SizeBytes := i32 (Z.of_nat (length data)) |}.

Lemma writeMessage_spec {M} {C : ProtoCodec M} (m : M) w bs r w' :
  fw_inv w bs -> writeMessage WriteAt m w = (Ok r, w') ->
  exists data, Marshal m = Ok data /\ r = region_at (length bs) data /\ fw_inv w' (bs ++ data).
Proof using HWA.
  intros [Hb Hoff]. unfold writeMessage, region_at.
  destruct (Marshal m) as [data|]; [|done]. case_bool_decide as Hnil.
  { intros [= <- <-]. exists data. rewrite bool_decide_true by done. split_and!; [done|done|].
    apply length_zero_iff_nil in Hnil as ->. by rewrite app_nil_r. }
  destruct (bufio_Write _ _ _) as [[n e] b'] eqn:EB.
  destruct (bufio_Write_spec _ _ offsetWriter_ok _ _ _ _ _ _ Hb EB) as (_ & _ & Hok).
  destruct e; [done|]. destruct (Hok eq_refl) as [-> Hb']. intros [= <- <-].
  exists data. rewrite bool_decide_false by done. split_and!; [done|by rewrite Hoff|].
  split; [done|]. cbn. rewrite Hoff, i64_add_l, length_app. f_equal. lia.
Qed.

(** A successful [Finalize] leaves the header and all messages in the file. *)
Lemma Finalize_spec root w bs w' :
  fw_inv w bs -> Finalize WriteAt root w = (None, w') ->
  exists data, Marshal root = Ok data /\
    (headerSizeBytes + Z.of_nat (length (bs ++ data)) < 2 ^ 63 ->
     bytes_of (rawWriter w') = header (region_at (length bs) data) ++ bs ++ data).
Proof using HWA.
  intros Hw. unfold Finalize.
  destruct (writeMessage _ _ _) as [[r|] w1] eqn:EM; [|done].
  destruct (writeMessage_spec _ _ _ _ _ Hw EM) as (data & Hm & -> & Hb & _).
  destruct (Flush _ _) as [e b] eqn:EF.
  destruct (Flush_spec _ _ offsetWriter_ok _ _ _ _ Hb EF) as (_ & _ & Hok).
  destruct e; [done|]. destruct (Hok eq_refl) as [(_ & _ & fl & Hinv & Heq) Hnil].
  destruct (WriteAt _ _ _) as [[n e] f] eqn:EW. intros [= -> <-].
  exists data. split; [done|]. intros Hlen. unfold rawWriter. cbn.
  destruct (HWA _ _ _ _ _ _ EW) as [_ Hpw]. destruct (Hpw eq_refl) as [_ ->]; [|done].
  rewrite Hnil, app_nil_r in Heq. subst fl. destruct (Hinv Hlen) as [_ [-> | [Hbs ->]]].
  - by apply pwrite_prefix.
  - by rewrite Hbs.
Qed.

(** The directories [ds] written one after the other. *)
Fixpoint write_directories (ds : list Directory) (w : fileWriter)
  : res err (list (option FileRegion)) * fileWriter :=
  match ds with
  | [] => (Ok [], w)
  | d :: ds =>
      let '(r, w) := WriteDirectory WriteAt d w in
      match r with
      | Err e => (Err e, w)
      | Ok r =>
          let '(rs, w) := write_directories ds w in
          match rs with Err e => (Err e, w) | Ok rs => (Ok (r :: rs), w) end
      end
  end.
End WriterProofs.

(** Whatever the calls to [WriteAt] preserve, the writer preserves. *)
Section Preserved.
Context {E : Errors} {CD : ProtoCodec Directory} {CR : ProtoCodec RootDirectory}.
Context {F : Type} (WriteAt : WriterAt F) (J : F -> Prop).
Context (HJ : forall p off f, J f -> J (WriteAt p off f).2).

Lemma offsetWriter_Write_preserves p w : J (ow_w w) -> J (ow_w (offsetWriter_Write WriteAt p w).2).
Proof using HJ.
  intros Hw. unfold offsetWriter_Write. pose proof (HJ p (ow_offsetBytes w) _ Hw) as H.
  by destruct (WriteAt _ _ _) as [[n e] f].
Qed.

Lemma writeMessage_preserves {M} {C : ProtoCodec M} (m : M) w :
  J (rawWriter w) -> J (rawWriter (writeMessage WriteAt m w).2).
Proof using HJ.
  intros Hw. unfold writeMessage. destruct (Marshal m) as [data|]; [|done].
  case_bool_decide; [done|].
  pose proof (bufio_Write_preserves _ _ offsetWriter_Write_preserves (bufferedWriter w) data Hw) as Hb.
  destruct (bufio_Write _ _ _) as [[n e] bw]. by destruct e.
Qed.

Lemma Finalize_preserves root w : J (rawWriter w) -> J (rawWriter (Finalize WriteAt root w).2).
Proof using HJ.
  intros Hw. unfold Finalize. pose proof (writeMessage_preserves root w Hw) as Hm.
  destruct (writeMessage _ _ _) as [[r|e] w1]; [|done].
  pose proof (Flush_preserves _ _ offsetWriter_Write_preserves (bufferedWriter w1) Hm) as Hf.
  destruct (Flush _ _) as [[e|] b]; [done|].
  pose proof (HJ (header r) 0 _ Hf) as Hh. cbn [bufferedWriter set_bufferedWriter] in *.
  by destruct (WriteAt _ _ _) as [[n e] f].
Qed.
End Preserved.

(** What the calls to [WriteAt] that succeed preserve holds once the file was
    finalized: an error of any call, also of those made earlier for directories,
    makes [Finalize] fail. *)
Section Clean.
Context {E : Errors} {CD : ProtoCodec Directory} {CR : ProtoCodec RootDirectory}.
Context {F : Type} (WriteAt : WriterAt F) (J : F -> Prop).
Context (HJ : forall p off f, J f -> (WriteAt p off f).1.2 = None -> J (WriteAt p off f).2).

Definition clean_writer (w : fileWriter (F := F)) : Prop := clean (fun ow => J (ow_w ow)) (bufferedWriter w).

Lemma offsetWriter_Write_clean p w :
  J (ow_w w) -> (offsetWriter_Write WriteAt p w).1.2 = None -> J (ow_w (offsetWriter_Write WriteAt p w).2).
Proof using HJ.
  intros Hw. unfold offsetWriter_Write. pose proof (HJ p (ow_offsetBytes w) _ Hw) as H.
  by destruct (WriteAt _ _ _) as [[n e] f].
Qed.

Lemma writeMessage_clean {M} {C : ProtoCodec M} (m : M) w :
  clean_writer w -> clean_writer (writeMessage WriteAt m w).2.
Proof using HJ.
  intros Hw. unfold writeMessage. destruct (Marshal m) as [data|]; [|done].
  case_bool_decide; [done|].
  pose proof (bufio_Write_clean _ _ offsetWriter_Write_clean (bufferedWriter w) data Hw) as Hb.
  destruct (bufio_Write _ _ _) as [[n e] bw]. by destruct e.
Qed.

Lemma Finalize_clean root w :
  clean_writer w -> (Finalize WriteAt root w).1 = None -> J (rawWriter (Finalize WriteAt root w).2).
Proof using HJ.
  intros Hw. unfold Finalize. pose proof (writeMessage_clean root w Hw) as Hm.
  destruct (writeMessage _ _ _) as [[r|e] w1]; [|done].
  pose proof (Flush_clean _ _ offsetWriter_Write_clean (bufferedWriter w1) Hm) as Hf.
  pose proof (Flush_error (offsetWriter_Write WriteAt) (bufferedWriter w1)) as He.
  destruct (Flush _ _) as [[e|] b]; [done|]. cbn [fst snd] in He, Hf. symmetry in He.
  pose proof (HJ (header r) 0 _ (Hf He)) as Hh. cbn [bufferedWriter set_bufferedWriter] in *.
  by destruct (WriteAt _ _ _) as [[n e] f].
Qed.
End Clean.

(** ** Reading *)

Section ReaderProofs.
Context {E : Errors} {CD : ProtoCodec Directory} {CR : ProtoCodec RootDirectory}.
Context (nil_reader : ReaderAt).

(** The result of [io.ReadFull] on a file. *)
Lemma ReadFull_file r content off n :
  reads_from r content -> 0 <= off -> (0 < n)%nat ->
  (Z.to_nat off + n <= length content)%nat ->
  (ReadFull offsetReader_Read {| or_r := r; or_offset := off |} n).1 =
    (take n (drop (Z.to_nat off) content), None).
Proof using.
  intros Hr Hoff Hn Hlen. destruct (Hr off n Hoff) as [Hdata Herr].
  destruct (offsetReader_Read {| or_r := r; or_offset := off |} n) as [[data e] r'] eqn:ER.
  pose proof ER as ER'. unfold offsetReader_Read in ER'. cbn in ER'.
  destruct (r off n) as [data' e'] eqn:Ero. cbn in Hdata, Herr. injection ER' as -> -> _.
  assert (length data = n) as Hl by (rewrite Hdata, length_take, length_drop; lia).
  rewrite (ReadFull_spec _ _ n data e r'); [|lia|done|done|done].
  rewrite bool_decide_true by done. cbn. by rewrite Hdata.
Qed.

Lemma readMessage_ok {M} {C : ProtoCodec M} (zero m : M) (L : ProtoLaws M zero) r pre data post :
  reads_from (rawReader r) (pre ++ data ++ post) ->
  headerSizeBytes <= Z.of_nat (length pre) -> data <> [] ->
  Z.of_nat (length pre + length data) <= maximumOffsetBytes r < 2 ^ 63 ->
  Marshal m = Ok data ->
  readMessage r (Z.of_nat (length pre)) (Z.of_nat (length data)) =
    Ok ({| rawReader := rawReader r; maximumOffsetBytes := Z.of_nat (length pre) |}, m).
Proof using.
  intros Hr Hh Hd Hmax Hm. unfold readMessage.
  assert (0 < length data)%nat by (destruct data; [done|cbn; lia]).
  rewrite i64_id by (unfold headerSizeBytes in *; lia).
  rewrite !bool_decide_false by lia. cbn [orb].
  pose proof (ReadFull_file _ _ (Z.of_nat (length pre)) (length data) Hr
    ltac:(lia) ltac:(lia) ltac:(rewrite !length_app; lia)) as HR.
  rewrite Nat2Z.id, drop_app_length, take_app_length in HR. rewrite Nat2Z.id.
  destruct (ReadFull _ _ _) as [[x e] ?]. cbn in HR. simplify_eq/=.
  by rewrite (Unmarshal_Marshal m data Hm).
Qed.

(** [stored bs limit reg d]: the message area [bs] of a file holds [d] in the
    region [reg], which ends at or before the offset [limit]. *)
Definition stored {M} {C : ProtoCodec M} (bs : list byte) (limit : Z)
    (reg : option FileRegion) (m : M) : Prop :=
  match reg with
  | None => Marshal m = Ok []
  | Some g => exists pre data post,
      bs = pre ++ data ++ post /\ Marshal m = Ok data /\ data <> [] /\
      OffsetBytes g = headerSizeBytes + Z.of_nat (length pre) /\
      SizeBytes g = Z.of_nat (length data) /\ OffsetBytes g + SizeBytes g <= limit
  end.

Lemma stored_app {M} {C : ProtoCodec M} bs x limit limit' reg (m : M) :
  limit <= limit' -> stored bs limit reg m -> stored (bs ++ x) limit' reg m.
Proof using.
  intros Hl. destruct reg as [g|]; [|done].
  intros (pre & data & post & -> & Hm & Hd & Ho & Hs & Hlim).
  exists pre, data, (post ++ x). rewrite <-!app_assoc. split_and!; try done. lia.
Qed.

Lemma region_at_stored {M} {C : ProtoCodec M} (m : M) bs data :
  Marshal m = Ok data -> Z.of_nat (length data) < 2 ^ 31 ->
  headerSizeBytes + Z.of_nat (length (bs ++ data)) < 2 ^ 63 ->
  stored (bs ++ data) (headerSizeBytes + Z.of_nat (length (bs ++ data)))
    (region_at (length bs) data) m.
Proof using.
  intros Hm Hsz Hlen. rewrite length_app in *. unfold region_at, stored.
  case_bool_decide as Hnil; [by apply length_zero_iff_nil in Hnil as ->|].
  exists bs, data, []. rewrite app_nil_r. cbn [OffsetBytes SizeBytes].
  unfold headerSizeBytes in *. rewrite i64_id, i32_id by lia.
  split_and!; try done; [by intros -> |lia].
Qed.

(** A stored message is read back by every reader of the file that may look
    that far. *)
Lemma readMessage_stored {M} {C : ProtoCodec M} (zero m : M) (L : ProtoLaws M zero) hdr r bs limit g :
  length hdr = 16%nat -> reads_from (rawReader r) (hdr ++ bs) ->
  stored bs limit (Some g) m -> limit <= maximumOffsetBytes r < 2 ^ 63 ->
  readMessage r (OffsetBytes g) (SizeBytes g) =
    Ok ({| rawReader := rawReader r; maximumOffsetBytes := OffsetBytes g |}, m).
Proof using.
  intros Hh Hr (pre & data & post & -> & Hm & Hd & Ho & -> & Hlim) Hmax.
  assert (OffsetBytes g = Z.of_nat (length (hdr ++ pre))) as Hoff.
  { rewrite length_app, Hh, Ho. unfold headerSizeBytes. lia. }
  rewrite Hoff in *. apply readMessage_ok with (zero := zero) (post := post);
    [done|by rewrite <-app_assoc|unfold headerSizeBytes; rewrite length_app; lia|done|lia|done].
Qed.

Lemma ReadDirectory_stored zero (L : ProtoLaws Directory zero) hdr r bs limit reg (d : Directory) :
  length hdr = 16%nat -> reads_from (rawReader r) (hdr ++ bs) -> zero = empty_Directory ->
  stored bs limit reg d -> limit <= maximumOffsetBytes r < 2 ^ 63 ->
  exists r', ReadDirectory nil_reader r reg = Ok (r', d) /\
    forall g, reg = Some g ->
      r' = {| rawReader := rawReader r; maximumOffsetBytes := OffsetBytes g |}.
Proof using.
  intros Hh Hr Hz Hst Hmax. destruct reg as [g|]; cbn.
  - erewrite readMessage_stored by done. eexists; split; [done|]. by intros ? [= ->].
  - apply (Unmarshal_Marshal (zero := zero)) in Hst. rewrite Unmarshal_nil in Hst.
    simplify_eq. by eexists.
Qed.

(** The header leads to the root directory. *)
Lemma NewFileReader_stored zero (L : ProtoLaws RootDirectory zero) r max bs root g :
  reads_from r (header (Some g) ++ bs) -> stored bs max (Some g) root ->
  max < 2 ^ 63 -> SizeBytes g < 2 ^ 31 ->
  NewFileReader r max =
    Ok ({| rawReader := r; maximumOffsetBytes := OffsetBytes g |}, root).
Proof using.
  intros Hr Hst Hmax Hsz. unfold NewFileReader.
  assert (length (header (Some g)) = 16%nat) as Hlen by done.
  pose proof (ReadFull_file r _ 0 16 Hr ltac:(lia) ltac:(lia)
    ltac:(rewrite length_app, Hlen; lia)) as HR.
  change (Z.to_nat headerSizeBytes) with 16%nat.
  destruct (ReadFull _ _ _) as [[x e] ?]. cbn [fst Z.to_nat drop] in HR. simplify_eq.
  change (drop (Z.to_nat 0) ?x) with x. rewrite take_app_length' by done.
  unfold header. cbn [from_option].
  rewrite take_app_length' by done. rewrite bool_decide_true by done. cbn [negb].
  rewrite drop_app_length' by done. rewrite (app_assoc headerMagic).
  rewrite drop_app_length' by done.
  rewrite Uint64_PutUint64, <-(app_nil_r (PutUint32 _)), Uint32_PutUint32.
  pose proof Hst as (pre & data & post & Hbs & _ & _ & Ho & Hs & Hlim).
  fold (u64 (u64 (OffsetBytes g))) (u32 (u32 (SizeBytes g))).
  rewrite (u64_id (u64 _)), (u32_id (u32 _)) by (try apply u64_range; apply Z.mod_pos_bound; lia).
  unfold headerSizeBytes in *. rewrite i64_u64, i32_u32 by lia.
  by erewrite readMessage_stored by (done || (cbn; lia)).
Qed.

(** *** Bounds *)

Lemma readMessage_unmarshals {M} {C : ProtoCodec M} r off sz r' (m : M) :
  readMessage r off sz = Ok (r', m) -> exists bs, Unmarshal bs = Ok m.
Proof using.
  unfold readMessage. destruct (_ || _); [done|].
  destruct (ReadFull _ _ _) as [[data e] ?]. destruct e; [done|].
  destruct (Unmarshal data) eqn:Hu; [|done]. intros [= _ <-]. by exists data.
Qed.

(** What [readMessage] accepts. *)
Lemma readMessage_accepts {M} {C : ProtoCodec M} r off sz r' (m : M) :
  readMessage r off sz = Ok (r', m) ->
  headerSizeBytes <= off <= maximumOffsetBytes r /\ 0 < sz /\
  i64 (off + sz) <= maximumOffsetBytes r /\
  r' = {| rawReader := rawReader r; maximumOffsetBytes := off |}.
Proof using.
  unfold readMessage. repeat (case_bool_decide; cbn [orb]; [done|]).
  destruct (ReadFull _ _ _) as [[data e] ?]. destruct e; [done|].
  destruct (Unmarshal data); [|done]. intros [= <- <-]. split_and!; try lia. done.
Qed.

End ReaderProofs.

(** ** Correctness of the format *)

Section RoundTrip.
Context {E : Errors} {CD : ProtoCodec Directory} {CR : ProtoCodec RootDirectory}.
Context {F : Type} (WriteAt : WriterAt F) (bytes_of : F -> list byte).
Context (nil_reader : ReaderAt).

Definition message_size {M} {C : ProtoCodec M} (m : M) : nat :=
  match Marshal m with Ok data => length data | Err _ => 0 end.

(** Every message is smaller than 2 GiB and the file no larger than [max]. *)
Definition fits (ds : list Directory) (root : RootDirectory) (max : Z) : Prop :=
  Forall (fun d => Z.of_nat (message_size d) < 2 ^ 31) ds /\
  Z.of_nat (message_size root) < 2 ^ 31 /\
  headerSizeBytes + Z.of_nat (sum_list_with message_size ds + message_size root) <= max < 2 ^ 63.

Lemma region_at_offset off data g :
  region_at off data = Some g -> headerSizeBytes + Z.of_nat off < 2 ^ 63 ->
  OffsetBytes g = headerSizeBytes + Z.of_nat off.
Proof using.
  unfold region_at. case_bool_decide; [done|]. intros [= <-] Hb. cbn.
  unfold headerSizeBytes in *. rewrite i64_id; lia.
Qed.

Lemma write_directories_spec (HWA : WriterAt_ok WriteAt bytes_of) ds w w' rs bs :
  fw_inv bytes_of w bs -> write_directories WriteAt ds w = (Ok rs, w') ->
  Forall (fun d => Z.of_nat (message_size d) < 2 ^ 31) ds ->
  headerSizeBytes + Z.of_nat (length bs + sum_list_with message_size ds) < 2 ^ 63 ->
  exists bs', fw_inv bytes_of w' (bs ++ bs') /\ length bs' = sum_list_with message_size ds /\
    Forall2 (stored (bs ++ bs') (headerSizeBytes + Z.of_nat (length (bs ++ bs')))) rs ds /\
    (forall j g, rs !! j = Some (Some g) ->
       headerSizeBytes + Z.of_nat (length bs) <= OffsetBytes g /\
       forall i reg d, (i < j)%nat -> rs !! i = Some reg -> ds !! i = Some d ->
         stored (bs ++ bs') (OffsetBytes g) reg d).
Proof using.
  intros Hw Hrun Hsz. revert w rs bs Hw Hrun.
  induction Hsz as [|d ds Hd Hds IH]; intros w rs bs Hw Hrun Htot; cbn in Hrun.
  { injection Hrun as <- <-. exists []. rewrite app_nil_r. done. }
  unfold WriteDirectory in Hrun. destruct (writeMessage _ _ _) as [[r|] w1] eqn:EM; [|done].
  destruct (writeMessage_spec _ _ HWA _ _ _ _ _ Hw EM) as (data & Hm & Hr & Hw1).
  destruct (write_directories _ ds w1) as [[rs1|] w2] eqn:ED; [|done].
  injection Hrun as <- <-. cbn [sum_list_with] in *.
  assert (message_size d = length data) as Hmd by (unfold message_size; by rewrite Hm).
  rewrite Hmd in *.
  destruct (IH _ _ _ Hw1 ED) as (bs' & Hw2 & Hl & Hst & Hord);
    [rewrite length_app; lia|]. clear IH.
  rewrite <-app_assoc in *. exists (data ++ bs'). rewrite length_app, Hl. split_and!; [done|done| |].
  - constructor; [|done]. rewrite app_assoc, Hr. eapply stored_app; [|apply region_at_stored];
      try done; rewrite !length_app in *; lia.
  - intros [|j] g Hj; cbn in Hj.
    + split; [|intros; lia]. injection Hj as Hj. rewrite Hr in Hj.
      apply region_at_offset in Hj; lia.
    + destruct (Hord _ _ Hj) as [Hlo Hst']. rewrite length_app in Hlo. split; [lia|].
      intros [|i] reg d' Hi Hreg Hd'; cbn in Hreg, Hd'; simplify_eq.
      * rewrite app_assoc. eapply stored_app; [|apply region_at_stored];
          try done; rewrite length_app; lia.
      * apply (Hst' i); [lia|done|done].
Qed.

(** C5. Reading a state file gives back what was written to it. When a sequence
    of [WriteDirectory] calls and [Finalize] all succeed, the reader opened on
    the resulting file yields the root directory; its reader yields every
    directory through the region that [WriteDirectory] returned for it; and the
    reader of a directory yields every directory that was written before it,
    which are the ones it may refer to. *)
Theorem state_file_roundtrip zd zr (LD : ProtoLaws Directory zd) (LR : ProtoLaws RootDirectory zr)
    (HWA : WriterAt_ok WriteAt bytes_of) f ds rs root w1 w2 r max :
  zd = empty_Directory -> bytes_of f = [] -> fits ds root max -> Marshal root <> Ok [] ->
  write_directories WriteAt ds (NewFileWriter f) = (Ok rs, w1) ->
  Finalize WriteAt root w1 = (None, w2) ->
  reads_from r (bytes_of (rawWriter w2)) ->
  exists rd, NewFileReader r max = Ok (rd, root) /\
    forall j d reg, ds !! j = Some d -> rs !! j = Some reg ->
    exists rd', ReadDirectory nil_reader rd reg = Ok (rd', d) /\
      forall i di regi, (i < j)%nat -> ds !! i = Some di -> rs !! i = Some regi ->
      reg <> None -> exists rd'', ReadDirectory nil_reader rd' regi = Ok (rd'', di).
Proof using.
  intros Hzd Hf (Hds & Hroot & Hmax & Hmax63) Hne Hwr Hfin Hr.
  destruct (write_directories_spec HWA _ _ _ _ _ (NewFileWriter_inv _ _ Hf) Hwr Hds)
    as (bs & Hw1 & Hl & Hst & Hord); [cbn in *; lia|]. cbn [app] in *.
  destruct (Finalize_spec _ _ HWA _ _ _ _ Hw1 Hfin) as (data & Hm & Hbytes).
  unfold message_size at 1 in Hroot. unfold message_size at 2 in Hmax. rewrite Hm in *.
  rewrite Hbytes in Hr by (rewrite length_app; lia). clear Hbytes.
  pose proof (region_at_stored root bs data Hm Hroot ltac:(rewrite length_app; lia)) as Hrs.
  destruct (region_at (length bs) data) as [g|] eqn:Eg.
  2: { cbn in Hrs. congruence. }
  pose proof (region_at_offset _ _ _ Eg ltac:(lia)) as Hgo.
  assert (SizeBytes g < 2 ^ 31) as Hgs.
  { destruct Hrs as (? & ? & ? & _ & Hm' & _ & _ & -> & _). by rewrite Hm in Hm'; simplify_eq. }
  exists {| rawReader := r; maximumOffsetBytes := OffsetBytes g |}. split.
  { eapply NewFileReader_stored; try done.
    rewrite <-(app_nil_r (bs ++ data)). eapply stored_app; [|done]. rewrite length_app; lia. }
  intros j d reg Hd Hreg.
  assert (forall i regi di lim rd, rs !! i = Some regi -> ds !! i = Some di ->
    stored bs lim regi di -> rawReader rd = r -> lim <= maximumOffsetBytes rd < 2 ^ 63 ->
    exists rd', ReadDirectory nil_reader rd regi = Ok (rd', di) /\
    forall g, regi = Some g -> rd' = {| rawReader := r; maximumOffsetBytes := OffsetBytes g |})
    as Hread.
  { intros i regi di lim rd _ _ Hsti Hrd Hlim.
    destruct (ReadDirectory_stored nil_reader _ LD (header (Some g)) rd (bs ++ data) lim regi di)
      as (rd' & ? & ?); [done|by rewrite Hrd| |by eapply stored_app|done|]; [done|].
    exists rd'. by rewrite <-Hrd. }
  pose proof (Forall2_lookup_lr _ _ _ _ _ _ Hst Hreg Hd) as Hstj.
  destruct (Hread j reg d _ {| rawReader := r; maximumOffsetBytes := OffsetBytes g |}
    Hreg Hd Hstj) as (rd' & Hrd' & Hg); [done|cbn; lia|].
  exists rd'. split; [done|]. intros i di regi Hij Hdi Hregi Hsome.
  destruct reg as [gj|]; [|done]. rewrite (Hg gj eq_refl).
  destruct (Hord j gj Hreg) as [Hlo Hsti].
  destruct (Hread i regi di (OffsetBytes gj)
    {| rawReader := r; maximumOffsetBytes := OffsetBytes gj |} Hregi Hdi)
    as (rd'' & ? & _); [by apply Hsti with i|done| |by exists rd''].
  destruct Hstj as (pre & dj & post & _ & _ & _ & Hoj & Hsj & Hlim). cbn. lia.
Qed.

End RoundTrip.

(** ** Bounds *)

Section Bounds.
Context {E : Errors} {CD : ProtoCodec Directory} {CR : ProtoCodec RootDirectory}.
Context (nil_reader : ReaderAt).

(** C32. References in a state file point strictly backwards. A directory that
    [ReadDirectory] accepts lies between the header and the offset up to which
    the reader may look, and the reader returned for its children may look no
    further than where it starts, so that no cycle of references can be
    followed. The maximum has to leave room for the sum of an offset and a
    32-bit size. *)
Theorem ReadDirectory_descends rd g rd' d :
  maximumOffsetBytes rd <= 2 ^ 63 - 2 ^ 31 -> SizeBytes g < 2 ^ 31 ->
  ReadDirectory nil_reader rd (Some g) = Ok (rd', d) ->
  headerSizeBytes <= OffsetBytes g /\ 0 < SizeBytes g /\
  OffsetBytes g + SizeBytes g <= maximumOffsetBytes rd /\
  maximumOffsetBytes rd' = OffsetBytes g /\ maximumOffsetBytes rd' < maximumOffsetBytes rd.
Proof using.
  intros Hmax Hsz Hrd. apply readMessage_accepts in Hrd as (Ho & Hs & He & ->).
  cbn. unfold headerSizeBytes in *. rewrite i64_id in He by lia. lia.
Qed.

(** A reference that does not lie between the header and the reader's
    maximum is refused with [INVALID_ARGUMENT] whatever the file holds: the
    error is the same for every raw reader. *)
Theorem ReadDirectory_rejects (L : ErrorsLaws E) max g :
  max <= 2 ^ 63 - 2 ^ 31 -> - 2 ^ 31 <= SizeBytes g < 2 ^ 31 -> - 2 ^ 63 <= OffsetBytes g < 2 ^ 63 ->
  ~ (headerSizeBytes <= OffsetBytes g /\ 0 < SizeBytes g /\
     OffsetBytes g + SizeBytes g <= max) ->
  exists e, status_Code e = InvalidArgument /\
    forall raw, ReadDirectory nil_reader {| rawReader := raw; maximumOffsetBytes := max |} (Some g)
                = Err e.
Proof using.
  intros Hmax Hsz Hoff Hout. cbn. unfold readMessage. cbn [maximumOffsetBytes].
  destruct (_ || _) eqn:Ec.
  { eexists. split; [|done]. by apply status_Code_Errorf. }
  exfalso. apply Hout. rewrite !orb_false_iff, !bool_decide_eq_false in Ec.
  destruct Ec as [[[H1 H2] H3] H4]. unfold headerSizeBytes in *.
  rewrite i64_id in H4 by lia. lia.
Qed.

End Bounds.

(** ** A concrete codec and file

    Used to evaluate the definitions: a file is its contents, and the messages
    are the empty one and those of a table, whose encoding is the index in
    unary. *)

Module ExampleFile.
Import ErrorTree.

Definition table_Marshal {M} `{EqDecision M} (zero : M) (tbl : list M) (m : M) : res err (list byte) :=
  if decide (m = zero) then Ok []
  else match list_find (fun m' => m' = m) tbl with
       | Some (i, _) => Ok (replicate (S i) x01)
       | None => Err (Sys "message is not in the table")
       end.

Definition table_Unmarshal {M} (zero : M) (tbl : list M) (bs : list byte) : res err M :=
  match length bs with
  | O => Ok zero
  | S i => match tbl !! i with Some m => Ok m | None => Err (Sys "malformed message") end
  end.

Lemma table_roundtrip {M} `{EqDecision M} (zero : M) tbl m bs :
  table_Marshal zero tbl m = Ok bs -> table_Unmarshal zero tbl bs = Ok m.
Proof.
  unfold table_Marshal, table_Unmarshal. case_decide as Hz; [by intros [= <-]; rewrite Hz|].
  destruct (list_find _ tbl) as [[i m']|] eqn:Ef; [|done]. intros [= <-].
  apply list_find_Some in Ef as (Hi & -> & _). cbn. by rewrite length_replicate, Hi.
Qed.

Definition leafDir : Directory :=
  {| Files := [{| fn_Name := "a"; fn_Digest := None; fn_IsExecutable := true |}];
     Directories := []; Symlinks := [] |}.
Definition topDir : Directory :=
  {| Files := []; Symlinks := [];
     Directories := [{| dn_Name := "d";
                        dn_FileRegion := Some {| OffsetBytes := 16; SizeBytes := 1 |} |}] |}.
Definition exampleRoot : RootDirectory :=
  {| InitialCreationTime := Some {| seconds := 1; nanos := 2 |}; Contents := Some topDir |}.

#[export] Instance dirCodec : ProtoCodec Directory := {|
  Marshal := table_Marshal empty_Directory [leafDir; topDir];
  Unmarshal := table_Unmarshal empty_Directory [leafDir; topDir];
|}.

#[export] Instance rootDirectory_eq_dec : EqDecision RootDirectory.
Proof. solve_decision. Defined.

#[export] Instance rootCodec : ProtoCodec RootDirectory := {|
  Marshal := table_Marshal empty_RootDirectory [exampleRoot];
  Unmarshal := table_Unmarshal empty_RootDirectory [exampleRoot];
|}.

#[export] Instance dirLaws : ProtoLaws Directory empty_Directory.
Proof. split; [apply table_roundtrip|done]. Qed.
#[export] Instance rootLaws : ProtoLaws RootDirectory empty_RootDirectory.
Proof. split; [apply table_roundtrip|done]. Qed.

Definition WriteAt : WriterAt (list byte) := fun p off f =>
  ((length p, None), pwrite f p (Z.to_nat off)).

Lemma WriteAt_ok : WriterAt_ok WriteAt id.
Proof. intros p off f n e f' [= <- <- <-]. done. Qed.

Definition file_reader (content : list byte) : ReaderAt := fun off n =>
  let data := take n (drop (Z.to_nat off) content) in
  (data, if bool_decide (length data < n)%nat then Some EOF else None).

Lemma file_reader_reads content : reads_from (file_reader content) content.
Proof.
  intros off n Hoff. cbn. split; [done|]. intros Hlt.
  rewrite bool_decide_true by done. by eexists.
Qed.

Definition no_reader : ReaderAt := fun _ _ => ([], Some EOF).

Definition regions : list (option FileRegion) :=
  [Some {| OffsetBytes := 16; SizeBytes := 1 |}; None; Some {| OffsetBytes := 17; SizeBytes := 2 |}].

Definition example_w1 : fileWriter :=
  (write_directories WriteAt [leafDir; empty_Directory; topDir] (NewFileWriter [])).2.
Definition example_w2 : fileWriter := (Finalize WriteAt exampleRoot example_w1).2.

Lemma state_file_roundtrip_witness :
  exists rd, NewFileReader (file_reader (rawWriter example_w2)) 100 = Ok (rd, exampleRoot) /\
    exists rd', ReadDirectory no_reader rd (Some {| OffsetBytes := 16; SizeBytes := 1 |})
                = Ok (rd', leafDir).
Proof.
  destruct (state_file_roundtrip WriteAt id no_reader empty_Directory empty_RootDirectory
    dirLaws rootLaws WriteAt_ok [] [leafDir; empty_Directory; topDir] regions exampleRoot
    example_w1 example_w2 (file_reader (rawWriter example_w2)) 100) as (rd & Hrd & Hdirs).
  - reflexivity.
  - reflexivity.
  - split; [repeat (apply Forall_cons_2; [reflexivity|]); apply Forall_nil_2|].
    split; [reflexivity|]. split; [apply Z.leb_le; reflexivity|reflexivity].
  - intros Hm. vm_compute in Hm. discriminate Hm.
  - reflexivity.
  - reflexivity.
  - apply file_reader_reads.
  - exists rd. split; [exact Hrd|].
    destruct (Hdirs 0%nat leafDir (Some {| OffsetBytes := 16; SizeBytes := 1 |}))
      as (rd' & Hrd' & _); [reflexivity|reflexivity|].
    exists rd'. exact Hrd'.
Defined.

Lemma ReadDirectory_descends_witness :
  OffsetBytes {| OffsetBytes := 16; SizeBytes := 1 |} < 100.
Proof.
  edestruct (ReadDirectory_descends no_reader
    {| rawReader := file_reader (replicate 17 x01); maximumOffsetBytes := 100 |}
    {| OffsetBytes := 16; SizeBytes := 1 |}) as (H1 & H2 & H3 & H4 & H5).
  - cbn. lia.
  - cbn. lia.
  - reflexivity.
  - cbn in H3. cbn. lia.
Defined.

Lemma ReadDirectory_rejects_witness :
  exists e, status_Code e = InvalidArgument /\
    ReadDirectory no_reader
      {| rawReader := file_reader (replicate 17 x01); maximumOffsetBytes := 100 |}
      (Some {| OffsetBytes := 99; SizeBytes := 2 |}) = Err e.
Proof.
  edestruct (ReadDirectory_rejects no_reader errors_laws 100 {| OffsetBytes := 99; SizeBytes := 2 |})
    as (e & He & Hall).
  - lia.
  - cbn. lia.
  - cbn. lia.
  - cbn. lia.
  - exists e. split; [exact He|apply Hall].
Defined.

End ExampleFile.
