(* ===== verification/Virtual.v ===== *)
(** * The interfaces of the virtual file system, path and digest libraries

    bb_clientd is built on bb-remote-execution's [pkg/filesystem/virtual] and on
    bb-storage's [pkg/filesystem/path] and [pkg/digest]. None of them is part of
    this repository: their types and functions are fields of classes, and the
    documented behaviour that theorems rely on is stated in separate classes of
    laws. *)

From S2P Require Import Prelude Errors StateFile.
Local Open Scope Z_scope.

(** ** [virtual.Status] *)

Inductive Status : Type :=
| StatusOK | StatusErrAccess | StatusErrBadHandle | StatusErrExist | StatusErrIO
| StatusErrIsDir | StatusErrNoEnt | StatusErrNXIO | StatusErrPerm | StatusErrROFS
| StatusErrSymlink | StatusErrWrongType.

#[export] Instance Status_eq_dec : EqDecision Status.
Proof. solve_decision. Defined.

(** A virtual file system function returns a value along with [StatusOK], or
    one of the other statuses. *)
Inductive vres (A : Type) : Type :=
| VOk (a : A)
| VErr (s : Status).
Arguments VOk {A} a.
Arguments VErr {A} s.

#[export] Instance vres_eq_dec `{EqDecision A} : EqDecision (vres A).
Proof. solve_decision. Defined.

(** ** [virtual.Attributes]

    The attributes the program sets or looks at; [None] is an attribute that
    was not set. *)

Inductive FileType : Type := FileTypeDirectory | FileTypeRegularFile | FileTypeSymlink.

#[export] Instance FileType_eq_dec : EqDecision FileType.
Proof. solve_decision. Defined.

Record Attributes : Type := {
  a_ChangeID : option Z;
  a_FileType : option FileType;
  a_HasNamedAttributes : option bool;
  a_IsInNamedAttributeDirectory : option bool;
  a_LinkCount : option Z;
  a_OwnerUserID : option Z;
  a_OwnerGroupID : option Z;
  a_Permissions : option Z;
  a_SizeBytes : option Z;
}.

Definition no_Attributes : Attributes := {|
  a_ChangeID := None; a_FileType := None; a_HasNamedAttributes := None;
  a_IsInNamedAttributeDirectory := None; a_LinkCount := None; a_OwnerUserID := None;
  a_OwnerGroupID := None; a_Permissions := None; a_SizeBytes := None |}.

(** [virtual.OpenExistingOptions]; the attributes mask it translates to is the
    library's. *)
Record OpenExistingOptions : Type := { Truncate : bool }.

(** Bits of [virtual.Permissions], [virtual.ShareMask] and
    [virtual.AttributesMask], the link counts of directories, and the statuses
    with which read-only directories refuse to open a child. The values are
    those of the library. *)
Class VirtualConstants : Type := {
  PermissionsRead : Z;
  PermissionsExecute : Z;
  ShareMaskRead : Z;
  AttributesMaskChangeID : Z;
  AttributesMaskLinkCount : Z;
  EmptyDirectoryLinkCount : Z;
  ImplicitDirectoryLinkCount : Z;
  ReadOnlyDirectoryOpenChildWrongFileType : option OpenExistingOptions -> Status -> Status;
  ReadOnlyDirectoryOpenChildDoesntExist : option Attributes -> Status;
}.

(** ** [path.Component] *)

Class PathLib : Type := {
  Component : Type;
  Component_eq_dec :: EqDecision Component;
  Component_countable :: Countable Component;
  (** [path.NewComponent] and [Component.String] *)
  NewComponent : string -> option Component;
  Component_String : Component -> string;
  (** [GetUNIXString] of a [path.Trace], of which the components are listed from
      the root *)
  GetUNIXString : list Component -> string;
}.

(** A component is made from a string and prints as that string. *)
Class PathLaws (P : PathLib) : Prop := {
  NewComponent_String s c : NewComponent s = Some c -> Component_String c = s;
  NewComponent_of_Component c : NewComponent (Component_String c) = Some c;
}.

(** ** [digest.Digest], [digest.Function] and [digest.InstanceName] *)

Class DigestLib {E : Errors} : Type := {
  Digest : Type;
  Digest_eq_dec :: EqDecision Digest;
  Digest_countable :: Countable Digest;
  DigestFunction : Type;
  DigestFunction_eq_dec :: EqDecision DigestFunction;
  InstanceName : Type;
  (** [Function.NewDigestFromProto], [Function.NewDigest] *)
  NewDigestFromProto : DigestFunction -> option ProtoDigest -> res err Digest;
  NewDigest : DigestFunction -> string -> Z -> res err Digest;
  (** [Digest.UsesDigestFunction], [GetDigestFunction], [GetSizeBytes],
      [GetProto], [String] *)
  UsesDigestFunction : Digest -> DigestFunction -> bool;
  GetDigestFunction : Digest -> DigestFunction;
  GetSizeBytes : Digest -> Z;
  GetProto : Digest -> ProtoDigest;
  Digest_String : Digest -> string;
}.
