(* ===== verification/Examples.v ===== *)
(** * Concrete instances of the library interfaces

    Simple functions that satisfy the documented behaviour of the path, digest
    and virtual file system libraries. The concrete applications of the theorems
    run on them. *)

From S2P Require Import Prelude Errors StateFile Virtual.
Local Open Scope Z_scope.

(** ** Path components: file names without slashes and null bytes *)

Module ExamplePath.

Fixpoint no_slash (s : string) : bool :=
  match s with
  | EmptyString => true
  | String c s => negb (Ascii.eqb c "/") && negb (Ascii.eqb c "000") && no_slash s
  end.

Definition valid (s : string) : bool :=
  negb (bool_decide (s = ""%string)) && negb (bool_decide (s = "."%string)) &&
  negb (bool_decide (s = ".."%string)) && no_slash s.

Definition component : Type := {s : string | valid s = true}.

Definition new_component (s : string) : option component :=
  match decide (valid s = true) with
  | left H => Some (exist _ s H)
  | right _ => None
  end.

#[export] Instance path_lib : PathLib := {|
  Component := component;
  NewComponent := new_component;
  Component_String := fun c => proj1_sig c;
  GetUNIXString := fun cs => String.concat "/" ((fun c : component => proj1_sig c) <$> cs);
|}.

#[export] Instance path_laws : PathLaws path_lib.
Proof.
  split; cbn; unfold new_component.
  - intros s c. case_decide; [|done]. by intros [= <-].
  - intros [s Hs]. cbn. case_decide as H; [|done]. f_equal. by apply (sig_eq_pi _).
Qed.

(** A component from a literal. *)
Definition comp (s : string) (H : valid s = true) : component := exist _ s H.

End ExamplePath.

(** ** Digests: the name of a digest function, a hash and a size *)

Module ExampleDigest.
Import ErrorTree.

Record digest : Type := { d_function : string; d_hash : string; d_size : Z }.

#[export] Instance digest_eq_dec : EqDecision digest.
Proof. solve_decision. Defined.

#[export] Instance digest_countable : Countable digest.
Proof.
  apply (inj_countable' (fun d => (d_function d, d_hash d, d_size d))
    (fun '(f, h, s) => {| d_function := f; d_hash := h; d_size := s |})).
  by intros [].
Defined.

Definition new_digest (f h : string) (size : Z) : res err digest :=
  if bool_decide (0 <= size) then Ok {| d_function := f; d_hash := h; d_size := size |}
  else Err (status_Error InvalidArgument "Invalid digest size").

#[export] Instance digests : @DigestLib ErrorTree.errors := {|
  Digest := digest;
  DigestFunction := string;
  InstanceName := string;
  NewDigestFromProto f p :=
    match p with
    | None => Err (status_Error InvalidArgument "No digest provided")
    | Some p => new_digest f (hash p) (size_bytes p)
    end;
  NewDigest := new_digest;
  UsesDigestFunction d f := bool_decide (d_function d = f);
  GetDigestFunction := d_function;
  GetSizeBytes := d_size;
  GetProto d := {| hash := d_hash d; size_bytes := d_size d |};
  Digest_String := d_hash;
|}.

End ExampleDigest.

(** ** Constants of the virtual file system library *)

Module ExampleVirtual.

#[export] Instance constants : VirtualConstants := {|
  PermissionsRead := 1;
  PermissionsExecute := 4;
  ShareMaskRead := 1;
  AttributesMaskChangeID := 1;
  AttributesMaskLinkCount := 2;
  EmptyDirectoryLinkCount := 2;
  ImplicitDirectoryLinkCount := 1;
  ReadOnlyDirectoryOpenChildWrongFileType existing s :=
    match existing with None => StatusErrExist | Some _ => s end;
  ReadOnlyDirectoryOpenChildDoesntExist create :=
    match create with None => StatusErrNoEnt | Some _ => StatusErrROFS end;
|}.

End ExampleVirtual.
