(* ===== verification/OutputPathFactory.v ===== *)
(** * Output paths and the factories that create them

    The interfaces of [pkg/filesystem/virtual/output_path_factory.go], and those
    of bb-remote-execution's [PrepopulatedDirectory] and leaves as far as the
    program uses them. *)

From S2P Require Import Prelude Errors StateFile Virtual.
Local Open Scope Z_scope.

(** ** The interface of output paths ([output_path_factory.go])

    [W] is the state of everything behind the interface. Output paths that keep
    state traverse their contents, and stores may panic. *)

Class OutputPathFactory {E : Errors} {P : PathLib} {D : DigestLib} (W : Type) : Type := {
  OutputPath : Type;
  CASFileFactory : Type;
  (** [OutputPathFactory.StartInitialBuild] and [OutputPathFactory.Clean] *)
  opf_StartInitialBuild : Component -> CASFileFactory -> DigestFunction -> run W OutputPath;
  opf_Clean : Component -> st W (option err);
  (** [PrepopulatedDirectory.RemoveAllChildren] and [OutputPath.FinalizeBuild] *)
  op_RemoveAllChildren : OutputPath -> bool -> st W (option err);
  op_FinalizeBuild : OutputPath -> DigestFunction -> run W unit;
  (** The CAS file factory that [StartBuild] makes for a new output path. *)
  NewCASFileFactory : st W CASFileFactory;
}.

(** ** [virtual.PrepopulatedDirectory], [virtual.LinkableLeaf] and the factories of
    leaves *)

Class PrepopulatedDirectory {E : Errors} {P : PathLib} {D : DigestLib} (W : Type)
    {OPF : OutputPathFactory W} : Type := {
  Dir : Type;
  Leaf : Type;
  (** An output path is a directory. *)
  OutputPath_Dir : OutputPath -> Dir;
  CreateAndEnterPrepopulatedDirectory : Dir -> Component -> st W (res err Dir);
  (** [LookupAllChildren] returns the directories and the leaves. *)
  LookupAllChildren : Dir -> st W (res err (list (Component * Dir) * list (Component * Leaf)));
  (** [CreateChildren] with leaves as its initial children *)
  CreateChildren : Dir -> gmap Component Leaf -> bool -> st W (option err);
  Unlink : Leaf -> st W unit;
  (** [CASFileFactory.LookupFile] and [SymlinkFactory.LookupSymlink] *)
  LookupFile : CASFileFactory -> Digest -> bool -> st W Leaf;
  LookupSymlink : string -> st W (res err Leaf);
  (** [VirtualApply] of [ApplyAppendOutputPathPersistencyDirectoryNode], which
      appends a node to a directory message, and of [ApplyUploadFile]. [None] is
      the leaf not supporting the operation. *)
  ApplyAppendOutputPathPersistencyDirectoryNode :
    Leaf -> Component -> Directory -> st W (option Directory);
  ApplyUploadFile : Leaf -> DigestFunction -> st W (option (option err));
  (** [errorLogger.Log], and [clock.Now] as a [timestamppb.Timestamp] *)
  Log : err -> st W unit;
  Now : st W Timestamp;
}.

(** ** [in_memory_output_path_factory.go]

    Output paths that only exist in memory: the directory that
    [NewInMemoryPrepopulatedDirectory] creates, which is a parameter; ending a
    build does nothing, and there is no state to clean. *)

Definition inMemoryOutputPathFactory {E : Errors} {P : PathLib} {D : DigestLib} {W : Type}
    (Directory CASFileFactory : Type) (NewInMemoryPrepopulatedDirectory : st W Directory)
    (RemoveAllChildren : Directory -> bool -> st W (option err))
    (NewCASFileFactory : st W CASFileFactory) : OutputPathFactory W := {|
  OutputPath := Directory;
  CASFileFactory := CASFileFactory;
  opf_StartInitialBuild _ _ _ := returning NewInMemoryPrepopulatedDirectory;
  opf_Clean _ w := (None, w);
  op_RemoveAllChildren := RemoveAllChildren;
  op_FinalizeBuild _ _ := mret tt;
  NewCASFileFactory := NewCASFileFactory;
|}.
