(* ===== verification/OutputService.v ===== *)
(** * The Bazel Output Service directory

    The state that [pkg/filesystem/virtual/bazel_output_service_directory.go]
    keeps under its lock: the output paths, which form a circular doubly-linked
    list in the order of their cookies, and the builds that run in them. *)

From S2P Require Import Prelude Errors Virtual Examples OutputPathFactory.
Local Open Scope Z_scope.

Section OutputService.
Context {E : Errors} {P : PathLib} {D : DigestLib} {VC : VirtualConstants}.
Context {W : Type} {OPF : OutputPathFactory W}.
(** [path.VirtualRootScopeWalkerFactory] *)
Context {ScopeWalkerFactory : Type}.

Record buildState : Type := {
  id : string;
  digestFunction : DigestFunction;
  scopeWalkerFactory : ScopeWalkerFactory;
}.

(** A pointer to an [outputPathState]: either to the one embedded in the
    directory, the head of the circular list, or to one on the heap. *)
Inductive ptr : Type :=
| Sentinel
| Node (n : nat).

Record outputPathState : Type := {
  buildStateOf : option buildState;
  rootDirectory : OutputPath;
  casFileFactory : CASFileFactory;
  previous : ptr;
  next : ptr;
  cookie : Z;
  outputBaseID : Component;
}.

(** [heap] holds the [outputPathState] objects ever allocated, [alloc] is the
    next unused address; [list_previous] and [list_next] are the fields of the
    embedded [outputPaths] that the code uses. *)
Record BazelOutputServiceDirectory : Type := {
  changeID : Z;
  outputBaseIDs : gmap Component nat;
  buildIDs : gmap string nat;
  list_previous : ptr;
  list_next : ptr;
  heap : gmap nat outputPathState;
  alloc : nat;
}.

(** The state that [NewBazelOutputServiceDirectory] sets up. *)
Definition NewBazelOutputServiceDirectory : BazelOutputServiceDirectory := {|
  changeID := 0;
  outputBaseIDs := ∅;
  buildIDs := ∅;
  list_previous := Sentinel;
  list_next := Sentinel;
  heap := ∅;
  alloc := 0;
|}.

(** *** Field accesses and updates *)

Definition get_next (d : BazelOutputServiceDirectory) (p : ptr) : ptr :=
  match p with
  | Sentinel => list_next d
  | Node n => from_option next Sentinel (heap d !! n)
  end.

Definition get_previous (d : BazelOutputServiceDirectory) (p : ptr) : ptr :=
  match p with
  | Sentinel => list_previous d
  | Node n => from_option previous Sentinel (heap d !! n)
  end.

Definition s_set_next (q : ptr) (s : outputPathState) : outputPathState :=
  {| buildStateOf := buildStateOf s; rootDirectory := rootDirectory s;
     casFileFactory := casFileFactory s; previous := previous s; next := q;
     cookie := cookie s; outputBaseID := outputBaseID s |}.

Definition s_set_previous (q : ptr) (s : outputPathState) : outputPathState :=
  {| buildStateOf := buildStateOf s; rootDirectory := rootDirectory s;
     casFileFactory := casFileFactory s; previous := q; next := next s;
     cookie := cookie s; outputBaseID := outputBaseID s |}.

Definition s_set_build (b : option buildState) (s : outputPathState) : outputPathState :=
  {| buildStateOf := b; rootDirectory := rootDirectory s;
     casFileFactory := casFileFactory s; previous := previous s; next := next s;
     cookie := cookie s; outputBaseID := outputBaseID s |}.

Definition set_heap (h : gmap nat outputPathState) (d : BazelOutputServiceDirectory) :=
  {| changeID := changeID d; outputBaseIDs := outputBaseIDs d; buildIDs := buildIDs d;
     list_previous := list_previous d; list_next := list_next d; heap := h; alloc := alloc d |}.

Definition set_next (p q : ptr) (d : BazelOutputServiceDirectory) : BazelOutputServiceDirectory :=
  match p with
  | Sentinel =>
      {| changeID := changeID d; outputBaseIDs := outputBaseIDs d; buildIDs := buildIDs d;
         list_previous := list_previous d; list_next := q; heap := heap d; alloc := alloc d |}
  | Node n => set_heap (alter (s_set_next q) n (heap d)) d
  end.

Definition set_previous (p q : ptr) (d : BazelOutputServiceDirectory) : BazelOutputServiceDirectory :=
  match p with
  | Sentinel =>
      {| changeID := changeID d; outputBaseIDs := outputBaseIDs d; buildIDs := buildIDs d;
         list_previous := q; list_next := list_next d; heap := heap d; alloc := alloc d |}
  | Node n => set_heap (alter (s_set_previous q) n (heap d)) d
  end.

Definition set_build (n : nat) (b : option buildState) (d : BazelOutputServiceDirectory) :=
  set_heap (alter (s_set_build b) n (heap d)) d.

Definition set_buildIDs (m : gmap string nat) (d : BazelOutputServiceDirectory) :=
  {| changeID := changeID d; outputBaseIDs := outputBaseIDs d; buildIDs := m;
     list_previous := list_previous d; list_next := list_next d; heap := heap d;
     alloc := alloc d |}.

Definition set_outputBaseIDs (m : gmap Component nat) (d : BazelOutputServiceDirectory) :=
  {| changeID := changeID d; outputBaseIDs := m; buildIDs := buildIDs d;
     list_previous := list_previous d; list_next := list_next d; heap := heap d;
     alloc := alloc d |}.

Definition incr_changeID (d : BazelOutputServiceDirectory) :=
  {| changeID := u64 (changeID d + 1); outputBaseIDs := outputBaseIDs d; buildIDs := buildIDs d;
     list_previous := list_previous d; list_next := list_next d; heap := heap d;
     alloc := alloc d |}.

(** [&outputPathState{...}] *)
Definition new_state (s : outputPathState) (d : BazelOutputServiceDirectory)
  : nat * BazelOutputServiceDirectory :=
  (alloc d,
   {| changeID := changeID d; outputBaseIDs := outputBaseIDs d; buildIDs := buildIDs d;
      list_previous := list_previous d; list_next := list_next d;
      heap := <[alloc d := s]> (heap d); alloc := S (alloc d) |}).

(** [if buildState := s.buildState; buildState != nil { delete(d.buildIDs,
    buildState.id); s.buildState = nil }] *)
Definition finalize_forcefully (n : nat) (d : BazelOutputServiceDirectory) :=
  match heap d !! n ≫= buildStateOf with
  | Some bs => set_build n None (set_buildIDs (delete (id bs) (buildIDs d)) d)
  | None => d
  end.

(** *** [Clean] *)

(** The first critical section of [Clean]. *)
Definition Clean_lookup (outputBaseID : Component) (d : BazelOutputServiceDirectory) : option nat :=
  outputBaseIDs d !! outputBaseID.

(** The second critical section, entered after the contents of the output path
    [n] were removed without holding the lock. *)
Definition detach_links (outputBaseID : Component) (n : nat) (d : BazelOutputServiceDirectory)
  : BazelOutputServiceDirectory :=
  let d := set_outputBaseIDs (delete outputBaseID (outputBaseIDs d)) d in
  let d := set_next (get_previous d (Node n)) (get_next d (Node n)) d in
  let d := set_previous (get_next d (Node n)) (get_previous d (Node n)) d in
  incr_changeID d.

Definition Clean_detach (outputBaseID : Component) (n : nat) (d : BazelOutputServiceDirectory)
  : BazelOutputServiceDirectory :=
  if decide (outputBaseIDs d !! outputBaseID = Some n)
  then finalize_forcefully n (detach_links outputBaseID n d)
  else d.

(** *** The critical section of [StartBuild] *)

(** A new output path is created at the end of the list. *)
Definition new_output_path (outputBaseID : Component) (casFileFactory : CASFileFactory)
    (root : OutputPath) (d : BazelOutputServiceDirectory) : nat * BazelOutputServiceDirectory :=
  let '(state, d) := new_state {|
      buildStateOf := None;
      rootDirectory := root;
      casFileFactory := casFileFactory;
      previous := list_previous d;
      next := Sentinel;
      cookie := changeID d;
      outputBaseID := outputBaseID;
    |} d in
  let d := set_outputBaseIDs (<[outputBaseID := state]> (outputBaseIDs d)) d in
  let d := set_next (get_previous d (Node state)) (Node state) d in
  let d := set_previous (get_next d (Node state)) (Node state) d in
  (state, incr_changeID d).

(** The calls that create the root directory of an output path. *)
Definition initial_root (outputBaseID : Component) (digestFunction : DigestFunction)
  : run W (CASFileFactory * OutputPath) := fun w =>
  let '(casFileFactory, w) := NewCASFileFactory w in
  (pair casFileFactory <$> opf_StartInitialBuild outputBaseID casFileFactory digestFunction) w.

Definition StartBuild_locked (outputBaseID : Component) (buildID : string)
    (digestFunction : DigestFunction) (scopeWalkerFactory : ScopeWalkerFactory)
    (d : BazelOutputServiceDirectory) : run W (nat * BazelOutputServiceDirectory) :=
  match buildIDs d !! buildID with
  | Some state => mret (state, d)
  | None =>
      let start '(state, d) :=
        let d := set_build state (Some {|
            id := buildID;
            digestFunction := digestFunction;
            scopeWalkerFactory := scopeWalkerFactory;
          |}) d in
        (state, set_buildIDs (<[buildID := state]> (buildIDs d)) d) in
      match outputBaseIDs d !! outputBaseID with
      | Some state => mret (start (state, finalize_forcefully state d))
      | None =>
          (fun '(casFileFactory, root) => start (new_output_path outputBaseID casFileFactory root d))
            <$> initial_root outputBaseID digestFunction
      end
  end.

(** *** [getOutputPathAndBuildState] and [FinalizeBuild] *)

(** The second component is the [buildState] pointer, which may be nil. *)
Definition getOutputPathAndBuildState (buildID : string) (d : BazelOutputServiceDirectory)
  : res err (nat * option buildState) :=
  match buildIDs d !! buildID with
  | None => Err (status_Error FailedPrecondition "Build ID is not associated with any running build")
  | Some state => Ok (state, heap d !! state ≫= buildStateOf)
  end.

(** [FinalizeBuild] runs under the lock as a whole. It dereferences the
    [buildState] of the output path. *)
Definition FinalizeBuild (buildID : string) (d : BazelOutputServiceDirectory)
  : run W BazelOutputServiceDirectory := fun w =>
  match buildIDs d !! buildID with
  | None => (Some (Ret d), w)
  | Some state =>
      match heap d !! state with
      | Some s =>
          match buildStateOf s with
          | Some bs =>
              ((fun _ => set_build state None (set_buildIDs (delete (id bs) (buildIDs d)) d))
                <$> op_FinalizeBuild (rootDirectory s) (digestFunction bs)) w
          | None => (Some (Panic "nil pointer dereference: buildState"), w)
          end
      | None => (Some (Panic "nil pointer dereference: outputPathState"), w)
      end
  end.

(** *** The directory operations *)

(** [handle_GetAttributes] is [d.handle.GetAttributes]. *)
Definition VirtualGetAttributes (handle_GetAttributes : Z -> Attributes -> Attributes) (requested : Z)
    (d : BazelOutputServiceDirectory) (a : Attributes) : Attributes :=
  let locked := negb (bool_decide
    (Z.land requested (Z.lor AttributesMaskChangeID AttributesMaskLinkCount) = 0)) in
  handle_GetAttributes requested
  {| a_ChangeID := if locked then Some (changeID d) else a_ChangeID a;
     a_FileType := Some FileTypeDirectory;
     a_HasNamedAttributes := Some false;
     a_IsInNamedAttributeDirectory := Some false;
     a_LinkCount :=
       if locked
       then Some (u32 (EmptyDirectoryLinkCount + u32 (Z.of_nat (size (outputBaseIDs d)))))
       else a_LinkCount a;
     a_OwnerUserID := a_OwnerUserID a;
     a_OwnerGroupID := a_OwnerGroupID a;
     a_Permissions := Some (Z.lor PermissionsRead PermissionsExecute);
     a_SizeBytes := Some 0 |}.

Definition VirtualLookup (name : Component) (d : BazelOutputServiceDirectory) : vres OutputPath :=
  match outputBaseIDs d !! name ≫= fun n => heap d !! n with
  | None => VErr StatusErrNoEnt
  | Some s => VOk (rootDirectory s)
  end.

Definition VirtualOpenChild (name : Component) (createAttributes : option Attributes)
    (existingOptions : option OpenExistingOptions) (d : BazelOutputServiceDirectory) : Status :=
  match outputBaseIDs d !! name with
  | Some _ => ReadOnlyDirectoryOpenChildWrongFileType existingOptions StatusErrIsDir
  | None => ReadOnlyDirectoryOpenChildDoesntExist createAttributes
  end.

(** What is reported for one output path: the cookie from which the next call
    continues, the name and the directory. *)
Record direntry : Type := {
  nextCookie : Z;
  entryName : Component;
  entryChild : OutputPath;
}.

(** [VirtualReadDir]'s first loop: the first output path past the cookie. The
    loops follow the [next] pointers; [fuel] bounds their number of steps, and
    [None] stands for running out of it. *)
Fixpoint readdir_find (fuel : nat) (d : BazelOutputServiceDirectory) (firstCookie : Z) (p : ptr)
  : option ptr :=
  match p with
  | Sentinel => Some Sentinel
  | Node n =>
      match fuel, heap d !! n with
      | S fuel', Some s =>
          if bool_decide (firstCookie <= cookie s) then Some p
          else readdir_find fuel' d firstCookie (next s)
      | _, _ => None
      end
  end.

(** The second loop. [accept] decides whether the reporter has room for an
    entry, given those it already took. *)
Fixpoint readdir_report (fuel : nat) (d : BazelOutputServiceDirectory)
    (accept : list direntry -> direntry -> bool) (reported : list direntry) (p : ptr)
  : option (list direntry) :=
  match p with
  | Sentinel => Some reported
  | Node n =>
      match fuel, heap d !! n with
      | S fuel', Some s =>
          let e := {| nextCookie := u64 (cookie s + 1); entryName := outputBaseID s;
                      entryChild := rootDirectory s |} in
          if accept reported e
          then readdir_report fuel' d accept (reported ++ [e]) (next s)
          else Some reported
      | _, _ => None
      end
  end.

Definition VirtualReadDir (fuel : nat) (firstCookie : Z)
    (accept : list direntry -> direntry -> bool) (d : BazelOutputServiceDirectory)
  : option (list direntry) :=
  match readdir_find fuel d firstCookie (list_next d) with
  | None => None
  | Some p => readdir_report fuel d accept [] p
  end.

(** ** The abstract service

    What the pointers and maps stand for: the output paths in the order in which
    they were created, each with the build that runs in it. *)

Record entry : Type := {
  e_id : Component;
  e_cookie : Z;
  e_root : OutputPath;
  e_build : option buildState;
}.

Record service : Type := {
  sv_entries : list entry;
  sv_changeID : Z;
}.

Definition entry_of (s : outputPathState) : entry :=
  {| e_id := outputBaseID s; e_cookie := cookie s; e_root := rootDirectory s;
     e_build := buildStateOf s |}.

Definition e_set_build (b : option buildState) (e : entry) : entry :=
  {| e_id := e_id e; e_cookie := e_cookie e; e_root := e_root e; e_build := b |}.

Definition runs (b : string) (e : entry) : bool := bool_decide (id <$> e_build e = Some b).

Definition is_for (c : Component) (e : entry) : bool := bool_decide (e_id e = c).

(** A build starts in the output path with its output base ID, which is created
    when there is none. A build that is already running is left alone. *)
Definition sv_StartBuild (c : Component) (bs : buildState) (a : service) : run W service :=
  if existsb (runs (id bs)) (sv_entries a) then mret a
  else if existsb (is_for c) (sv_entries a) then
    mret {| sv_entries := (fun e => if is_for c e then e_set_build (Some bs) e else e)
                            <$> sv_entries a;
            sv_changeID := sv_changeID a |}
  else
    (fun root =>
       {| sv_entries := sv_entries a ++
            [{| e_id := c; e_cookie := sv_changeID a; e_root := root.2; e_build := Some bs |}];
          sv_changeID := sv_changeID a + 1 |}) <$> initial_root c (digestFunction bs).

(** The output path in which a build runs. *)
Definition sv_running (b : string) (a : service) : option entry :=
  snd <$> list_find (fun e => runs b e) (sv_entries a).

(** The output path with a given name. *)
Definition sv_path (c : Component) (a : service) : option entry :=
  snd <$> list_find (fun e => is_for c e) (sv_entries a).

Definition sv_end_build (b : string) (a : service) : service :=
  {| sv_entries := (fun e => if runs b e then e_set_build None e else e) <$> sv_entries a;
     sv_changeID := sv_changeID a |}.

(** The output path of a build is told that it ended, with the digest function that
    it was started with. *)
Definition sv_FinalizeBuild (b : string) (a : service) : run W service :=
  match sv_running b a with
  | Some e =>
      match e_build e with
      | Some bs => (fun _ => sv_end_build b a) <$> op_FinalizeBuild (e_root e) (digestFunction bs)
      | None => mret a
      end
  | None => mret a
  end.

Definition sv_Clean (c : Component) (a : service) : service :=
  if existsb (is_for c) (sv_entries a) then
    {| sv_entries := filter (fun e => e_id e <> c) (sv_entries a);
       sv_changeID := sv_changeID a + 1 |}
  else a.

Definition sv_direntry (e : entry) : direntry :=
  {| nextCookie := u64 (e_cookie e + 1); entryName := e_id e; entryChild := e_root e |}.

(** ** Well-formedness

    [seg d p xs q]: following the [next] pointers from [p] visits the output
    paths [xs] and then [q], and the [previous] pointers lead back. *)

Fixpoint seg (d : BazelOutputServiceDirectory) (p : ptr) (xs : list nat) (q : ptr) : Prop :=
  match xs with
  | [] => get_next d p = q /\ get_previous d q = p
  | x :: xs => get_next d p = Node x /\ get_previous d (Node x) = p /\ seg d (Node x) xs q
  end.

Definition ent (d : BazelOutputServiceDirectory) (n : nat) : option entry :=
  entry_of <$> heap d !! n.

Record wf (d : BazelOutputServiceDirectory) (l : list nat) : Prop := {
  wf_seg : seg d Sentinel l Sentinel;
  wf_nodup : NoDup l;
  wf_heap n : n ∈ l -> is_Some (ent d n);
  wf_alloc n : is_Some (ent d n) -> (n < alloc d)%nat;
  wf_ids c n : outputBaseIDs d !! c = Some n <-> n ∈ l /\ e_id <$> ent d n = Some c;
  wf_builds b n : buildIDs d !! b = Some n <-> n ∈ l /\ id <$> (ent d n ≫= e_build) = Some b;
  wf_detached n : n ∉ l -> ent d n ≫= e_build = None;
  wf_sorted : StronglySorted Z.lt (e_cookie <$> omap (ent d) l);
  wf_cookies : Forall (fun z => 0 <= z < changeID d) (e_cookie <$> omap (ent d) l);
  wf_changeID : 0 <= changeID d < 2 ^ 64;
}.

(** [d] implements the abstract service [a]. *)
Definition implements (d : BazelOutputServiceDirectory) (a : service) : Prop :=
  exists l, wf d l /\ sv_entries a = omap (ent d) l /\ sv_changeID a = changeID d.

(** ** Pointer lemmas *)

Definition valid (d : BazelOutputServiceDirectory) (p : ptr) : Prop :=
  match p with Sentinel => True | Node n => is_Some (heap d !! n) end.

#[local] Instance ptr_eq_dec : EqDecision ptr.
Proof using. solve_decision. Defined.

Lemma ent_set_next p q d n : ent (set_next p q d) n = ent d n.
Proof using.
  destruct p as [|m]; [done|]. unfold ent; cbn. rewrite lookup_alter.
  case_decide; [subst|done]. by destruct (heap d !! n).
Qed.

Lemma ent_set_previous p q d n : ent (set_previous p q d) n = ent d n.
Proof using.
  destruct p as [|m]; [done|]. unfold ent; cbn. rewrite lookup_alter.
  case_decide; [subst|done]. by destruct (heap d !! n).
Qed.

Lemma ent_set_build m b d n :
  ent (set_build m b d) n = if decide (m = n) then e_set_build b <$> ent d n else ent d n.
Proof using.
  unfold ent; cbn. rewrite lookup_alter. case_decide; [subst|done]. by destruct (heap d !! n).
Qed.

Lemma get_next_set_next p q d r :
  valid d p -> get_next (set_next p q d) r = if decide (p = r) then q else get_next d r.
Proof using.
  intros Hv. destruct p as [|m], r as [|n]; cbn; try done.
  rewrite lookup_alter. destruct (decide (m = n)) as [->|Hne].
  - rewrite decide_True by done. destruct Hv as [s Hs]. by rewrite Hs.
  - rewrite decide_False by congruence. done.
Qed.

Lemma get_previous_set_previous p q d r :
  valid d p -> get_previous (set_previous p q d) r = if decide (p = r) then q else get_previous d r.
Proof using.
  intros Hv. destruct p as [|m], r as [|n]; cbn; try done.
  rewrite lookup_alter. destruct (decide (m = n)) as [->|Hne].
  - rewrite decide_True by done. destruct Hv as [s Hs]. by rewrite Hs.
  - rewrite decide_False by congruence. done.
Qed.

Lemma get_next_set_previous p q d r : get_next (set_previous p q d) r = get_next d r.
Proof using.
  destruct p as [|m], r as [|n]; cbn; try done. rewrite lookup_alter.
  case_decide; [subst|done]. by destruct (heap d !! n).
Qed.

Lemma get_previous_set_next p q d r : get_previous (set_next p q d) r = get_previous d r.
Proof using.
  destruct p as [|m], r as [|n]; cbn; try done. rewrite lookup_alter.
  case_decide; [subst|done]. by destruct (heap d !! n).
Qed.

Lemma get_next_set_build m b d r : get_next (set_build m b d) r = get_next d r.
Proof using.
  destruct r as [|n]; cbn; try done. rewrite lookup_alter.
  case_decide; [subst|done]. by destruct (heap d !! n).
Qed.

Lemma get_previous_set_build m b d r : get_previous (set_build m b d) r = get_previous d r.
Proof using.
  destruct r as [|n]; cbn; try done. rewrite lookup_alter.
  case_decide; [subst|done]. by destruct (heap d !! n).
Qed.

Lemma valid_ent d n : is_Some (ent d n) -> valid d (Node n).
Proof using. unfold ent. cbn. by rewrite fmap_is_Some. Qed.

Lemma valid_set_next p q d r : valid d r -> valid (set_next p q d) r.
Proof using.
  destruct r as [|n]; [done|]. intros H. apply valid_ent. rewrite ent_set_next.
  unfold ent. by rewrite fmap_is_Some.
Qed.

(** Segments split at every output path they visit. *)
Lemma seg_app d p xs x ys q :
  seg d p (xs ++ x :: ys) q <-> seg d p xs (Node x) /\ seg d (Node x) ys q.
Proof using. revert p. induction xs as [|y xs IH]; intros p; cbn; [tauto|]. rewrite IH. tauto. Qed.

(** The last pointer of a segment before its end. *)
Fixpoint last_ptr (p : ptr) (xs : list nat) : ptr :=
  match xs with [] => p | x :: xs => last_ptr (Node x) xs end.

Lemma seg_last d p xs q :
  seg d p xs q -> get_next d (last_ptr p xs) = q /\ get_previous d q = last_ptr p xs.
Proof using.
  revert p. induction xs as [|x xs IH]; intros p; [done|].
  intros (_ & _ & Hs). by apply IH.
Qed.

Lemma seg_frame d d' p xs q :
  seg d p xs q ->
  (forall r, r = p \/ r ∈ Node <$> xs -> get_next d' r = get_next d r) ->
  (forall r, r = q \/ r ∈ Node <$> xs -> get_previous d' r = get_previous d r) ->
  seg d' p xs q.
Proof using.
  revert p. induction xs as [|x xs IH]; intros p; cbn [seg].
  { intros [? ?] Hn Hp. rewrite Hn, Hp by auto. done. }
  intros (Hnx & Hpx & Hs) Hn Hp. rewrite Hn, Hp by set_solver. split_and!; [done|done|].
  apply IH; [done| |]; intros r Hr; [apply Hn|apply Hp]; set_solver.
Qed.

Lemma last_ptr_in p xs : last_ptr p xs = p \/ last_ptr p xs ∈ Node <$> xs.
Proof using.
  revert p. induction xs as [|x xs IH]; intros p; [by left|]. right. cbn.
  destruct (IH (Node x)) as [->|?]; set_solver.
Qed.

(** The end of a segment is moved to [q'] by setting two pointers. *)
Lemma seg_relink d d' p xs q q' :
  seg d p xs q -> NoDup (p :: (Node <$> xs)) ->
  get_next d' (last_ptr p xs) = q' -> get_previous d' q' = last_ptr p xs ->
  (forall r, r = p \/ r ∈ Node <$> xs -> r <> last_ptr p xs -> get_next d' r = get_next d r) ->
  (forall r, r ∈ Node <$> xs -> get_previous d' r = get_previous d r) ->
  seg d' p xs q'.
Proof using.
  revert p. induction xs as [|x xs IH]; intros p; [done|].
  intros (Hnx & Hpx & Hs) Hnd Hl1 Hl2 Hn Hp. cbn [last_ptr] in *.
  apply NoDup_cons in Hnd as [Hnotin Hnd]. cbn [fmap list_fmap] in *. cbn [seg].
  split_and!; [| |].
  - rewrite Hn; [done|by left|]. intros Heq. apply Hnotin. rewrite Heq at 1.
    destruct (last_ptr_in (Node x) xs) as [->|?]; set_solver.
  - rewrite Hp; [done|set_solver].
  - apply (IH (Node x)); try done; intros r Hr; [apply Hn|apply Hp]; set_solver.
Qed.

Lemma seg_not_sentinel xs : NoDup xs -> NoDup (Sentinel :: (Node <$> xs)).
Proof using.
  intros Hnd. apply NoDup_cons. split; [intros (? & ? & _)%list_elem_of_fmap; done|].
  apply NoDup_fmap_2; [|done]. intros ? ? [= ->]. done.
Qed.

(** ** The operations preserve well-formedness *)

(** Changing the build of an output path, along with the index of builds. *)
Lemma wf_set_build d l n b m :
  wf d l -> n ∈ l \/ b = None ->
  (forall x k, m !! x = Some k <-> k ∈ l /\ id <$> (ent (set_build n b d) k ≫= e_build) = Some x) ->
  wf (set_build n b (set_buildIDs m d)) l.
Proof using.
  intros [Hseg Hnd Hheap Halloc Hids Hbuilds Hdet Hsort Hcook Hch] Hn Hm.
  set (d' := set_build n b (set_buildIDs m d)).
  assert (forall k, ent d' k = if decide (n = k) then e_set_build b <$> ent d k else ent d k) as Hent
    by (intros; exact (ent_set_build n b (set_buildIDs m d) _)).
  assert (forall k, e_id <$> ent d' k = e_id <$> ent d k) as Hid.
  { intros k. rewrite Hent. case_decide; [|done]. by destruct (ent d k). }
  assert (forall k, is_Some (ent d' k) <-> is_Some (ent d k)) as Hsome.
  { intros k. rewrite Hent. case_decide; [|done]. by rewrite fmap_is_Some. }
  assert (e_cookie <$> omap (ent d') l = e_cookie <$> omap (ent d) l) as Hck.
  { apply fmap_omap_ext. intros k _. rewrite Hent. case_decide; [|done]. by destruct (ent d k). }
  split; try done.
  - eapply seg_frame; [done| |]; intros r _; subst d';
    [rewrite get_next_set_build|rewrite get_previous_set_build]; by destruct r.
  - intros k Hk. apply Hsome. auto.
  - intros k Hk. apply Halloc, Hsome, Hk.
  - intros c k. rewrite Hid. apply Hids.
  - intros k Hk. rewrite Hent. case_decide as Hnk; [|auto].
    subst k. destruct Hn as [| ->]; [done|]. by destruct (ent d n).
  - by rewrite Hck.
  - by rewrite Hck.
Qed.

(** Two output paths never share an output base ID, nor a build ID. *)
Lemma wf_id_inj d l c n k :
  wf d l -> n ∈ l -> k ∈ l -> e_id <$> ent d n = Some c -> e_id <$> ent d k = Some c -> n = k.
Proof using.
  intros Hwf Hn Hk Hcn Hck.
  pose proof (proj2 (wf_ids _ _ Hwf c n) (conj Hn Hcn)).
  pose proof (proj2 (wf_ids _ _ Hwf c k) (conj Hk Hck)). congruence.
Qed.

Lemma wf_build_inj d l x n k :
  wf d l -> n ∈ l -> k ∈ l -> id <$> (ent d n ≫= e_build) = Some x ->
  id <$> (ent d k ≫= e_build) = Some x -> n = k.
Proof using.
  intros Hwf Hn Hk Hcn Hck.
  pose proof (proj2 (wf_builds _ _ Hwf x n) (conj Hn Hcn)).
  pose proof (proj2 (wf_builds _ _ Hwf x k) (conj Hk Hck)). congruence.
Qed.

Lemma heap_build d n : heap d !! n ≫= buildStateOf = ent d n ≫= e_build.
Proof using. unfold ent. by destruct (heap d !! n). Qed.

Lemma finalize_forcefully_spec d l n :
  wf d l ->
  wf (finalize_forcefully n d) l /\
  outputBaseIDs (finalize_forcefully n d) = outputBaseIDs d /\
  changeID (finalize_forcefully n d) = changeID d /\
  alloc (finalize_forcefully n d) = alloc d /\
  (forall k, ent (finalize_forcefully n d) k =
     if decide (n = k) then e_set_build None <$> ent d k else ent d k) /\
  (forall x, buildIDs d !! x = None -> buildIDs (finalize_forcefully n d) !! x = None).
Proof using.
  intros Hwf. unfold finalize_forcefully. rewrite heap_build.
  destruct (ent d n ≫= e_build) as [bs|] eqn:Eb.
  - assert (n ∈ l) as Hn.
    { destruct (decide (n ∈ l)) as [|Hn]; [done|].
      pose proof (wf_detached _ _ Hwf n Hn). congruence. }
    assert (buildIDs d !! id bs = Some n) as Hbn by (apply (wf_builds _ _ Hwf); by rewrite Eb).
    split_and!; try done.
    + apply wf_set_build; [done|by left|]. intros x k. rewrite ent_set_build.
      rewrite lookup_delete_Some, (wf_builds _ _ Hwf). case_decide as Hnk.
      * subst k. split; [intros (? & _ & Hx); rewrite Eb in Hx; cbn in Hx; congruence|].
        intros [_ Hx]. by destruct (ent d n).
      * split; [tauto|]. intros [Hk Hx]. split_and!; [|done|done]. intros <-.
        apply Hnk. apply (wf_build_inj d l (id bs)); [done..|by rewrite Eb|done].
    + intros k. exact (ent_set_build n None (set_buildIDs _ d) k).
    + intros x Hx. cbn. rewrite lookup_delete_None. auto.
  - split_and!; try done. intros k. case_decide; [subst k|done].
    destruct (ent d n) as [e|]; [|done]. destruct e; by simplify_eq/=.
Qed.

Lemma ent_None_alloc d l : wf d l -> ent d (alloc d) = None.
Proof using.
  intros Hwf. apply eq_None_not_Some. intros Hs. apply (wf_alloc _ _ Hwf) in Hs. lia.
Qed.

(** A node that is allocated is not in the list yet. *)
Lemma alloc_fresh d l : wf d l -> alloc d ∉ l.
Proof using.
  intros Hwf Hin. destruct (wf_heap _ _ Hwf _ Hin) as [e He]. pose proof (ent_None_alloc _ _ Hwf). congruence.
Qed.

(** Setting pointers changes nothing else. *)
Lemma new_output_path_fields d c cff root :
  let n := (new_output_path c cff root d).1 in
  let d' := (new_output_path c cff root d).2 in
  changeID d' = u64 (changeID d + 1) /\ outputBaseIDs d' = <[c := n]> (outputBaseIDs d) /\
  buildIDs d' = buildIDs d /\ alloc d' = S (alloc d).
Proof using.
  unfold new_output_path, new_state, incr_changeID, set_previous, set_next. cbn zeta.
  cbn [fst snd]. by repeat case_match.
Qed.

(** Appending a node to the list: what it does to the objects and pointers. *)
Lemma new_output_path_pointers d l c cff root :
  wf d l ->
  let n := (new_output_path c cff root d).1 in
  let d' := (new_output_path c cff root d).2 in
  last_ptr Sentinel l <> Node n /\
  (forall k, ent d' k =
     if decide (n = k)
     then Some {| e_id := c; e_cookie := changeID d; e_root := root; e_build := None |}
     else ent d k) /\
  (forall r, get_next d' r =
     if decide (last_ptr Sentinel l = r) then Node n
     else if decide (r = Node n) then Sentinel else get_next d r) /\
  (forall r, get_previous d' r =
     if decide (Sentinel = r) then Node n
     else if decide (r = Node n) then last_ptr Sentinel l else get_previous d r).
Proof using.
  intros Hwf. cbn zeta.
  set (n := (new_output_path c cff root d).1). set (d' := (new_output_path c cff root d).2).
  set (s := {| buildStateOf := None; rootDirectory := root; casFileFactory := cff;
    previous := list_previous d; next := Sentinel; cookie := changeID d; outputBaseID := c |}).
  set (d0 := set_outputBaseIDs (<[c := n]> (outputBaseIDs d)) (new_state s d).2).
  set (d1 := set_next (get_previous d0 (Node n)) (Node n) d0).
  assert (d' = incr_changeID (set_previous (get_next d1 (Node n)) (Node n) d1)) as Hd' by done.
  destruct (seg_last _ _ _ _ (wf_seg _ _ Hwf)) as [_ Hl2]. cbn in Hl2.
  assert (last_ptr Sentinel l <> Node n) as Hlast.
  { destruct (last_ptr_in Sentinel l) as [->|(k & -> & Hk)%list_elem_of_fmap]; [done|].
    intros [= ->]. by apply (alloc_fresh _ _ Hwf). }
  assert (forall k, ent d0 k = if decide (n = k) then Some (entry_of s) else ent d k) as He0.
  { intros k. unfold ent; cbn. rewrite lookup_insert. by case_decide. }
  assert (forall r, get_next d0 r = (if decide (r = Node n) then Sentinel else get_next d r) /\
    get_previous d0 r = (if decide (r = Node n) then last_ptr Sentinel l else get_previous d r)) as Hg0.
  { intros [|k]; [done|]. unfold d0, n. cbn. rewrite lookup_insert, <-Hl2. repeat case_decide; try congruence; done. }
  assert (get_previous d0 (Node n) = last_ptr Sentinel l) as Hp0 by (rewrite (proj2 (Hg0 _)); by rewrite decide_True).
  assert (valid d0 (last_ptr Sentinel l)) as Hv.
  { destruct (last_ptr_in Sentinel l) as [->|(k & -> & Hk)%list_elem_of_fmap]; [done|].
    apply valid_ent. rewrite He0. case_decide; [by eexists|]. by apply (wf_heap _ _ Hwf). }
  assert (get_next d1 (Node n) = Sentinel) as Hn1.
  { unfold d1. rewrite Hp0, get_next_set_next, decide_False, (proj1 (Hg0 _)) by done. by rewrite decide_True. }
  split; [done|]. rewrite Hd', Hn1. change (ent (incr_changeID ?x)) with (ent x).
  split; [intros k; unfold d1; by rewrite ent_set_previous, ent_set_next|]. split; intros r.
  - change (get_next (incr_changeID ?x) r) with (get_next x r). unfold d1.
    by rewrite get_next_set_previous, Hp0, get_next_set_next, (proj1 (Hg0 r)).
  - change (get_previous (incr_changeID ?x) r) with (get_previous x r).
    rewrite get_previous_set_previous by done. unfold d1. by rewrite get_previous_set_next, (proj2 (Hg0 r)).
Qed.

(** The list is extended at its end. *)
Lemma new_output_path_effect d l c cff root :
  wf d l ->
  let n := (new_output_path c cff root d).1 in
  let d' := (new_output_path c cff root d).2 in
  n = alloc d /\ seg d' Sentinel (l ++ [n]) Sentinel /\
  (forall k, ent d' k =
     if decide (n = k)
     then Some {| e_id := c; e_cookie := changeID d; e_root := root; e_build := None |}
     else ent d k).
Proof using.
  intros Hwf. pose proof (alloc_fresh _ _ Hwf) as Hnl.
  destruct (new_output_path_pointers d l c cff root Hwf) as (Hlast & He & Hgn & Hgp). cbn zeta in *.
  assert ((new_output_path c cff root d).1 = alloc d) as Hn by done. rewrite <-Hn in Hnl.
  revert Hn Hnl Hlast He Hgn Hgp. generalize (new_output_path c cff root d). intros [n d'] Hn Hnl Hlast He Hgn Hgp.
  cbn [fst snd] in *. split; [done|]. split; [|done].
  assert (forall r, r ∈ Node <$> l -> r <> Node n) as Hne.
  { intros r (k & -> & Hk)%list_elem_of_fmap [= ->]. by apply Hnl. }
  apply seg_app. split.
  - apply (seg_relink d d' Sentinel l Sentinel); [apply Hwf|apply seg_not_sentinel, Hwf| | | |].
    + by rewrite Hgn, decide_True.
    + by rewrite Hgp, decide_False, decide_True.
    + intros r Hr Hl. rewrite Hgn, !decide_False; [done| |done]. destruct Hr as [->|Hr]; [done|by apply Hne].
    + intros r Hr. rewrite Hgp, !decide_False; [done|by apply Hne|].
      by intros <-; apply list_elem_of_fmap in Hr as (? & ? & ?).
  - split; [by rewrite Hgn, decide_False, decide_True|by rewrite Hgp, decide_True].
Qed.

Lemma new_output_path_spec d l c cff root :
  wf d l -> outputBaseIDs d !! c = None -> changeID d < 2 ^ 64 - 1 ->
  let n := (new_output_path c cff root d).1 in
  let d' := (new_output_path c cff root d).2 in
  wf d' (l ++ [n]) /\ changeID d' = changeID d + 1 /\ buildIDs d' = buildIDs d /\ (n ∉ l) /\
  (forall k, ent d' k =
     if decide (n = k)
     then Some {| e_id := c; e_cookie := changeID d; e_root := root; e_build := None |}
     else ent d k).
Proof using.
  intros Hwf Hc Hch. destruct (new_output_path_effect d l c cff root Hwf) as (Hn & Hseg & He).
  pose proof (ent_None_alloc _ _ Hwf) as Hfresh. rewrite <-Hn in Hfresh. cbn zeta in *.
  destruct (new_output_path_fields d c cff root) as (Hcid & Hobi & Hbi & Hal). cbn zeta in *.
  revert Hn Hseg He Hcid Hobi Hbi Hal Hfresh.
  generalize ((new_output_path c cff root d).1) as n.
  generalize ((new_output_path c cff root d).2) as d'.
  intros d' n Hn Hseg He Hcid Hobi Hbi Hal Hfresh.
  rewrite u64_id in Hcid by (pose proof (wf_changeID _ _ Hwf); lia).
  assert (n ∉ l) as Hnl by (rewrite Hn; by apply alloc_fresh).
  assert (forall k, k ∈ l -> ent d' k = ent d k) as Hel.
  { intros k Hk. rewrite He, decide_False; [done|]. by intros ->. }
  assert (omap (ent d') (l ++ [n]) = omap (ent d) l ++
    [{| e_id := c; e_cookie := changeID d; e_root := root; e_build := None |}]) as Hom.
  { rewrite omap_app. f_equal; [by apply omap_ext_in|]. cbn. by rewrite He, decide_True. }
  split_and!; try done. split; try done.
  - apply NoDup_app. split_and!; [apply Hwf| |apply NoDup_singleton]. set_solver.
  - intros k Hk. rewrite He. case_decide; [by eexists|]. apply (wf_heap _ _ Hwf). set_solver.
  - intros k Hk. rewrite He in Hk. rewrite Hal. case_decide; [lia|].
    apply (wf_alloc _ _ Hwf) in Hk. lia.
  - intros x k. rewrite Hobi, lookup_insert_Some, (wf_ids _ _ Hwf), He, elem_of_app, list_elem_of_singleton.
    case_decide as Hk; cbn; [subst k; naive_solver|]. split; [naive_solver|].
    intros [[Hkl|?] Hx]; [|congruence]. right. split; [|done]. intros ->.
    pose proof (proj2 (wf_ids _ _ Hwf x k) (conj Hkl Hx)). congruence.
  - intros x k. rewrite Hbi, (wf_builds _ _ Hwf), He, elem_of_app, list_elem_of_singleton.
    case_decide; cbn; [subst k; naive_solver|naive_solver].
  - intros k Hk. rewrite He. case_decide; [done|]. apply (wf_detached _ _ Hwf). set_solver.
  - rewrite Hom, fmap_app. apply StronglySorted_app_2; [|apply Hwf|repeat constructor].
    intros x1 x2 Hx1 Hx2. pose proof (wf_cookies _ _ Hwf) as Hck.
    rewrite Forall_forall in Hck. apply Hck in Hx1. cbn in Hx2.
    apply list_elem_of_singleton in Hx2. lia.
  - rewrite Hom, fmap_app, Hcid. apply Forall_app. split.
    + eapply Forall_impl; [apply Hwf|]. cbn. lia.
    + repeat constructor; cbn; pose proof (wf_changeID _ _ Hwf); lia.
  - rewrite Hcid. pose proof (wf_changeID _ _ Hwf). lia.
Qed.

(** Unlinking a node. *)
Lemma detach_links_fields c n d :
  let d' := detach_links c n d in
  changeID d' = u64 (changeID d + 1) /\ outputBaseIDs d' = delete c (outputBaseIDs d) /\
  buildIDs d' = buildIDs d /\ alloc d' = alloc d.
Proof using.
  unfold detach_links, incr_changeID, set_previous, set_next. cbn zeta. by repeat case_match.
Qed.

Lemma detach_links_pointers d l1 n l2 c :
  wf d (l1 ++ n :: l2) ->
  let pr := last_ptr Sentinel l1 in
  let nx := get_next d (Node n) in
  let d' := detach_links c n d in
  (forall r, get_next d' r = if decide (pr = r) then nx else get_next d r) /\
  (forall r, get_previous d' r = if decide (nx = r) then pr else get_previous d r) /\
  (forall k, ent d' k = ent d k).
Proof using.
  intros Hwf. pose proof (wf_seg _ _ Hwf) as Hseg. apply seg_app in Hseg as [Hs1 Hs2].
  pose proof (wf_nodup _ _ Hwf) as Hnd. apply NoDup_app in Hnd as (_ & Hdisj & _).
  destruct (seg_last _ _ _ _ Hs1) as [Hpn Hnp]. cbn zeta.
  set (pr := last_ptr Sentinel l1) in *. set (nx := get_next d (Node n)).
  assert (valid d pr /\ pr <> Node n) as [Hvp Hprn].
  { unfold pr. destruct (last_ptr_in Sentinel l1) as [->|(k & -> & Hk)%list_elem_of_fmap]; [done|].
    split; [|intros [= ->]; set_solver].
    apply valid_ent, (wf_heap _ _ Hwf). set_solver. }
  assert (valid d nx) as Hvn.
  { unfold nx. destruct l2 as [|z l2]; [by destruct Hs2 as [-> _]|]. destruct Hs2 as [-> _].
    apply valid_ent, (wf_heap _ _ Hwf). set_solver. }
  set (d0 := set_outputBaseIDs (delete c (outputBaseIDs d)) d).
  set (d1 := set_next pr nx d0).
  assert (detach_links c n d = incr_changeID (set_previous nx pr d1)) as ->.
  { unfold detach_links. cbn zeta. fold d0.
    assert (get_previous d0 (Node n) = pr) as -> by exact Hnp.
    assert (get_next d0 (Node n) = nx) as -> by done. fold d1.
    assert (get_next d1 (Node n) = nx) as -> by (unfold d1; by rewrite get_next_set_next, decide_False).
    assert (get_previous d1 (Node n) = pr) as -> by (unfold d1; rewrite get_previous_set_next; exact Hnp).
    done. }
  split_and!.
  - intros r. change (get_next (incr_changeID ?x) r) with (get_next x r).
    rewrite get_next_set_previous. unfold d1. by rewrite get_next_set_next by done; destruct r.
  - intros r. change (get_previous (incr_changeID ?x) r) with (get_previous x r).
    rewrite get_previous_set_previous by (unfold d1; by apply valid_set_next).
    unfold d1. rewrite get_previous_set_next. by destruct r.
  - intros k. change (ent (incr_changeID ?x)) with (ent x).
    rewrite ent_set_previous. unfold d1. by rewrite ent_set_next.
Qed.

Lemma detach_links_seg d l1 n l2 c :
  wf d (l1 ++ n :: l2) -> seg (detach_links c n d) Sentinel (l1 ++ l2) Sentinel.
Proof using.
  intros Hwf. destruct (detach_links_pointers _ _ _ _ c Hwf) as (Hgn & Hgp & _).
  pose proof (wf_seg _ _ Hwf) as Hseg. apply seg_app in Hseg as [Hs1 Hs2].
  pose proof (wf_nodup _ _ Hwf) as Hnd. apply NoDup_app in Hnd as (Hnd1 & Hdisj & Hnd2).
  apply NoDup_cons in Hnd2 as [Hn2 Hnd2]. cbn zeta in *.
  set (nx := get_next d (Node n)) in *. set (d' := detach_links c n d) in *.
  assert (nx ∉ Node <$> l1 -> seg d' Sentinel l1 nx) as Hfirst.
  { intros Hnx. apply (seg_relink d d' Sentinel l1 (Node n)); [done|by apply seg_not_sentinel| | | |].
    - by rewrite Hgn, decide_True.
    - by rewrite Hgp, decide_True.
    - intros r _ Hr. by rewrite Hgn, decide_False.
    - intros r Hr. rewrite Hgp, decide_False; [done|]. by intros ->. }
  destruct l2 as [|z l2]; cbn in Hs2.
  - destruct Hs2 as [Hs2 _]. change (nx = Sentinel) in Hs2. rewrite app_nil_r. rewrite Hs2 in *.
    apply Hfirst. intros (? & ? & _)%list_elem_of_fmap. done.
  - destruct Hs2 as (Hnz & _ & Hs2). change (nx = Node z) in Hnz. rewrite Hnz in *.
    apply NoDup_cons in Hnd2 as [Hz2 Hnd2]. apply seg_app. split.
    + apply Hfirst. intros (? & [= ->] & ?)%list_elem_of_fmap. set_solver.
    + eapply seg_frame; [done| |].
      * intros r Hr. rewrite Hgn, decide_False; [done|].
        destruct (last_ptr_in Sentinel l1) as [->|(k & -> & Hk)%list_elem_of_fmap].
        -- intros <-. destruct Hr as [?|(? & ? & _)%list_elem_of_fmap]; done.
        -- intros <-. destruct Hr as [[= ->]|(? & [= ->] & ?)%list_elem_of_fmap]; set_solver.
      * intros r Hr. rewrite Hgp, decide_False; [done|]. intros <-.
        destruct Hr as [?|(? & [= ->] & ?)%list_elem_of_fmap]; done.
Qed.

(** Removing a node from a well-formed list, given that the pointers were
    changed accordingly: [df] is the state in which its build has ended. *)
Lemma wf_remove d df d' l1 n l2 c :
  wf d (l1 ++ n :: l2) -> wf df (l1 ++ n :: l2) ->
  outputBaseIDs d !! c = Some n -> changeID d < 2 ^ 64 - 1 ->
  changeID d' = changeID d + 1 -> outputBaseIDs d' = delete c (outputBaseIDs d) ->
  buildIDs d' = buildIDs df -> alloc d' = alloc d ->
  seg d' Sentinel (l1 ++ l2) Sentinel ->
  (forall k, ent d' k = ent df k) ->
  (forall k, ent d' k = if decide (n = k) then e_set_build None <$> ent d k else ent d k) ->
  wf d' (l1 ++ l2).
Proof using.
  intros Hwf Hwff Hc Hch Hcid Hobi Hbi Hal Hseg Hef He.
  assert (NoDup (l1 ++ l2) /\ n ∉ l1 ++ l2) as [Hnd Hn].
  { pose proof (wf_nodup _ _ Hwf) as Hnd. rewrite NoDup_app, NoDup_cons in *. set_solver. }
  assert (forall k, k ∈ l1 ++ l2 <-> k ∈ l1 ++ n :: l2 /\ k <> n) as Hin by set_solver.
  assert (forall k, e_id <$> ent d' k = e_id <$> ent d k) as Hid.
  { intros k. rewrite He. case_decide; [|done]. by destruct (ent d k). }
  assert (forall k, is_Some (ent d' k) <-> is_Some (ent d k)) as Hsome.
  { intros k. rewrite He. case_decide; [|done]. by rewrite fmap_is_Some. }
  assert (e_cookie <$> omap (ent d') (l1 ++ l2) = e_cookie <$> omap (ent d) (l1 ++ l2)) as Hck.
  { apply fmap_omap_ext. intros k Hk. rewrite He, decide_False; [done|]. by intros ->. }
  pose proof (wf_sorted _ _ Hwf) as Hsort. pose proof (wf_cookies _ _ Hwf) as Hcook.
  pose proof (wf_changeID _ _ Hwf).
  destruct (wf_heap _ _ Hwf n ltac:(set_solver)) as [en Hen].
  rewrite omap_app, fmap_app in Hsort, Hcook. cbn in Hsort, Hcook. rewrite Hen in Hsort, Hcook.
  split; try done.
  - intros k Hk. apply Hsome, (wf_heap _ _ Hwf), Hin, Hk.
  - intros k Hk. rewrite Hal. by apply (wf_alloc _ _ Hwf), Hsome.
  - intros x k. rewrite Hobi, lookup_delete_Some, (wf_ids _ _ Hwf), Hid, Hin.
    split; [|intros ((? & Hkn) & Hx); split; [|done]; intros <-; apply Hkn].
    + intros (Hcx & Hk & Hx). split_and!; [done| |done]. intros ->. apply Hcx.
      apply (wf_ids _ _ Hwf) in Hc as [_ Hc]. congruence.
    + apply (wf_id_inj d (l1 ++ n :: l2) c); [done|done|set_solver|done|].
      by apply (wf_ids _ _ Hwf) in Hc as [_ Hc].
  - intros x k. rewrite Hbi, (wf_builds _ _ Hwff), Hef, Hin. split; [|tauto].
    intros [Hk Hx]. split_and!; [done| |done]. intros ->. rewrite <-Hef, He, decide_True in Hx by done.
    by destruct (ent d n).
  - intros k Hk. destruct (decide (n = k)) as [<-|Hnk].
    + rewrite He, decide_True by done. by destruct (ent d n).
    + rewrite Hef. apply (wf_detached _ _ Hwff). intros Hk'. by apply Hk, Hin.
  - rewrite Hck, omap_app, fmap_app. apply StronglySorted_app in Hsort as (H1 & H2 & H3).
    apply StronglySorted_inv in H3 as [H3 _]. apply StronglySorted_app_2; [|done|done].
    intros x1 x2 Hx1 Hx2. apply H1; [done|]. by right.
  - rewrite Hck, omap_app, fmap_app. apply Forall_app in Hcook as [H1 H2].
    apply Forall_cons in H2 as [_ H2]. apply Forall_app.
    split; (eapply Forall_impl; [eassumption|]); cbn; lia.
  - lia.
Qed.

(** Detaching an output path and ending the build that runs in it. *)
Lemma Clean_detach_spec d l1 n l2 c :
  wf d (l1 ++ n :: l2) -> outputBaseIDs d !! c = Some n -> changeID d < 2 ^ 64 - 1 ->
  wf (Clean_detach c n d) (l1 ++ l2) /\ changeID (Clean_detach c n d) = changeID d + 1 /\
  (forall k, k <> n -> ent (Clean_detach c n d) k = ent d k).
Proof using.
  intros Hwf Hc Hch. unfold Clean_detach. rewrite decide_True by done.
  pose proof (detach_links_seg _ _ _ _ c Hwf) as Hseg.
  destruct (detach_links_pointers _ _ _ _ c Hwf) as (_ & _ & Hent).
  destruct (detach_links_fields c n d) as (Hcid & Hobi & Hbi & Hal).
  destruct (finalize_forcefully_spec _ _ n Hwf) as (Hwf' & _ & _ & _ & Hentf & _).
  rewrite u64_id in Hcid by (pose proof (wf_changeID _ _ Hwf); lia).
  set (d1 := detach_links c n d) in *. set (d' := finalize_forcefully n d1).
  set (df := finalize_forcefully n d) in *.
  assert (changeID d' = changeID d1 /\ outputBaseIDs d' = outputBaseIDs d1 /\ alloc d' = alloc d1 /\
    buildIDs d' = buildIDs df /\ (forall k, ent d' k = ent df k) /\
    seg d' Sentinel (l1 ++ l2) Sentinel) as (Hcid' & Hobi' & Hal' & Hbi' & Hent' & Hseg').
  { unfold d', df, finalize_forcefully. rewrite !heap_build, !Hent.
    destruct (ent d n ≫= e_build) as [bs|]; [|by split_and!].
    split_and!; try done;
      [change (delete (id bs) (buildIDs d1) = delete (id bs) (buildIDs d)); by rewrite Hbi| |].
    - intros k. rewrite !ent_set_build. change (ent (set_buildIDs _ ?x) k) with (ent x k).
      by rewrite Hent.
    - eapply seg_frame; [exact Hseg| |]; intros r _;
        [rewrite get_next_set_build|rewrite get_previous_set_build]; by destruct r. }
  split_and!; [|congruence|intros k Hk; by rewrite Hent', Hentf, decide_False].
  apply (wf_remove d df _ l1 n l2 c);
    [done|done|done|done|congruence|congruence|done|congruence|done|done|].
  intros k. by rewrite Hent', Hentf.
Qed.

(** Starting a build in an output path in which none runs. *)
Definition start_in (n : nat) (bs : buildState) (d : BazelOutputServiceDirectory) :=
  set_buildIDs (<[id bs := n]> (buildIDs d)) (set_build n (Some bs) d).

Lemma start_in_spec d l n bs :
  wf d l -> n ∈ l -> ent d n ≫= e_build = None -> buildIDs d !! id bs = None ->
  wf (start_in n bs d) l /\
  forall k, ent (start_in n bs d) k =
    if decide (n = k) then e_set_build (Some bs) <$> ent d k else ent d k.
Proof using.
  intros Hwf Hn Hb Hi. split; [|intros k; apply (ent_set_build n (Some bs) d)].
  change (start_in n bs d) with (set_build n (Some bs) (set_buildIDs (<[id bs := n]> (buildIDs d)) d)).
  apply wf_set_build; [done|by left|]. intros x k.
  rewrite lookup_insert_Some, ent_set_build, (wf_builds _ _ Hwf).
  destruct (wf_heap _ _ Hwf n Hn) as [e He].
  case_decide as Hnk.
  - subst k. rewrite He in *. cbn in *. rewrite Hb. naive_solver.
  - split; [naive_solver|]. intros [Hk Hx]. right. split_and!; [|done|done]. intros <-.
    pose proof (proj2 (wf_builds _ _ Hwf (id bs) k) (conj Hk Hx)). congruence.
Qed.

Lemma runs_true b e : runs b e = true <-> id <$> e_build e = Some b.
Proof using. unfold runs. by rewrite bool_decide_eq_true. Qed.

Lemma runs_exists d l b :
  wf d l -> existsb (runs b) (omap (ent d) l) = true <-> is_Some (buildIDs d !! b).
Proof using.
  intros Hwf. rewrite existsb_omap. split.
  - intros (n & e & Hn & He & Hr%runs_true). exists n.
    apply (wf_builds _ _ Hwf). by rewrite He.
  - intros [n [Hn Hb]%(wf_builds _ _ Hwf)]. destruct (ent d n) as [e|] eqn:He; [|done].
    exists n, e. by rewrite runs_true.
Qed.

Lemma path_exists d l c :
  wf d l ->
  existsb (is_for c) (omap (ent d) l) = true <-> is_Some (outputBaseIDs d !! c).
Proof using.
  intros Hwf. rewrite existsb_omap. split.
  - intros (n & e & Hn & He & Hr%bool_decide_eq_true). exists n.
    apply (wf_ids _ _ Hwf). by rewrite He, <-Hr.
  - intros [n [Hn Hc]%(wf_ids _ _ Hwf)]. destruct (ent d n) as [e|] eqn:He; [|done].
    exists n, e. injection Hc as Hc. unfold is_for. by rewrite bool_decide_true.
Qed.

(** ** The service implements its abstract counterpart *)

Lemma implements_init : implements NewBazelOutputServiceDirectory {| sv_entries := []; sv_changeID := 0 |}.
Proof using.
  exists []. split; [|done]. split; cbn; try done.
  - constructor.
  - intros n Hn. by apply not_elem_of_nil in Hn.
  - intros n [? ?]. done.
  - intros c n. rewrite lookup_empty. split; [done|]. intros [Hn _]. by apply not_elem_of_nil in Hn.
  - intros c n. rewrite lookup_empty. split; [done|]. intros [Hn _]. by apply not_elem_of_nil in Hn.
  - constructor.
Qed.

Lemma StartBuild_existing d l c n bs :
  wf d l -> outputBaseIDs d !! c = Some n -> buildIDs d !! id bs = None ->
  let d' := start_in n bs (finalize_forcefully n d) in
  wf d' l /\ changeID d' = changeID d /\
  omap (ent d') l = (fun e => if is_for c e then e_set_build (Some bs) e else e)
                      <$> omap (ent d) l.
Proof using.
  intros Hwf Hc Hb. cbn zeta. apply (wf_ids _ _ Hwf) in Hc as [Hn Hid].
  destruct (finalize_forcefully_spec d l n Hwf) as (Hwf1 & _ & Hcid & _ & Hent & Hbn).
  destruct (start_in_spec _ l n bs Hwf1 Hn) as (Hwf2 & Hent2); [|by apply Hbn|].
  { rewrite Hent, decide_True by done. by destruct (ent d n). }
  split_and!; [done|done|]. apply omap_fmap_ext. intros k Hk. rewrite Hent2, Hent.
  destruct (decide (n = k)) as [<-|Hnk].
  - destruct (ent d n) as [e|]; [|done]. unfold is_for. cbn in *. injection Hid as Hid.
    by rewrite bool_decide_true.
  - destruct (ent d k) as [e|] eqn:He; [|done]. unfold is_for. cbn. rewrite bool_decide_false; [done|].
    intros Hek. apply Hnk. apply (wf_id_inj d l c); [done..|]. rewrite He. cbn. by f_equal.
Qed.

Lemma StartBuild_new d l c bs cff root :
  wf d l -> outputBaseIDs d !! c = None -> buildIDs d !! id bs = None -> changeID d < 2 ^ 64 - 1 ->
  let '(n, d1) := new_output_path c cff root d in
  let d' := start_in n bs d1 in
  wf d' (l ++ [n]) /\ changeID d' = changeID d + 1 /\
  omap (ent d') (l ++ [n]) = omap (ent d) l ++
    [{| e_id := c; e_cookie := changeID d; e_root := root; e_build := Some bs |}].
Proof using.
  intros Hwf Hc Hb Hch. pose proof (new_output_path_spec d l c cff root Hwf Hc Hch) as Hspec.
  destruct (new_output_path c cff root d) as [n d1]. cbn [fst snd] in Hspec. cbn zeta in *.
  destruct Hspec as (Hwf1 & Hcid & Hbi & Hnl & Hent).
  destruct (start_in_spec d1 (l ++ [n]) n bs Hwf1) as (Hwf2 & Hent2); [set_solver| |by rewrite Hbi|].
  { by rewrite Hent, decide_True. }
  split_and!; [done|done|]. rewrite omap_app. f_equal.
  - apply omap_ext_in. intros k Hk. rewrite Hent2, Hent, !decide_False; [done|by intros ->..].
  - cbn. by rewrite Hent2, Hent, !decide_True.
Qed.

Lemma sv_path_Some c a e : sv_path c a = Some e -> e ∈ sv_entries a /\ e_id e = c.
Proof using.
  unfold sv_path. destruct (list_find _ _) as [[i e']|] eqn:Hf; [|done]. intros [= ->].
  apply list_find_Some in Hf as (Hi & Hc%Is_true_true%bool_decide_eq_true & _).
  by apply list_elem_of_lookup_2 in Hi.
Qed.

Lemma sv_running_Some b a e : sv_running b a = Some e -> e ∈ sv_entries a /\ runs b e = true.
Proof using.
  unfold sv_running. destruct (list_find _ _) as [[i e']|] eqn:Hf; [|done]. intros [= ->].
  apply list_find_Some in Hf as (Hi & Hc%Is_true_true & _). by apply list_elem_of_lookup_2 in Hi.
Qed.

Lemma running_inj d a b e e' :
  implements d a -> e ∈ sv_entries a -> e' ∈ sv_entries a ->
  runs b e = true -> runs b e' = true -> e = e'.
Proof using.
  intros (l & Hwf & -> & _) (n & Hn & He)%list_elem_of_omap (n' & Hn' & He')%list_elem_of_omap
    Hr%runs_true Hr'%runs_true.
  assert (n = n') as ->; [|congruence].
  apply (wf_build_inj d l b); [done..|by rewrite He|by rewrite He'].
Qed.

Section Refinement.
Context (d : BazelOutputServiceDirectory) (a : service) (Himp : implements d a).

Lemma StartBuild_implements c b df swf w :
  sv_changeID a < 2 ^ 64 - 1 ->
  run_rel (fun '(n, d') a' => buildIDs d' !! b = Some n /\ implements d' a')
    (StartBuild_locked c b df swf d w)
    (sv_StartBuild c {| id := b; digestFunction := df; scopeWalkerFactory := swf |} a w).
Proof using Himp.
  destruct Himp as (l & Hwf & Hents & Hcid). intros Hch. rewrite Hcid in Hch.
  set (bs := {| id := b; digestFunction := df; scopeWalkerFactory := swf |}).
  unfold StartBuild_locked, sv_StartBuild. rewrite Hents, Hcid. cbn [id bs digestFunction].
  destruct (buildIDs d !! b) as [n|] eqn:Hb.
  { rewrite (proj2 (runs_exists d l b Hwf)) by by eexists. apply run_rel_ret. split; [done|by exists l]. }
  destruct (existsb (runs b) _) eqn:Hr.
  { apply (runs_exists d l b Hwf) in Hr as [? ?]. congruence. }
  destruct (outputBaseIDs d !! c) as [n|] eqn:Hc.
  { rewrite (proj2 (path_exists d l c Hwf)) by by eexists. apply run_rel_ret.
    destruct (StartBuild_existing d l c n bs Hwf Hc Hb) as (Hwf' & Hcid' & Hents').
    split; [by apply lookup_insert_eq|]. exists l. split_and!; [exact Hwf'|symmetry; exact Hents'|symmetry; exact Hcid']. }
  destruct (existsb (is_for c) _) eqn:Hp.
  { apply (path_exists d l c Hwf) in Hp as [? ?]. congruence. }
  apply run_rel_fmap. intros [cff root].
  pose proof (StartBuild_new d l c bs cff root Hwf Hc Hb Hch) as Hnew. cbn [snd].
  destruct (new_output_path c cff root d) as [n d1]. destruct Hnew as (Hwf' & Hcid' & Hents').
  split; [by apply lookup_insert_eq|]. exists (l ++ [n]). split_and!; [exact Hwf'|symmetry; exact Hents'|symmetry; exact Hcid'].
Qed.

(** The build that was started is entered last. *)
Lemma StartBuild_result c b df swf w n d' :
  buildIDs d !! b = None -> (StartBuild_locked c b df swf d w).1 = Some (Ret (n, d')) ->
  exists d1, d' = start_in n {| id := b; digestFunction := df; scopeWalkerFactory := swf |} d1.
Proof using.
  intros Hb. unfold StartBuild_locked. rewrite Hb. destruct (outputBaseIDs d !! c) as [n0|].
  - intros [= <- <-]. by eexists.
  - unfold fmap, run_fmap. destruct (initial_root c df w) as [[[[cff root]|]|] w']; try done.
    destruct (new_output_path c cff root d) as [n1 d1]. intros [= <- <-]. by exists d1.
Qed.

Lemma sv_running_spec l b n :
  wf d l -> sv_entries a = omap (ent d) l -> buildIDs d !! b = Some n ->
  exists s bs, heap d !! n = Some s /\ buildStateOf s = Some bs /\ id bs = b /\
    sv_running b a = Some (entry_of s).
Proof using.
  intros Hwf Hents Hb. pose proof (proj1 (wf_builds _ _ Hwf b n) Hb) as [Hn He].
  unfold ent in He. destruct (heap d !! n) as [s|] eqn:Hs; [|done]. cbn in He.
  destruct (buildStateOf s) as [bs|] eqn:Hbs; [|done]. exists s, bs.
  split_and!; [done|done|by injection He|]. unfold sv_running. rewrite Hents.
  destruct (list_find _ _) as [[i e]|] eqn:Hf; cbn.
  - apply list_find_Some in Hf as (Hi & Hr%Is_true_true%runs_true & _).
    apply list_elem_of_lookup_2, list_elem_of_omap in Hi as (k & Hk & Hek).
    assert (buildIDs d !! b = Some k) as Hbk.
    { apply (wf_builds _ _ Hwf). split; [done|]. by rewrite Hek. }
    assert (k = n) as -> by congruence. unfold ent in Hek. rewrite Hs in Hek. cbn in *. congruence.
  - apply list_find_None in Hf. rewrite Forall_forall in Hf. exfalso. apply (Hf (entry_of s)).
    + apply list_elem_of_omap. exists n. unfold ent. by rewrite Hs.
    + apply Is_true_true, runs_true. cbn. by rewrite Hbs.
Qed.

Lemma sv_running_None l b :
  wf d l -> sv_entries a = omap (ent d) l -> buildIDs d !! b = None -> sv_running b a = None.
Proof using.
  intros Hwf Hents Hb. unfold sv_running. destruct (list_find _ _) as [[i e]|] eqn:Hf; [|done].
  apply list_find_Some in Hf as (Hi & Hr%Is_true_true & _).
  apply list_elem_of_lookup_2 in Hi.
  destruct (proj1 (runs_exists d l b Hwf)) as [? ?]; [|congruence].
  apply existsb_exists. exists e. rewrite <-list_elem_of_In, <-Hents. done.
Qed.

Lemma FinalizeBuild_implements b w :
  run_rel (fun d' a' => implements d' a' /\ buildIDs d' !! b = None)
    (FinalizeBuild b d w) (sv_FinalizeBuild b a w).
Proof using Himp.
  destruct Himp as (l & Hwf & Hents & Hcid).
  unfold FinalizeBuild, sv_FinalizeBuild.
  destruct (buildIDs d !! b) as [n|] eqn:Hb.
  - destruct (sv_running_spec l b n Hwf Hents Hb) as (s & bs & Hs & Hbs & Hid & ->).
    rewrite Hs, Hbs. cbn [entry_of e_build e_root]. rewrite Hbs. apply run_rel_fmap. intros _.
    subst b. split; [|by apply lookup_delete_eq].
    destruct (finalize_forcefully_spec d l n Hwf) as (Hwf' & _ & _ & _ & Hent & _).
    unfold finalize_forcefully in Hwf', Hent. rewrite Hs in Hwf', Hent. cbn in Hwf', Hent.
    rewrite Hbs in Hwf', Hent. exists l. split_and!; [done| |done]. cbn. rewrite Hents.
    symmetry. apply omap_fmap_ext. intros k Hk. etrans; [apply Hent|].
    destruct (decide (n = k)) as [<-|Hnk].
    + unfold ent. rewrite Hs. cbn. by rewrite (proj2 (runs_true _ _)) by (cbn; by rewrite Hbs).
    + destruct (ent d k) as [e|] eqn:He; [|done]. cbn. destruct (runs (id bs) e) eqn:Hr; [|done].
      apply runs_true in Hr. exfalso. apply Hnk. apply (wf_builds _ _ Hwf) in Hb as [Hn Hbn].
      apply (wf_build_inj d l (id bs)); [done..|by rewrite He].
  - rewrite (sv_running_None l) by done. apply run_rel_ret. split; [|done]. by exists l.
Qed.

Lemma implements_sorted : StronglySorted Z.lt (e_cookie <$> sv_entries a).
Proof using Himp. destruct Himp as (l & Hwf & -> & _). apply Hwf. Qed.

Lemma implements_ids_nodup : NoDup (e_id <$> sv_entries a).
Proof using Himp.
  destruct Himp as (l & Hwf & -> & _). pose proof (wf_nodup _ _ Hwf) as Hnd.
  pose proof (fun n => wf_heap _ _ Hwf n) as Hheap.
  assert (forall c n, n ∈ l -> e_id <$> ent d n = Some c -> outputBaseIDs d !! c = Some n) as Hids
    by (intros; by apply (wf_ids _ _ Hwf)).
  clear Hwf Himp. induction l as [|n l IH]; [constructor|].
  apply NoDup_cons in Hnd as [Hn Hnd]. destruct (Hheap n ltac:(set_solver)) as [e He].
  cbn. rewrite He. apply NoDup_cons. split; [|apply IH; set_solver].
  intros (e' & Heq & (k & Hk & Hek)%list_elem_of_omap)%list_elem_of_fmap.
  assert (outputBaseIDs d !! e_id e = Some n) by (apply Hids; [set_solver|by rewrite He]).
  assert (outputBaseIDs d !! e_id e = Some k) by (apply Hids; [set_solver|by rewrite Hek, Heq]).
  assert (n = k) by congruence. set_solver.
Qed.

Lemma sv_path_spec l c :
  wf d l -> sv_entries a = omap (ent d) l ->
  match outputBaseIDs d !! c with
  | Some n => exists s, heap d !! n = Some s /\ sv_path c a = Some (entry_of s)
  | None => sv_path c a = None
  end.
Proof using.
  intros Hwf Hents. unfold sv_path. rewrite Hents.
  destruct (list_find _ _) as [[i e]|] eqn:Hf; cbn.
  - apply list_find_Some in Hf as (Hi & Hc%Is_true_true%bool_decide_eq_true & _).
    apply list_elem_of_lookup_2, list_elem_of_omap in Hi as (k & Hk & Hek).
    rewrite (proj2 (wf_ids _ _ Hwf c k)) by (split; [done|by rewrite Hek, <-Hc]).
    unfold ent in Hek. destruct (heap d !! k) as [s|]; [|done]. exists s. cbn in Hek. by simplify_eq.
  - apply list_find_None in Hf. rewrite Forall_forall in Hf.
    destruct (outputBaseIDs d !! c) as [n|] eqn:Hn; [|done]. exfalso.
    apply (wf_ids _ _ Hwf) in Hn as [Hn Hid]. destruct (ent d n) as [e|] eqn:He; [|done].
    apply (Hf e); [apply list_elem_of_omap; by exists n|].
    apply Is_true_true, bool_decide_eq_true. cbn in Hid. congruence.
Qed.

Lemma Clean_implements c n :
  sv_changeID a < 2 ^ 64 - 1 ->
  implements (Clean_detach c n d) (if decide (Clean_lookup c d = Some n) then sv_Clean c a else a).
Proof using Himp.
  destruct Himp as (l & Hwf & Hents & Hcid). intros Hch. rewrite Hcid in Hch.
  unfold Clean_lookup. destruct (decide (outputBaseIDs d !! c = Some n)) as [Hc|Hc].
  - unfold sv_Clean. rewrite Hents, (proj2 (path_exists d l c Hwf)) by by eexists.
    pose proof (proj1 (wf_ids _ _ Hwf c n) Hc) as [Hn Hid].
    apply list_elem_of_split in Hn as (l1 & l2 & ->).
    destruct (Clean_detach_spec d l1 n l2 c Hwf Hc Hch) as (Hwf' & Hcid' & Hent).
    pose proof (wf_nodup _ _ Hwf) as Hnd. rewrite NoDup_app, NoDup_cons in Hnd.
    assert (forall k, k ∈ l1 ++ l2 -> k <> n) as Hkn by set_solver.
    exists (l1 ++ l2). split_and!; [done| |cbn; congruence]. cbn [sv_entries].
    rewrite (omap_ext_in (ent (Clean_detach c n d)) (ent d) (l1 ++ l2)) by (intros k Hk; auto).
    rewrite !omap_app. cbn.
    destruct (ent d n) as [e|]; [|done]. cbn in Hid. injection Hid as Hid.
    assert (forall ks, ks ⊆ l1 ++ l2 -> filter (fun e => e_id e <> c) (omap (ent d) ks) = omap (ent d) ks) as Hf.
    { intros ks Hks. apply filter_all, Forall_forall.
      intros e' (k & Hk & Hek)%list_elem_of_omap Hide. apply (Hkn k); [by apply Hks|].
      assert (outputBaseIDs d !! c = Some k); [|congruence].
      apply (wf_ids _ _ Hwf). rewrite Hek. split; [set_solver|]. cbn. congruence. }
    rewrite filter_app, filter_cons_False, !Hf by (set_solver || (intros Hne; by apply Hne)). done.
  - unfold Clean_detach. rewrite decide_False by done. exists l. by split_and!.
Qed.

Lemma outputBaseIDs_size : size (outputBaseIDs d) = length (sv_entries a).
Proof using Himp.
  pose proof implements_ids_nodup as Hnd. destruct Himp as (l & Hwf & Hents & _).
  rewrite <-(size_dom (D := gset Component)).
  assert (dom (outputBaseIDs d) = list_to_set (e_id <$> sv_entries a)) as ->.
  { apply set_eq. intros c. rewrite elem_of_dom, <-(path_exists d l c Hwf), <-Hents.
    rewrite elem_of_list_to_set, list_elem_of_fmap, existsb_exists. unfold is_for.
    setoid_rewrite bool_decide_eq_true. setoid_rewrite <-list_elem_of_In. naive_solver. }
  by rewrite size_list_to_set, length_fmap.
Qed.

End Refinement.

Lemma getOutputPathAndBuildState_implements d a b :
  implements d a ->
  match getOutputPathAndBuildState b d with
  | Ok (n, bs) => exists e, ent d n = Some e /\ sv_running b a = Some e /\ bs = e_build e /\ is_Some bs
  | Err e => e = status_Error FailedPrecondition "Build ID is not associated with any running build" /\
      sv_running b a = None /\ buildIDs d !! b = None
  end.
Proof using.
  intros (l & Hwf & Hents & Hcid). unfold getOutputPathAndBuildState.
  destruct (buildIDs d !! b) as [n|] eqn:Hb.
  - destruct (sv_running_spec d a l b n Hwf Hents Hb) as (s & bs & Hs & Hbs & _ & ->).
    exists (entry_of s). unfold ent. rewrite Hs. cbn. rewrite Hbs. by split_and!.
  - split_and!; [done| |done]. by apply (sv_running_None d a l).
Qed.

Section Requests.
Context (d : BazelOutputServiceDirectory) (a : service) (Himp : implements d a).

(** [StartBuild] refines the abstract service. Its critical section leaves a
    running build with the requested ID alone, moves an existing output path to
    the new build (ending the one that ran in it), and otherwise creates an
    output path at the end of the list, with the root directory that the
    factory returned; only then is the factory called, and it is the only source of
    panics. Afterwards the build ID designates the output path that is returned,
    with the state of the build that was running already or with the new one. *)
Theorem StartBuild_refines c b df swf w :
  sv_changeID a < 2 ^ 64 - 1 ->
  let bs := {| id := b; digestFunction := df; scopeWalkerFactory := swf |} in
  run_rel (fun '(n, d') a' =>
      implements d' a' /\
      getOutputPathAndBuildState b d' =
        Ok (n, Some (from_option (fun e => default bs (e_build e)) bs (sv_running b a))))
    (StartBuild_locked c b df swf d w) (sv_StartBuild c bs a w).
Proof using Himp.
  intros Hch bs. pose proof (StartBuild_implements d a Himp c b df swf w Hch) as Hspec.
  fold bs in Hspec.
  apply (run_rel_impl _ _ _ _ Hspec). intros [n d'] a' [Hb Himp'] Hsb. split; [done|].
  pose proof Himp as (l & Hwf & Hents & _). destruct (buildIDs d !! b) as [n0|] eqn:Hb0.
  - unfold StartBuild_locked in Hsb. rewrite Hb0 in Hsb. injection Hsb as -> ->.
    destruct (sv_running_spec d' a l b n Hwf Hents Hb0) as (s & bs' & Hs & Hbs' & _ & ->).
    unfold getOutputPathAndBuildState. rewrite Hb0, Hs. cbn. by rewrite Hbs'.
  - rewrite (sv_running_None d a l) by done. cbn [from_option].
    apply StartBuild_result in Hsb as [d1 Hd1]; [|done]. fold bs in Hd1.
    pose proof (getOutputPathAndBuildState_implements _ _ b Himp') as Hget.
    unfold getOutputPathAndBuildState in *. rewrite Hb, heap_build in *.
    destruct Hget as (e & He & _ & _ & _). rewrite He. do 2 f_equal.
    assert (ent (set_build n (Some bs) d1) n = Some e) as He1 by (rewrite <-He, Hd1; done).
    rewrite ent_set_build, decide_True in He1 by done. destruct (ent d1 n); by simplify_eq/=.
Qed.

(** [FinalizeBuild] refines the abstract service and never dereferences a nil
    [buildState]: it only panics if the output path does. The output path of the
    build is told that it ended, with the digest function it was started with, and
    the build ID is no longer accepted. An unknown build ID is ignored, which makes
    the call idempotent. *)
Theorem FinalizeBuild_refines b w :
  run_rel (fun d' a' =>
      implements d' a' /\
      getOutputPathAndBuildState b d' = Err (status_Error FailedPrecondition
        "Build ID is not associated with any running build") /\
      forall w', FinalizeBuild b d' w' = (Some (Ret d'), w'))
    (FinalizeBuild b d w) (sv_FinalizeBuild b a w).
Proof using Himp.
  apply (run_rel_impl _ _ _ _ (FinalizeBuild_implements d a Himp b w)). intros d' a' [Himp' Hb] _.
  split; [done|]. unfold getOutputPathAndBuildState, FinalizeBuild. by rewrite Hb.
Qed.

(** The second critical section of [Clean] refines the abstract service. When
    the output path that was emptied is still the current one for the output base
    ID, it is removed: its name can no longer be looked up and the build that ran
    in it is no longer accepted. When it was replaced in the meantime, nothing
    changes. *)
Theorem Clean_refines c n :
  sv_changeID a < 2 ^ 64 - 1 ->
  if decide (Clean_lookup c d = Some n) then
    implements (Clean_detach c n d) (sv_Clean c a) /\
    VirtualLookup c (Clean_detach c n d) = VErr StatusErrNoEnt /\
    forall b, (exists e, sv_running b a = Some e /\ e_id e = c) ->
      getOutputPathAndBuildState b (Clean_detach c n d) = Err (status_Error FailedPrecondition
        "Build ID is not associated with any running build")
  else Clean_detach c n d = d.
Proof using Himp.
  intros Hch. pose proof (Clean_implements d a Himp c n Hch) as Himp'.
  destruct (decide (Clean_lookup c d = Some n)) as [Hc|Hc];
    [|unfold Clean_detach, Clean_lookup in *; by rewrite decide_False].
  assert (forall e, e ∈ sv_entries (sv_Clean c a) -> e ∈ sv_entries a /\ e_id e <> c) as Hgone.
  { intros e. destruct Himp as (l & Hwf & Hents & _). unfold sv_Clean. rewrite Hents.
    rewrite (proj2 (path_exists d l c Hwf)) by by eexists. cbn. rewrite list_elem_of_filter. tauto. }
  split_and!; [done| |].
  - destruct Himp' as (l' & Hwf' & Hents' & _). unfold VirtualLookup.
    pose proof (sv_path_spec _ _ l' c Hwf' Hents') as Hpath.
    destruct (outputBaseIDs _ !! c) as [n'|]; [|done]. destruct Hpath as (s & _ & Hpath).
    apply sv_path_Some in Hpath as [Hin Hid]. by apply Hgone in Hin as [_ ?].
  - intros b (e & [He Hr]%sv_running_Some & Hid).
    pose proof (getOutputPathAndBuildState_implements _ _ b Himp') as Hget.
    destruct (getOutputPathAndBuildState b _) as [[n' bs]|err]; [|by destruct Hget as (-> & _)].
    destruct Hget as (e' & _ & [He' Hr']%sv_running_Some & _).
    apply Hgone in He' as [He' Hid']. by rewrite (running_inj d a b e e') in Hid.
Qed.

(** [VirtualLookup] finds the root directory of the output path with the
    given name, [VirtualOpenChild] tells existing names from absent ones, and
    the link count and change ID are those of the abstract service. *)
Theorem lookups_refine (handle_GetAttributes : Z -> Attributes -> Attributes)
    (Hhandle : forall m a, a_ChangeID (handle_GetAttributes m a) = a_ChangeID a /\
       a_LinkCount (handle_GetAttributes m a) = a_LinkCount a)
    c requested attrs create existing :
  VirtualLookup c d = from_option (fun e => VOk (e_root e)) (VErr StatusErrNoEnt) (sv_path c a) /\
  VirtualOpenChild c create existing d =
    match sv_path c a with
    | Some _ => ReadOnlyDirectoryOpenChildWrongFileType existing StatusErrIsDir
    | None => ReadOnlyDirectoryOpenChildDoesntExist create
    end /\
  (Z.land requested (Z.lor AttributesMaskChangeID AttributesMaskLinkCount) <> 0 ->
   a_ChangeID (VirtualGetAttributes handle_GetAttributes requested d attrs) = Some (sv_changeID a) /\
   a_LinkCount (VirtualGetAttributes handle_GetAttributes requested d attrs) =
     Some (u32 (EmptyDirectoryLinkCount + Z.of_nat (length (sv_entries a))))).
Proof using Himp.
  destruct Himp as (l & Hwf & Hents & Hcid). pose proof (sv_path_spec d a l c Hwf Hents) as Hpath.
  split_and!.
  - unfold VirtualLookup. destruct (outputBaseIDs d !! c) as [n|]; [|by rewrite Hpath].
    destruct Hpath as (s & Hs & ->). cbn. by rewrite Hs.
  - unfold VirtualOpenChild. destruct (outputBaseIDs d !! c) as [n|]; [|by rewrite Hpath].
    by destruct Hpath as (s & _ & ->).
  - intros Hreq. unfold VirtualGetAttributes. rewrite !(proj1 (Hhandle _ _)), !(proj2 (Hhandle _ _)). cbn. rewrite bool_decide_false by done. cbn.
    split; [by rewrite Hcid|]. f_equal.
    by rewrite (outputBaseIDs_size d a Himp), u32_add_r.
Qed.

End Requests.

(** ** Reading the directory *)

(** The part of [es] that a reporter takes, given what it took before. *)
Fixpoint take_accepted (accept : list direntry -> direntry -> bool) (reported es : list direntry)
  : list direntry :=
  match es with
  | [] => reported
  | e :: es => if accept reported e then take_accepted accept (reported ++ [e]) es else reported
  end.

Lemma take_accepted_prefix accept reported es :
  exists k, take_accepted accept reported es = reported ++ take k es /\
    ((forall r e, accept r e = true) -> k = length es).
Proof using.
  revert reported. induction es as [|e es IH]; intros reported; cbn.
  { exists 0%nat. by rewrite app_nil_r. }
  destruct (accept reported e) eqn:Ha.
  - destruct (IH (reported ++ [e])) as (k & -> & Hk). exists (S k). rewrite <-app_assoc.
    split; [done|]. intros Hall. by rewrite Hk.
  - exists 0%nat. rewrite app_nil_r. split; [done|]. intros Hall. by rewrite Hall in Ha.
Qed.

Lemma readdir_report_spec d accept p xs fuel reported :
  seg d p xs Sentinel -> Forall (fun n => is_Some (ent d n)) xs -> (length xs <= fuel)%nat ->
  readdir_report fuel d accept reported (get_next d p) =
    Some (take_accepted accept reported (sv_direntry <$> omap (ent d) xs)).
Proof using.
  revert p fuel reported. induction xs as [|x xs IH]; intros p fuel reported Hseg Hsome Hfuel.
  { destruct Hseg as [-> _]. by destruct fuel. }
  destruct Hseg as (-> & _ & Hseg). apply Forall_cons in Hsome as [[e He] Hsome].
  destruct fuel as [|fuel]; cbn in Hfuel; [lia|]. cbn. rewrite He. unfold ent in He.
  destruct (heap d !! x) as [s|] eqn:Hs; [|done]. injection He as <-.
  unfold sv_direntry at 1. cbn. case_match; [|done].
  assert (next s = get_next d (Node x)) as -> by (cbn; by rewrite Hs).
  apply IH; [done|done|lia].
Qed.

Lemma readdir_find_spec d first p xs fuel :
  seg d p xs Sentinel -> Forall (fun n => is_Some (ent d n)) xs ->
  StronglySorted Z.lt (e_cookie <$> omap (ent d) xs) -> (length xs <= fuel)%nat ->
  exists q ys, readdir_find fuel d first (get_next d p) = Some (get_next d q) /\
    seg d q ys Sentinel /\ (length ys <= length xs)%nat /\ Forall (fun n => is_Some (ent d n)) ys /\
    omap (ent d) ys = filter (fun e => first <= e_cookie e) (omap (ent d) xs).
Proof using.
  revert p fuel. induction xs as [|x xs IH]; intros p fuel Hseg Hsome Hsort Hfuel.
  { exists p, []. destruct Hseg as [Hn Hp]. rewrite Hn. by destruct fuel. }
  destruct Hseg as (Hnx & Hpx & Hseg). pose proof Hsome as Hsome'.
  apply Forall_cons in Hsome' as [[e He] Hsome'].
  cbn in Hsort. rewrite He in Hsort. cbn in Hsort. apply StronglySorted_inv in Hsort as [Hsort Hall].
  destruct fuel as [|fuel]; cbn in Hfuel; [lia|]. rewrite Hnx. cbn. rewrite He.
  pose proof He as He'. unfold ent in He'.
  destruct (heap d !! x) as [s|] eqn:Hs; [|done]. injection He' as <-.
  destruct (bool_decide (first <= cookie s)) eqn:Hc.
  - apply bool_decide_eq_true in Hc. exists p, (x :: xs). rewrite Hnx.
    split; [done|]. split; [done|]. split; [done|]. split; [done|].
    cbn [omap list_omap]. rewrite He.
    symmetry. apply filter_all. constructor; [done|]. rewrite Forall_fmap in Hall.
    eapply Forall_impl; [done|]. cbn. lia.
  - apply bool_decide_eq_false in Hc. rewrite filter_cons_False by done.
    destruct (IH (Node x) fuel Hseg Hsome' Hsort) as (q & ys & Hf & Hq & Hlen & Hys & Heq); [lia|].
    exists q, ys. cbn in Hf. rewrite Hs in Hf. cbn in Hf. split_and!; try done. lia.
Qed.

Lemma readdir_take d a fuel first accept :
  implements d a -> (length (sv_entries a) <= fuel)%nat ->
  VirtualReadDir fuel first accept d = Some (take_accepted accept []
    (sv_direntry <$> filter (fun e => first <= e_cookie e) (sv_entries a))).
Proof using.
  intros (l & Hwf & Hents & _) Hfuel. rewrite Hents in *.
  assert (Forall (fun n => is_Some (ent d n)) l) as Hsome by apply Forall_forall, Hwf.
  assert (length (omap (ent d) l) = length l) as Hlen by by apply length_omap_total.
  destruct (readdir_find_spec d first Sentinel l fuel) as (q & ys & Hf & Hseg & Hle & Hys & <-);
    [apply Hwf|done|apply Hwf|lia|].
  unfold VirtualReadDir. change (list_next d) with (get_next d Sentinel). rewrite Hf.
  apply readdir_report_spec; [done|done|lia].
Qed.

(** C26. [VirtualReadDir] terminates, after at most as many steps as there are
    output paths, and reports the output paths from the given cookie on, in the
    order of their creation, until the reporter has no room left. *)
Theorem VirtualReadDir_spec d a fuel first accept :
  implements d a -> (length (sv_entries a) <= fuel)%nat ->
  VirtualReadDir fuel first accept d = Some (take_accepted accept []
    (sv_direntry <$> filter (fun e => first <= e_cookie e) (sv_entries a))).
Proof using.
  apply readdir_take.
Qed.

(** Reading the directory page by page: a page starts at the cookie that the last
    reported entry gave, and the directory may have changed since. *)
Definition next_page (first : Z) (es : list direntry) : Z := from_option nextCookie first (last es).

Fixpoint read_pages (fuel : nat) (first : Z)
    (pages : list ((list direntry -> direntry -> bool) * BazelOutputServiceDirectory))
  : option (list direntry) :=
  match pages with
  | [] => Some []
  | (accept, d) :: pages =>
      match VirtualReadDir fuel first accept d with
      | None => None
      | Some es => app es <$> read_pages fuel (next_page first es) pages
      end
  end.

Lemma next_page_upper first es :
  StronglySorted Z.lt (nextCookie <$> es) ->
  Forall (fun z => z <= next_page first es) (nextCookie <$> es).
Proof using.
  intros Hs. unfold next_page. destruct (last es) as [e|] eqn:He.
  - apply last_Some in He as [es' ->]. cbn. rewrite fmap_app in *.
    apply StronglySorted_app in Hs as (Hlt & _ & _). apply Forall_app.
    split; [|repeat constructor; cbn; lia]. apply Forall_forall. intros z Hz.
    apply Z.lt_le_incl, Hlt; [done|]. cbn. by left.
  - apply last_None in He as ->. constructor.
Qed.

Lemma next_page_lower (Q : Z -> Prop) first es :
  Q first -> Forall Q (nextCookie <$> es) -> Q (next_page first es).
Proof using.
  intros Hf Hes. unfold next_page. destruct (last es) as [e|] eqn:He; [|done]. cbn.
  rewrite Forall_fmap, Forall_forall in Hes. apply (Hes e).
  apply last_Some in He as [es' ->]. set_solver.
Qed.

Lemma direntry_cookies d a es :
  implements d a -> es ⊆ sv_entries a ->
  nextCookie <$> (sv_direntry <$> es) = (fun z => z + 1) <$> (e_cookie <$> es).
Proof using.
  intros (l & Hwf & Hents & _) Hes. rewrite <-!list_fmap_compose. apply list_fmap_ext.
  intros i e Hi%list_elem_of_lookup_2. cbn. apply u64_id.
  pose proof (wf_cookies _ _ Hwf) as Hck. pose proof (wf_changeID _ _ Hwf).
  rewrite Forall_fmap, Forall_forall in Hck. specialize (Hck e). cbn in Hck.
  rewrite <-Hents in Hck. specialize (Hck ltac:(by apply Hes)). lia.
Qed.

(** A page is a part of the directory: all it has from the cookie on, up to where
    the next page starts. *)
Lemma page_spec d a fuel first accept :
  implements d a -> (length (sv_entries a) <= fuel)%nat ->
  exists es, VirtualReadDir fuel first accept d = Some es /\
    StronglySorted Z.lt (nextCookie <$> es) /\
    Forall (fun z => first < z <= next_page first es) (nextCookie <$> es) /\
    (forall e, e ∈ sv_entries a -> first <= e_cookie e -> 
       sv_direntry e ∈ es \/ next_page first es <= e_cookie e) /\
    ((forall r e, accept r e = true) ->
       forall e, e ∈ sv_entries a -> first <= e_cookie e -> sv_direntry e ∈ es).
Proof using.
  intros Himp Hfuel. set (fs := filter (fun e => first <= e_cookie e) (sv_entries a)).
  assert (forall e, e ∈ fs <-> first <= e_cookie e /\ e ∈ sv_entries a) as Hfs
    by (intros; unfold fs; by rewrite list_elem_of_filter).
  assert (StronglySorted Z.lt (nextCookie <$> (sv_direntry <$> fs))) as Hsort.
  { rewrite (direntry_cookies d a) by (done || (intros e ?; by apply Hfs)).
    eapply StronglySorted_fmap; [intros ? ? Hlt; exact (proj1 (Z.add_lt_mono_r _ _ 1) Hlt)|]. apply StronglySorted_fmap_filter.
    by eapply implements_sorted. }
  exists (take_accepted accept [] (sv_direntry <$> fs)).
  split; [by apply readdir_take|].
  destruct (take_accepted_prefix accept [] (sv_direntry <$> fs)) as (k & -> & Hk). cbn [app].
  rewrite <-(take_drop k (sv_direntry <$> fs)), fmap_app in Hsort.
  apply StronglySorted_app in Hsort as (Hlt & Hsort & _).
  set (es := take k (sv_direntry <$> fs)) in *.
  assert (Forall (fun z => first < z) (nextCookie <$> es)) as Hfirst.
  { unfold es. rewrite fmap_take, (direntry_cookies d a) by (done || (intros e ?; by apply Hfs)).
    apply Forall_take, Forall_fmap, Forall_fmap, Forall_forall. intros e He%Hfs. cbn. lia. }
  assert (forall e, e ∈ sv_entries a -> first <= e_cookie e ->
    sv_direntry e ∈ es \/ sv_direntry e ∈ drop k (sv_direntry <$> fs)) as Hsplit.
  { intros e He Hc. rewrite <-elem_of_app. unfold es. rewrite take_drop.
    apply list_elem_of_fmap_2. by apply Hfs. }
  split_and!; [done| | |].
  - apply Forall_and. split; [done|]. by apply next_page_upper.
  - intros e He Hc. destruct (Hsplit e He Hc) as [?|Hd]; [by left|right].
    apply next_page_lower; [done|]. apply Forall_forall. intros z Hz.
    assert (z < nextCookie (sv_direntry e)) as Hz' by (apply Hlt; [done|by apply list_elem_of_fmap_2]).
    assert (nextCookie <$> (sv_direntry <$> [e]) = (fun z => z + 1) <$> (e_cookie <$> [e])) as Hone
      by (apply (direntry_cookies d a); [done|set_solver]).
    injection Hone as Hone. cbn in Hz'. lia.
  - intros Hall e He Hc. destruct (Hsplit e He Hc) as [?|Hd]; [done|].
    rewrite Hk, drop_all in Hd by done. by apply not_elem_of_nil in Hd.
Qed.

(** The output path of [e] exists: there it is, whatever build it is used by. *)
Definition exists_in (e : entry) (a : service) : Prop := exists bs, e_set_build bs e ∈ sv_entries a.

(** C27. Reading the directory in pages while builds start, end and output paths
    are cleaned is consistent: every call succeeds, cookies strictly increase,
    so that no output path is reported twice, and an output path that exists
    throughout is reported, also when builds that use it start and end meanwhile. *)
Theorem read_pages_complete fuel pages services :
  Forall2 implements pages.*2 services ->
  Forall (fun a => (length (sv_entries a) <= fuel)%nat) services ->
  forall first, exists es, read_pages fuel first pages = Some es /\
    StronglySorted Z.lt (nextCookie <$> es) /\ Forall (fun z => first < z) (nextCookie <$> es) /\
    ((exists accept, last pages.*1 = Some accept /\ forall r e, accept r e = true) ->
     forall e, Forall (exists_in e) services -> first <= e_cookie e ->
       sv_direntry e ∈ es).
Proof using.
  revert services. induction pages as [|[accept d] pages IH]; intros services Himp Hfuel first.
  { exists []. split_and!; [done|constructor|constructor|]. intros (? & ? & _). done. }
  cbn in Himp. apply Forall2_cons_inv_l in Himp as (a & services' & Himp & Himps & ->).
  apply Forall_cons in Hfuel as [Hfuel Hfuels].
  destruct (page_spec d a fuel first accept Himp Hfuel) as (es & Hes & Hsort & Hbounds & Hmore & Hall).
  destruct (IH services' Himps Hfuels (next_page first es)) as (es' & Hes' & Hsort' & Hlower' & Hall').
  exists (es ++ es'). cbn. rewrite Hes, Hes'. cbn. rewrite !fmap_app.
  rewrite Forall_forall in Hbounds, Hlower'.
  split_and!; [done| | |].
  - apply StronglySorted_app_2; [|done|done]. intros x y Hx Hy.
    specialize (Hbounds x Hx). specialize (Hlower' y Hy). cbn in *. lia.
  - assert (first <= next_page first es) as Hle
      by (apply next_page_lower; [lia|]; apply Forall_forall; intros z Hz%Hbounds; lia).
    apply Forall_app. split; apply Forall_forall; [intros z Hz%Hbounds; lia|].
    intros z Hz%Hlower'. lia.
  - intros Hlast e He Hc. apply Forall_cons in He as [[bs He] Hes2]. apply elem_of_app.
    destruct Hlast as (accept' & Hlast & Hacc). cbn in Hlast.
    change (sv_direntry e) with (sv_direntry (e_set_build bs e)). 
    destruct pages as [|p pages].
    + injection Hlast as ->. left. by apply Hall.
    + destruct (Hmore _ He Hc) as [?|Hnext]; [by left|right].
      apply (Hall' ltac:(by exists accept') e Hes2 Hnext).
Qed.

(** ** Interleaved requests

    Every request takes the lock for one critical section, except [Clean], which
    takes it twice and empties the output path in between. [pending] holds the
    output paths that ongoing [Clean] calls have looked up. *)
Record system : Type := {
  sys_dir : BazelOutputServiceDirectory;
  pending : list (Component * nat);
}.

Inductive step : system -> system -> Prop :=
| step_StartBuild d ps c b df swf w n d' :
    (StartBuild_locked c b df swf d w).1 = Some (Ret (n, d')) ->
    step {| sys_dir := d; pending := ps |} {| sys_dir := d'; pending := ps |}
| step_FinalizeBuild d ps b w d' :
    (FinalizeBuild b d w).1 = Some (Ret d') ->
    step {| sys_dir := d; pending := ps |} {| sys_dir := d'; pending := ps |}
| step_Clean_lookup d ps c n :
    Clean_lookup c d = Some n ->
    step {| sys_dir := d; pending := ps |} {| sys_dir := d; pending := (c, n) :: ps |}
| step_Clean_failed d ps1 c n ps2 :
    step {| sys_dir := d; pending := ps1 ++ (c, n) :: ps2 |}
         {| sys_dir := d; pending := ps1 ++ ps2 |}
| step_Clean_detach d ps1 c n ps2 :
    step {| sys_dir := d; pending := ps1 ++ (c, n) :: ps2 |}
         {| sys_dir := Clean_detach c n d; pending := ps1 ++ ps2 |}.

Definition init_system : system := {| sys_dir := NewBazelOutputServiceDirectory; pending := [] |}.

Lemma sv_StartBuild_changeID c bs a w a' :
  (sv_StartBuild c bs a w).1 = Some (Ret a') -> sv_changeID a' <= sv_changeID a + 1.
Proof using.
  unfold sv_StartBuild. repeat case_match; [intros [= <-]; lia|intros [= <-]; cbn; lia|].
  unfold fmap, run_fmap. destruct (initial_root c _ w) as [[[root|]|] w1]; try done.
  intros [= <-]. cbn. lia.
Qed.

Lemma sv_FinalizeBuild_changeID b a w a' :
  (sv_FinalizeBuild b a w).1 = Some (Ret a') -> sv_changeID a' = sv_changeID a.
Proof using.
  unfold sv_FinalizeBuild. destruct (sv_running b a) as [e|]; [|by intros [= <-]].
  destruct (e_build e); [|by intros [= <-]]. unfold fmap, run_fmap.
  destruct (op_FinalizeBuild _ _ w) as [[[[]|]|] w1]; try done. by intros [= <-].
Qed.

Lemma sv_Clean_changeID c a : sv_changeID (sv_Clean c a) <= sv_changeID a + 1.
Proof using. unfold sv_Clean. case_match; cbn; lia. Qed.

(** The steps of the abstract service. *)
Inductive sv_step : service -> service -> Prop :=
| sv_step_StartBuild a c bs w a' : (sv_StartBuild c bs a w).1 = Some (Ret a') -> sv_step a a'
| sv_step_FinalizeBuild a b w a' : (sv_FinalizeBuild b a w).1 = Some (Ret a') -> sv_step a a'
| sv_step_Clean a c : sv_step a (sv_Clean c a)
| sv_step_skip a : sv_step a a.

Lemma step_simulation s s' a :
  step s s' -> implements (sys_dir s) a -> sv_changeID a < 2 ^ 64 - 1 ->
  exists a', sv_step a a' /\ implements (sys_dir s') a' /\ sv_changeID a' <= sv_changeID a + 1.
Proof using.
  intros Hstep Himp Hch. destruct Hstep as [d ps c b df swf w n d' Hs|d ps b w d' Hf|d ps c n _
    |d ps1 c n ps2|d ps1 c n ps2]; cbn [sys_dir] in *.
  - destruct (StartBuild_locked c b df swf d w) as [r w1] eqn:Hsb. cbn in Hs. subst r.
    pose proof (StartBuild_implements d a Himp c b df swf w Hch) as Hspec. rewrite Hsb in Hspec.
    apply run_rel_Ret in Hspec as (a' & Ha & _ & Himp'). apply (f_equal fst) in Ha.
    exists a'. split_and!; [by econstructor|done|by eapply sv_StartBuild_changeID].
  - destruct (FinalizeBuild b d w) as [r w1] eqn:Hfb. cbn in Hf. subst r.
    pose proof (FinalizeBuild_implements d a Himp b w) as Hspec. rewrite Hfb in Hspec.
    apply run_rel_Ret in Hspec as (a' & Ha & Himp' & _). apply (f_equal fst) in Ha.
    exists a'. split_and!; [by econstructor|done|]. apply sv_FinalizeBuild_changeID in Ha. lia.
  - exists a. split_and!; [constructor|done|lia].
  - exists a. split_and!; [constructor|done|lia].
  - pose proof (Clean_implements d a Himp c n Hch) as Himp'. case_decide.
    + exists (sv_Clean c a). split_and!; [constructor|done|apply sv_Clean_changeID].
    + exists a. split_and!; [constructor|done|lia].
Qed.

Lemma reachable_implements k s :
  nsteps step k init_system s -> Z.of_nat k < 2 ^ 64 ->
  exists a, rtc sv_step {| sv_entries := []; sv_changeID := 0 |} a /\
    implements (sys_dir s) a /\ sv_changeID a <= Z.of_nat k.
Proof using.
  revert s. induction k as [|k IH]; intros s Hsteps Hk.
  - inversion Hsteps; subst. exists {| sv_entries := []; sv_changeID := 0 |}.
    split_and!; [constructor|apply implements_init|done].
  - apply nsteps_inv_r in Hsteps as (s' & Hsteps & Hstep).
    destruct (IH s' Hsteps) as (a & Hrtc & Himp & Hle); [lia|].
    destruct (step_simulation s' s a Hstep Himp) as (a' & Hs & Himp' & Hle'); [lia|].
    exists a'. split_and!; [by eapply rtc_r|done|lia].
Qed.

(** The first build of a process creates the output path, which can be looked up. *)
Lemma first_StartBuild c b df swf w w1 w2 cff op :
  NewCASFileFactory w = (cff, w1) -> opf_StartInitialBuild c cff df w1 = (Some (Ret op), w2) ->
  exists n d,
    StartBuild_locked c b df swf NewBazelOutputServiceDirectory w = (Some (Ret (n, d)), w2) /\
    VirtualLookup c d = VOk op /\
    getOutputPathAndBuildState b d =
      Ok (n, Some {| id := b; digestFunction := df; scopeWalkerFactory := swf |}).
Proof using.
  intros Hcff Hop. pose proof (StartBuild_implements NewBazelOutputServiceDirectory _
    implements_init c b df swf w ltac:(done)) as Hsb.
  destruct (StartBuild_locked c b df swf NewBazelOutputServiceDirectory w) as [r w'] eqn:Heq.
  assert (sv_StartBuild c {| id := b; digestFunction := df; scopeWalkerFactory := swf |}
    {| sv_entries := []; sv_changeID := 0 |} w = (Some (Ret {| sv_entries := [{| e_id := c; e_cookie := 0;
      e_root := op; e_build := Some {| id := b; digestFunction := df; scopeWalkerFactory := swf |} |}];
      sv_changeID := 1 |}), w2)) as Hsv.
  { assert (initial_root c df w = (Some (Ret (cff, op)), w2)) as Hroot
      by (unfold initial_root; rewrite Hcff; by apply run_fmap_ret).
    unfold sv_StartBuild. cbn -[initial_root]. unfold fmap, run_fmap. by rewrite Hroot. }
  rewrite Hsv in Hsb. destruct Hsb as [Hw Hr]. cbn in Hw, Hr.
  destruct r as [[[n d]|]|]; [|done..]. destruct Hr as [Hb Himp]. exists n, d. subst w'.
  split; [done|]. pose proof Himp as (l & Hwf & Hents & _). split.
  - pose proof (sv_path_spec d _ l c Hwf Hents) as Hpath. unfold VirtualLookup.
    destruct (outputBaseIDs d !! c) as [m|]; unfold sv_path in Hpath; cbn in Hpath; unfold is_for in Hpath; cbn in Hpath;
      rewrite (bool_decide_true (c = c)) in Hpath by done; cbn in Hpath.
    + destruct Hpath as (st & Hst & [= _ _ Hroot _]). cbn. by rewrite Hst, Hroot.
    + done.
  - pose proof (getOutputPathAndBuildState_implements d _ b Himp) as Hget.
    unfold getOutputPathAndBuildState in *. rewrite Hb in *. do 2 f_equal.
    destruct Hget as (e & _ & He & -> & _). apply sv_running_Some in He as [He _].
    by apply list_elem_of_singleton in He as ->.
Qed.
(** What holds for the root directories that are created holds for those of all
    output paths. *)
Lemma reachable_roots (Q : Component -> OutputPath -> Prop) a :
  (forall c df w root, (initial_root c df w).1 = Some (Ret root) -> Q c root.2) ->
  rtc sv_step {| sv_entries := []; sv_changeID := 0 |} a ->
  Forall (fun e => Q (e_id e) (e_root e)) (sv_entries a).
Proof using.
  intros HQ. revert a. apply (rtc_ind_r (fun a => Forall (fun e => Q (e_id e) (e_root e)) (sv_entries a)));
    [constructor|]. intros a a' _ Hstep IH.
  destruct Hstep as [a c bs w a' Ha|a b w a' Ha|a c|a]; [| | |done].
  - revert Ha. unfold sv_StartBuild. case_match; [by intros [= <-]|]. case_match.
    + intros [= <-]. apply Forall_fmap. eapply Forall_impl; [done|]. intros e He. cbn. by case_match.
    + pose proof (HQ c (digestFunction bs) w) as Hroot. unfold fmap, run_fmap.
      destruct (initial_root c _ w) as [[[root|]|] w1]; try done. intros [= <-]. cbn.
      apply Forall_app. split; [done|]. constructor; [|constructor]. by apply Hroot.
  - revert Ha. unfold sv_FinalizeBuild. destruct (sv_running b a) as [e|]; [|by intros [= <-]].
    destruct (e_build e); [|by intros [= <-]]. unfold fmap, run_fmap.
    destruct (op_FinalizeBuild _ _ w) as [[[[]|]|] w1]; try done. intros [= <-].
    apply Forall_fmap. eapply Forall_impl; [done|]. intros e' He'. cbn. by case_match.
  - unfold sv_Clean. case_match; [|done]. cbn. rewrite Forall_forall in *. intros e [_ He]%list_elem_of_filter. by apply IH.
Qed.

(** C1. Whatever requests are interleaved, the directory implements a state of
    the abstract service that the abstract steps reach, until the change ID is
    exhausted after 2^64 requests. In particular every build ID that is accepted
    designates an output path with a build state, and [FinalizeBuild] does not
    dereference a nil pointer: it stops early only if the output path does. *)
Theorem reachable_refines k s :
  nsteps step k init_system s -> Z.of_nat k < 2 ^ 64 ->
  exists a, rtc sv_step {| sv_entries := []; sv_changeID := 0 |} a /\
    implements (sys_dir s) a /\ sv_changeID a <= Z.of_nat k /\
    (forall b n bs, getOutputPathAndBuildState b (sys_dir s) = Ok (n, bs) -> is_Some bs) /\
    (forall b w, run_rel (fun d' a' => implements d' a')
      (FinalizeBuild b (sys_dir s) w) (sv_FinalizeBuild b a w)).
Proof using.
  intros Hsteps Hk. destruct (reachable_implements k s Hsteps Hk) as (a & Hrtc & Himp & Hle).
  exists a. split_and!; [done|done|done| |].
  - intros b n bs Hget. pose proof (getOutputPathAndBuildState_implements _ _ b Himp) as Hspec.
    rewrite Hget in Hspec. by destruct Hspec as (e & _ & _ & _ & ?).
  - intros b w. apply (run_rel_impl _ _ _ _ (FinalizeBuild_implements _ _ Himp b w)). by intros d' a' [? _] _.
Qed.
End OutputService.

(** ** A concrete service

    The world is the sequence of calls made on output paths; output paths are
    numbered. *)

Module ExampleService.
Import ErrorTree ExamplePath ExampleDigest ExampleVirtual.

Inductive event : Type :=
| EvStart (c : string) (n : nat)
| EvClean (c : string)
| EvRemoveAll (n : nat) (forbid : bool)
| EvFinalize (n : nat) (df : string).

#[export] Instance factory : OutputPathFactory (list event) := {|
  OutputPath := nat;
  CASFileFactory := unit;
  opf_StartInitialBuild c _ _ w := (Some (Ret (length w)), w ++ [EvStart (Component_String c) (length w)]);
  opf_Clean c w := (None, w ++ [EvClean (Component_String c)]);
  op_RemoveAllChildren n b w := (None, w ++ [EvRemoveAll n b]);
  op_FinalizeBuild n df w := (Some (Ret tt), w ++ [EvFinalize n df]);
  NewCASFileFactory w := (tt, w);
|}.

Definition c1 : Component := comp "base1" eq_refl.
Definition c2 : Component := comp "base2" eq_refl.

Definition directory := @BazelOutputServiceDirectory errors path_lib digests (list event) factory unit.

(** Two builds were started in different output bases. *)
Definition after1 : option (outcome (nat * directory)) * list event :=
  StartBuild_locked c1 "b1" "sha256" tt NewBazelOutputServiceDirectory [].

Definition result (x : option (outcome (nat * directory)) * list event) : directory :=
  match x.1 with Some (Ret (_, d)) => d | _ => NewBazelOutputServiceDirectory end.

Definition dir1 : directory := result after1.
Definition after2 : option (outcome (nat * directory)) * list event :=
  StartBuild_locked c2 "b2" "sha256" tt dir1 after1.2.
Definition dir2 : directory := result after2.

Definition bs1 : @buildState errors digests unit :=
  {| id := "b1"; digestFunction := "sha256"; scopeWalkerFactory := tt |}.
Definition bs2 : @buildState errors digests unit :=
  {| id := "b2"; digestFunction := "sha256"; scopeWalkerFactory := tt |}.

Definition bs3 : @buildState errors digests unit :=
  {| id := "b3"; digestFunction := "sha256"; scopeWalkerFactory := tt |}.

Definition e1 : entry := {| e_id := c1; e_cookie := 0; e_root := 0%nat; e_build := Some bs1 |}.
Definition e2 : entry := {| e_id := c2; e_cookie := 1; e_root := 1%nat; e_build := Some bs2 |}.

Definition sv1 : service := {| sv_entries := [e1]; sv_changeID := 1 |}.
Definition sv2 : service := {| sv_entries := [e1; e2]; sv_changeID := 2 |}.

Lemma after1_implements : implements dir1 sv1.
Proof.
  exact (proj2 (proj2 (StartBuild_implements NewBazelOutputServiceDirectory _ implements_init
    c1 "b1" "sha256" tt ([] : list event) ltac:(done)))).
Qed.

Lemma after2_implements : implements dir2 sv2.
Proof.
  exact (proj2 (proj2 (StartBuild_implements _ _ after1_implements c2 "b2" "sha256" tt after1.2 ltac:(done)))).
Qed.

Example two_builds_started : after2.2 = [EvStart "base1" 0; EvStart "base2" 1].
Proof. vm_compute. reflexivity. Qed.

(** A third build takes over the output path of the first. *)
Lemma StartBuild_refines_witness :
  exists n d', StartBuild_locked c1 "b3" "sha256" tt dir2 after2.2 = (Some (Ret (n, d')), after2.2) /\
    implements d' {| sv_entries := [e_set_build (Some bs3) e1; e2]; sv_changeID := 2 |} /\
    getOutputPathAndBuildState "b3" d' = Ok (n, Some bs3).
Proof.
  eexists _, _. split; [reflexivity|].
  exact (proj2 (StartBuild_refines _ _ after2_implements c1 "b3" "sha256" tt after2.2 eq_refl)).
Defined.

(** The first build ends. *)
Lemma FinalizeBuild_refines_witness :
  exists d', FinalizeBuild "b1" dir2 after2.2 = (Some (Ret d'), after2.2 ++ [EvFinalize 0 "sha256"]) /\
    implements d' {| sv_entries := [e_set_build None e1; e2]; sv_changeID := 2 |} /\
    getOutputPathAndBuildState "b1" d' = Err (status_Error FailedPrecondition
      "Build ID is not associated with any running build") /\
    forall w', FinalizeBuild "b1" d' w' = (Some (Ret d'), w').
Proof.
  eexists. split; [reflexivity|].
  exact (proj2 (FinalizeBuild_refines _ _ after2_implements "b1" after2.2)).
Defined.

(** The first output path is cleaned. *)
Lemma Clean_refines_witness :
  Clean_lookup c1 dir2 = Some 0%nat /\
  implements (Clean_detach c1 0 dir2) {| sv_entries := [e2]; sv_changeID := 3 |} /\
  VirtualLookup c1 (Clean_detach c1 0 dir2) = VErr StatusErrNoEnt /\
  forall b, (exists e, sv_running b sv2 = Some e /\ e_id e = c1) ->
    getOutputPathAndBuildState b (Clean_detach c1 0 dir2) = Err (status_Error FailedPrecondition
      "Build ID is not associated with any running build").
Proof.
  split; [vm_compute; reflexivity|].
  exact (Clean_refines _ _ after2_implements c1 0%nat eq_refl).
Defined.

Lemma lookups_refine_witness :
  VirtualLookup c2 dir2 = VOk 1%nat /\
  VirtualOpenChild c2 None None dir2 = StatusErrExist /\
  a_LinkCount (VirtualGetAttributes (fun _ a => a) 3 dir2 no_Attributes) = Some 4.
Proof.
  destruct (lookups_refine _ _ after2_implements (fun _ a => a) (fun _ _ => conj eq_refl eq_refl) c2 3 no_Attributes None None) as (H1 & H2 & H3).
  split; [exact H1|]. split; [exact H2|]. exact (proj2 (H3 ltac:(vm_compute; discriminate))).
Defined.

(** A reporter with room for a single entry. *)
Definition one_at_a_time (reported : list (@direntry errors path_lib digests (list event) factory)) (e : direntry) : bool :=
  bool_decide (reported = []).

Lemma VirtualReadDir_spec_witness :
  VirtualReadDir 2 0 one_at_a_time dir2 =
    Some [{| nextCookie := 1; entryName := c1; entryChild := 0%nat |}].
Proof. exact (VirtualReadDir_spec _ _ 2 0 one_at_a_time after2_implements ltac:(cbn; lia)). Defined.

(** The second output path appears while the directory is being read, and the build
    that uses the first one ends. *)
Definition sv3 : service := {| sv_entries := [e_set_build None e1; e2]; sv_changeID := 2 |}.

Definition after3 : directory :=
  match (FinalizeBuild "b1" dir2 after2.2).1 with Some (Ret d) => d | _ => dir2 end.

Lemma after3_implements : implements after3 sv3.
Proof.
  exact (proj1 (proj2 (FinalizeBuild_implements _ _ after2_implements "b1" after2.2))).
Qed.

Lemma read_pages_complete_witness :
  exists es, read_pages 2 0 [(one_at_a_time, dir1); (fun _ _ => true, after3)] = Some es /\
    StronglySorted Z.lt (nextCookie <$> es) /\ Forall (fun z => 0 < z) (nextCookie <$> es) /\
    sv_direntry e1 ∈ es.
Proof.
  destruct (read_pages_complete 2 [(one_at_a_time, dir1); (fun _ _ => true, after3)] [sv1; sv3]
    ltac:(apply Forall2_cons_2; [exact (after1_implements : implements dir1 sv1)|]; apply Forall2_cons_2;
      [exact (after3_implements : implements after3 sv3)|apply Forall2_nil_2])
    ltac:(apply Forall_cons_2; [cbn; lia|]; apply Forall_cons_2; [cbn; lia|apply Forall_nil_2]) 0) as (es & H1 & H2 & H3 & H4).
  exists es. split; [exact H1|]. split; [exact H2|]. split; [exact H3|]. apply H4.
  - exists (fun _ _ => true). done.
  - apply Forall_cons_2; [exists (Some bs1); by left|]. apply Forall_cons_2; [exists None; by left|].
    apply Forall_nil_2.
  - done.
Defined.

(** A build starts, and its output path is cleaned. *)
Lemma reachable_refines_witness :
  nsteps step 3 init_system {| sys_dir := Clean_detach c1 0 dir1; pending := [] |} /\
  exists a, implements (Clean_detach c1 0 dir1) a /\ sv_changeID a <= 3.
Proof.
  assert (nsteps step 3 init_system {| sys_dir := Clean_detach c1 0 dir1; pending := [] |}) as H.
  { eapply nsteps_l; [exact (step_StartBuild NewBazelOutputServiceDirectory [] c1 "b1" "sha256" tt [] 0%nat dir1 eq_refl)|].
    eapply nsteps_l; [exact (step_Clean_lookup dir1 [] c1 0%nat eq_refl)|].
    eapply nsteps_l; [exact (step_Clean_detach dir1 [] c1 0%nat [])|]. apply nsteps_O. }
  split; [exact H|].
  destruct (reachable_refines 3 _ H eq_refl) as (a & _ & Hi & Hc & _). exists a. by split.
Defined.

End ExampleService.
