(* ===== verification/Store.v ===== *)
(** * Stores of output path state

    [pkg/outputpathpersistency/store.go], [directory_backed_store.go] and
    [maximum_age_store.go]: where state files are kept, and when they expire. *)

From S2P Require Import Prelude GoLib Errors GoIo StateFile Virtual Examples.
Local Open Scope Z_scope.

(** ** The interface of stores ([store.go], [reader.go], [writer.go])

    [W] is the state of everything behind the interface. [Read] may panic, see
    [timeToEpoch], and so may [Finalize] and [Close], see
    [directoryBackedWriter_Close]. *)

Class Store {E : Errors} {P : PathLib} (W : Type) : Type := {
  StoreReadCloser : Type;
  StoreReader : Type;
  StoreWriter : Type;
  store_Read : Component -> st W (outcome (res err (StoreReadCloser * RootDirectory)));
  rc_Reader : StoreReadCloser -> StoreReader;
  rc_Close : StoreReadCloser -> st W (option err);
  sr_ReadDirectory : StoreReader -> option FileRegion -> st W (res err (StoreReader * Directory));
  store_Write : Component -> st W (res err StoreWriter);
  sw_WriteDirectory : Directory -> StoreWriter -> st W (res err (option FileRegion) * StoreWriter);
  sw_Finalize : RootDirectory -> StoreWriter -> st W (outcome (option err));
  sw_Close : StoreWriter -> st W (outcome (option err));
  store_Clean : Component -> st W (option err);
}.

(** ** [filesystem.Directory]

    The operations of bb-storage's directories that are used, on the state [W] of
    the file system. *)

Class FilesystemDirectory {E : Errors} {P : PathLib} (W : Type) : Type := {
  FileReader : Type;
  FileWriter : Type;
  OpenRead : Component -> st W (res err FileReader);
  (** [OpenWrite] with [CreateExcl] *)
  OpenWrite : Component -> Z -> st W (res err FileWriter);
  Remove : Component -> st W (option err);
  Rename : Component -> Component -> st W (option err);
  FileReader_ReadAt : FileReader -> W -> ReaderAt;
  FileReader_Close : FileReader -> st W (option err);
  FileWriter_WriteAt : FileWriter -> WriterAt W;
  FileWriter_Sync : FileWriter -> st W (option err);
  FileWriter_Close : FileWriter -> st W (option err);
}.

(** A filesystem error, unless the file does not exist. *)
Definition other_than_ENOENT {E : Errors} (e : option err) : option err :=
  match e with
  | Some e => if decide (e = ENOENT) then None else Some e
  | None => None
  end.

(** ** [directory_backed_store.go] *)

Section DirectoryBackedStore.
Context {E : Errors} {P : PathLib} {CD : ProtoCodec Directory} {CR : ProtoCodec RootDirectory}.
Context {W : Type} {FD : FilesystemDirectory W}.

Record directoryBackedStore : Type := { maximumStateFileSizeBytes : Z }.

(** What [Read] returns. The reader's file is the one that [Close] closes: its
    [rawReader] is taken from the file whenever it is used. *)
Record directoryBackedReader : Type := {
  dr_file : FileReader;
  dr_reader : fileReader;
}.

Definition directoryBackedStore_Read (s : directoryBackedStore) (outputBaseID : Component)
  : st W (outcome (res err (directoryBackedReader * RootDirectory))) := fun w =>
  let '(r, w) := OpenRead outputBaseID w in
  match r with
  | Err e => (Ret (Err (StatusWrap e "Failed to open state file")), w)
  | Ok f =>
      match NewFileReader (FileReader_ReadAt f w) (maximumStateFileSizeBytes s) with
      | Err e => let '(_, w) := FileReader_Close f w in (Ret (Err e), w)
      | Ok (reader, rootDirectory) =>
          (Ret (Ok ({| dr_file := f; dr_reader := reader |}, rootDirectory)), w)
      end
  end.

Definition directoryBackedReader_ReadDirectory (r : directoryBackedReader)
    (fileRegion : option FileRegion) : st W (res err (directoryBackedReader * Directory)) := fun w =>
  let rawReader := FileReader_ReadAt (dr_file r) w in
  let reader := {| rawReader := rawReader; maximumOffsetBytes := maximumOffsetBytes (dr_reader r) |} in
  match ReadDirectory rawReader reader fileRegion with
  | Err e => (Err e, w)
  | Ok (reader, d) => (Ok ({| dr_file := dr_file r; dr_reader := reader |}, d), w)
  end.

Definition getTemporaryName (outputBaseID : Component) : res err Component :=
  let outputBaseIDStr := Component_String outputBaseID in
  match NewComponent (outputBaseIDStr +:+ ".tmp") with
  | None => Err (status_Errorf InvalidArgument
      "Cannot obtain a temporary filename for output base ID %#v" [FStr outputBaseIDStr])
  | Some temporaryName => Ok temporaryName
  end.

(** The [fileWriter] of a [directoryBackedWriter] writes to the temporary file,
    which is part of the file system: the state of the file system is put in
    place of its [rawWriter] for as long as it runs. *)
Record directoryBackedWriter : Type := {
  outputBaseID : Component;
  temporaryName : Component;
  temporaryFile : FileWriter;
  writer : fileWriter (F := W);
}.

Definition set_rawWriter (w : W) (fw : fileWriter (F := W)) : fileWriter :=
  let b := bufferedWriter fw in
  set_bufferedWriter fw
    {| b_wr := {| ow_w := w; ow_offsetBytes := ow_offsetBytes (b_wr b) |};
       b_size := b_size b; b_buf := b_buf b; b_err := b_err b |}.

Definition set_writer (dw : directoryBackedWriter) (fw : fileWriter) : directoryBackedWriter :=
  {| outputBaseID := outputBaseID dw; temporaryName := temporaryName dw;
     temporaryFile := temporaryFile dw; writer := fw |}.

Definition directoryBackedStore_Write (outputBaseID : Component)
  : st W (res err directoryBackedWriter) := fun w =>
  match getTemporaryName outputBaseID with
  | Err e => (Err e, w)
  | Ok temporaryName =>
      let '(e, w) := Remove temporaryName w in
      match other_than_ENOENT e with
      | Some e => (Err (StatusWrap e "Failed to remove persistent state temporary file"), w)
      | None =>
          let '(r, w) := OpenWrite temporaryName (6 * 64 + 6 * 8 + 6) w in
          match r with
          | Err e => (Err (StatusWrap e "Failed to create persistent state temporary file"), w)
          | Ok temporaryFile =>
              (Ok {| outputBaseID := outputBaseID; temporaryName := temporaryName;
                     temporaryFile := temporaryFile; writer := NewFileWriter w |}, w)
          end
      end
  end.

(** Removing one of the files of an output base. *)
Definition remove_file (name : Component) (message : string) : st W (option err) := fun w =>
  let '(e, w) := Remove name w in
  match other_than_ENOENT e with
  | Some e => (Some (StatusWrap e message), w)
  | None => (None, w)
  end.

Definition directoryBackedStore_Clean (outputBaseID : Component) : st W (option err) := fun w =>
  match getTemporaryName outputBaseID with
  | Err e => (Some e, w)
  | Ok temporaryName =>
      match remove_file outputBaseID "Failed to remove persistent state file" w with
      | (Some e, w) => (Some e, w)
      | (None, w) => remove_file temporaryName "Failed to remove persistent state temporary file" w
      end
  end.

Definition directoryBackedWriter_WriteDirectory (directory : Directory) (dw : directoryBackedWriter)
  : st W (res err (option FileRegion) * directoryBackedWriter) := fun w =>
  let '(r, fw) := WriteDirectory (FileWriter_WriteAt (temporaryFile dw)) directory
                    (set_rawWriter w (writer dw)) in
  ((r, set_writer dw fw), rawWriter fw).

(** [Close]. When only the removal fails, its error is not the one that gets
    wrapped, but the one of closing the file, which is nil. *)
Definition directoryBackedWriter_Close (dw : directoryBackedWriter)
  : st W (outcome (option err)) := fun w =>
  let '(err1, w) := FileWriter_Close (temporaryFile dw) w in
  let '(err2, w) := Remove (temporaryName dw) w in
  match err1 with
  | Some err1 => (Ret (Some (StatusWrap err1 "Failed to close persistent state temporary file")), w)
  | None =>
      match other_than_ENOENT err2 with
      | Some _ => (StatusWrap_nil "Failed to remove persistent state temporary file", w)
      | None => (Ret None, w)
      end
  end.

(** [w.Close(); return err] *)
Definition close_and_return (dw : directoryBackedWriter) (e : err) : st W (outcome (option err)) := fun w =>
  match directoryBackedWriter_Close dw w with
  | (Panic msg, w) => (Panic msg, w)
  | (Ret _, w) => (Ret (Some e), w)
  end.

Definition directoryBackedWriter_Finalize (rootDirectory : RootDirectory) (dw : directoryBackedWriter)
  : st W (outcome (option err)) := fun w =>
  let '(e, fw) := Finalize (FileWriter_WriteAt (temporaryFile dw)) rootDirectory
                    (set_rawWriter w (writer dw)) in
  let w := rawWriter fw in
  match e with
  | Some e => close_and_return dw e w
  | None =>
      let '(e, w) := FileWriter_Sync (temporaryFile dw) w in
      match e with
      | Some e => close_and_return dw
          (StatusWrap e "Failed to synchronize contents of persistent state temporary file") w
      | None =>
          let '(e, w) := FileWriter_Close (temporaryFile dw) w in
          match e with
          | Some e =>
              let '(_, w) := Remove (temporaryName dw) w in
              (Ret (Some (StatusWrap e "Failed to close persistent state temporary file")), w)
          | None =>
              let '(e, w) := Rename (temporaryName dw) (outputBaseID dw) w in
              match e with
              | Some e =>
                  let '(_, w) := Remove (temporaryName dw) w in
                  (Ret (Some (StatusWrap e "Failed to rename persistent state temporary file")), w)
              | None => (Ret None, w)
              end
          end
      end
  end.

Definition NewDirectoryBackedStore (maximumStateFileSizeBytes : Z) : Store W :=
  let s := {| maximumStateFileSizeBytes := maximumStateFileSizeBytes |} in {|
  StoreReadCloser := directoryBackedReader;
  StoreReader := directoryBackedReader;
  StoreWriter := directoryBackedWriter;
  store_Read := directoryBackedStore_Read s;
  rc_Reader r := r;
  rc_Close r := FileReader_Close (dr_file r);
  sr_ReadDirectory := directoryBackedReader_ReadDirectory;
  store_Write := directoryBackedStore_Write;
  sw_WriteDirectory := directoryBackedWriter_WriteDirectory;
  sw_Finalize := directoryBackedWriter_Finalize;
  sw_Close := directoryBackedWriter_Close;
  store_Clean := directoryBackedStore_Clean;
|}.

End DirectoryBackedStore.

(** ** [maximum_age_store.go] *)

(** [time.Time], in nanoseconds since the epoch, and [time.Duration]. *)
Definition Second : Z := 10 ^ 9.
Definition minDuration : Z := - 2 ^ 63.
Definition maxDuration : Z := 2 ^ 63 - 1.

(** [Time.Sub] saturates. *)
Definition time_Sub (t u : Z) : Z := Z.max minDuration (Z.min maxDuration (t - u)).

(** [timestamppb]'s [CheckValid] and [AsTime]. *)
Class TimestampLib {E : Errors} : Type := {
  CheckValid : option Timestamp -> option err;
  Time_Format : Z -> string;
}.

Definition AsTime (t : option Timestamp) : Z :=
  match t with
  | None => 0
  | Some t => seconds t * Second + nanos t
  end.

Section MaximumAgeStore.
Context {E : Errors} {P : PathLib} {TL : TimestampLib} {W : Type} (base : Store W).
(** [clock.Clock.Now] *)
Context (clock_Now : st W Z).
Context (maximumStateFileAge : Z).

(** A [maximumStateFileAge] of zero makes the division panic. *)
Definition timeToEpoch (t : Z) : outcome Z :=
  if bool_decide (maximumStateFileAge = 0) then Panic "integer divide by zero"
  else Ret (i64 (Z.quot (time_Sub t 0) maximumStateFileAge)).

Definition maximumAgeStore_Read (outputBaseID : Component)
  : st W (outcome (res err (StoreReadCloser * RootDirectory))) := fun w =>
  let '(r, w) := store_Read outputBaseID w in
  match r with
  | Panic msg => (Panic msg, w)
  | Ret (Err e) => (Ret (Err e), w)
  | Ret (Ok (reader, rootDirectory)) =>
      match CheckValid (InitialCreationTime rootDirectory) with
      | Some e =>
          let '(_, w) := rc_Close reader w in
          (Ret (Err (StatusWrapWithCode e InvalidArgument
                       "State file contains an invalid initial creation time")), w)
      | None =>
          let initialCreationTime := AsTime (InitialCreationTime rootDirectory) in
          match timeToEpoch initialCreationTime with
          | Panic msg => (Panic msg, w)
          | Ret epoch =>
              let '(now, w) := clock_Now w in
              match timeToEpoch now with
              | Panic msg => (Panic msg, w)
              | Ret now_epoch =>
                  if bool_decide (epoch = now_epoch) then (Ret (Ok (reader, rootDirectory)), w)
                  else
                    let '(_, w) := rc_Close reader w in
                    (Ret (Err (status_Errorf InvalidArgument
                       "State file was initially created at %s, which lies outside the current epoch of %s"
                       [FStr (Time_Format initialCreationTime); FInt maximumStateFileAge])), w)
              end
          end
      end
  end.

Definition NewMaximumAgeStore : Store W := {|
  StoreReadCloser := StoreReadCloser;
  StoreReader := StoreReader;
  StoreWriter := StoreWriter;
  store_Read := maximumAgeStore_Read;
  rc_Reader := rc_Reader;
  rc_Close := rc_Close;
  sr_ReadDirectory := sr_ReadDirectory;
  store_Write := store_Write;
  sw_WriteDirectory := sw_WriteDirectory;
  sw_Finalize := sw_Finalize;
  sw_Close := sw_Close;
  store_Clean := store_Clean;
|}.

End MaximumAgeStore.

(** ** What the store does to the file system

    A file system that logs the calls that are made on it, along with their
    results. It fails whenever the underlying one does. *)

Section Logged.
Context {E : Errors} {P : PathLib} {W : Type} (FD : FilesystemDirectory W).

Inductive fs_event : Type :=
| EvOpenRead (c : Component) (r : res err FileReader)
| EvOpenWrite (c : Component) (r : res err FileWriter)
| EvRemove (c : Component) (e : option err)
| EvRename (old new : Component) (e : option err)
| EvCloseReader (f : FileReader)
| EvWriteAt (f : FileWriter) (p : list byte) (off : Z) (r : nat * option err)
| EvSync (f : FileWriter) (e : option err)
| EvCloseWriter (f : FileWriter) (e : option err).

Definition log {A : Type} (m : st W A) (ev : A -> fs_event) : st (W * list fs_event) A := fun w =>
  let '(a, w') := m w.1 in (a, (w', w.2 ++ [ev a])).

Definition logged : FilesystemDirectory (W * list fs_event) := {|
  FileReader := FileReader;
  FileWriter := FileWriter;
  OpenRead c := log (OpenRead c) (EvOpenRead c);
  OpenWrite c p := log (OpenWrite c p) (EvOpenWrite c);
  Remove c := log (Remove c) (EvRemove c);
  Rename a b := log (Rename a b) (EvRename a b);
  FileReader_ReadAt f w := FileReader_ReadAt f w.1;
  FileReader_Close f := log (FileReader_Close f) (fun _ => EvCloseReader f);
  FileWriter_WriteAt f p off := log (FileWriter_WriteAt f p off) (EvWriteAt f p off);
  FileWriter_Sync f := log (FileWriter_Sync f) (EvSync f);
  FileWriter_Close f := log (FileWriter_Close f) (EvCloseWriter f);
|}.

(** The events that close a writer, or a reader. *)
Definition closes_writer (e : fs_event) : bool :=
  match e with EvCloseWriter _ _ => true | _ => false end.
Definition closes_reader (e : fs_event) : bool :=
  match e with EvCloseReader _ => true | _ => false end.
Definition opens_writer (e : fs_event) : bool :=
  match e with EvOpenWrite _ (Ok _) => true | _ => false end.
Definition opens_reader (e : fs_event) : bool :=
  match e with EvOpenRead _ (Ok _) => true | _ => false end.

(** The events that may change what a name refers to. *)
Definition changes_name (c : Component) (e : fs_event) : bool :=
  match e with
  | EvOpenWrite c' _ | EvRemove c' _ => bool_decide (c' = c)
  | EvRename a b _ => bool_decide (a = c) || bool_decide (b = c)
  | _ => false
  end.

Definition count (p : fs_event -> bool) (evs : list fs_event) : nat :=
  length (List.filter p evs).

Context {CD : ProtoCodec Directory} {CR : ProtoCodec RootDirectory}.

Lemma count_app p a b : count p (a ++ b) = (count p a + count p b)%nat.
Proof using. unfold count. by rewrite List.filter_app, length_app. Qed.

Lemma count_nil p evs : Forall (fun e => p e = false) evs -> count p evs = 0%nat.
Proof using. induction 1 as [|e evs He _ IH]; [done|]. unfold count in *. cbn. by rewrite He. Qed.

(** The file writer does nothing but writing to its file. *)
Definition is_write (f : FileWriter) (e : fs_event) : Prop := exists p off r, e = EvWriteAt f p off r.

(** A call to [WriteAt] that succeeded *)
Definition writes_well (f : FileWriter) (e : fs_event) : Prop := exists p off n, e = EvWriteAt f p off (n, None).

Definition extends (f : FileWriter) (lg : list fs_event) (w : W * list fs_event) : Prop :=
  exists evs, w.2 = lg ++ evs /\ Forall (is_write f) evs.

Lemma extends_WriteAt f lg p off w :
  extends f lg w -> extends f lg (FileWriter_WriteAt (FilesystemDirectory := logged) f p off w).2.
Proof using.
  intros (evs & Hw & Hevs). cbn. unfold log. destruct (FileWriter_WriteAt f p off w.1) as [r w'].
  exists (evs ++ [EvWriteAt f p off r]). cbn. rewrite Hw, app_assoc. split; [done|].
  apply Forall_app. split; [done|]. repeat constructor. by exists p, off, r.
Qed.

(** Unless the writer had run into an error before, its calls have succeeded. *)
Definition extends_well (had_failed : option err) (f : FileWriter) (lg : list fs_event)
    (w : W * list fs_event) : Prop :=
  had_failed = None /\ exists evs, w.2 = lg ++ evs /\ Forall (writes_well f) evs.

Lemma extends_well_WriteAt had_failed f lg p off w :
  extends_well had_failed f lg w ->
  (FileWriter_WriteAt (FilesystemDirectory := logged) f p off w).1.2 = None ->
  extends_well had_failed f lg (FileWriter_WriteAt (FilesystemDirectory := logged) f p off w).2.
Proof using.
  intros (Hf & evs & Hw & Hevs). cbn. unfold log. destruct (FileWriter_WriteAt f p off w.1) as [[n e] w'].
  cbn. intros ->. split; [done|]. exists (evs ++ [EvWriteAt f p off (n, None)]). cbn. rewrite Hw, app_assoc.
  split; [done|]. apply Forall_app. split; [done|]. repeat constructor. by exists p, off, n.
Qed.

#[local] Existing Instance logged.

(** The calls made by [Finalize] after those that write to the file. *)
Inductive finalize_tail (dw : directoryBackedWriter (FD := logged))
  : outcome (option err) -> list fs_event -> Prop :=
| tail_write_failed r e1 e2 :
    r <> Ret None -> finalize_tail dw r
      [EvCloseWriter (temporaryFile dw) e1; EvRemove (temporaryName dw) e2]
| tail_sync_failed r e e1 e2 :
    r <> Ret None -> finalize_tail dw r
      [EvSync (temporaryFile dw) (Some e); EvCloseWriter (temporaryFile dw) e1;
       EvRemove (temporaryName dw) e2]
| tail_close_failed r e e2 :
    r <> Ret None -> finalize_tail dw r
      [EvSync (temporaryFile dw) None; EvCloseWriter (temporaryFile dw) (Some e);
       EvRemove (temporaryName dw) e2]
| tail_rename_failed r e e2 :
    r <> Ret None -> finalize_tail dw r
      [EvSync (temporaryFile dw) None; EvCloseWriter (temporaryFile dw) None;
       EvRename (temporaryName dw) (outputBaseID dw) (Some e); EvRemove (temporaryName dw) e2]
| tail_done :
    finalize_tail dw (Ret None)
      [EvSync (temporaryFile dw) None; EvCloseWriter (temporaryFile dw) None;
       EvRename (temporaryName dw) (outputBaseID dw) None].

Lemma close_and_return_log dw e w :
  exists r w' e1 e2, close_and_return dw e w = (r, w') /\ r <> Ret None /\
    w'.2 = w.2 ++ [EvCloseWriter (temporaryFile dw) e1; EvRemove (temporaryName dw) e2].
Proof using.
  unfold close_and_return, directoryBackedWriter_Close. cbn. unfold log. cbn.
  destruct (FileWriter_Close _ w.1) as [e1 w1]. cbn. destruct (Remove _ w1) as [e2 w2].
  assert (((w.2 ++ [EvCloseWriter (temporaryFile dw) e1]) ++ [EvRemove (temporaryName dw) e2]) =
    w.2 ++ [EvCloseWriter (temporaryFile dw) e1; EvRemove (temporaryName dw) e2]) as Hlog
    by by rewrite <-app_assoc.
  repeat case_match; simplify_eq/=; do 4 eexists; (split; [done|]; split; [done|exact Hlog]).
Qed.

(** The calls that write the root directory and the header. *)
Lemma file_Finalize_log root dw w lg :
  exists e fw w' writes,
    Finalize (FileWriter_WriteAt (temporaryFile dw)) root (set_rawWriter (w, lg) (writer dw)) = (e, fw) /\
    rawWriter fw = (w', lg ++ writes) /\ Forall (is_write (temporaryFile dw)) writes /\
    (e = None -> b_err (bufferedWriter (writer dw)) = None /\ Forall (writes_well (temporaryFile dw)) writes).
Proof using.
  set (fw0 := set_rawWriter (w, lg) (writer dw)).
  pose proof (Finalize_preserves (FileWriter_WriteAt (temporaryFile dw)) (extends (temporaryFile dw) lg)
    (extends_WriteAt _ _) root fw0) as Hext.
  pose proof (Finalize_clean (FileWriter_WriteAt (temporaryFile dw))
    (extends_well (b_err (bufferedWriter (writer dw))) (temporaryFile dw) lg)
    (extends_well_WriteAt _ _ _) root fw0) as Hwell.
  destruct (Finalize _ _ _) as [e fw]. cbn [fst snd] in Hext, Hwell.
  destruct Hext as (writes & Hlog & Hwr); [exists []; by rewrite app_nil_r|].
  exists e, fw, (rawWriter fw).1, writes. split; [done|].
  split; [by rewrite <-Hlog, <-surjective_pairing|]. split; [done|]. intros ->.
  destruct Hwell as (He & evs & Hlog' & Hevs); [|done|].
  - intros He. split; [done|]. exists []. by rewrite app_nil_r.
  - rewrite Hlog in Hlog'. apply app_inv_head in Hlog' as <-. done.
Qed.

Lemma Finalize_log root dw w lg :
  exists r w' writes tail, directoryBackedWriter_Finalize root dw (w, lg) = (r, (w', lg ++ writes ++ tail)) /\
    Forall (is_write (temporaryFile dw)) writes /\ finalize_tail dw r tail /\
    (r = Ret None -> b_err (bufferedWriter (writer dw)) = None /\ Forall (writes_well (temporaryFile dw)) writes).
Proof using.
  unfold directoryBackedWriter_Finalize.
  destruct (file_Finalize_log root dw w lg) as (e & fw & w0 & writes & -> & -> & Hwr & Hwell).
  assert (forall e w1 l1 tl,
    l1 = (lg ++ writes) ++ tl ->
    (forall r e1 e2, r <> Ret None -> finalize_tail dw r
      (tl ++ [EvCloseWriter (temporaryFile dw) e1; EvRemove (temporaryName dw) e2])) ->
    exists r w' wr tail, close_and_return dw e (w1, l1) = (r, (w', lg ++ wr ++ tail)) /\
      Forall (is_write (temporaryFile dw)) wr /\ finalize_tail dw r tail /\
      (r = Ret None -> b_err (bufferedWriter (writer dw)) = None /\ Forall (writes_well (temporaryFile dw)) wr))
    as Hclose.
  { intros e' w1 l1 tl -> Htail.
    destruct (close_and_return_log dw e' (w1, (lg ++ writes) ++ tl)) as (r & [w' l'] & e1 & e2 & -> & Hr & Hl).
    exists r, w', writes, (tl ++ [EvCloseWriter (temporaryFile dw) e1; EvRemove (temporaryName dw) e2]).
    cbn in Hl. rewrite Hl, <-!app_assoc. split_and!; [done|done|by apply Htail|done]. }
  destruct e as [e|]; [apply (Hclose e w0 _ []); [by rewrite app_nil_r|by constructor]|].
  cbn. unfold log. cbn. destruct (FileWriter_Sync _ w0) as [[e|] w1].
  { apply (Hclose _ w1 _ [EvSync (temporaryFile dw) (Some e)]); [done|by constructor]. }
  cbn. destruct (FileWriter_Close _ w1) as [[e|] w2]; cbn.
  { destruct (Remove _ w2) as [e2 w3]. eexists _, _, writes, [EvSync (temporaryFile dw) None;
      EvCloseWriter (temporaryFile dw) (Some e); EvRemove (temporaryName dw) e2].
    split; [by rewrite <-!app_assoc|]. split; [done|]. split; [by constructor|done]. }
  destruct (Rename _ _ w2) as [[e|] w3]; cbn.
  { destruct (Remove _ w3) as [e2 w4]. eexists _, _, writes, [EvSync (temporaryFile dw) None;
      EvCloseWriter (temporaryFile dw) None; EvRename (temporaryName dw) (outputBaseID dw) (Some e); EvRemove (temporaryName dw) e2].
    split; [by rewrite <-!app_assoc|]. split; [done|]. split; [by constructor|done]. }
  eexists _, _, writes, [EvSync (temporaryFile dw) None; EvCloseWriter (temporaryFile dw) None; EvRename (temporaryName dw) (outputBaseID dw) None].
  split; [by rewrite <-!app_assoc|]. split; [done|]. split; [constructor|]. intros _. by apply Hwell.
Qed.

Lemma writes_quiet (p : fs_event -> bool) f evs :
  (forall b off r, p (EvWriteAt f b off r) = false) -> Forall (is_write f) evs -> Forall (fun e => p e = false) evs.
Proof using. intros Hp Hevs. eapply Forall_impl; [done|]. by intros e (b & off & r & ->). Qed.

Lemma ends_in_remove evs tl c e :
  last tl = Some (EvRemove c e) -> exists evs' e', evs ++ tl = evs' ++ [EvRemove c e'].
Proof using.
  intros Hl. apply last_Some in Hl as [l' ->]. exists (evs ++ l'), e. by rewrite app_assoc.
Qed.

(** C22. [Finalize] closes the temporary file exactly once, whichever call fails.
    It reports success precisely when its last calls synchronised and closed the
    file and renamed it to the output base ID, without errors; all of its writes,
    and those of the directories that were written before, had then succeeded as
    well, so that a file that could not be written completely is never put in
    place. No other call touches the existing state file, so that a crash or an
    error leaves either the old or the complete new state. After an error the
    temporary file is removed. *)
Theorem Finalize_atomic root dw w lg r w' lg' :
  directoryBackedWriter_Finalize root dw (w, lg) = (r, (w', lg')) ->
  temporaryName dw <> outputBaseID dw ->
  exists evs, lg' = lg ++ evs /\
    count closes_writer evs = 1%nat /\
    (r = Ret None <-> exists evs', evs = evs' ++ [EvSync (temporaryFile dw) None;
       EvCloseWriter (temporaryFile dw) None; EvRename (temporaryName dw) (outputBaseID dw) None] /\
       b_err (bufferedWriter (writer dw)) = None /\ Forall (writes_well (temporaryFile dw)) evs') /\
    Forall (fun ev => changes_name (outputBaseID dw) ev = true ->
      exists e, ev = EvRename (temporaryName dw) (outputBaseID dw) e) evs /\
    (r <> Ret None -> (EvRename (temporaryName dw) (outputBaseID dw) None ∉ evs) /\
       exists evs' e, evs = evs' ++ [EvRemove (temporaryName dw) e]).
Proof using.
  intros Hfin Hne. destruct (Finalize_log root dw w lg) as (r1 & w1 & writes & tail & Heq & Hwr & Ht & Hwell).
  rewrite Heq in Hfin. injection Hfin as <- <- <-. exists (writes ++ tail).
  assert (forall ev, ev ∈ writes -> is_write (temporaryFile dw) ev) as Hin
    by (by apply Forall_forall).
  split; [done|]. rewrite count_app, (count_nil _ writes) by (by eapply writes_quiet).
  assert (Forall (fun ev => changes_name (outputBaseID dw) ev = true ->
    exists e, ev = EvRename (temporaryName dw) (outputBaseID dw) e) writes) as Hq.
  { apply Forall_forall. by intros ev (b & off & r & ->)%Hin. }
  rewrite Forall_app.
  inversion Ht; subst; cbn; (split; [done|]); rewrite ?bool_decide_false by done;
    (split; [|split; [split; [done|repeat constructor; cbn; rewrite ?bool_decide_false by done;
                                  try done; intros _; by eexists]|]]).
  all: try (split; [done|]; intros (evs' & Heq' & _); apply (f_equal last) in Heq';
    rewrite !last_app in Heq'; done).
  all: try (intros _; split;
    [rewrite elem_of_app; intros [(? & ? & ? & ?)%Hin|Htl]; [done|]; rewrite !elem_of_cons in Htl;
       destruct_or! Htl; try done; by apply not_elem_of_nil in Htl
    |by eapply ends_in_remove]).
  - split; [|done]. intros _. exists writes. split; [done|]. by apply Hwell.
  - done.
Qed.

(** [Write] leaves no file open when it fails, and exactly one when it succeeds. *)
Lemma Write_log c w lg :
  exists r w' evs, directoryBackedStore_Write c (w, lg) = (r, (w', lg ++ evs)) /\
    count closes_writer evs = 0%nat /\
    count opens_writer evs = (if is_Ok r then 1 else 0)%nat /\
    match r with
    | Ok dw => outputBaseID dw = c /\ getTemporaryName c = Ok (temporaryName dw) /\
        EvOpenWrite (temporaryName dw) (Ok (temporaryFile dw)) ∈ evs
    | Err _ => True
    end /\
    Forall (fun ev => forall c', changes_name c' ev = true -> getTemporaryName c = Ok c') evs.
Proof using.
  unfold directoryBackedStore_Write. destruct (getTemporaryName c) as [tmp|e]; cbn.
  2: { exists (Err e), w, []. rewrite app_nil_r. by split_and!. }
  unfold log. cbn. destruct (Remove tmp w) as [e w1]. cbn. destruct (other_than_ENOENT e).
  { eexists (Err _), w1, [_]. split; [done|]. split; [done|]. split; [done|]. split; [done|].
    repeat constructor. cbn. by intros c' ->%bool_decide_eq_true. }
  cbn. destruct (OpenWrite _ _ w1) as [[f|e'] w2].
  - eexists (Ok _), w2, [_; _]. split; [cbn; by rewrite <-app_assoc|].
    split; [done|]. split; [done|]. split.
    + cbn. split; [done|]. split; [done|]. right. by left.
    + repeat constructor; cbn; by intros c' ->%bool_decide_eq_true.
  - eexists (Err _), w2, [_; _]. split; [cbn; by rewrite <-app_assoc|].
    split; [done|]. split; [done|]. split; [done|].
    repeat constructor; cbn; by intros c' ->%bool_decide_eq_true.
Qed.

Lemma Read_log s c w lg :
  exists r w' evs, directoryBackedStore_Read s c (w, lg) = (Ret r, (w', lg ++ evs)) /\
    match r with
    | Ok _ => count opens_reader evs = 1%nat /\ count closes_reader evs = 0%nat
    | Err _ => count opens_reader evs = count closes_reader evs
    end.
Proof using.
  unfold directoryBackedStore_Read. cbn. unfold log. cbn. destruct (OpenRead c w) as [[f|e] w1].
  - cbn. destruct (NewFileReader _ _) as [[rd root]|e].
    + by eexists (Ok _), w1, [_].
    + destruct (FileReader_Close f w1) as [e1 w2]. eexists (Err _), w2, [_; _].
      split; [cbn; by rewrite <-app_assoc|done].
  - by eexists (Err _), w1, [_].
Qed.

(** Reading state never leaks a file, also when files are rejected for their
    age: the file that was opened is still open after a successful call, for the
    caller to close, and closed exactly once by a call that fails. A call that
    succeeds returns state whose creation time is valid and lies in the current
    epoch. *)
Theorem maximum_age_Read_closes {TL : TimestampLib} (now : st W Z) age max c w lg :
  age <> 0 ->
  let clock_Now := fun w => let '(t, w') := now w.1 in (t, (w', w.2)) in
  exists r w' evs,
    maximumAgeStore_Read (NewDirectoryBackedStore max) clock_Now age c (w, lg)
      = (Ret r, (w', lg ++ evs)) /\
    match r with
    | Ok (_, root) => count opens_reader evs = 1%nat /\ count closes_reader evs = 0%nat /\
        CheckValid (InitialCreationTime root) = None /\
        exists t w0, (now w0).1 = t /\
          timeToEpoch age (AsTime (InitialCreationTime root)) = timeToEpoch age t
    | Err _ => count opens_reader evs = count closes_reader evs
    end.
Proof using.
  intros Hage. cbn zeta. unfold maximumAgeStore_Read. cbn [store_Read NewDirectoryBackedStore].
  destruct (Read_log {| maximumStateFileSizeBytes := max |} c w lg) as (r & w1 & evs & -> & Hr).
  destruct r as [[rd root]|e]; [|by exists (Err e), w1, evs].
  destruct Hr as [Ho Hc]. unfold timeToEpoch. rewrite bool_decide_false by done.
  destruct (CheckValid _) as [e|] eqn:Hvalid.
  - cbn. unfold log. cbn. destruct (FileReader_Close _ w1) as [e1 w2].
    eexists (Err _), w2, (evs ++ [_]). split; [cbn; by rewrite <-app_assoc|].
    rewrite !count_app, Ho, Hc. done.
  - cbn [fst snd]. destruct (now w1) as [t w2] eqn:Hnow. case_bool_decide as Heq.
    + eexists (Ok (rd, root)), w2, evs. split; [done|]. split_and!; [done..|].
      exists t, w1. split; [by rewrite Hnow|by f_equal].
    + cbn. unfold log. cbn. destruct (FileReader_Close _ w2) as [e1 w3].
      eexists (Err _), w3, (evs ++ [_]). split; [cbn; by rewrite <-app_assoc|].
      rewrite !count_app, Ho, Hc. done.
Qed.
End Logged.

(** ** Expiry *)

Section Expiry.
Context {E : Errors} {P : PathLib} {TL : TimestampLib} {W : Type} (base : Store W).
Context (clock_Now : st W Z) (maximumStateFileAge : Z).

Lemma timeToEpoch_div t :
  0 < maximumStateFileAge -> 0 <= t < 2 ^ 63 ->
  timeToEpoch maximumStateFileAge t = Ret (t / maximumStateFileAge).
Proof using.
  intros Hage Ht. unfold timeToEpoch, time_Sub, minDuration, maxDuration.
  rewrite bool_decide_false by lia. replace (Z.max _ _) with t by lia.
  rewrite Z.quot_div_nonneg by lia. f_equal. apply i64_id.
  pose proof (Z.div_pos t maximumStateFileAge). pose proof (Z.div_le_upper_bound t maximumStateFileAge t).
  nia.
Qed.

(** C38. State expires: it is accepted until the end of the epoch in which it was
    created and rejected with InvalidArgument from then on, so that it never gets
    as old as the maximum age. Epochs are counted from 1970, and times after the
    year 2262 are out of reach of [time.Duration]. *)
Theorem maximumAgeStore_expires (EL : ErrorsLaws E) c rd root w w1 t w2 :
  0 < maximumStateFileAge ->
  store_Read c w = (Ret (Ok (rd, root)), w1) ->
  CheckValid (InitialCreationTime root) = None ->
  clock_Now w1 = (t, w2) ->
  0 <= AsTime (InitialCreationTime root) <= t -> t < 2 ^ 63 ->
  let created := AsTime (InitialCreationTime root) in
  let expires := (created / maximumStateFileAge + 1) * maximumStateFileAge in
  created < expires <= created + maximumStateFileAge /\
  let r := (maximumAgeStore_Read base clock_Now maximumStateFileAge c w).1 in
  if bool_decide (t < expires) then r = Ret (Ok (rd, root))
  else exists e, r = Ret (Err e) /\ status_Code e = InvalidArgument.
Proof using.
  intros Hage Hread Hvalid Hnow Hcr Ht. cbn zeta.
  pose proof (Z.div_mod (AsTime (InitialCreationTime root)) maximumStateFileAge ltac:(lia)) as Hdm.
  pose proof (Z.mod_pos_bound (AsTime (InitialCreationTime root)) maximumStateFileAge Hage) as Hmod.
  split; [lia|]. unfold maximumAgeStore_Read. rewrite Hread, Hvalid.
  rewrite timeToEpoch_div, Hnow, timeToEpoch_div by lia.
  set (created := AsTime _) in *.
  assert (created / maximumStateFileAge = t / maximumStateFileAge <->
    t < (created / maximumStateFileAge + 1) * maximumStateFileAge) as Hepoch.
  { pose proof (Z.div_mod t maximumStateFileAge ltac:(lia)) as Hdm'.
    pose proof (Z.mod_pos_bound t maximumStateFileAge Hage) as Hmod'.
    pose proof (Z.div_le_mono created t maximumStateFileAge Hage ltac:(lia)). nia. }
  case_bool_decide as He; [by rewrite bool_decide_true by by apply Hepoch|].
  rewrite bool_decide_false by by intros ?%Hepoch.
  destruct (rc_Close rd w2). cbn. eexists. split; [done|]. by apply status_Code_Errorf.
Qed.
End Expiry.

(** ** What a store promises

    [sl_writing sw w l]: the directories written to [sw] so far, each with the
    region that was returned for it. [sl_saved w c root l]: the state of output
    base [c] consists of [root] and the directories [l]. [sl_reading sr w l]: the
    reader [sr] has access to [l]. Clients of a store are verified against these
    laws. *)

Class StoreLaws {E : Errors} {P : PathLib} {W : Type} (S : Store W) : Type := {
  sl_writing : Component -> StoreWriter -> W -> list (option FileRegion * Directory) -> Prop;
  sl_saved : W -> Component -> RootDirectory -> list (option FileRegion * Directory) -> Prop;
  sl_reading : StoreReader -> W -> list (option FileRegion * Directory) -> Prop;
  (** The messages are within the limits of the store. *)
  sl_fits : list Directory -> RootDirectory -> Prop;
  sl_Write c w sw w' : store_Write c w = (Ok sw, w') -> sl_writing c sw w' [];
  sl_WriteDirectory c sw w l d reg sw' w' :
    sl_writing c sw w l -> sw_WriteDirectory d sw w = ((Ok reg, sw'), w') ->
    sl_writing c sw' w' (l ++ [(reg, d)]);
  sl_Finalize c sw w l root w' :
    sl_writing c sw w l -> sl_fits l.*2 root -> sw_Finalize root sw w = (Ret None, w') ->
    sl_saved w' c root l;
  sl_Read w c root l rc root' w' :
    sl_saved w c root l -> store_Read c w = (Ret (Ok (rc, root')), w') ->
    root' = root /\ sl_reading (rc_Reader rc) w' l;
  sl_ReadDirectory sr w l j reg d :
    sl_reading sr w l -> l !! j = Some (reg, d) ->
    exists sr', sr_ReadDirectory sr reg w = (Ok (sr', d), w) /\
      match reg with Some _ => sl_reading sr' w (take j l) | None => d = empty_Directory end;
  (** There is no state for an output base ID. *)
  sl_absent : W -> Component -> Prop;
  sl_Clean c w w' : store_Clean c w = (None, w') -> sl_absent w' c;
  sl_Read_absent w c : sl_absent w c -> exists e w', store_Read c w = (Ret (Err e), w');
}.

(** ** What a file system promises

    [names] and [content] are the file system as it looks to its users: which
    file a name refers to, and what it contains. *)

Class FilesystemLaws {E : Errors} {P : PathLib} {W : Type} (FD : FilesystemDirectory W) : Type := {
  names : W -> gmap Component nat;
  content : W -> nat -> list byte;
  writer_file : FileWriter -> nat;
  reader_file : FileReader -> nat;
  same w w' := names w' = names w /\ (forall i, content w' i = content w i);
  OpenWrite_ok c p w f w' : OpenWrite c p w = (Ok f, w') ->
    names w !! c = None /\ names w' = <[c := writer_file f]> (names w) /\
    content w' (writer_file f) = [] /\
    forall c' i, names w !! c' = Some i -> i <> writer_file f /\ content w' i = content w i;
  WriteAt_ok f : WriterAt_ok (FileWriter_WriteAt f) (fun w => content w (writer_file f));
  WriteAt_frame f p off w : names (FileWriter_WriteAt f p off w).2 = names w /\
    forall i, i <> writer_file f -> content (FileWriter_WriteAt f p off w).2 i = content w i;
  Sync_same f w : same w (FileWriter_Sync f w).2;
  CloseWriter_same f w : same w (FileWriter_Close f w).2;
  CloseReader_same f w : same w (FileReader_Close f w).2;
  Remove_ok c w : let '(e, w') := Remove c w in
    (forall i, content w' i = content w i) /\
    (e = None -> names w' = delete c (names w)) /\ (e <> None -> names w' = names w) /\
    (e = Some ENOENT -> names w !! c = None);
  Rename_ok a b w w' : Rename a b w = (None, w') ->
    (forall i, content w' i = content w i) /\
    exists i, names w !! a = Some i /\ names w' = <[b := i]> (delete a (names w));
  Rename_failed a b w e w' : Rename a b w = (Some e, w') -> same w w';
  OpenWrite_failed c p w e w' : OpenWrite c p w = (Err e, w') -> same w w';
  OpenRead_ok c w f w' : OpenRead c w = (Ok f, w') ->
    same w w' /\ names w !! c = Some (reader_file f);
  ReadAt_ok f w : reads_from (FileReader_ReadAt f w) (content w (reader_file f));
}.

Section DirectoryBackedStoreLaws.
Context {E : Errors} {P : PathLib} {CD : ProtoCodec Directory} {CR : ProtoCodec RootDirectory}.
Context {W : Type} {FD : FilesystemDirectory W} (FL : FilesystemLaws FD) (max : Z).
Context (LD : ProtoLaws Directory empty_Directory) (LR : ProtoLaws RootDirectory empty_RootDirectory).

(** The messages [l] are stored in [bs], and those before a message end before it. *)
Definition nested (bs : list byte) (limit : Z) (l : list (option FileRegion * Directory)) : Prop :=
  forall j reg d, l !! j = Some (reg, d) ->
    stored bs limit reg d /\
    forall g i reg' d', reg = Some g -> (i < j)%nat -> l !! i = Some (reg', d') ->
      stored bs (OffsetBytes g) reg' d'.

Lemma nested_snoc bs data l d :
  nested bs (headerSizeBytes + Z.of_nat (length bs)) l ->
  Marshal d = Ok data -> Z.of_nat (length data) < 2 ^ 31 ->
  headerSizeBytes + Z.of_nat (length (bs ++ data)) < 2 ^ 63 ->
  nested (bs ++ data) (headerSizeBytes + Z.of_nat (length (bs ++ data)))
    (l ++ [(region_at (length bs) data, d)]).
Proof using.
  intros Hn Hm Hsz Hlen j reg dj Hj. apply lookup_snoc_Some in Hj as [[Hlt Hj]|[-> [= <- <-]]].
  - destruct (Hn j reg dj Hj) as [Hst Hin]. split.
    { eapply stored_app; [|done]. rewrite length_app. lia. }
    intros g i reg' d' Hg Hi Hli. rewrite lookup_app_l in Hli by lia.
    eapply stored_app; [|by eapply Hin]. lia.
  - split; [by apply region_at_stored|]. intros g i reg' d' Hg Hi Hli.
    rewrite lookup_app_l in Hli by done. rewrite (region_at_offset _ _ _ Hg) by
      (rewrite length_app in Hlen; lia).
    eapply stored_app; [|by apply Hn with i]. lia.
Qed.

Lemma nested_app bs x limit l : nested bs limit l -> nested (bs ++ x) limit l.
Proof using.
  intros Hn j reg d Hj. destruct (Hn j reg d Hj) as [Hst Hin].
  split; [by eapply stored_app|]. intros g i reg' d' Hg Hi Hli. eapply stored_app; [|by eapply Hin]. done.
Qed.

Definition total (l : list (option FileRegion * Directory)) : nat := sum_list_with message_size l.*2.

Definition small (l : list (option FileRegion * Directory)) : Prop :=
  Forall (fun d => Z.of_nat (message_size d) < 2 ^ 31) l.*2 /\
  headerSizeBytes + Z.of_nat (total l) < 2 ^ 63.

Definition writing (c : Component) (dw : directoryBackedWriter) (w : W)
    (l : list (option FileRegion * Directory)) : Prop :=
  outputBaseID dw = c /\
  names w !! temporaryName dw = Some (writer_file (temporaryFile dw)) /\
  exists bs, fw_inv (fun w => content w (writer_file (temporaryFile dw)))
      (set_rawWriter w (writer dw)) bs /\
    length bs = total l /\
    (small l -> nested bs (headerSizeBytes + Z.of_nat (length bs)) l).

Definition saved (w : W) (c : Component) (root : RootDirectory)
    (l : list (option FileRegion * Directory)) : Prop :=
  exists i bs data, names w !! c = Some i /\
    content w i = header (region_at (length bs) data) ++ bs ++ data /\
    Marshal root = Ok data /\ data <> [] /\ length bs = total l /\ fits l.*2 root max /\
    nested bs (headerSizeBytes + Z.of_nat (length bs)) l.

Definition reading (dr : directoryBackedReader) (w : W)
    (l : list (option FileRegion * Directory)) : Prop :=
  exists hdr bs, length hdr = 16%nat /\ content w (reader_file (dr_file dr)) = hdr ++ bs /\
    maximumOffsetBytes (dr_reader dr) < 2 ^ 63 /\
    nested bs (maximumOffsetBytes (dr_reader dr)) l.

Lemma set_rawWriter_id (fw : fileWriter (F := W)) : set_rawWriter (rawWriter fw) fw = fw.
Proof using. by destruct fw as [[[] ? ? ?] ?]. Qed.

Lemma Write_writing c w dw w' :
  directoryBackedStore_Write c w = (Ok dw, w') -> writing c dw w' [].
Proof using.
  unfold directoryBackedStore_Write. destruct (getTemporaryName c) as [tmp|]; [|done].
  destruct (Remove tmp w) as [e w1]. destruct (other_than_ENOENT e); [done|].
  destruct (OpenWrite _ _ w1) as [[f|] w2] eqn:EO; [|done]. intros [= <- <-].
  apply OpenWrite_ok in EO as (_ & Hn & Hc & _). split; [done|]. cbn.
  rewrite Hn, lookup_insert_eq. split; [done|]. exists [].
  split; [by apply NewFileWriter_inv|]. split; [done|]. intros _ j reg d Hj. by rewrite lookup_nil in Hj.
Qed.

Lemma WriteDirectory_writing c dw w l d reg dw' w' :
  writing c dw w l -> directoryBackedWriter_WriteDirectory d dw w = ((Ok reg, dw'), w') ->
  writing c dw' w' (l ++ [(reg, d)]).
Proof using.
  intros (Hc & Hname & bs & Hfw & Hlen & Hnest). unfold directoryBackedWriter_WriteDirectory.
  pose proof (writeMessage_preserves (FileWriter_WriteAt (temporaryFile dw))
    (fun w => names w !! temporaryName dw = Some (writer_file (temporaryFile dw)))
    ltac:(intros p off f Hf; by destruct (WriteAt_frame (temporaryFile dw) p off f) as [-> _]) d
    (set_rawWriter w (writer dw)) Hname) as Hname'.
  unfold WriteDirectory. destruct (writeMessage _ _ _) as [r fw] eqn:EM. intros [= -> <- <-].
  apply (writeMessage_spec _ _ (WriteAt_ok _)) with (bs := bs) in EM as (data & Hm & -> & Hfw'); [|done].
  split; [done|]. split; [done|]. exists (bs ++ data). cbn. rewrite set_rawWriter_id.
  split; [done|]. assert (message_size d = length data) as Hsz by (unfold message_size; by rewrite Hm).
  assert (length (bs ++ data) = total (l ++ [(region_at (length bs) data, d)])) as Htot.
  { unfold total in *. rewrite length_app, fmap_app, sum_list_with_app. cbn. lia. }
  split; [done|]. intros [Hsmall Htotal]. rewrite <-Htot in Htotal.
  rewrite fmap_app in Hsmall. apply Forall_app in Hsmall as [Hl Hd].
  apply Forall_cons in Hd as [Hd _]. cbn in Hd. rewrite Hsz in Hd.
  apply nested_snoc; [|done|lia|done]. apply Hnest. split; [done|].
  rewrite length_app in Htotal. lia.
Qed.

Lemma Finalize_saved c dw w l root w' :
  writing c dw w l -> fits l.*2 root max -> Marshal root <> Ok [] -> c <> temporaryName dw ->
  directoryBackedWriter_Finalize root dw w = (Ret None, w') -> saved w' c root l.
Proof using LR.
  intros (Hc & Hname & bs & Hfw & Hlen & Hnest) Hfits Hne Htmp.
  unfold directoryBackedWriter_Finalize.
  pose proof (Finalize_preserves (FileWriter_WriteAt (temporaryFile dw))
    (fun w => names w !! temporaryName dw = Some (writer_file (temporaryFile dw)))
    ltac:(intros p off f Hf; by destruct (WriteAt_frame (temporaryFile dw) p off f) as [-> _]) root
    (set_rawWriter w (writer dw)) Hname) as Hname'.
  destruct (Finalize _ _ _) as [e fw] eqn:EF.
  destruct e as [e|].
  { unfold close_and_return. by destruct (directoryBackedWriter_Close _ _) as [[] ?]. }
  destruct (Finalize_spec _ _ (WriteAt_ok _) _ _ _ _ Hfw EF) as (data & Hm & Hbytes).
  pose proof Hfits as (Hsmall & Hroot & Hmax & Hmax63).
  assert (message_size root = length data) as Hsz by (unfold message_size; by rewrite Hm).
  rewrite Hsz in Hmax. specialize (Hbytes ltac:(rewrite length_app, Hlen; unfold total; lia)).
  pose proof (Sync_same (temporaryFile dw) (rawWriter fw)) as [Hn1 Hc1].
  destruct (FileWriter_Sync _ _) as [[e|] w1].
  { unfold close_and_return. by destruct (directoryBackedWriter_Close _ _) as [[] ?]. }
  pose proof (CloseWriter_same (temporaryFile dw) w1) as [Hn2 Hc2]. cbn in *.
  destruct (FileWriter_Close _ _) as [[e|] w2]; [by destruct (Remove _ _)|]. cbn in *.
  destruct (Rename _ _ w2) as [[e|] w3] eqn:ER; [by destruct (Remove _ _)|]. intros [= <-].
  apply Rename_ok in ER as (Hc3 & i & Hi & Hn3).
  rewrite Hn2, Hn1, Hname' in Hi. injection Hi as <-.
  exists (writer_file (temporaryFile dw)), bs, data. split_and!.
  - by rewrite Hn3, Hc, lookup_insert_eq.
  - by rewrite Hc3, Hc2, Hc1.
  - done.
  - intros ->. by rewrite Hm in Hne.
  - done.
  - done.
  - apply Hnest. split; [done|]. unfold total in *. lia.
Qed.

Lemma Read_reading c w root l rc root' w' :
  saved w c root l ->
  directoryBackedStore_Read {| maximumStateFileSizeBytes := max |} c w = (Ret (Ok (rc, root')), w') ->
  root' = root /\ reading rc w' l.
Proof using LR.
  intros (i & bs & data & Hname & Hcont & Hm & Hne & Hlen & Hfits & Hnest).
  destruct Hfits as (Hsmall & Hroot & Hmax & Hmax63).
  assert (message_size root = length data) as Hsz by (unfold message_size; by rewrite Hm).
  rewrite Hsz in Hmax, Hroot. fold (total l) in Hmax.
  unfold directoryBackedStore_Read. destruct (OpenRead c w) as [[f|] w1] eqn:EO; [|done].
  apply OpenRead_ok in EO as ([Hn1 Hc1] & Hf). rewrite Hname in Hf. injection Hf as ->.
  assert (stored (bs ++ data) max (region_at (length bs) data) root) as Hst.
  { rewrite <-(app_nil_r (bs ++ data)). eapply stored_app; [|apply region_at_stored];
      [|done|done|]; rewrite length_app; unfold total in *; lia. }
  destruct (region_at (length bs) data) as [g|] eqn:Eg.
  2: { cbn in Hst. congruence. }
  pose proof (region_at_offset _ _ _ Eg ltac:(unfold total in *; lia)) as Hgo.
  assert (SizeBytes g < 2 ^ 31) as Hgs.
  { destruct Hst as (? & ? & ? & _ & Hm' & _ & _ & -> & _). rewrite Hm in Hm'. by simplify_eq. }
  rewrite (NewFileReader_stored empty_RootDirectory LR _ max (bs ++ data) root g); [|..|done|done|done].
  2: { pose proof (ReadAt_ok f w1) as HR. by rewrite Hc1, Hcont in HR. }
  intros [= <- <- <-]. split; [done|]. exists (header (Some g)), (bs ++ data). cbn.
  rewrite Hc1, Hcont. split_and!; [done|done|unfold total in *; lia|].
  rewrite Hgo. by apply nested_app.
Qed.

Lemma ReadDirectory_reading dr w l j reg d :
  reading dr w l -> l !! j = Some (reg, d) ->
  exists dr', directoryBackedReader_ReadDirectory dr reg w = (Ok (dr', d), w) /\
    match reg with Some _ => reading dr' w (take j l) | None => d = empty_Directory end.
Proof using LD.
  intros (hdr & bs & Hh & Hc & Hmax & Hnest) Hj. unfold directoryBackedReader_ReadDirectory.
  destruct (Hnest j reg d Hj) as [Hst Hin].
  pose proof (ReadAt_ok (dr_file dr) w) as Hr. rewrite Hc in Hr.
  destruct (ReadDirectory_stored (FileReader_ReadAt (dr_file dr) w) empty_Directory LD hdr
    {| rawReader := FileReader_ReadAt (dr_file dr) w;
       maximumOffsetBytes := maximumOffsetBytes (dr_reader dr) |} bs
    (maximumOffsetBytes (dr_reader dr)) reg d) as (r' & -> & Hr'); [done|done|done|done|by cbn; lia|].
  eexists. split; [done|]. destruct reg as [g|].
  2: { apply (Unmarshal_Marshal (zero := empty_Directory)) in Hst.
       rewrite Unmarshal_nil in Hst. by simplify_eq. }
  rewrite (Hr' g eq_refl).
  exists hdr, bs. cbn. split_and!; [done|done| |].
  - destruct Hst as (pre & dat & post & _ & _ & _ & Ho & Hs & Hle). cbn. lia.
  - intros i reg' d' Hi. apply lookup_take_Some in Hi as [Hi Hlt]. split; [by eapply Hin|].
    intros g' i' reg'' d'' -> Hi' Hli'. apply lookup_take_Some in Hli' as [Hli' _].
    destruct (Hnest i (Some g') d' Hi) as [_ Hin']. by eapply Hin'.
Qed.

Lemma getTemporaryName_ne {PL : PathLaws P} c tmp : getTemporaryName c = Ok tmp -> c <> tmp.
Proof using.
  unfold getTemporaryName. destruct (NewComponent _) as [c'|] eqn:Hc; [|done]. intros [= ->] ->.
  apply NewComponent_String in Hc. apply (f_equal String.length) in Hc.
  rewrite string_length_app in Hc. cbn in Hc. lia.
Qed.

(** Removing a file only removes its name. *)
Lemma remove_file_spec name msg w :
  let '(e, w') := remove_file name msg w in
  (forall i, content w' i = content w i) /\
  (e = None -> names w' = delete name (names w)) /\ (e <> None -> names w' = names w).
Proof using.
  unfold remove_file. pose proof (Remove_ok name w) as Hr. destruct (Remove name w) as [e w1].
  destruct Hr as (Hc & Hok & Herr & Ha). destruct e as [e|]; cbn; [|by split_and!; [|intros _; apply Hok|]].
  specialize (Herr ltac:(done)). case_decide as He; [|by split_and!].
  split_and!; [done| |done]. intros _. rewrite Herr. symmetry. apply delete_id, Ha. by rewrite He.
Qed.

(** Nothing is left of an output base that was cleaned. *)
Lemma Clean_absent c w w' : directoryBackedStore_Clean c w = (None, w') -> names w' !! c = None.
Proof using.
  unfold directoryBackedStore_Clean. destruct (getTemporaryName c) as [tmp|]; [|done].
  pose proof (remove_file_spec c "Failed to remove persistent state file" w) as Hr.
  destruct (remove_file c _ w) as [[e|] w1]; [done|]. intros Ht.
  pose proof (remove_file_spec tmp "Failed to remove persistent state temporary file" w1) as Hr2.
  rewrite Ht in Hr2. destruct Hr as (_ & Hn & _), Hr2 as (_ & Hn2 & _).
  rewrite Hn2, Hn by done. apply lookup_delete_None. right. by rewrite lookup_delete_eq.
Qed.

(** The directory-backed store keeps the promises of a store. *)
Definition directoryBackedStore_laws {PL : PathLaws P} : StoreLaws (NewDirectoryBackedStore max).
Proof using FL LD LR.
  refine {|
    sl_writing := (fun c (dw : directoryBackedWriter) w l =>
      c <> temporaryName dw /\ writing c dw w l) :
      Component -> StoreWriter (Store := NewDirectoryBackedStore max) -> _ -> _ -> Prop;
    sl_saved := saved;
    sl_reading := reading;
    sl_absent w c := names w !! c = None;
    sl_fits ds root := fits ds root max /\ Marshal root <> Ok [];
  |}.
  - intros c w sw w' Hw. split; [|exact (Write_writing c w sw w' Hw)].
    cbn in Hw. unfold directoryBackedStore_Write in Hw.
    destruct (getTemporaryName c) as [tmp|] eqn:Et; [|done].
    destruct (Remove tmp w) as [e w1]. destruct (other_than_ENOENT e); [done|].
    destruct (OpenWrite _ _ w1) as [[f|] w2]; [|done]. injection Hw as <- <-. by apply getTemporaryName_ne.
  - intros c sw w l d reg sw' w' [Hne Hw] Hwd. 
    split; [|exact (WriteDirectory_writing c sw w l d reg sw' w' Hw Hwd)].
    cbn in Hwd. unfold directoryBackedWriter_WriteDirectory in Hwd.
    destruct (WriteDirectory _ _ _). by injection Hwd as _ <- _.
  - intros c sw w l root w' [Hne Hw] [Hfits Hm] Hfin.
    exact (Finalize_saved c sw w l root w' Hw Hfits Hm Hne Hfin).
  - intros c w root l rc root' w'. apply Read_reading.
  - intros sr w l j reg d. apply ReadDirectory_reading.
  - exact Clean_absent.
  - intros w c Hn. cbn. unfold directoryBackedStore_Read.
    destruct (OpenRead c w) as [[f|e] w1] eqn:HO; [|by eexists _, _].
    apply OpenRead_ok in HO as [_ Hf]. congruence.
Defined.

(** The directories [ds] written one after the other. *)
Fixpoint write_all (ds : list Directory) (dw : directoryBackedWriter)
  : st W (res err (list (option FileRegion)) * directoryBackedWriter) := fun w =>
  match ds with
  | [] => ((Ok [], dw), w)
  | d :: ds =>
      match directoryBackedWriter_WriteDirectory d dw w with
      | ((Err e, dw), w) => ((Err e, dw), w)
      | ((Ok r, dw), w) =>
          match write_all ds dw w with
          | ((Err e, dw), w) => ((Err e, dw), w)
          | ((Ok rs, dw), w) => ((Ok (r :: rs), dw), w)
          end
      end
  end.

Lemma write_all_writing c ds dw w l rs dw' w' :
  writing c dw w l -> write_all ds dw w = ((Ok rs, dw'), w') ->
  exists l', writing c dw' w' (l ++ l') /\ l'.*1 = rs /\ l'.*2 = ds /\ temporaryName dw' = temporaryName dw.
Proof using.
  revert dw w l rs. induction ds as [|d ds IH]; intros dw w l rs Hw; cbn.
  { intros [= <- <- <-]. exists []. by rewrite app_nil_r. }
  destruct (directoryBackedWriter_WriteDirectory d dw w) as [[[r|] dw1] w1] eqn:EW; [|done].
  destruct (write_all ds dw1 w1) as [[[rs1|] dw2] w2] eqn:EA; [|done]. intros [= <- <- <-].
  pose proof (WriteDirectory_writing _ _ _ _ _ _ _ _ Hw EW) as Hw1.
  destruct (IH _ _ _ _ Hw1 EA) as (l' & Hw2 & <- & <- & ->). exists ((r, d) :: l').
  rewrite <-app_assoc in Hw2. split_and!; [done|done|done|].
  unfold directoryBackedWriter_WriteDirectory in EW. destruct (WriteDirectory _ _ _).
  by injection EW as _ <- _.
Qed.

(** What is written to the store is what is read from it: when [Write], all
    calls to [WriteDirectory] and [Finalize] succeed, a later [Read] of the same
    output base yields the root directory, and its reader every directory through
    the region that was returned for it. *)
Theorem store_roundtrip {PL : PathLaws P} c w dw w1 ds rs dw' w2 root w3 rd root' w4 :
  directoryBackedStore_Write c w = (Ok dw, w1) ->
  write_all ds dw w1 = ((Ok rs, dw'), w2) ->
  fits ds root max -> Marshal root <> Ok [] ->
  directoryBackedWriter_Finalize root dw' w2 = (Ret None, w3) ->
  directoryBackedStore_Read {| maximumStateFileSizeBytes := max |} c w3 = (Ret (Ok (rd, root')), w4) ->
  root' = root /\ forall j d reg, ds !! j = Some d -> rs !! j = Some reg ->
    exists rd', directoryBackedReader_ReadDirectory rd reg w4 = (Ok (rd', d), w4).
Proof using FL LD LR.
  intros HW HA Hfits Hm HF HR.
  destruct (write_all_writing c ds dw w1 [] rs dw' w2 (Write_writing _ _ _ _ HW) HA)
    as (l & Hw2 & <- & <- & Ht). cbn [app] in Hw2.
  assert (c <> temporaryName dw') as Hne.
  { rewrite Ht. unfold directoryBackedStore_Write in HW.
    destruct (getTemporaryName c) as [tmp|] eqn:Et; [|done].
    destruct (Remove tmp w) as [e wa]. destruct (other_than_ENOENT e); [done|].
    destruct (OpenWrite _ _ wa) as [[f|] wb]; [|done]. injection HW as <- <-.
    by apply getTemporaryName_ne. }
  pose proof (Finalize_saved _ _ _ _ _ _ Hw2 Hfits Hm Hne HF) as Hsaved.
  destruct (Read_reading _ _ _ _ _ _ _ Hsaved HR) as [-> Hrd]. split; [done|].
  intros j d reg Hd Hreg. destruct (ReadDirectory_reading rd w4 l j reg d Hrd) as (rd' & ? & _);
    [|by exists rd'].
  rewrite list_lookup_fmap in Hd. rewrite list_lookup_fmap in Hreg. destruct (l !! j) as [[? ?]|]; by simplify_eq/=.
Qed.

(** *** Isolation

    A complete use of the store on behalf of one output base: cleaning it, or
    writing its state, which ends with [Finalize] or [Close]. *)
Inductive writer_step : directoryBackedWriter * W -> directoryBackedWriter * W -> Prop :=
| writer_step_WriteDirectory d dw w r dw' w' :
    directoryBackedWriter_WriteDirectory d dw w = ((r, dw'), w') ->
    writer_step (dw, w) (dw', w').

Inductive session (c : Component) (w : W) : W -> Prop :=
| session_Clean : session c w (directoryBackedStore_Clean c w).2
| session_Write_failed e w' : directoryBackedStore_Write c w = (Err e, w') -> session c w w'
| session_Finalize dw w1 dw' w2 root :
    directoryBackedStore_Write c w = (Ok dw, w1) -> rtc writer_step (dw, w1) (dw', w2) ->
    session c w (directoryBackedWriter_Finalize root dw' w2).2
| session_Close dw w1 dw' w2 :
    directoryBackedStore_Write c w = (Ok dw, w1) -> rtc writer_step (dw, w1) (dw', w2) ->
    session c w (directoryBackedWriter_Close dw' w2).2.

Section Isolation.
Context (c c' : Component) (i : nat) (bs : list byte).
Context (Hne : c' <> c) (Htmp : getTemporaryName c <> Ok c').

(** The name [c'] refers to the file [i], which contains [bs]. *)
Definition untouched (w : W) : Prop := names w !! c' = Some i /\ content w i = bs.

Definition own_writer (dw : directoryBackedWriter) : Prop :=
  outputBaseID dw = c /\ temporaryName dw <> c' /\ i <> writer_file (temporaryFile dw).

Lemma same_untouched w w' : same w w' -> untouched w -> untouched w'.
Proof using. intros [Hn Hc] [Hw Hb]. split; [by rewrite Hn|by rewrite Hc]. Qed.

Lemma Remove_untouched d w : d <> c' -> untouched w -> untouched (Remove d w).2.
Proof using.
  intros Hd [Hw Hb]. pose proof (Remove_ok d w) as Hr. destruct (Remove d w) as [e w'].
  destruct Hr as (Hc & Hok & Herr & _). split; [|by rewrite Hc]. cbn. destruct e as [e|].
  - by rewrite Herr.
  - by rewrite Hok, lookup_delete_ne.
Qed.

Lemma WriteAt_untouched dw p off w :
  own_writer dw -> untouched w -> untouched (FileWriter_WriteAt (temporaryFile dw) p off w).2.
Proof using.
  intros (_ & _ & Hi) [Hw Hb]. destruct (WriteAt_frame (temporaryFile dw) p off w) as [Hn Hc].
  split; [by rewrite Hn|by rewrite Hc].
Qed.

Lemma Write_untouched w :
  untouched w -> let '(r, w') := directoryBackedStore_Write c w in
  untouched w' /\ match r with Ok dw => own_writer dw | Err _ => True end.
Proof using Hne Htmp.
  intros Hw. unfold directoryBackedStore_Write.
  destruct (getTemporaryName c) as [tmp|e]; [|done].
  assert (tmp <> c') as Ht by congruence. pose proof (Remove_untouched tmp w Ht Hw) as Hw1.
  destruct (Remove tmp w) as [e w1]. destruct (other_than_ENOENT e); [done|].
  destruct (OpenWrite _ _ w1) as [[f|e'] w2] eqn:EO.
  - apply OpenWrite_ok in EO as (_ & Hn & _ & Hother). destruct Hw1 as [Hw1 Hb].
    destruct (Hother c' i Hw1) as [Hi Hc]. split; [|done].
    split; [by rewrite Hn, lookup_insert_ne|cbn in *; congruence].
  - split; [|done]. eapply same_untouched; [by eapply OpenWrite_failed|done].
Qed.

Lemma writer_steps_untouched dw w dw' w' :
  rtc writer_step (dw, w) (dw', w') -> own_writer dw -> untouched w -> own_writer dw' /\ untouched w'.
Proof using.
  remember (dw, w) as x eqn:Hx. remember (dw', w') as y eqn:Hy. intros Hsteps. revert dw w Hx.
  induction Hsteps as [x|x z y Hstep _ IH]; intros dw w Hx Hown Hw.
  { subst. by simplify_eq. }
  specialize (IH Hy). inversion Hstep as [d dw0 w0 r dw1 w1 Hwd]. subst. injection H as -> ->.
  pose proof (writeMessage_preserves (FileWriter_WriteAt (temporaryFile dw)) untouched
    ltac:(intros; by apply WriteAt_untouched) d (set_rawWriter w (writer dw)) Hw) as Hw'.
  unfold directoryBackedWriter_WriteDirectory, WriteDirectory in Hwd.
  destruct (writeMessage _ _ _) as [r' fw]. injection Hwd as _ <- <-. by eapply IH.
Qed.

Lemma Close_untouched dw w :
  own_writer dw -> untouched w -> untouched (directoryBackedWriter_Close dw w).2.
Proof using.
  intros (_ & Ht & _) Hw. unfold directoryBackedWriter_Close.
  pose proof (same_untouched _ _ (CloseWriter_same (temporaryFile dw) w) Hw) as Hw1.
  destruct (FileWriter_Close _ w) as [e1 w1].
  pose proof (Remove_untouched _ w1 Ht Hw1) as Hw2. destruct (Remove _ w1) as [e2 w2].
  by repeat case_match.
Qed.

Lemma close_and_return_untouched dw e w :
  own_writer dw -> untouched w -> untouched (close_and_return dw e w).2.
Proof using.
  intros Ho Hw. pose proof (Close_untouched dw w Ho Hw) as Hc. unfold close_and_return.
  by destruct (directoryBackedWriter_Close dw w) as [[] ?].
Qed.

Lemma Finalize_untouched root dw w :
  own_writer dw -> untouched w -> untouched (directoryBackedWriter_Finalize root dw w).2.
Proof using Hne.
  intros Ho Hw. unfold directoryBackedWriter_Finalize.
  pose proof (Finalize_preserves (FileWriter_WriteAt (temporaryFile dw)) untouched
    ltac:(intros; by apply WriteAt_untouched) root (set_rawWriter w (writer dw)) Hw) as Hw'.
  destruct (Finalize _ _ _) as [[e|] fw]; [by apply close_and_return_untouched|]. cbn in Hw'.
  pose proof (same_untouched _ _ (Sync_same (temporaryFile dw) (rawWriter fw)) Hw') as Hw1.
  destruct (FileWriter_Sync _ _) as [[e|] w1]; [by apply close_and_return_untouched|]. cbn in Hw1.
  pose proof (same_untouched _ _ (CloseWriter_same (temporaryFile dw) w1) Hw1) as Hw2.
  pose proof Ho as (Hob & Ht & _).
  destruct (FileWriter_Close _ w1) as [[e|] w2]; cbn in Hw2.
  { pose proof (Remove_untouched _ w2 Ht Hw2) as Hr. by destruct (Remove _ w2). }
  destruct (Rename _ _ w2) as [[e|] w3] eqn:ER.
  - apply Rename_failed in ER. pose proof (same_untouched _ _ ER Hw2) as Hw3.
    pose proof (Remove_untouched _ w3 Ht Hw3) as Hr. by destruct (Remove _ w3).
  - apply Rename_ok in ER as (Hc & k & _ & Hn). destruct Hw2 as [Hw2 Hb].
    split; [|cbn; by rewrite Hc]. cbn.
    by rewrite Hn, Hob, lookup_insert_ne, lookup_delete_ne.
Qed.

Lemma remove_file_untouched d msg w : d <> c' -> untouched w -> untouched (remove_file d msg w).2.
Proof using.
  intros Hd Hw. pose proof (Remove_untouched d w Hd Hw) as Hr. unfold remove_file.
  destruct (Remove d w) as [e w1]. by destruct (other_than_ENOENT e).
Qed.

Lemma Clean_untouched w : untouched w -> untouched (directoryBackedStore_Clean c w).2.
Proof using Hne Htmp.
  intros Hw. unfold directoryBackedStore_Clean. destruct (getTemporaryName c) as [tmp|e]; [|done].
  pose proof (remove_file_untouched c "Failed to remove persistent state file" w ltac:(done) Hw) as Hw1.
  destruct (remove_file c _ w) as [[e|] w1]; [done|]. apply remove_file_untouched; [congruence|done].
Qed.
End Isolation.

(** C36. Whatever is done on behalf of one output base, whether or not it
    succeeds, leaves the state files of all other output bases alone, except that
    of the output base whose name is that of the temporary file. *)
Theorem store_isolation c c' w w' i :
  session c w w' -> c' <> c -> getTemporaryName c <> Ok c' -> names w !! c' = Some i ->
  names w' !! c' = Some i /\ content w' i = content w i.
Proof using.
  intros Hs Hne Htmp Hi. assert (untouched c' i (content w i) w) as Hw by done.
  pose proof (Write_untouched c c' i (content w i) Hne Htmp w Hw) as Hwrite.
  destruct Hs as [|e w' Heq|dw w1 dw' w2 root Heq Hsteps|dw w1 dw' w2 Heq Hsteps];
    [by apply Clean_untouched|rewrite Heq in Hwrite; apply Hwrite|..];
    rewrite Heq in Hwrite; destruct Hwrite as [Hw1 Ho];
    destruct (writer_steps_untouched c c' i _ _ _ _ _ Hsteps Ho Hw1) as [Ho' Hw2].
  - by apply (Finalize_untouched c).
  - by apply (Close_untouched c).
Qed.

(** C37. Writing the state of an output base destroys the state of the output
    base whose name is that of the temporary file: it is gone as soon as [Write]
    could remove and create that file. *)
Theorem temporary_name_collision c c' w dw w' root l :
  getTemporaryName c = Ok c' -> saved w c' root l ->
  directoryBackedStore_Write c w = (Ok dw, w') ->
  forall root' l', ~ saved w' c' root' l'.
Proof using.
  intros Ht _ Hw root' l' (i & bs & data & Hn & Hc & _).
  unfold directoryBackedStore_Write in Hw. rewrite Ht in Hw.
  destruct (Remove c' w) as [e w1]. destruct (other_than_ENOENT e); [done|].
  destruct (OpenWrite _ _ w1) as [[f|e'] w2] eqn:EO; [|done]. injection Hw as <- <-.
  apply OpenWrite_ok in EO as (_ & Hn' & Hc' & _). rewrite Hn', lookup_insert_eq in Hn.
  injection Hn as <-. rewrite Hc' in Hc. apply (f_equal length) in Hc. cbn in Hc. lia.
Qed.
End DirectoryBackedStoreLaws.

(** ** Abandoning a state file *)

Section Close.
Context {E : Errors} {P : PathLib} {W : Type} {FD : FilesystemDirectory W}.

(** C40. [Close] loses the error with which the temporary file could not be
    removed: instead of it the nil error of closing the file is wrapped, so that
    the outcome is the same whatever the removal failed with. *)
Theorem Close_loses_removal_error (dw : directoryBackedWriter) w w1 e w2 :
  FileWriter_Close (temporaryFile dw) w = (None, w1) ->
  Remove (temporaryName dw) w1 = (Some e, w2) -> e <> ENOENT ->
  directoryBackedWriter_Close dw w =
    (StatusWrap_nil "Failed to remove persistent state temporary file", w2).
Proof using.
  intros Hc Hr He. unfold directoryBackedWriter_Close. rewrite Hc, Hr. cbn.
  by rewrite decide_False.
Qed.
End Close.

(** ** A concrete file system *)

Module ExampleStore.
Import ErrorTree ExamplePath ExampleFile.

Record files : Type := {
  fs_names : gmap Component nat;
  fs_content : gmap nat (list byte);
  fs_readonly : bool;
}.

Definition get (w : files) (i : nat) : list byte := default [] (fs_content w !! i).

(** A file number that no name refers to. *)
Definition next_file (w : files) : nat := S (max_list (map_to_list (fs_names w)).*2).

Lemma next_file_fresh w c i : fs_names w !! c = Some i -> i <> next_file w.
Proof.
  intros Hi. assert (i <= max_list (map_to_list (fs_names w)).*2)%nat; [|unfold next_file; lia].
  apply max_list_elem_of_le. change i with ((c, i).2). apply list_elem_of_fmap_2.
  by apply elem_of_map_to_list.
Qed.

Definition EROFS : tree := Sys "read-only file system".
Definition EEXIST : tree := Sys "file exists".

Definition ex_OpenRead (c : Component) : st files (res err nat) := fun w =>
  match fs_names w !! c with Some i => (Ok i, w) | None => (Err ENOENT, w) end.

Definition ex_OpenWrite (c : Component) (_ : Z) : st files (res err nat) := fun w =>
  match fs_names w !! c with
  | Some _ => (Err EEXIST, w)
  | None =>
      let i := next_file w in
      (Ok i, {| fs_names := <[c := i]> (fs_names w); fs_content := <[i := []]> (fs_content w);
                fs_readonly := fs_readonly w |})
  end.

Definition set_names (m : gmap Component nat) (w : files) : files :=
  {| fs_names := m; fs_content := fs_content w; fs_readonly := fs_readonly w |}.

Definition ex_Remove (c : Component) : st files (option err) := fun w =>
  if fs_readonly w then (Some EROFS, w)
  else match fs_names w !! c with
       | Some _ => (None, set_names (delete c (fs_names w)) w)
       | None => (Some ENOENT, w)
       end.

Definition ex_Rename (a b : Component) : st files (option err) := fun w =>
  match fs_names w !! a with
  | Some i => (None, set_names (<[b := i]> (delete a (fs_names w))) w)
  | None => (Some ENOENT, w)
  end.

Definition ex_WriteAt (f : nat) : WriterAt files := fun p off w =>
  ((length p, None),
   {| fs_names := fs_names w;
      fs_content := <[f := pwrite (get w f) p (Z.to_nat off)]> (fs_content w);
      fs_readonly := fs_readonly w |}).

Definition filesystem : FilesystemDirectory files := {|
  FileReader := nat;
  FileWriter := nat;
  OpenRead := ex_OpenRead;
  OpenWrite := ex_OpenWrite;
  Remove := ex_Remove;
  Rename := ex_Rename;
  FileReader_ReadAt f w := file_reader (get w f);
  FileReader_Close _ w := (None, w);
  FileWriter_WriteAt := ex_WriteAt;
  FileWriter_Sync _ w := (None, w);
  FileWriter_Close _ w := (None, w);
|}.

Lemma get_insert_eq w i bs :
  get {| fs_names := fs_names w; fs_content := <[i := bs]> (fs_content w);
         fs_readonly := fs_readonly w |} i = bs.
Proof. unfold get. simpl. by rewrite lookup_insert_eq. Qed.

Lemma get_insert_ne w i k bs :
  k <> i ->
  get {| fs_names := fs_names w; fs_content := <[i := bs]> (fs_content w);
         fs_readonly := fs_readonly w |} k = get w k.
Proof. intros Hk. unfold get. simpl. by rewrite lookup_insert_ne. Qed.

Lemma OpenWrite_spec c p w f w' :
  ex_OpenWrite c p w = (Ok f, w') ->
  fs_names w !! c = None /\ fs_names w' = <[c := f]> (fs_names w) /\ get w' f = [] /\
  forall c' i, fs_names w !! c' = Some i -> i <> f /\ get w' i = get w i.
Proof.
  unfold ex_OpenWrite. destruct (fs_names w !! c) eqn:Hc; [done|]. intros [= <- <-].
  split; [done|]. split; [done|]. unfold get. simpl fs_content.
  split; [by rewrite lookup_insert_eq|]. intros c' i Hi. pose proof (next_file_fresh w c' i Hi).
  split; [done|]. by rewrite lookup_insert_ne.
Qed.

Lemma OpenWrite_failed_spec c p w e w' : ex_OpenWrite c p w = (Err e, w') ->
  fs_names w' = fs_names w /\ forall i, get w' i = get w i.
Proof. unfold ex_OpenWrite. destruct (fs_names w !! c); [|done]. by intros [= _ <-]. Qed.

Lemma OpenRead_spec c w f w' : ex_OpenRead c w = (Ok f, w') ->
  (fs_names w' = fs_names w /\ forall i, get w' i = get w i) /\ fs_names w !! c = Some f.
Proof. unfold ex_OpenRead. destruct (fs_names w !! c) eqn:Hc; [|done]. by intros [= <- <-]. Qed.

Lemma Remove_spec c w : let '(e, w') := ex_Remove c w in
  (forall i, get w' i = get w i) /\
  (e = None -> fs_names w' = delete c (fs_names w)) /\ (e <> None -> fs_names w' = fs_names w) /\
  (e = Some ENOENT -> fs_names w !! c = None).
Proof. unfold ex_Remove. destruct (fs_readonly w); [done|]. by destruct (fs_names w !! c). Qed.

Lemma Rename_spec a b w w' : ex_Rename a b w = (None, w') ->
  (forall i, get w' i = get w i) /\
  exists i, fs_names w !! a = Some i /\ fs_names w' = <[b := i]> (delete a (fs_names w)).
Proof.
  unfold ex_Rename. destruct (fs_names w !! a) as [i|] eqn:Ha; [|done].
  intros [= <-]. split; [done|]. by exists i.
Qed.

Lemma Rename_failed_spec a b w e w' : ex_Rename a b w = (Some e, w') ->
  fs_names w' = fs_names w /\ forall i, get w' i = get w i.
Proof. unfold ex_Rename. destruct (fs_names w !! a); [done|]. by intros [= _ <-]. Qed.

Definition filesystem_laws : FilesystemLaws filesystem.
Proof.
  refine {| names := fs_names; content := get; writer_file := (fun f : nat => f) : FileWriter (FilesystemDirectory := filesystem) -> nat;
    reader_file := (fun f : nat => f) : FileReader (FilesystemDirectory := filesystem) -> nat |};
    cbv beta.
  - exact OpenWrite_spec.
  - intros f p off w n e w' [= <- <- <-]. split; [done|]. intros _. split; [done|].
    intros _. exact (get_insert_eq w f _).
  - intros f p off w. split; [done|]. intros i Hi. by exact (get_insert_ne w f i _ Hi).
  - by intros f w.
  - by intros f w.
  - by intros f w.
  - exact Remove_spec.
  - exact Rename_spec.
  - exact Rename_failed_spec.
  - exact OpenWrite_failed_spec.
  - exact OpenRead_spec.
  - intros f w. apply file_reader_reads.
Defined.

(** *** The theorems on concrete states *)

#[export] Instance timestamps : TimestampLib := {|
  CheckValid t := match t with None => Some (Sys "invalid nil Timestamp") | Some _ => None end;
  Time_Format t := "";
|}.

#[local] Existing Instance filesystem.

Definition c1 : Component := comp "base1" eq_refl.
Definition c2 : Component := comp "base2" eq_refl.
Definition c1tmp : Component := comp "base1.tmp" eq_refl.

Definition fs0 : files := {| fs_names := ∅; fs_content := ∅; fs_readonly := false |}.
Definition fs1 : files := (directoryBackedStore_Write c1 fs0).2.
Definition dw1 : directoryBackedWriter (W := files) :=
  {| outputBaseID := c1; temporaryName := c1tmp; temporaryFile := 1%nat : FileWriter;
     writer := NewFileWriter fs1 |}.

Example Write_fs0 : directoryBackedStore_Write c1 fs0 = (Ok dw1, fs1).
Proof. reflexivity. Qed.

Definition ds : list Directory := [leafDir; empty_Directory; topDir].
Definition dw2 : directoryBackedWriter (W := files) := (write_all ds dw1 fs1).1.2.
Definition fs2 : files := (write_all ds dw1 fs1).2.
Definition fs3 : files := (directoryBackedWriter_Finalize exampleRoot dw2 fs2).2.
Definition rd1 : directoryBackedReader :=
  {| dr_file := 1%nat : FileReader;
     dr_reader := {| rawReader := file_reader (get fs3 1); maximumOffsetBytes := 19 |} |}.

Lemma store_roundtrip_witness :
  directoryBackedWriter_Finalize exampleRoot dw2 fs2 = (Ret None, fs3) /\
  directoryBackedStore_Read {| maximumStateFileSizeBytes := 100 |} c1 fs3 = (Ret (Ok (rd1, exampleRoot)), fs3) /\
  exists rd', directoryBackedReader_ReadDirectory rd1 (Some {| OffsetBytes := 17; SizeBytes := 2 |}) fs3
    = (Ok (rd', topDir), fs3).
Proof.
  split; [reflexivity|]. split; [reflexivity|].
  destruct (store_roundtrip filesystem_laws 100 dirLaws rootLaws (PL := path_laws)
    c1 fs0 dw1 fs1 ds regions dw2 fs2 exampleRoot fs3 rd1 exampleRoot fs3) as [_ H].
  - reflexivity.
  - reflexivity.
  - split; [repeat (apply Forall_cons_2; [reflexivity|]); apply Forall_nil_2|].
    split; [reflexivity|]. split; [apply Z.leb_le; reflexivity|reflexivity].
  - intros Hm. vm_compute in Hm. discriminate Hm.
  - reflexivity.
  - reflexivity.
  - exact (H 2%nat topDir (Some {| OffsetBytes := 17; SizeBytes := 2 |}) eq_refl eq_refl).
Defined.

(** Finalizing on the logged file system. *)
Definition ldw : directoryBackedWriter (FD := logged filesystem) :=
  {| outputBaseID := c1; temporaryName := c1tmp;
     temporaryFile := 1%nat : FileWriter (FilesystemDirectory := logged filesystem);
     writer := NewFileWriter (fs1, []) |}.
Definition lresult := directoryBackedWriter_Finalize (FD := logged filesystem) exampleRoot ldw (fs1, []).

Lemma Finalize_atomic_witness :
  lresult.1 = Ret None /\
  exists evs, lresult.2.2 = [] ++ evs /\ count filesystem (closes_writer filesystem) evs = 1%nat /\
    exists evs', evs = evs' ++ [EvSync filesystem 1%nat None; EvCloseWriter filesystem 1%nat None;
      EvRename filesystem c1tmp c1 None] /\
      b_err (bufferedWriter (writer ldw)) = None /\ Forall (writes_well filesystem 1%nat) evs'.
Proof.
  split; [reflexivity|].
  destruct (Finalize_atomic filesystem exampleRoot ldw fs1 [] (Ret None) lresult.2.1 lresult.2.2)
    as (evs & H1 & H2 & H3 & _).
  - reflexivity.
  - discriminate.
  - exists evs. split; [exact H1|]. split; [exact H2|]. exact (proj1 H3 eq_refl).
Defined.

(** Two days, and a clock that stands at one second past 1970. *)
Definition age : Z := 2 * 86400 * Second.
Definition clock (t : Z) : st files Z := fun w => (t, w).

Lemma maximum_age_Read_closes_witness :
  age <> 0 /\ exists r w' evs,
    maximumAgeStore_Read (NewDirectoryBackedStore (FD := logged filesystem) 100)
      (fun w => let '(t, w') := clock age w.1 in (t, (w', w.2))) age c1 (fs3, [])
      = (Ret r, (w', [] ++ evs)) /\ is_Ok r = false /\
    count filesystem (opens_reader filesystem) evs = count filesystem (closes_reader filesystem) evs.
Proof.
  split; [discriminate|].
  destruct (maximum_age_Read_closes filesystem (clock age) age 100 c1 fs3 [] ltac:(discriminate))
    as (r & w' & evs & Heq & Hr).
  exists r, w', evs. split; [exact Heq|]. destruct r as [[rd root]|e].
  - exfalso. apply (f_equal (fun x => match x.1 with Ret (Ok _) => true | _ => false end)) in Heq.
    vm_compute in Heq. discriminate Heq.
  - split; [reflexivity|exact Hr].
Defined.

Lemma maximumAgeStore_expires_witness :
  (maximumAgeStore_Read (NewDirectoryBackedStore (FD := filesystem) 100) (clock (2 * Second)) age c1 fs3).1
    = Ret (Ok (rd1, exampleRoot)) /\
  exists e, (maximumAgeStore_Read (NewDirectoryBackedStore (FD := filesystem) 100) (clock age) age c1 fs3).1
    = Ret (Err e) /\ status_Code e = InvalidArgument.
Proof.
  split.
  - refine (proj2 (maximumAgeStore_expires (NewDirectoryBackedStore (FD := filesystem) 100)
      (clock (2 * Second)) age errors_laws c1 rd1 exampleRoot fs3 fs3 (2 * Second) fs3 _ _ _ _ _ _));
      first [reflexivity|split; [discriminate|intros H; discriminate H]].
  - refine (proj2 (maximumAgeStore_expires (NewDirectoryBackedStore (FD := filesystem) 100)
      (clock age) age errors_laws c1 rd1 exampleRoot fs3 fs3 age fs3 _ _ _ _ _ _));
      first [reflexivity|split; [discriminate|intros H; discriminate H]].
Defined.

(** The state of base1 survives that base2 is cleaned. *)
Lemma store_isolation_witness :
  let w' := (directoryBackedStore_Clean (FD := filesystem) c2 fs3).2 in
  fs_names w' !! c1 = Some 1%nat /\ get w' 1 = get fs3 1.
Proof.
  apply (store_isolation filesystem_laws c2 c1 fs3 _ 1%nat).
  - apply session_Clean.
  - discriminate.
  - discriminate.
  - reflexivity.
Defined.

(** The output base base1.tmp loses its state when base1 is written. *)
Definition fs4 : files := set_names {[ c1tmp := 1%nat ]} fs3.
Definition dw4 : directoryBackedWriter (W := files) :=
  {| outputBaseID := c1; temporaryName := c1tmp; temporaryFile := 1%nat : FileWriter;
     writer := NewFileWriter (directoryBackedStore_Write c1 fs4).2 |}.

Lemma fits_ds : fits ds exampleRoot 100.
Proof.
  split; [repeat (apply Forall_cons_2; [reflexivity|]); apply Forall_nil_2|].
  split; [reflexivity|]. split; [apply Z.leb_le; reflexivity|reflexivity].
Qed.

Lemma saved_fs3 : exists l, saved filesystem_laws 100 fs3 c1 exampleRoot l.
Proof.
  assert (write_all ds dw1 fs1 = ((Ok regions, dw2), fs2)) as HA by reflexivity.
  destruct (write_all_writing filesystem_laws c1 ds dw1 fs1 [] regions dw2 fs2
    (Write_writing filesystem_laws c1 fs0 dw1 fs1 Write_fs0) HA) as (l & Hw & _ & Hds & _).
  exists l. apply (Finalize_saved filesystem_laws 100 rootLaws c1 dw2 fs2); [exact Hw| | | |].
  - cbn [app] in *. rewrite Hds. exact fits_ds.
  - intros Hm. vm_compute in Hm. discriminate Hm.
  - discriminate.
  - reflexivity.
Qed.

Lemma temporary_name_collision_witness :
  exists l, saved filesystem_laws 100 fs4 c1tmp exampleRoot l /\
    forall root' l', ~ saved filesystem_laws 100 (directoryBackedStore_Write c1 fs4).2 c1tmp root' l'.
Proof.
  assert (exists l, saved filesystem_laws 100 fs4 c1tmp exampleRoot l) as [l Hl].
  { destruct saved_fs3 as (l & i & bs & data & Hn & Hc & Hrest). exists l, i, bs, data.
    split; [|split; [exact Hc|exact Hrest]].
    assert (names (FilesystemLaws := filesystem_laws) fs3 !! c1 = Some 1%nat) as H1 by reflexivity.
    rewrite H1 in Hn. injection Hn as <-. reflexivity. }
  exists l. split; [exact Hl|].
  apply (temporary_name_collision filesystem_laws 100 c1 c1tmp fs4 dw4 _ exampleRoot l);
    [reflexivity|exact Hl|reflexivity].
Defined.

Lemma Close_loses_removal_error_witness :
  directoryBackedWriter_Close dw1 {| fs_names := ∅; fs_content := ∅; fs_readonly := true |} =
    (Ret None, {| fs_names := ∅; fs_content := ∅; fs_readonly := true |}).
Proof.
  exact (Close_loses_removal_error dw1 {| fs_names := ∅; fs_content := ∅; fs_readonly := true |} _ EROFS _
    eq_refl eq_refl ltac:(discriminate)).
Defined.
End ExampleStore.
