(* ===== verification/CleanRace.v ===== *)
(** * Saving and cleaning at the same time

    [FinalizeBuild] saves an output path while it holds the lock of
    [BazelOutputServiceDirectory], but [Clean] removes the state of an output path
    without holding it. This file is about the interleavings of a writer of the
    directory-backed store, which writes the state of an output base to a temporary
    file and renames it in the end, and of [directoryBackedStore.Clean], which removes
    both files one after the other. *)

From S2P Require Import Prelude GoLib Errors GoIo StateFile Virtual Examples Store.
Local Open Scope Z_scope.

Section CleanRace.
Context {E : Errors} {P : PathLib} {PL : PathLaws P} {CD : ProtoCodec Directory} {CR : ProtoCodec RootDirectory}.
Context {W : Type} {FD : FilesystemDirectory W} (FL : FilesystemLaws FD) (max : Z).
Context (LR : ProtoLaws RootDirectory empty_RootDirectory).
(** The output base *)
Context (c : Component).

(** How far [Clean] is. *)
Inductive cleaner : Type :=
| CleanCalled
| StateFileRemoved
| CleanReturned (e : option err).

(** How far the writer is: it is used; the root directory was written; the file was
    synchronized; it was closed, to be renamed; or something failed, and the file is
    to be closed and removed, or just to be removed. *)
Inductive phase : Type := Writing | Written | Synchronized | Closed | Failed | FailedClosed.

(** Or it is gone: the state was abandoned, or the file was renamed, and this is how
    far [Clean] was at that time. *)
Inductive saver : Type :=
| Pending (p : phase) (dw : directoryBackedWriter)
| GivenUp
| Finalized (at_that_time : cleaner).

Record race : Type := { race_fs : W; race_saver : saver; race_cleaner : cleaner }.

(** The next phase, after a call that may fail. *)
Definition next_phase (e : option err) (p failed : phase) : phase :=
  match e with None => p | Some _ => failed end.

(** What the writer does with the file system: the calls of [WriteDirectory],
    [Finalize] and [Close], one by one; those that write to the file are put together. *)
Inductive writer_call : saver -> W -> cleaner -> saver -> W -> Prop :=
| call_WriteDirectory d dw w r dw' w' k :
    directoryBackedWriter_WriteDirectory d dw w = ((r, dw'), w') ->
    writer_call (Pending Writing dw) w k (Pending Writing dw') w'
| call_write_root root dw w e fw k :
    Finalize (FileWriter_WriteAt (temporaryFile dw)) root (set_rawWriter w (writer dw)) = (e, fw) ->
    writer_call (Pending Writing dw) w k (Pending (next_phase e Written Failed) dw) (rawWriter fw)
| call_Sync dw w e w' k :
    FileWriter_Sync (temporaryFile dw) w = (e, w') ->
    writer_call (Pending Written dw) w k (Pending (next_phase e Synchronized Failed) dw) w'
| call_Close dw w e w' k :
    FileWriter_Close (temporaryFile dw) w = (e, w') ->
    writer_call (Pending Synchronized dw) w k (Pending (next_phase e Closed FailedClosed) dw) w'
| call_Rename dw w e w' k :
    Rename (temporaryName dw) (outputBaseID dw) w = (e, w') ->
    writer_call (Pending Closed dw) w k
      (match e with None => Finalized k | Some _ => Pending FailedClosed dw end) w'
| call_abandon dw w k : writer_call (Pending Writing dw) w k (Pending Failed dw) w
| call_Close_failed dw w e w' k :
    FileWriter_Close (temporaryFile dw) w = (e, w') ->
    writer_call (Pending Failed dw) w k (Pending FailedClosed dw) w'
| call_Remove dw w e w' k :
    Remove (temporaryName dw) w = (e, w') -> writer_call (Pending FailedClosed dw) w k GivenUp w'.

(** Calls of either side in any order. *)
Inductive race_step : race -> race -> Prop :=
| race_writer s w k s' w' :
    writer_call s w k s' w' ->
    race_step {| race_fs := w; race_saver := s; race_cleaner := k |}
              {| race_fs := w'; race_saver := s'; race_cleaner := k |}
| race_remove_state s w e w' :
    remove_file c "Failed to remove persistent state file" w = (e, w') ->
    race_step {| race_fs := w; race_saver := s; race_cleaner := CleanCalled |}
              {| race_fs := w'; race_saver := s;
                 race_cleaner := match e with Some _ => CleanReturned e | None => StateFileRemoved end |}
| race_remove_temporary s w tmp e w' :
    getTemporaryName c = Ok tmp ->
    remove_file tmp "Failed to remove persistent state temporary file" w = (e, w') ->
    race_step {| race_fs := w; race_saver := s; race_cleaner := StateFileRemoved |}
              {| race_fs := w'; race_saver := s; race_cleaner := CleanReturned e |}.

Definition racing (k : cleaner) (s : saver) (w : W) : race :=
  {| race_fs := w; race_saver := s; race_cleaner := k |}.

(** The two steps of the cleaner are [Clean]. *)
Lemma Clean_is_two_steps s w tmp e w' :
  getTemporaryName c = Ok tmp -> directoryBackedStore_Clean c w = (e, w') ->
  rtc race_step (racing CleanCalled s w) (racing (CleanReturned e) s w').
Proof using.
  intros Ht. unfold directoryBackedStore_Clean. rewrite Ht.
  destruct (remove_file c _ w) as [[x|] w1] eqn:H1; intros Hc.
  - injection Hc as <- <-. eapply rtc_once. by eapply (race_remove_state s w (Some x)).
  - eapply rtc_l; [by eapply (race_remove_state s w None)|]. eapply rtc_once. by eapply race_remove_temporary.
Qed.

(** The calls of [Close] and [Finalize] are steps of the writer, in their order. *)
Lemma Close_is_steps k dw w :
  rtc race_step (racing k (Pending Failed dw) w) (racing k GivenUp (directoryBackedWriter_Close dw w).2).
Proof using.
  unfold directoryBackedWriter_Close. destruct (FileWriter_Close _ w) as [e1 w1] eqn:H1.
  destruct (Remove _ w1) as [e2 w2] eqn:H2.
  eapply rtc_l; [by eapply race_writer, call_Close_failed|]. eapply rtc_l; [by eapply race_writer, call_Remove|].
  repeat case_match; apply rtc_refl.
Qed.

Lemma close_and_return_is_steps k dw e w r w' :
  close_and_return dw e w = (r, w') ->
  rtc race_step (racing k (Pending Failed dw) w)
    (racing k (match r with Ret None => Finalized k | _ => GivenUp end) w').
Proof using.
  pose proof (Close_is_steps k dw w) as H. unfold close_and_return.
  by destruct (directoryBackedWriter_Close dw w) as [[] ?]; intros [= <- <-].
Qed.

(** [Finalize] returns without an error exactly if the file was renamed. *)
Lemma Finalize_is_steps k root dw w r w' :
  directoryBackedWriter_Finalize root dw w = (r, w') ->
  rtc race_step (racing k (Pending Writing dw) w)
    (racing k (match r with Ret None => Finalized k | _ => GivenUp end) w').
Proof using.
  unfold directoryBackedWriter_Finalize.
  destruct (Finalize _ _ _) as [e fw] eqn:HF. intros Hfin.
  eapply rtc_l; [by eapply race_writer, call_write_root|].
  destruct e as [e|]; [by eapply close_and_return_is_steps|].
  destruct (FileWriter_Sync _ _) as [e w1] eqn:HS. eapply rtc_l; [by eapply race_writer, call_Sync|].
  destruct e as [e|]; [by eapply close_and_return_is_steps|].
  destruct (FileWriter_Close _ w1) as [e w2] eqn:HC. eapply rtc_l; [by eapply race_writer, call_Close|].
  destruct e as [e|].
  { destruct (Remove _ w2) as [e' w3] eqn:HR. injection Hfin as <- <-. by eapply rtc_once, race_writer, call_Remove. }
  destruct (Rename _ _ w2) as [e w3] eqn:HRn. eapply rtc_l; [by eapply race_writer, call_Rename|].
  destruct e as [e|]; [|injection Hfin as <- <-; apply rtc_refl].
  destruct (Remove _ w3) as [e' w4] eqn:HR. injection Hfin as <- <-. by eapply rtc_once, race_writer, call_Remove.
Qed.

(** ** What the writer does to names *)

Lemma Remove_absent c' n w : names w !! c' = None -> names (Remove n w).2 !! c' = None.
Proof using.
  intros Hc. pose proof (Remove_ok n w) as Hr. destruct (Remove n w) as [e w']. destruct Hr as (_ & Hok & Herr & _).
  cbn. destruct e as [e|]; [by rewrite Herr|]. rewrite Hok by done. apply lookup_delete_None. by right.
Qed.

(** A call does not create a file, unless it is the rename, for which the temporary
    file has to be there; and the writer keeps its temporary file. *)
Lemma writer_call_names s w k s' w' :
  writer_call s w k s' w' ->
  exists p dw, s = Pending p dw /\
    match s' with
    | Pending _ dw' => temporaryName dw' = temporaryName dw /\ names w' = names w
    | GivenUp => forall c', names w !! c' = None -> names w' !! c' = None
    | Finalized k' => k' = k /\ is_Some (names w !! temporaryName dw)
    end.
Proof using.
  destruct 1 as [d dw w r dw' w' k H|root dw w e fw k H|dw w e w' k H|dw w e w' k H|dw w e w' k H|dw w k|dw w e w' k H|dw w e w' k H];
    eexists _, _; (split; [done|]).
  - pose proof (writeMessage_preserves (FileWriter_WriteAt (temporaryFile dw)) (fun v => names v = names w)
      ltac:(intros p off v Hv; by destruct (WriteAt_frame (temporaryFile dw) p off v) as [-> _]) d
      (set_rawWriter w (writer dw)) eq_refl) as Hn.
    unfold directoryBackedWriter_WriteDirectory, WriteDirectory in H.
    destruct (writeMessage _ _ _) as [r' fw]. by injection H as _ <- <-.
  - pose proof (Finalize_preserves (FileWriter_WriteAt (temporaryFile dw)) (fun v => names v = names w)
      ltac:(intros p off v Hv; by destruct (WriteAt_frame (temporaryFile dw) p off v) as [-> _]) root
      (set_rawWriter w (writer dw)) eq_refl) as Hn. by rewrite H in Hn.
  - pose proof (Sync_same (temporaryFile dw) w) as [Hn _]. by rewrite H in Hn.
  - pose proof (CloseWriter_same (temporaryFile dw) w) as [Hn _]. by rewrite H in Hn.
  - destruct e as [e|].
    + by apply Rename_failed in H as [Hn _].
    + apply Rename_ok in H as (_ & i & Hi & _). by split; [|exists i].
  - done.
  - pose proof (CloseWriter_same (temporaryFile dw) w) as [Hn _]. by rewrite H in Hn.
  - intros c' Hc. pose proof (Remove_absent c' (temporaryName dw) w Hc) as Hr. by rewrite H in Hr.
Qed.

(** ** The invariant *)

(** What is known of the file system, for the writer's temporary file [tmp]. *)
Definition cleaned_so_far (tmp : Component) (k : cleaner) (w : W) : Prop :=
  match k with
  | CleanCalled | CleanReturned (Some _) => True
  | StateFileRemoved => names w !! c = None
  | CleanReturned None => names w !! c = None /\ names w !! tmp = None
  end.

Definition race_inv (tmp : Component) (s : race) : Prop :=
  match race_saver s with
  | Pending _ dw => temporaryName dw = tmp /\ cleaned_so_far tmp (race_cleaner s) (race_fs s)
  | GivenUp | Finalized CleanCalled =>
      race_cleaner s = StateFileRemoved \/ race_cleaner s = CleanReturned None -> names (race_fs s) !! c = None
  | Finalized StateFileRemoved => True
  | Finalized (CleanReturned (Some e)) => race_cleaner s = CleanReturned (Some e)
  | Finalized (CleanReturned None) => False
  end.

Lemma cleaned_absent tmp k w :
  cleaned_so_far tmp k w -> k = StateFileRemoved \/ k = CleanReturned None -> names w !! c = None.
Proof using. intros Hk [->| ->]; [done|apply Hk]. Qed.

Lemma writer_call_inv tmp s w k s' w' :
  writer_call s w k s' w' -> race_inv tmp (racing k s w) -> race_inv tmp (racing k s' w').
Proof using.
  intros (p & dw & -> & Hs')%writer_call_names. unfold race_inv. cbn. intros [<- Hk].
  destruct s' as [p' dw'| |k'].
  - destruct Hs' as [-> Hn]. split; [done|]. unfold cleaned_so_far in *. by rewrite Hn.
  - intros Hk'. by eapply Hs', cleaned_absent.
  - destruct Hs' as [-> [i Hi]]. destruct k as [| |[e|]]; [by intros [?|?]|done|done|].
    destruct Hk as [_ Hk]. congruence.
Qed.

Lemma race_step_inv tmp s s' : getTemporaryName c = Ok tmp -> race_step s s' -> race_inv tmp s -> race_inv tmp s'.
Proof using.
  intros Htmp Hstep. destruct Hstep as [s w k s' w' Hc|s w e w' HR|s w tmp' e w' Ht HR]; [by apply writer_call_inv|..];
    unfold race_inv; cbn [race_saver race_cleaner race_fs].
  - pose proof (remove_file_spec FL c "Failed to remove persistent state file" w) as Hr. rewrite HR in Hr.
    destruct Hr as (_ & Hok & _). destruct e as [e|].
    { destruct s as [p dw| |[| |[|]]]; naive_solver. }
    specialize (Hok eq_refl). assert (names w' !! c = None) as Hc by by rewrite Hok, lookup_delete_eq.
    destruct s as [p dw| |[| |[|]]]; naive_solver.
  - rewrite Htmp in Ht. injection Ht as <-.
    pose proof (remove_file_spec FL tmp "Failed to remove persistent state temporary file" w) as Hr. rewrite HR in Hr.
    destruct Hr as (_ & Hok & _). destruct e as [e|].
    { destruct s as [p dw| |[| |[|]]]; naive_solver. }
    specialize (Hok eq_refl).
    assert (names w !! c = None -> names w' !! c = None) as Hc
      by (intros Hc; rewrite Hok; apply lookup_delete_None; by right).
    destruct s as [p dw| |[| |[|]]]; try done.
    + intros [? Hk]. split; [done|]. split; [by apply Hc|]. by rewrite Hok, lookup_delete_eq.
    + intros Hw _. apply Hc, Hw. by left.
    + intros Hw _. apply Hc, Hw. by left.
Qed.

Lemma race_inv_reachable tmp s s' :
  getTemporaryName c = Ok tmp -> rtc race_step s s' -> race_inv tmp s -> race_inv tmp s'.
Proof using.
  intros Ht. induction 1 as [|x y z Hstep _ IH]; [done|]. intros Hx. by eapply IH, race_step_inv.
Qed.

Lemma Write_temporaryName w dw w' :
  directoryBackedStore_Write c w = (Ok dw, w') ->
  getTemporaryName c = Ok (temporaryName dw) /\ (names w !! c = None -> names w' !! c = None).
Proof using PL.
  unfold directoryBackedStore_Write. destruct (getTemporaryName c) as [tmp|] eqn:Ht; [|done].
  pose proof (Remove_absent c tmp w) as Hr. destruct (Remove tmp w) as [e w1].
  destruct (other_than_ENOENT e); [done|]. destruct (OpenWrite _ _ w1) as [[f|] w2] eqn:HO; [|done].
  intros [= <- <-]. apply OpenWrite_ok in HO as (_ & Hn & _). split; [done|]. intros Hc.
  rewrite Hn, lookup_insert_ne; [by apply Hr|]. apply not_eq_sym. by apply getTemporaryName_ne.
Qed.

(** C23. When the state of an output base is cleaned while it is being saved, with
    the writer created before [Clean] returned successfully, then the outcome is
    decided by the moment at which the writer was finalized, in every interleaving.
    After [Clean] returned it can no longer be finalized successfully, so that
    nothing that was cleaned reappears later. The output base has no state in the
    end, unless the writer was finalized in between the two removals of [Clean]. *)
Theorem Clean_stops_saving k w0 dw w s :
  directoryBackedStore_Write c w0 = (Ok dw, w) ->
  k = CleanCalled \/ k = StateFileRemoved /\ names w0 !! c = None ->
  rtc race_step (racing k (Pending Writing dw) w) s ->
  race_cleaner s = CleanReturned None ->
  race_saver s <> Finalized (CleanReturned None) /\
  (race_saver s = Finalized StateFileRemoved \/ names (race_fs s) !! c = None).
Proof using PL.
  intros Hw Hk Hsteps Hret. apply Write_temporaryName in Hw as [Ht Hc].
  apply (race_inv_reachable _ _ _ Ht) in Hsteps; unfold race_inv in *.
  - rewrite Hret in Hsteps. destruct (race_saver s) as [p dw'| |[| |[e|]]].
    + split; [done|]. right. by destruct Hsteps as (_ & ? & _).
    + split; [done|]. right. apply Hsteps. by right.
    + split; [done|]. right. apply Hsteps. by right.
    + by split; [|left].
    + done.
    + done.
  - split; [done|]. by destruct Hk as [->|[-> ?]]; [|apply Hc].
Qed.

(** Removing a file does not disturb a writer of another one. *)
Lemma remove_file_writing name msg dw w l w' e :
  name <> temporaryName dw -> writing FL c dw w l -> remove_file name msg w = (e, w') -> writing FL c dw w' l.
Proof using.
  intros Hne (Hb & Hn & bs & Hfw & Hrest) HR. pose proof (remove_file_spec FL name msg w) as Hr. rewrite HR in Hr.
  destruct Hr as (Hc & Hok & Herr). split; [done|]. split.
  { destruct e as [e|]; [by rewrite Herr|]. by rewrite Hok, lookup_delete_ne. }
  exists bs. split; [|done]. destruct Hfw as [Hh Hx]. split; [|done].
  unfold holds, ow_inv in *. cbn in *. by rewrite Hc.
Qed.

Lemma remove_file_saved name msg w w' e root l :
  name <> c -> saved FL max w c root l -> remove_file name msg w = (e, w') -> saved FL max w' c root l.
Proof using.
  intros Hne (i & bs & data & Hn & Hc & Hrest) HR. pose proof (remove_file_spec FL name msg w) as Hr. rewrite HR in Hr.
  destruct Hr as (Hc' & Hok & Herr). exists i, bs, data. rewrite Hc'. split; [|done].
  destruct e as [e|]; [by rewrite Herr|]. by rewrite Hok, lookup_delete_ne.
Qed.

(** C24. [Clean] removes the state file first and the temporary file afterwards, so
    that a writer can be finalized in between: if it is, all calls succeed, and yet
    the complete state that was cleaned is there after [Clean] returned. *)
Theorem Clean_loses_race dw w l root w1 w2 w3 :
  getTemporaryName c = Ok (temporaryName dw) -> writing FL c dw w l ->
  fits l.*2 root max -> Marshal root <> Ok [] ->
  remove_file c "Failed to remove persistent state file" w = (None, w1) ->
  directoryBackedWriter_Finalize root dw w1 = (Ret None, w2) ->
  remove_file (temporaryName dw) "Failed to remove persistent state temporary file" w2 = (None, w3) ->
  rtc race_step (racing CleanCalled (Pending Writing dw) w) (racing (CleanReturned None) (Finalized StateFileRemoved) w3) /\
  saved FL max w3 c root l.
Proof using PL LR.
  intros Ht Hw Hfits Hm H1 HF H2. pose proof (getTemporaryName_ne _ _ Ht) as Hne. split.
  - eapply rtc_l; [by eapply race_remove_state|]. etrans; [by eapply (Finalize_is_steps StateFileRemoved)|].
    eapply rtc_once. by eapply race_remove_temporary.
  - eapply remove_file_saved; [by apply not_eq_sym| |done].
    eapply (Finalize_saved FL max LR); [by eapply remove_file_writing|done..].
Qed.
End CleanRace.

(** ** On concrete states *)

Module ExampleCleanRace.
Import ErrorTree ExamplePath ExampleFile ExampleStore.
#[local] Existing Instance filesystem.

(** The writer that was created on the empty file system is finalized after [Clean]. *)
Definition cleaned : files := (directoryBackedStore_Clean c1 fs1).2.
Definition late := directoryBackedWriter_Finalize exampleRoot dw1 cleaned.

Lemma Clean_stops_saving_witness :
  (directoryBackedStore_Clean c1 fs1).1 = None /\ late.1 <> Ret None /\ fs_names late.2 !! c1 = None.
Proof.
  split; [reflexivity|]. split; [discriminate|].
  destruct (Clean_stops_saving (PL := path_laws) filesystem_laws c1 CleanCalled fs0 dw1 fs1
    (racing (CleanReturned None) GivenUp late.2)) as [_ [H|H]].
  - exact Write_fs0.
  - left. reflexivity.
  - etransitivity; [exact (Clean_is_two_steps c1 (Pending Writing dw1) fs1 c1tmp None cleaned eq_refl eq_refl)|].
    exact (Finalize_is_steps c1 (CleanReturned None) exampleRoot dw1 cleaned late.1 late.2 eq_refl).
  - reflexivity.
  - discriminate H.
  - exact H.
Defined.

Definition race1 : files := (remove_file c1 "Failed to remove persistent state file" fs2).2.
Definition race2 : files := (directoryBackedWriter_Finalize exampleRoot dw2 race1).2.
Definition race3 : files := (remove_file c1tmp "Failed to remove persistent state temporary file" race2).2.

Lemma Clean_loses_race_witness : exists l, saved filesystem_laws 100 race3 c1 exampleRoot l.
Proof.
  assert (write_all ds dw1 fs1 = ((Ok regions, dw2), fs2)) as HA by reflexivity.
  destruct (write_all_writing filesystem_laws c1 ds dw1 fs1 [] regions dw2 fs2
    (Write_writing filesystem_laws c1 fs0 dw1 fs1 Write_fs0) HA) as (l & Hw & _ & Hds & _).
  exists l. apply (Clean_loses_race (PL := path_laws) filesystem_laws 100 rootLaws c1 dw2 fs2 l exampleRoot race1 race2 race3).
  - reflexivity.
  - exact Hw.
  - cbn [app] in *. rewrite Hds. exact fits_ds.
  - intros Hm. vm_compute in Hm. discriminate Hm.
  - reflexivity.
  - reflexivity.
  - reflexivity.
Defined.
End ExampleCleanRace.
