(* ===== verification/OutputPath.v ===== *)
(** * Persistent output paths

    [pkg/filesystem/virtual/persistent_output_path_factory.go] and
    [local_file_uploading_output_path_factory.go]: what happens when an output
    path is created, at the end of a build and when it is cleaned.

    The state is a pair: that of the store behind [S] and that of the directories
    in memory behind the other interfaces. Recursive functions take [fuel] for
    their depth and return [None] when it runs out. *)

From S2P Require Import Prelude GoLib Errors GoIo StateFile Virtual Examples OutputPathFactory Store.
Local Open Scope Z_scope.

Section OutputPath.
Context {E : Errors} {P : PathLib} {D : DigestLib}.
Context {WS WT : Type} {S : Store WS} {OPF : OutputPathFactory WT} {PD : PrepopulatedDirectory WT}.

Abbreviation W := (WS * WT)%type.

Definition on_store {A} (m : st WS A) : st W A := fun w => let '(a, s) := m w.1 in (a, (s, w.2)).
Definition on_tree {A} (m : st WT A) : st W A := fun w => let '(a, t) := m w.2 in (a, (w.1, t)).

(** A [path.Trace]: the components from the root, which is nil. *)
Abbreviation Trace := (list Component).

(** ** Restoring *)

Record stateRestorer : Type := {
  sr_casFileFactory : CASFileFactory;
  sr_digestFunction : DigestFunction;
}.

(** The loops over files and symbolic links. Leaves are collected in
    [initialNodes], also when an error is returned. *)
Fixpoint restore_files (sr : stateRestorer) (dPath : Trace) (files : list FileNode)
    (initialNodes : gmap Component Leaf) : st WT (option err * gmap Component Leaf) := fun w =>
  match files with
  | [] => ((None, initialNodes), w)
  | entry :: files =>
      match NewComponent (fn_Name entry) with
      | None => ((Some (status_Errorf InvalidArgument "File %#v inside directory %#v has an invalid name"
            [FStr (fn_Name entry); FStr (GetUNIXString dPath)]), initialNodes), w)
      | Some component =>
          match initialNodes !! component with
          | Some _ => ((Some (status_Errorf InvalidArgument
              "Directory contains multiple children named %#v" [FStr (fn_Name entry)]), initialNodes), w)
          | None =>
              match NewDigestFromProto (sr_digestFunction sr) (fn_Digest entry) with
              | Err e => ((Some (StatusWrapf e "Failed to obtain digest for file %#v"
                  [FStr (GetUNIXString (dPath ++ [component]))]), initialNodes), w)
              | Ok childDigest =>
                  let '(leaf, w) := LookupFile (sr_casFileFactory sr) childDigest (fn_IsExecutable entry) w in
                  restore_files sr dPath files (<[component := leaf]> initialNodes) w
              end
          end
      end
  end.

Fixpoint restore_symlinks (dPath : Trace) (symlinks : list SymlinkNode)
    (initialNodes : gmap Component Leaf) : st WT (option err * gmap Component Leaf) := fun w =>
  match symlinks with
  | [] => ((None, initialNodes), w)
  | entry :: symlinks =>
      match NewComponent (sn_Name entry) with
      | None => ((Some (status_Errorf InvalidArgument "Symlink %#v inside directory %#v has an invalid name"
            [FStr (sn_Name entry); FStr (GetUNIXString dPath)]), initialNodes), w)
      | Some component =>
          match initialNodes !! component with
          | Some _ => ((Some (status_Errorf InvalidArgument
              "Directory contains multiple children named %#v" [FStr (sn_Name entry)]), initialNodes), w)
          | None =>
              match LookupSymlink (sn_Target entry) w with
              | (Err _, w) => ((Some (status_Errorf InvalidArgument
                  "Failed to create symbolic link %#v with target %#v"
                  [FStr (sn_Name entry); FStr (sn_Target entry)]), initialNodes), w)
              | (Ok symlinkNode, w) =>
                  restore_symlinks dPath symlinks (<[component := symlinkNode]> initialNodes) w
              end
          end
      end
  end.

(** The deferred function, which visits the leaves in an unspecified order. *)
Fixpoint unlink_all (leaves : list (Component * Leaf)) : st WT unit := fun w =>
  match leaves with
  | [] => (tt, w)
  | (_, leaf) :: leaves => let '(_, w) := Unlink leaf w in unlink_all leaves w
  end.

(** The part of [restoreDirectoryRecursive] that creates the leaves. *)
Definition restore_leaves (sr : stateRestorer) (contents : Directory) (d : Dir) (dPath : Trace)
  : st WT (option err) := fun w =>
  let fail e (initialNodes : gmap Component Leaf) w :=
    let '(_, w) := unlink_all (map_to_list initialNodes) w in (Some e, w) in
  match restore_files sr dPath (Files contents) ∅ w with
  | ((Some e, initialNodes), w) => fail e initialNodes w
  | ((None, initialNodes), w) =>
      match restore_symlinks dPath (Symlinks contents) initialNodes w with
      | ((Some e, initialNodes), w) => fail e initialNodes w
      | ((None, initialNodes), w) =>
          match CreateChildren d initialNodes true w with
          | (Some e, w) => fail (StatusWrap e "Failed to create files and symbolic links") initialNodes w
          | (None, w) => (None, w)
          end
      end
  end.

(** The loop over directories; [rec] is the recursive call. *)
Fixpoint restore_directories
    (rec : StoreReader -> Directory -> Dir -> Trace -> st W (option (option err)))
    (reader : StoreReader) (d : Dir) (dPath : Trace) (directories : list DirectoryNode)
  : st W (option (option err)) := fun w =>
  match directories with
  | [] => (Some None, w)
  | entry :: directories =>
      match NewComponent (dn_Name entry) with
      | None => (Some (Some (status_Errorf InvalidArgument
            "Directory %#v inside directory %#v has an invalid name"
            [FStr (dn_Name entry); FStr (GetUNIXString dPath)])), w)
      | Some component =>
          let childPath := dPath ++ [component] in
          match on_store (sr_ReadDirectory reader (dn_FileRegion entry)) w with
          | (Err e, w) => (Some (Some (StatusWrapf e "Failed to load directory %#v"
                [FStr (GetUNIXString childPath)])), w)
          | (Ok (childReader, childContents), w) =>
              match on_tree (CreateAndEnterPrepopulatedDirectory d component) w with
              | (Err e, w) => (Some (Some (StatusWrapf e "Failed to create directory %#v"
                    [FStr (GetUNIXString childPath)])), w)
              | (Ok childDirectory, w) =>
                  match rec childReader childContents childDirectory childPath w with
                  | (Some None, w) => restore_directories rec reader d dPath directories w
                  | (r, w) => (r, w)
                  end
              end
          end
      end
  end.

Fixpoint restoreDirectoryRecursive (fuel : nat) (sr : stateRestorer) (reader : StoreReader)
    (contents : Directory) (d : Dir) (dPath : Trace) : st W (option (option err)) := fun w =>
  match fuel with
  | O => (None, w)
  | Datatypes.S fuel =>
      match restore_directories (restoreDirectoryRecursive fuel sr) reader d dPath (Directories contents) w with
      | (Some None, w) =>
          let '(e, w) := on_tree (restore_leaves sr contents d dPath) w in (Some e, w)
      | (r, w) => (r, w)
      end
  end.

(** ** [StartInitialBuild] *)

Record persistentOutputPath : Type := {
  pop_OutputPath : OutputPath;
  pop_outputBaseID : Component;
  pop_initialCreationTime : Timestamp;
}.

Definition log_error (e : err) : st W unit := on_tree (Log e).

(** Loading the state; the result is the creation time it has. *)
Definition load_state (fuel : nat) (outputBaseID : Component) (casFileFactory : CASFileFactory)
    (digestFunction : DigestFunction) (d : OutputPath) : st W (option (outcome (option Timestamp))) := fun w =>
  match on_store (store_Read outputBaseID) w with
  | (Panic msg, w) => (Some (Panic msg), w)
  | (Ret (Err e), w) =>
      let '(_, w) := log_error (StatusWrapf e "Failed to open state file for output path %#v"
        [FStr (Component_String outputBaseID)]) w in
      (Some (Ret None), w)
  | (Ret (Ok (reader, rootDirectory)), w) =>
      match Contents rootDirectory with
      | None =>
          let '(_, w) := on_store (rc_Close reader) w in
          let '(_, w) := log_error (status_Errorf InvalidArgument
            "State file for output path %#v does not contain a root directory"
            [FStr (Component_String outputBaseID)]) w in
          (Some (Ret None), w)
      | Some contents =>
          let sr := {| sr_casFileFactory := casFileFactory; sr_digestFunction := digestFunction |} in
          match restoreDirectoryRecursive fuel sr (rc_Reader reader) contents (OutputPath_Dir d) [] w with
          | (None, w) => (None, w)
          | (Some e, w) =>
              let '(_, w) := on_store (rc_Close reader) w in
              match e with
              | Some e =>
                  let '(_, w) := log_error (StatusWrapf e "Failed to restore state file for output path %#v"
                    [FStr (Component_String outputBaseID)]) w in
                  (Some (Ret (InitialCreationTime rootDirectory)), w)
              | None => (Some (Ret (InitialCreationTime rootDirectory)), w)
              end
          end
      end
  end.

Definition StartInitialBuild (fuel : nat) (outputBaseID : Component) (casFileFactory : CASFileFactory)
    (digestFunction : DigestFunction) : run W persistentOutputPath := fun w =>
  match on_tree (opf_StartInitialBuild outputBaseID casFileFactory digestFunction) w with
  | (None, w) => (None, w)
  | (Some (Panic msg), w) => (Some (Panic msg), w)
  | (Some (Ret d), w) =>
      match load_state fuel outputBaseID casFileFactory digestFunction d w with
      | (Some (Ret initialCreationTime), w) =>
          let '(t, w) := match initialCreationTime with
                         | Some t => (t, w)
                         | None => on_tree Now w
                         end in
          (Some (Ret {| pop_OutputPath := d; pop_outputBaseID := outputBaseID;
                        pop_initialCreationTime := t |}), w)
      | (Some (Panic msg), w) => (Some (Panic msg), w)
      | (None, w) => (None, w)
      end
  end.

Definition Clean (outputBaseID : Component) : st W (option err) := fun w =>
  match on_tree (opf_Clean outputBaseID) w with
  | (Some e, w) => (Some e, w)
  | (None, w) =>
      match on_store (store_Clean outputBaseID) w with
      | (Some e, w) => (Some (StatusWrap e "Failed to remove persistent state for output path"), w)
      | (None, w) => (None, w)
      end
  end.

(** ** Saving *)

(** The loop over directories; [rec] is the recursive call. Every iteration
    appends to the directory message. *)
Fixpoint save_directories
    (rec : Dir -> Trace -> StoreWriter -> st W (option (outcome (res err Directory)) * StoreWriter))
    (dPath : Trace) (directories : list (Component * Dir)) (directory : Directory) (w : StoreWriter)
  : st W (option (outcome (res err Directory)) * StoreWriter) := fun s =>
  match directories with
  | [] => ((Some (Ret (Ok directory)), w), s)
  | (name, child) :: directories =>
      let childPath := dPath ++ [name] in
      match rec child childPath w s with
      | ((Some (Ret (Ok childDirectory)), w), s) =>
          match on_store (sw_WriteDirectory childDirectory w) s with
          | ((Err e, w), s) =>
              ((Some (Ret (Err (StatusWrapf e "Failed to write directory %#v to state file"
                 [FStr (GetUNIXString childPath)]))), w), s)
          | ((Ok fileRegion, w), s) =>
              save_directories rec dPath directories
                {| Files := Files directory; Symlinks := Symlinks directory;
                   Directories := Directories directory ++
                     [{| dn_Name := Component_String name; dn_FileRegion := fileRegion |}] |} w s
          end
      | (r, s) => (r, s)
      end
  end.

(** Files that Bazel writes to in place are not preserved. *)
Definition skipped (dPath : Trace) (name : Component) : bool :=
  bool_decide (dPath = []) &&
  (bool_decide (Component_String name = "stable-status.txt"%string) ||
   bool_decide (Component_String name = "volatile-status.txt"%string)).

Fixpoint save_leaves (dPath : Trace) (leaves : list (Component * Leaf)) (directory : Directory)
  : st WT (outcome Directory) := fun s =>
  match leaves with
  | [] => (Ret directory, s)
  | (name, leaf) :: leaves =>
      if skipped dPath name then save_leaves dPath leaves directory s
      else
        match ApplyAppendOutputPathPersistencyDirectoryNode leaf name directory s with
        | (None, s) => (Panic
            "output path contains leaves that don't support ApplyAppendOutputPathPersistencyDirectoryNode", s)
        | (Some directory, s) => save_leaves dPath leaves directory s
        end
  end.

Fixpoint saveDirectoryRecursive (fuel : nat) (d : Dir) (dPath : Trace) (w : StoreWriter)
  : st W (option (outcome (res err Directory)) * StoreWriter) := fun s =>
  match fuel with
  | O => ((None, w), s)
  | Datatypes.S fuel =>
      match on_tree (LookupAllChildren d) s with
      | (Err e, s) =>
          ((Some (Ret (Err (StatusWrapf e "Failed to look up children of directory %#v"
             [FStr (GetUNIXString dPath)]))), w), s)
      | (Ok (directories, leaves), s) =>
          match save_directories (saveDirectoryRecursive fuel) dPath directories empty_Directory w s with
          | ((Some (Ret (Ok directory)), w), s) =>
              match on_tree (save_leaves dPath leaves directory) s with
              | (Ret directory, s) => ((Some (Ret (Ok directory)), w), s)
              | (Panic msg, s) => ((Some (Panic msg), w), s)
              end
          | (r, s) => (r, s)
          end
      end
  end.

Definition saveOutputPath (fuel : nat) (op : persistentOutputPath)
  : st W (option (outcome (option err))) := fun s =>
  match on_store (store_Write (pop_outputBaseID op)) s with
  | (Err e, s) => (Some (Ret (Some e)), s)
  | (Ok writer, s) =>
      match saveDirectoryRecursive fuel (OutputPath_Dir (pop_OutputPath op)) [] writer s with
      | ((None, _), s) => (None, s)
      | ((Some (Panic msg), _), s) => (Some (Panic msg), s)
      | ((Some (Ret (Err e)), writer), s) =>
          match on_store (sw_Close writer) s with
          | (Panic msg, s) => (Some (Panic msg), s)
          | (Ret _, s) => (Some (Ret (Some e)), s)
          end
      | ((Some (Ret (Ok contents)), writer), s) =>
          let '(r, s) := on_store (sw_Finalize {|
              InitialCreationTime := Some (pop_initialCreationTime op);
              Contents := Some contents |} writer) s in
          (Some r, s)
      end
  end.

Definition FinalizeBuild (fuel : nat) (digestFunction : DigestFunction) (op : persistentOutputPath)
  : run W unit := fun s =>
  match on_tree (op_FinalizeBuild (pop_OutputPath op) digestFunction) s with
  | (None, s) => (None, s)
  | (Some (Panic msg), s) => (Some (Panic msg), s)
  | (Some (Ret _), s) =>
      match saveOutputPath fuel op s with
      | (Some (Ret (Some e)), s) =>
          let '(_, s) := log_error (StatusWrapf e "Failed to save the contents of output path %#v"
            [FStr (Component_String (pop_outputBaseID op))]) s in
          (Some (Ret tt), s)
      | (Some (Ret None), s) => (Some (Ret tt), s)
      | (Some (Panic msg), s) => (Some (Panic msg), s)
      | (None, s) => (None, s)
      end
  end.

Definition RemoveAllChildren (forbidNewChildren : bool) (op : persistentOutputPath)
  : st W (option err) := fun s =>
  match on_tree (op_RemoveAllChildren (pop_OutputPath op) forbidNewChildren) s with
  | (Some e, s) => (Some e, s)
  | (None, s) =>
      if forbidNewChildren then
        match on_store (store_Clean (pop_outputBaseID op)) s with
        | (Some e, s) => (Some (StatusWrap e "Failed to remove persistent state for output path"), s)
        | (None, s) => (None, s)
        end
      else (None, s)
  end.
End OutputPath.

(** ** [local_file_uploading_output_path_factory.go] *)

Section LocalFileUploading.
Context {E : Errors} {P : PathLib} {D : DigestLib}.
Context {WT : Type} {OPF : OutputPathFactory WT} {PD : PrepopulatedDirectory WT}.

(** The function that [NewBatchedStoreBlobAccess] returns to flush the batch. *)
Context (flusher : st WT (option err)).

Record localFileUploader : Type := {
  u_digestFunction : DigestFunction;
  u_outputBaseID : Component;
}.

Fixpoint upload_directories (rec : Dir -> list Component -> st WT (option (outcome (option err))))
    (dPath : list Component) (directories : list (Component * Dir))
  : st WT (option (outcome (option err))) := fun w =>
  match directories with
  | [] => (Some (Ret None), w)
  | (name, child) :: directories =>
      match rec child (dPath ++ [name]) w with
      | (Some (Ret None), w) => upload_directories rec dPath directories w
      | (r, w) => (r, w)
      end
  end.

Fixpoint upload_leaves (u : localFileUploader) (dPath : list Component) (leaves : list (Component * Leaf))
  : st WT (outcome (option err)) := fun w =>
  match leaves with
  | [] => (Ret None, w)
  | (name, leaf) :: leaves =>
      match ApplyUploadFile leaf (u_digestFunction u) w with
      | (None, w) => (Panic "output path contains leaves that don't support ApplyUploadFile", w)
      | (Some (Some e), w) =>
          if decide (status_Code e <> InvalidArgument) then
            (Ret (Some (StatusWrapf e "Failed to upload local file %#v in output path %#v"
               [FStr (GetUNIXString (dPath ++ [name])); FStr (Component_String (u_outputBaseID u))])), w)
          else upload_leaves u dPath leaves w
      | (Some None, w) => upload_leaves u dPath leaves w
      end
  end.

Fixpoint uploadLocalFilesRecursive (fuel : nat) (u : localFileUploader) (d : Dir) (dPath : list Component)
  : st WT (option (outcome (option err))) := fun w =>
  match fuel with
  | O => (None, w)
  | Datatypes.S fuel =>
      match LookupAllChildren d w with
      | (Err e, w) => (Some (Ret (Some (StatusWrapf e
            "Failed to look up children of directory %#v in output path %#v"
            [FStr (GetUNIXString dPath); FStr (Component_String (u_outputBaseID u))]))), w)
      | (Ok (directories, leaves), w) =>
          match upload_directories (uploadLocalFilesRecursive fuel u) dPath directories w with
          | (Some (Ret None), w) =>
              let '(r, w) := upload_leaves u dPath leaves w in (Some r, w)
          | (r, w) => (r, w)
          end
      end
  end.

(** The embedded output path, and the identifier it was created for. *)
Record localFileUploadingOutputPath : Type := {
  lop_OutputPath : OutputPath;
  lop_outputBaseID : Component;
}.

Definition localFileUploading_StartInitialBuild (outputBaseID : Component) (casFileFactory : CASFileFactory)
    (digestFunction : DigestFunction) : run WT localFileUploadingOutputPath :=
  (fun d => {| lop_OutputPath := d; lop_outputBaseID := outputBaseID |})
    <$> opf_StartInitialBuild outputBaseID casFileFactory digestFunction.

Definition localFileUploadingOutputPath_FinalizeBuild (fuel : nat) (op : localFileUploadingOutputPath)
    (digestFunction : DigestFunction) : run WT unit := fun w =>
  match op_FinalizeBuild (lop_OutputPath op) digestFunction w with
  | (None, w) => (None, w)
  | (Some (Panic msg), w) => (Some (Panic msg), w)
  | (Some (Ret _), w) =>
      let u := {| u_digestFunction := digestFunction; u_outputBaseID := lop_outputBaseID op |} in
      match uploadLocalFilesRecursive fuel u (OutputPath_Dir (lop_OutputPath op)) [] w with
      | (None, w) => (None, w)
      | (Some (Panic msg), w) => (Some (Panic msg), w)
      | (Some (Ret err1), w) =>
          let '(err2, w) := flusher w in
          match err1, err2 with
          | Some err1, _ => let '(_, w) := Log err1 w in (Some (Ret tt), w)
          | None, Some err2 =>
              let '(_, w) := Log (StatusWrapf err2 "Failed to upload the contents of output path %#v"
                [FStr (Component_String (lop_outputBaseID op))]) w in
              (Some (Ret tt), w)
          | None, None => (Some (Ret tt), w)
          end
      end
  end.
End LocalFileUploading.
