(* ===== verification/OutputPathRoundTrip.v ===== *)
(** * Output paths survive restarts

    What the directories behind an output path promise, and what the factories of
    [OutputPath] make of it: what is saved at the end of a build is what is restored
    when the first build of a new process starts. *)

From S2P Require Import Prelude GoLib Errors GoIo StateFile Virtual Examples OutputPathFactory Store OutputPath.
Local Open Scope Z_scope.

(** ** What directories promise

    [pd_path] is where a directory is in the file system, [pd_entry] what there is
    at a path: a directory, or a leaf. What is known about the contents of a leaf
    may change with the state. The laws hold for directories that nobody else
    changes or removes in the meantime. *)

Inductive leafinfo {E : Errors} {D : DigestLib} : Type :=
| LFile (d : Digest) (isExecutable : bool)
| LSymlink (target : string)
(** a file that only exists locally *)
| LLocal
(** a socket, a FIFO or a device *)
| LSpecial.

Inductive node {E : Errors} {D : DigestLib} : Type :=
| NDir
| NLeaf (i : leafinfo).

(** What is appended to a directory message for a leaf: the digest of a file in
    the Content Addressable Storage, or the target of a symbolic link. *)
Definition append_info {E : Errors} {P : PathLib} {D : DigestLib} (i : leafinfo) (c : Component)
    (d : Directory) : Directory :=
  match i with
  | LFile dg x => {| Files := Files d ++ [{| fn_Name := Component_String c;
                        fn_Digest := Some (GetProto dg); fn_IsExecutable := x |}];
                     Directories := Directories d; Symlinks := Symlinks d |}
  | LSymlink t => {| Files := Files d; Directories := Directories d;
                     Symlinks := Symlinks d ++ [{| sn_Name := Component_String c; sn_Target := t |}] |}
  | LLocal | LSpecial => d
  end.

Inductive dirent (L : Type) : Type :=
| EDir
| ELeaf (leaf : L).
Arguments EDir {L}.
Arguments ELeaf {L} leaf.

Class DirectoryLaws {E : Errors} {P : PathLib} {D : DigestLib} {W : Type} {OPF : OutputPathFactory W}
    (PD : PrepopulatedDirectory W) : Type := {
  pd_path : Dir -> list Component;
  pd_entry : W -> list Component -> option (dirent Leaf);
  leaf_info : W -> Leaf -> leafinfo;
  valid_target : string -> Prop;
  pd_node w r :=
    (fun e => match e with EDir => NDir | ELeaf leaf => NLeaf (leaf_info w leaf) end) <$> pd_entry w r;
  pd_same w w' := (forall r, pd_entry w' r = pd_entry w r) /\ (forall l, leaf_info w' l = leaf_info w l);
  pd_tree w r c e : pd_entry w (r ++ [c]) = Some e -> pd_entry w r = Some EDir;
  pd_CreateAndEnter d c w :
    pd_entry w (pd_path d) = Some EDir -> pd_entry w (pd_path d ++ [c]) = None ->
    exists d' w', CreateAndEnterPrepopulatedDirectory d c w = (Ok d', w') /\
      pd_path d' = pd_path d ++ [c] /\ (forall l, leaf_info w' l = leaf_info w l) /\
      forall r, pd_entry w' r = if decide (r = pd_path d ++ [c]) then Some EDir else pd_entry w r;
  pd_CreateChildren d (m : gmap Component Leaf) w :
    pd_entry w (pd_path d) = Some EDir ->
    (forall c, is_Some (m !! c) -> pd_entry w (pd_path d ++ [c]) = None) ->
    exists w', CreateChildren d m true w = (None, w') /\ (forall l, leaf_info w' l = leaf_info w l) /\
      (forall c leaf, m !! c = Some leaf -> pd_entry w' (pd_path d ++ [c]) = Some (ELeaf leaf)) /\
      (forall r, (forall c, is_Some (m !! c) -> r <> pd_path d ++ [c]) -> pd_entry w' r = pd_entry w r);
  pd_LookupAllChildren d w ds ls w' :
    LookupAllChildren d w = (Ok (ds, ls), w') ->
    pd_same w w' /\ NoDup (ds.*1) /\ NoDup (ls.*1) /\
    (forall c d', (c, d') ∈ ds -> pd_path d' = pd_path d ++ [c]) /\
    (forall c, c ∈ ds.*1 <-> pd_entry w (pd_path d ++ [c]) = Some EDir) /\
    (forall c leaf, (c, leaf) ∈ ls <-> pd_entry w (pd_path d ++ [c]) = Some (ELeaf leaf));
  pd_LookupAllChildren_error d w e w' : LookupAllChildren d w = (Err e, w') -> pd_same w w';
  pd_LookupFile cff dg x w : exists leaf w',
    LookupFile cff dg x w = (leaf, w') /\ leaf_info w' leaf = LFile dg x /\ pd_same w w';
  pd_LookupSymlink t w : valid_target t -> exists leaf w',
    LookupSymlink t w = (Ok leaf, w') /\ leaf_info w' leaf = LSymlink t /\ pd_same w w';
  pd_valid_target w leaf t : leaf_info w leaf = LSymlink t -> valid_target t;
  pd_ApplyAppend leaf c dir w : exists w',
    ApplyAppendOutputPathPersistencyDirectoryNode leaf c dir w =
      (Some (append_info (leaf_info w leaf) c dir), w') /\ pd_same w w';
}.

(** Uploading gives local files a digest, which belongs to the digest function of
    the build, and changes nothing else. It fails with [InvalidArgument] only if the
    leaf is not a file. *)
Class UploadLaws {E : Errors} {P : PathLib} {D : DigestLib} {W : Type} {OPF : OutputPathFactory W}
    (PD : PrepopulatedDirectory W) {DL : DirectoryLaws PD} : Prop := {
  ul_ApplyUploadFile leaf df w r w' : ApplyUploadFile leaf df w = (Some r, w') ->
    (forall p, pd_entry w' p = pd_entry w p) /\
    (forall l, leaf_info w' l = leaf_info w l \/
       leaf_info w l = LLocal /\ exists dg x, leaf_info w' l = LFile dg x /\
         NewDigestFromProto df (Some (GetProto dg)) = Ok dg) /\
    (leaf_info w' leaf = LLocal -> exists e, r = Some e /\ status_Code e <> InvalidArgument);
}.

Section DirectoryFacts.
Context {E : Errors} {P : PathLib} {D : DigestLib} {W : Type} {OPF : OutputPathFactory W}.
Context {PD : PrepopulatedDirectory W} {DL : DirectoryLaws PD}.

Lemma pd_same_refl (a : W) : pd_same a a.
Proof using. by split. Qed.

Lemma pd_same_trans (a b c : W) : pd_same a b -> pd_same b c -> pd_same a c.
Proof using. intros [Hab Hab'] [Hbc Hbc']. split; intros; by rewrite ?Hbc, ?Hbc'. Qed.

Lemma pd_same_node (a b : W) r : pd_same a b -> pd_node b r = pd_node a r.
Proof using.
  intros [He Hi]. unfold pd_node. rewrite He. by destruct (pd_entry a r) as [[|l]|]; cbn; rewrite ?Hi.
Qed.

Lemma pd_same_info (a b : W) (x : option Leaf) : pd_same a b -> leaf_info b <$> x = leaf_info a <$> x.
Proof using. intros [_ Hi]. destruct x as [l|]; cbn; by rewrite ?Hi. Qed.

Lemma pd_node_dir (a : W) r : pd_node a r = Some NDir <-> pd_entry a r = Some EDir.
Proof using. unfold pd_node. by destruct (pd_entry a r) as [[|l]|]. Qed.

Lemma pd_node_None (a : W) r : pd_node a r = None <-> pd_entry a r = None.
Proof using. unfold pd_node. by destruct (pd_entry a r) as [[|l]|]. Qed.

Lemma pd_node_leaf (a : W) r i :
  pd_node a r = Some (NLeaf i) <-> exists leaf, pd_entry a r = Some (ELeaf leaf) /\ leaf_info a leaf = i.
Proof using.
  unfold pd_node. destruct (pd_entry a r) as [[|l]|]; cbn; naive_solver.
Qed.

Lemma pd_node_tree (a : W) r c n : pd_node a (r ++ [c]) = Some n -> pd_node a r = Some NDir.
Proof using.
  intros Hn. apply pd_node_dir. destruct (pd_entry a (r ++ [c])) as [e|] eqn:He; [by eapply pd_tree|].
  apply pd_node_None in He. congruence.
Qed.

Lemma pd_prefix (a : W) p c q e : pd_entry a (p ++ c :: q) = Some e -> q <> [] -> pd_entry a (p ++ [c]) = Some EDir.
Proof using.
  revert e. induction q as [|x q IH] using rev_ind; intros e He Hq; [done|].
  change (p ++ c :: (q ++ [x])) with (p ++ ((c :: q) ++ [x])) in He. rewrite app_assoc in He.
  apply pd_tree in He. destruct q as [|y q]; [done|]. by eapply IH.
Qed.

(** Entries and leaves are as they were at a path. *)
Lemma pd_node_frame (a b : W) r :
  (forall l, leaf_info b l = leaf_info a l) -> pd_entry b r = pd_entry a r -> pd_node b r = pd_node a r.
Proof using.
  intros Hi He. unfold pd_node. rewrite He. by destruct (pd_entry a r) as [[|l]|]; cbn; rewrite ?Hi.
Qed.

Lemma CreateAndEnter_node d c (w : W) :
  pd_node w (pd_path d) = Some NDir -> pd_node w (pd_path d ++ [c]) = None ->
  exists d' w', CreateAndEnterPrepopulatedDirectory d c w = (Ok d', w') /\
    pd_path d' = pd_path d ++ [c] /\
    forall r, pd_node w' r = if decide (r = pd_path d ++ [c]) then Some NDir else pd_node w r.
Proof using.
  intros Hd%pd_node_dir Hc%pd_node_None.
  destruct (pd_CreateAndEnter d c w Hd Hc) as (d' & w' & -> & Hp & Hi & He). exists d', w'.
  split; [done|]. split; [done|]. intros r. specialize (He r). case_decide.
  - by apply pd_node_dir.
  - by apply pd_node_frame.
Qed.

Lemma CreateChildren_node d (m : gmap Component Leaf) (w : W) :
  pd_node w (pd_path d) = Some NDir ->
  (forall c, is_Some (m !! c) -> pd_node w (pd_path d ++ [c]) = None) ->
  exists w', CreateChildren d m true w = (None, w') /\
    (forall c leaf, m !! c = Some leaf -> pd_node w' (pd_path d ++ [c]) = Some (NLeaf (leaf_info w leaf))) /\
    (forall r, (forall c, is_Some (m !! c) -> r <> pd_path d ++ [c]) -> pd_node w' r = pd_node w r).
Proof using.
  intros Hd%pd_node_dir Hm. destruct (pd_CreateChildren d m w Hd) as (w' & -> & Hi & Hnew & Hold).
  { intros c Hc. by apply pd_node_None, Hm. }
  exists w'. split; [done|]. split.
  - intros c leaf Hc. apply pd_node_leaf. exists leaf. rewrite Hi. split; [by apply Hnew|done].
  - intros r Hr. apply pd_node_frame; [done|]. by apply Hold.
Qed.
End DirectoryFacts.

(** ** Saving and restoring *)

Section RoundTrip.
Context {E : Errors} {P : PathLib} {PL : PathLaws P} {D : DigestLib}.
Context {WS WT : Type} {S : Store WS} {SL : StoreLaws S}.
Context {OPF : OutputPathFactory WT} {PD : PrepopulatedDirectory WT} {DL : DirectoryLaws PD}.

Abbreviation entries := (list (option FileRegion * Directory)).

(** The leaves [ls] appended to a message. *)
Definition append_all (ls : list (Component * leafinfo)) (m : Directory) : Directory :=
  foldl (fun m '(c, i) => append_info i c m) m ls.

(** [encodes k N l p tr m]: the message [m] describes the directory at [p], whose
    path in the output path is [tr], as it is in [N], where the regions of its
    subdirectories are those of earlier messages in [l]; [k] bounds the depth. *)
Fixpoint encodes (k : nat) (N : list Component -> option node) (l : entries)
    (p tr : list Component) (m : Directory) : Prop :=
  match k with
  | O => False
  | Datatypes.S k =>
      exists (cs : list Component) (ls : list (Component * leafinfo)),
        dn_Name <$> Directories m = Component_String <$> cs /\ NoDup cs /\
        (forall c, c ∈ cs <-> N (p ++ [c]) = Some NDir) /\
        (forall i n c, Directories m !! i = Some n -> cs !! i = Some c ->
           exists j md, l !! j = Some (dn_FileRegion n, md) /\
             encodes k N (take j l) (p ++ [c]) (tr ++ [c]) md) /\
        Files m = Files (append_all ls empty_Directory) /\
        Symlinks m = Symlinks (append_all ls empty_Directory) /\ NoDup ls.*1 /\
        (forall c i, (c, i) ∈ ls <-> N (p ++ [c]) = Some (NLeaf i) /\ skipped tr c = false) /\
        (forall c t, (c, LSymlink t) ∈ ls -> valid_target t)
  end.

Lemma encodes_app k N l x p tr m : encodes k N l p tr m -> encodes k N (l ++ x) p tr m.
Proof using.
  destruct k as [|k]; [done|]. intros (cs & ls & H1 & H2 & H3 & H4 & Hrest). exists cs, ls.
  split; [done|]. split; [done|]. split; [done|]. split; [|done].
  intros i n c Hn Hc. destruct (H4 i n c Hn Hc) as (j & md & Hj & Henc).
  exists j, md. pose proof (lookup_lt_Some _ _ _ Hj).
  rewrite lookup_app_l, take_app_le by lia. done.
Qed.

(** *** Saving *)

Lemma append_info_fields i c m :
  Directories (append_info i c m) = Directories m.
Proof using. by destruct i. Qed.

Lemma append_all_Directories ls m : Directories (append_all ls m) = Directories m.
Proof using.
  revert m. induction ls as [|[c i] ls IH]; intros m; [done|]. cbn. unfold append_all in IH.
  by rewrite IH, append_info_fields.
Qed.

Lemma append_all_leaves ls m m' :
  Files m = Files m' -> Symlinks m = Symlinks m' ->
  Files (append_all ls m) = Files (append_all ls m') /\
  Symlinks (append_all ls m) = Symlinks (append_all ls m').
Proof using.
  revert m m'. induction ls as [|[c i] ls IH]; intros m m' Hf Hs; [done|].
  cbn. apply IH; destruct i; cbn; congruence.
Qed.

Definition file_of (x : Component * leafinfo) : option FileNode :=
  match x.2 with
  | LFile dg b => Some {| fn_Name := Component_String x.1; fn_Digest := Some (GetProto dg);
                          fn_IsExecutable := b |}
  | _ => None
  end.

Definition symlink_of (x : Component * leafinfo) : option SymlinkNode :=
  match x.2 with
  | LSymlink t => Some {| sn_Name := Component_String x.1; sn_Target := t |}
  | _ => None
  end.

Definition is_saved (i : leafinfo) : Prop :=
  match i with LFile _ _ | LSymlink _ => True | LLocal | LSpecial => False end.
#[global] Instance is_saved_dec i : Decision (is_saved i).
Proof using. destruct i; apply _. Defined.
Definition is_file (i : leafinfo) : Prop := match i with LFile _ _ => True | _ => False end.
Definition is_link (i : leafinfo) : Prop := match i with LSymlink _ => True | _ => False end.

Lemma append_all_spec ls m :
  Files (append_all ls m) = Files m ++ omap file_of ls /\
  Symlinks (append_all ls m) = Symlinks m ++ omap symlink_of ls.
Proof using.
  revert m. induction ls as [|[c i] ls IH]; intros m; [by rewrite !app_nil_r|].
  cbn. destruct (IH (append_info i c m)) as [Hf Hs]. unfold append_all in *. rewrite Hf, Hs.
  destruct i; cbn; rewrite <-?app_assoc; done.
Qed.

(** The names in a message are filenames, and each is used once. *)
Definition names_of (m : Directory) : list string :=
  (dn_Name <$> Directories m) ++ (fn_Name <$> Files m) ++ (sn_Name <$> Symlinks m).

Definition wf_message (m : Directory) : Prop :=
  Forall (fun s => is_Some (NewComponent s)) (names_of m) /\ NoDup (names_of m).

Lemma leaf_names ls :
  (fn_Name <$> omap file_of ls) ++ (sn_Name <$> omap symlink_of ls) ≡ₚ
    Component_String <$> (filter (fun x => is_saved x.2) ls).*1.
Proof using.
  induction ls as [|[c i] ls IH]; [done|]. destruct i.
  - rewrite filter_cons_True by done. cbn. by constructor.
  - rewrite filter_cons_True by done. cbn. rewrite <-Permutation_middle. by constructor.
  - by rewrite filter_cons_False by by intros [].
  - by rewrite filter_cons_False by by intros [].
Qed.

Lemma encodes_wf k N l p tr m : encodes k N l p tr m -> wf_message m.
Proof using PL.
  destruct k as [|k]; [done|].
  intros (cs & ls & Hnames & Hnd & Hcs & _ & Hf & Hs & Hndl & Hls & _).
  assert (names_of m ≡ₚ Component_String <$> (cs ++ (filter (fun x => is_saved x.2) ls).*1)) as Hn.
  { unfold names_of. destruct (append_all_spec ls empty_Directory) as [Hf' Hs'].
    rewrite Hnames, Hf, Hs, Hf', Hs', (fmap_app Component_String). f_equiv. apply leaf_names. }
  unfold wf_message. rewrite Hn. split.
  - apply Forall_fmap, Forall_true. intros c. cbn. by rewrite NewComponent_of_Component.
  - apply NoDup_fmap_2_strong.
    { intros c c' _ _ Heq. apply (f_equal NewComponent) in Heq.
      rewrite !NewComponent_of_Component in Heq. by injection Heq. }
    apply NoDup_app. split; [done|]. split.
    + intros c Hc ((c' & i) & -> & [_ Hi]%list_elem_of_filter)%list_elem_of_fmap.
      apply Hcs in Hc. apply Hls in Hi as [Hi _]. cbn in Hc. congruence.
    + eapply sublist_NoDup; [exact Hndl|]. apply fmap_sublist, sublist_filter.
Qed.

(** The leaves that are saved. *)
Definition kept (t : WT) (tr : list Component) (leaves : list (Component * Leaf))
  : list (Component * leafinfo) :=
  (fun x => (x.1, leaf_info t x.2)) <$> filter (fun x => skipped tr x.1 = false) leaves.

Lemma kept_same t t' tr leaves : pd_same t t' -> kept t' tr leaves = kept t tr leaves.
Proof using. intros [_ Hi]. unfold kept. apply list_fmap_ext. intros i x _. by rewrite Hi. Qed.

Lemma save_leaves_spec tr leaves directory s :
  exists s', save_leaves tr leaves directory s = (Ret (append_all (kept s tr leaves) directory), s') /\
    pd_same s s'.
Proof using.
  revert directory s. induction leaves as [|[c leaf] leaves IH]; intros directory s.
  { exists s. split; [done|apply pd_same_refl]. }
  cbn [save_leaves]. unfold kept. rewrite filter_cons. cbn [fst].
  destruct (skipped tr c) eqn:Hsk; cbn.
  - apply IH.
  - destruct (pd_ApplyAppend leaf c directory s) as (s1 & -> & Hs1).
    destruct (IH (append_info (leaf_info s leaf) c directory) s1) as (s' & -> & Hs').
    rewrite (kept_same s s1) by done. exists s'. split; [done|]. by eapply pd_same_trans.
Qed.

Section Save.
Context (t0 : WT) (c0 : Component).

Lemma save_directories_spec k p rec
    (Hrec : forall d tr sw s m sw' s' l,
       pd_same t0 s.2 -> sl_writing c0 sw s.1 l -> rec d tr sw s = ((Some (Ret (Ok m)), sw'), s') ->
       exists l', sl_writing c0 sw' s'.1 (l ++ l') /\ Forall wf_message l'.*2 /\
         encodes k (pd_node t0) (l ++ l') (pd_path d) tr m /\ pd_same t0 s'.2) :
  forall tr dirs directory sw s m sw' s' l,
  pd_same t0 s.2 -> sl_writing c0 sw s.1 l ->
  (forall c d, (c, d) ∈ dirs -> pd_path d = p ++ [c]) ->
  save_directories rec tr dirs directory sw s = ((Some (Ret (Ok m)), sw'), s') ->
  exists l' ns, sl_writing c0 sw' s'.1 (l ++ l') /\ Forall wf_message l'.*2 /\ pd_same t0 s'.2 /\
    m = {| Files := Files directory; Symlinks := Symlinks directory;
           Directories := Directories directory ++ ns |} /\
    dn_Name <$> ns = Component_String <$> dirs.*1 /\
    forall i n c, ns !! i = Some n -> dirs.*1 !! i = Some c ->
      exists j md, (l ++ l') !! j = Some (dn_FileRegion n, md) /\
        encodes k (pd_node t0) (take j (l ++ l')) (p ++ [c]) (tr ++ [c]) md.
Proof using PL.
  intros tr dirs. induction dirs as [|[c d] dirs IH]; intros directory sw s m sw' s' l Hs Hw Hp; cbn.
  { intros [= <- <- <-]. exists [], []. rewrite !app_nil_r. split; [done|]. split; [constructor|].
    split; [done|]. split; [by destruct directory|]. split; [done|]. intros i n c Hn. by rewrite lookup_nil in Hn. }
  destruct (rec d (tr ++ [c]) sw s) as [[[[[md|]|]|] sw1] s1] eqn:ER; try done.
  destruct (Hrec _ _ _ _ _ _ _ _ Hs Hw ER) as (l1 & Hw1 & Hwf1 & Henc & Hs1).
  unfold on_store. destruct (sw_WriteDirectory md sw1 s1.1) as [[[reg|] sw2] ws2] eqn:EW; [|done].
  pose proof (sl_WriteDirectory _ _ _ _ _ _ _ _ Hw1 EW) as Hw2. cbn. intros Heq.
  assert (forall c d, (c, d) ∈ dirs -> pd_path d = p ++ [c]) as Hp' by (intros; apply Hp; by right).
  pose proof (IH _ _ (ws2, s1.2) _ _ _ ((l ++ l1) ++ [(reg, md)]) Hs1 Hw2 Hp' Heq)
    as (l2 & ns & Hw3 & Hwf2 & Hs3 & -> & Hnames & Hns).
  exists (l1 ++ (reg, md) :: l2), ({| dn_Name := Component_String c; dn_FileRegion := reg |} :: ns).
  assert (l ++ l1 ++ (reg, md) :: l2 = ((l ++ l1) ++ [(reg, md)]) ++ l2) as -> by by rewrite <-!app_assoc.
  split; [done|]. split.
  { rewrite fmap_app. apply Forall_app. split; [done|]. constructor; [by eapply encodes_wf|done]. }
  split; [done|]. split; [cbn; by rewrite <-app_assoc|].
  split; [cbn; by rewrite Hnames|]. intros [|i] n c' Hn Hc; cbn in Hn, Hc; [|by apply (Hns i)].
  injection Hn as <-. injection Hc as <-. exists (length (l ++ l1)), md. cbn [dn_FileRegion].
  rewrite <-(app_assoc (l ++ l1)), take_app_length. cbn [app].
  rewrite lookup_app_r, Nat.sub_diag by lia. split; [done|].
  rewrite <-(Hp c d) by by left. done.
Qed.

Lemma saveDirectoryRecursive_spec k d tr sw s m sw' s' l :
  pd_same t0 s.2 -> sl_writing c0 sw s.1 l ->
  saveDirectoryRecursive k d tr sw s = ((Some (Ret (Ok m)), sw'), s') ->
  exists l', sl_writing c0 sw' s'.1 (l ++ l') /\ Forall wf_message l'.*2 /\
    encodes k (pd_node t0) (l ++ l') (pd_path d) tr m /\ pd_same t0 s'.2.
Proof using PL.
  revert d tr sw s m sw' s' l. induction k as [|k IH]; intros d tr sw s m sw' s' l Hs Hw; [done|].
  cbn [saveDirectoryRecursive]. unfold on_tree at 1.
  destruct (LookupAllChildren d s.2) as [[[ds ls]|] t1] eqn:EL; [|done].
  apply pd_LookupAllChildren in EL as (Hs1 & Hnd & Hndl & Hpath & Hds & Hls).
  destruct (save_directories _ tr ds empty_Directory sw (s.1, t1)) as [[[[[m1|]|]|] sw1] s1] eqn:ED; try done.
  eapply (save_directories_spec k (pd_path d)) in ED as (l' & ns & Hw1 & Hwf & Hs2 & -> & Hnames & Hns);
    [|intros *; apply IH|by eapply pd_same_trans|done|done].
  unfold on_tree.
  destruct (save_leaves_spec tr ls {| Files := Files empty_Directory; Symlinks := Symlinks empty_Directory;
    Directories := Directories empty_Directory ++ ns |} s1.2) as (t2 & -> & Ht2).
  intros [= <- <- <-]. exists l'. cbn [fst snd]. split; [done|]. split; [done|]. split; [|by eapply pd_same_trans].
  assert (pd_same t0 s1.2) as Hs12 by done. rewrite (kept_same t0 s1.2) by done.
  exists ds.*1, (kept t0 tr ls). rewrite append_all_Directories. cbn [Directories empty_Directory app].
  split; [done|]. split; [done|]. split; [intros c; by rewrite Hds, pd_node_dir, (proj1 Hs)|].
  split; [done|].
  destruct (append_all_leaves (kept t0 tr ls) {| Files := Files empty_Directory;
    Symlinks := Symlinks empty_Directory; Directories := Directories empty_Directory ++ ns |}
    empty_Directory) as [Hf Hl]; [done|done|].
  split; [done|]. split; [done|]. split.
  { unfold kept. rewrite <-list_fmap_compose. eapply sublist_NoDup; [exact Hndl|].
    apply fmap_sublist, sublist_filter. }
  assert (forall c i, (c, i) ∈ kept t0 tr ls <->
    pd_node t0 (pd_path d ++ [c]) = Some (NLeaf i) /\ skipped tr c = false) as Hkept.
  { intros c i. unfold kept. rewrite list_elem_of_fmap, pd_node_leaf. setoid_rewrite <-(proj1 Hs).
    setoid_rewrite <-Hls. split.
    - intros ([c' leaf] & [= -> ->] & [Hsk Hin]%list_elem_of_filter). split; [by exists leaf|done].
    - intros [(leaf & Hin & <-) Hsk]. exists (c, leaf). split; [done|]. by apply list_elem_of_filter. }
  split; [done|]. intros c t Hin. unfold kept in Hin.
  apply list_elem_of_fmap in Hin as ([c' leaf] & [= -> Hi] & _). by eapply pd_valid_target.
Qed.
End Save.

(** *** Restoring *)

(** What is at a path below a directory once the directory was restored. *)
Definition keep (N : list Component -> option node) (p tr q : list Component) : option node :=
  match N (p ++ q) with
  | Some (NLeaf (LLocal | LSpecial)) => None
  | Some (NLeaf i) =>
      match q with
      | [c] => if skipped tr c then None else Some (NLeaf i)
      | _ => Some (NLeaf i)
      end
  | x => x
  end.

Section Restore.
Context (N : list Component -> option node) (sr : stateRestorer).
Context (HN : forall r c n, N (r ++ [c]) = Some n -> N r = Some NDir).
Context (Hdigests : forall r dg x, N r = Some (NLeaf (LFile dg x)) ->
  NewDigestFromProto (sr_digestFunction sr) (Some (GetProto dg)) = Ok dg).

Lemma restore_files_spec p tr ls m t :
  NoDup ls.*1 -> (forall c i, (c, i) ∈ ls -> m !! c = None) ->
  (forall c i, (c, i) ∈ ls -> N (p ++ [c]) = Some (NLeaf i)) ->
  exists m' t', restore_files sr tr (omap file_of ls) m t = ((None, m'), t') /\ pd_same t t' /\
    forall c i, leaf_info t' <$> m' !! c = Some i <->
      leaf_info t <$> m !! c = Some i \/ ((c, i) ∈ ls /\ is_file i).
Proof using PL Hdigests.
  revert m t. induction ls as [|[c i] ls IH]; intros m t Hnd Hm Hls.
  { exists m, t. split; [done|]. split; [apply pd_same_refl|]. intros c i. rewrite elem_of_nil. tauto. }
  cbn in Hnd. apply NoDup_cons in Hnd as [Hc Hnd].
  assert (forall c' i', (c', i') ∈ ls -> c' <> c) as Hne.
  { intros c' i' Hin ->. apply Hc. change c with ((c, i').1). by apply list_elem_of_fmap_2. }
  cbn [omap list_omap]. destruct (file_of (c, i)) as [f|] eqn:Hf.
  - destruct i as [dg b| | |]; try done. injection Hf as <-. cbn [restore_files fn_Name fn_Digest].
    rewrite NewComponent_of_Component, (Hm c (LFile dg b)) by by left.
    rewrite (Hdigests (p ++ [c]) dg b) by (apply Hls; by left). cbn [fn_IsExecutable].
    destruct (pd_LookupFile (sr_casFileFactory sr) dg b t) as (leaf & t1 & -> & Hi & Ht1).
    destruct (IH (<[c := leaf]> m) t1 Hnd) as (m' & t' & -> & Ht' & Hm').
    { intros c' i' Hin. rewrite lookup_insert_ne by by apply not_eq_sym, (Hne c' i').
      apply (Hm c' i'). by right. }
    { intros c' i' Hin. apply Hls. by right. }
    exists m', t'. split; [done|]. split; [by eapply pd_same_trans|]. intros c' i'.
    rewrite Hm', (pd_same_info t t1), elem_of_cons by done. destruct (decide (c' = c)) as [->|Hcc].
    + rewrite lookup_insert_eq, (Hm c (LFile dg b)) by by left. cbn. rewrite <-(proj2 Ht1), Hi. split.
      * intros [[= <-]|[Hin _]]; [by right; split; [left|]|by apply Hne in Hin].
      * intros [?|[[[= ->]|Hin] _]]; [done|by left|by apply Hne in Hin].
    + rewrite lookup_insert_ne by done. naive_solver.
  - destruct (IH m t Hnd) as (m' & t' & -> & Ht' & Hm').
    { intros c' i' Hin. apply (Hm c' i'). by right. }
    { intros c' i' Hin. apply Hls. by right. }
    exists m', t'. split; [done|]. split; [done|]. intros c' i'. rewrite Hm', elem_of_cons.
    split; [tauto|]. intros [?|[[[= -> ->]|Hin] Hfile]]; [by left|by destruct i|by right].
Qed.

Lemma restore_symlinks_spec tr ls m t :
  NoDup ls.*1 -> (forall c i, (c, i) ∈ ls -> is_link i -> m !! c = None) ->
  (forall c t, (c, LSymlink t) ∈ ls -> valid_target t) ->
  exists m' t', restore_symlinks tr (omap symlink_of ls) m t = ((None, m'), t') /\ pd_same t t' /\
    forall c i, leaf_info t' <$> m' !! c = Some i <->
      leaf_info t <$> m !! c = Some i \/ ((c, i) ∈ ls /\ is_link i).
Proof using PL.
  revert m t. induction ls as [|[c i] ls IH]; intros m t Hnd Hm Hls.
  { exists m, t. split; [done|]. split; [apply pd_same_refl|]. intros c i. rewrite elem_of_nil. tauto. }
  cbn in Hnd. apply NoDup_cons in Hnd as [Hc Hnd].
  assert (forall c' i', (c', i') ∈ ls -> c' <> c) as Hne.
  { intros c' i' Hin ->. apply Hc. change c with ((c, i').1). by apply list_elem_of_fmap_2. }
  cbn [omap list_omap]. destruct (symlink_of (c, i)) as [f|] eqn:Hf.
  - destruct i as [|tgt| |]; try done. injection Hf as <-. cbn [restore_symlinks sn_Name sn_Target].
    rewrite NewComponent_of_Component, (Hm c (LSymlink tgt)) by (done || by left).
    destruct (pd_LookupSymlink tgt t) as (leaf & t1 & -> & Hi & Ht1); [apply (Hls c); by left|].
    destruct (IH (<[c := leaf]> m) t1 Hnd) as (m' & t' & -> & Ht' & Hm').
    { intros c' i' Hin Hl. rewrite lookup_insert_ne by by apply not_eq_sym, (Hne c' i').
      apply (Hm c' i'); [by right|done]. }
    { intros c' t'' Hin. apply (Hls c'). by right. }
    exists m', t'. split; [done|]. split; [by eapply pd_same_trans|]. intros c' i'.
    rewrite Hm', (pd_same_info t t1), elem_of_cons by done. destruct (decide (c' = c)) as [->|Hcc].
    + rewrite lookup_insert_eq, (Hm c (LSymlink tgt)) by (done || by left). cbn. rewrite <-(proj2 Ht1), Hi. split.
      * intros [[= <-]|[Hin _]]; [by right; split; [left|]|by apply Hne in Hin].
      * intros [?|[[[= ->]|Hin] _]]; [done|by left|by apply Hne in Hin].
    + rewrite lookup_insert_ne by done. naive_solver.
  - destruct (IH m t Hnd) as (m' & t' & -> & Ht' & Hm').
    { intros c' i' Hin Hl. apply (Hm c' i'); [by right|done]. }
    { intros c' t'' Hin. apply (Hls c'). by right. }
    exists m', t'. split; [done|]. split; [done|]. intros c' i'. rewrite Hm', elem_of_cons.
    split; [tauto|]. intros [?|[[[= -> ->]|Hin] Hlink]]; [by left|by destruct i|by right].
Qed.

Lemma restore_leaves_spec p tr ls contents d t :
  Files contents = Files (append_all ls empty_Directory) ->
  Symlinks contents = Symlinks (append_all ls empty_Directory) ->
  NoDup ls.*1 -> (forall c i, (c, i) ∈ ls -> N (p ++ [c]) = Some (NLeaf i)) ->
  (forall c t, (c, LSymlink t) ∈ ls -> valid_target t) ->
  pd_node t (pd_path d) = Some NDir ->
  (forall c i, (c, i) ∈ ls -> pd_node t (pd_path d ++ [c]) = None) ->
  exists t', restore_leaves sr contents d tr t = (None, t') /\
    (forall c i, (c, i) ∈ ls -> is_saved i -> pd_node t' (pd_path d ++ [c]) = Some (NLeaf i)) /\
    (forall r, (forall c i, (c, i) ∈ ls -> is_saved i -> r <> pd_path d ++ [c]) ->
       pd_node t' r = pd_node t r).
Proof using PL Hdigests.
  intros Hf Hs Hnd Hls Hval Hdir Hfresh. unfold restore_leaves. rewrite Hf, Hs.
  destruct (append_all_spec ls empty_Directory) as [-> ->]. cbn [Files Symlinks empty_Directory app].
  destruct (restore_files_spec p tr ls ∅ t Hnd) as (m1 & t1 & -> & Ht1 & Hm1);
    [intros; by rewrite lookup_empty|done|].
  assert (forall c i i', (c, i) ∈ ls -> (c, i') ∈ ls -> i = i') as Hfun.
  { intros c i i' Hi Hi'. apply Hls in Hi, Hi'. congruence. }
  destruct (restore_symlinks_spec tr ls m1 t1 Hnd) as (m2 & t2 & -> & Ht2 & Hm2); [|done|].
  { intros c i Hi Hl. destruct (m1 !! c) as [leaf|] eqn:Hc; [|done]. exfalso.
    destruct (proj1 (Hm1 c (leaf_info t1 leaf))) as [He|[Hin Hfile]]; [by rewrite Hc|done|].
    rewrite (Hfun _ _ _ Hin Hi) in Hfile. by destruct i. }
  assert (forall c i, leaf_info t2 <$> m2 !! c = Some i <-> (c, i) ∈ ls /\ is_saved i) as Hm.
  { intros c i. rewrite Hm2, Hm1, lookup_empty. destruct i; cbn; naive_solver. }
  assert (pd_same t t2) as Ht by by eapply pd_same_trans.
  destruct (CreateChildren_node d m2 t2) as (t3 & -> & Hnew & Hold).
  { by rewrite (pd_same_node t). }
  { intros c [leaf Hc]. rewrite (pd_same_node t) by done. apply (Hfresh c (leaf_info t2 leaf)). apply Hm. by rewrite Hc. }
  exists t3. split; [done|]. split.
  - intros c i Hin Hi. assert (leaf_info t2 <$> m2 !! c = Some i) as Hc by by apply Hm.
    destruct (m2 !! c) as [leaf|] eqn:Hl; [|done]. injection Hc as <-. by apply Hnew.
  - intros r Hr. rewrite Hold, (pd_same_node t); [done..|]. intros c [leaf Hc].
    destruct (proj1 (Hm c (leaf_info t2 leaf))) as [Hin Hi]; [by rewrite Hc|]. by apply (Hr c (leaf_info t2 leaf)).
Qed.

(** [t'] is [t] with the directory at [p'] restored to what [N] has at [p]. *)
Definition restored (t t' : WT) (p' p tr : list Component) : Prop :=
  (forall q, q <> [] -> pd_node t' (p' ++ q) = keep N p tr q) /\
  (forall r, (forall q, q <> [] -> r <> p' ++ q) -> pd_node t' r = pd_node t r).

Definition empty_at (t : WT) (p' : list Component) : Prop :=
  pd_node t p' = Some NDir /\ forall q, q <> [] -> pd_node t (p' ++ q) = None.

Lemma tree_prefix p c q n : N (p ++ c :: q) = Some n -> q <> [] -> N (p ++ [c]) = Some NDir.
Proof using HN.
  revert n. induction q as [|x q IH] using rev_ind; intros n Hn Hq; [done|].
  change (p ++ c :: (q ++ [x])) with (p ++ ((c :: q) ++ [x])) in Hn. rewrite app_assoc in Hn.
  apply HN in Hn. destruct q as [|y q]; [done|]. by eapply IH.
Qed.

Lemma keep_child p tr c q : q <> [] -> keep N (p ++ [c]) (tr ++ [c]) q = keep N p tr (c :: q).
Proof using.
  intros Hq. unfold keep. rewrite <-app_assoc. cbn [app].
  destruct (N (p ++ c :: q)) as [[|[]]|]; try done; destruct q as [|c' [|]]; try done;
    unfold skipped; by rewrite (bool_decide_false (tr ++ [c] = [])) by (by destruct tr).
Qed.

Lemma restore_directories_spec k p tr l rec
    (Hrec : forall reader m d tr s l p, encodes k N l p tr m ->
       (sl_reading reader s.1 l \/ Directories m = []) -> empty_at s.2 (pd_path d) ->
       exists s', rec reader m d tr s = (Some None, s') /\ s'.1 = s.1 /\
         restored s.2 s'.2 (pd_path d) p tr) :
  forall reader d ns cs s,
  dn_Name <$> ns = Component_String <$> cs -> NoDup cs ->
  (forall c, c ∈ cs -> N (p ++ [c]) = Some NDir) ->
  (forall i n c, ns !! i = Some n -> cs !! i = Some c ->
     exists j md, l !! j = Some (dn_FileRegion n, md) /\
       encodes k N (take j l) (p ++ [c]) (tr ++ [c]) md) ->
  (sl_reading reader s.1 l \/ ns = []) ->
  pd_node s.2 (pd_path d) = Some NDir ->
  (forall c q, c ∈ cs -> pd_node s.2 (pd_path d ++ c :: q) = None) ->
  exists s', restore_directories rec reader d tr ns s = (Some None, s') /\ s'.1 = s.1 /\
    (forall c q, c ∈ cs -> pd_node s'.2 (pd_path d ++ c :: q) = keep N p tr (c :: q)) /\
    (forall r, (forall c q, c ∈ cs -> r <> pd_path d ++ c :: q) -> pd_node s'.2 r = pd_node s.2 r).
Proof using PL.
  intros reader d ns. induction ns as [|n ns IH]; intros cs s Hnames Hnd Hdirs Henc Hrd Hdir Hempty.
  { destruct cs as [|c cs]; [|done]. exists s. split_and!; try done.
    intros c q Hc. by apply not_elem_of_nil in Hc. }
  destruct cs as [|c cs]; [done|]. cbn in Hnames. injection Hnames as Hn Hnames.
  destruct Hrd as [Hrd|]; [|done]. apply NoDup_cons in Hnd as [Hc Hnd].
  cbn [restore_directories]. rewrite Hn, NewComponent_of_Component.
  destruct (Henc 0%nat n c eq_refl eq_refl) as (j & md & Hj & Hmd).
  destruct (sl_ReadDirectory reader s.1 l j (dn_FileRegion n) md Hrd Hj) as (rd' & HR & Hrd').
  unfold on_store, on_tree. rewrite HR.
  destruct (CreateAndEnter_node d c s.2 Hdir) as (d' & t1 & Hce & Hp' & Ht1);
    [apply (Hempty c []); by left|].
  cbn [fst snd]. rewrite Hce. cbn [fst snd].
  destruct (Hrec rd' md d' (tr ++ [c]) (s.1, t1) (take j l) (p ++ [c]) Hmd) as (s2 & -> & Hs2 & Hin2 & Hout2).
  { destruct (dn_FileRegion n); [by left|]. right. by rewrite Hrd'. }
  { split; cbn; rewrite Hp'; [by rewrite Ht1, decide_True|]. intros q Hq.
    rewrite Ht1, decide_False, <-app_assoc by (intros Heq; by apply app_self_nil in Heq).
    apply Hempty. by left. }
  cbn [fst snd] in Hs2, Hin2, Hout2. rewrite Hp' in Hin2, Hout2.
  assert (forall r, (forall q, r <> pd_path d ++ c :: q) -> pd_node s2.2 r = pd_node s.2 r) as Hout.
  { intros r Hr. rewrite Hout2, Ht1, decide_False; [done|by apply Hr|].
    intros q _. rewrite <-app_assoc. apply Hr. }
  assert (forall q, pd_node s2.2 (pd_path d ++ c :: q) = keep N p tr (c :: q)) as Hin.
  { intros [|x q].
    - rewrite Hout2, Ht1, decide_True; [|done|].
      + unfold keep. by rewrite Hdirs by by left.
      + intros q' Hq' Heq. symmetry in Heq. by apply app_self_nil in Heq.
    - rewrite <-keep_child by done. rewrite <-Hin2 by done. by rewrite <-app_assoc. }
  destruct (IH cs s2) as (s3 & -> & Hs3 & Hin3 & Hout3); [done|done|..].
  { intros c' Hc'. apply Hdirs. by right. }
  { intros i n' c' Hn' Hc'. by apply (Henc (Datatypes.S i)). }
  { left. by rewrite Hs2. }
  { rewrite Hout; [done|]. intros q Heq. symmetry in Heq. by apply app_self_nil in Heq. }
  { intros c' q Hc'. rewrite Hout; [apply Hempty; by right|].
    intros q' [= -> ->]%app_inv_head. done. }
  exists s3. split; [done|]. split; [congruence|]. split.
  - intros c' q Hc'. apply elem_of_cons in Hc' as [->|Hc']; [|by apply Hin3].
    rewrite Hout3, Hin; [done|]. intros c' q' Hc'' [= -> ->]%app_inv_head. done.
  - intros r Hr. rewrite Hout3, Hout; [done|intros q; apply Hr; by left|].
    intros c' q Hc'. apply Hr. by right.
Qed.

Lemma restoreDirectoryRecursive_spec k reader m d tr s l p :
  encodes k N l p tr m -> (sl_reading reader s.1 l \/ Directories m = []) ->
  empty_at s.2 (pd_path d) ->
  exists s', restoreDirectoryRecursive k sr reader m d tr s = (Some None, s') /\ s'.1 = s.1 /\
    restored s.2 s'.2 (pd_path d) p tr.
Proof using PL HN Hdigests.
  revert reader m d tr s l p. induction k as [|k IH]; intros reader m d tr s l p; [done|].
  intros (cs & ls & Hnames & Hnd & Hcs & Henc & Hf & Hs & Hndl & Hls & Hval) Hrd [Hdir Hempty].
  cbn [restoreDirectoryRecursive].
  destruct (restore_directories_spec k p tr l _ IH reader d (Directories m) cs s)
    as (s1 & -> & Hs1 & Hin1 & Hout1); try done.
  { intros c Hc. by apply Hcs. }
  { intros c q _. by apply Hempty. }
  assert (forall c i, (c, i) ∈ ls -> N (p ++ [c]) = Some (NLeaf i)) as Hls' by (intros; by apply Hls).
  assert (forall c, N (p ++ [c]) <> Some NDir -> forall q, pd_node s1.2 (pd_path d ++ c :: q) = None) as Hnone.
  { intros c Hc q. rewrite Hout1; [by apply Hempty|]. intros c' q' Hc' [= -> ->]%app_inv_head.
    by apply Hcs in Hc'. }
  unfold on_tree.
  destruct (restore_leaves_spec p tr ls m d s1.2) as (t2 & -> & Hin2 & Hout2); try done.
  { rewrite Hout1; [done|]. intros c q _ Heq. symmetry in Heq. by apply app_self_nil in Heq. }
  { intros c i Hi. apply Hnone. apply Hls' in Hi. congruence. }
  exists (s1.1, t2). split; [done|]. split; [done|]. cbn. split.
  - intros [|c q] Hq; [done|]. destruct (N (p ++ [c])) as [[|i]|] eqn:HNc.
    + rewrite Hout2; [by apply Hin1, Hcs|].
      intros c' i Hi _ [= -> ->]%app_inv_head. apply Hls' in Hi. congruence.
    + destruct q as [|x q].
      * unfold keep. rewrite HNc. destruct (skipped tr c) eqn:Hsk.
        -- rewrite Hout2; [rewrite Hnone by congruence; by destruct i|].
           intros c' i' Hi _ [= ->]%app_inv_head. apply Hls in Hi. destruct Hi. congruence.
        -- assert ((c, i) ∈ ls) as Hi by by apply Hls. destruct i; [by apply Hin2..| |];
             (rewrite Hout2; [by apply Hnone; congruence|]);
             intros c' i' Hi' Hl [= ->]%app_inv_head; apply Hls' in Hi'; by simplify_eq.
      * assert (N (p ++ c :: x :: q) = None) as HNq.
        { destruct (N (p ++ c :: x :: q)) eqn:Hx; [|done]. apply tree_prefix in Hx; [congruence|done]. }
        unfold keep. rewrite HNq, Hout2; [by apply Hnone; congruence|].
        by intros c' i' _ _ [= _ ?]%app_inv_head.
    + assert (N (p ++ c :: q) = None) as HNq.
      { destruct q as [|x q]; [done|]. destruct (N (p ++ c :: x :: q)) eqn:Hx; [|done].
        apply tree_prefix in Hx; [congruence|done]. }
      unfold keep. rewrite HNq, Hout2; [by apply Hnone; congruence|].
      intros c' i' Hi' _ [= -> ->]%app_inv_head. apply Hls' in Hi'. congruence.
  - intros r Hr. rewrite Hout2; [apply Hout1|].
    + intros c q _. by apply Hr.
    + intros c i _ _. by apply Hr.
Qed.
End Restore.

(** Saving writes messages that describe the output path. *)
Lemma saveOutputPath_encodes k op s s1 :
  saveOutputPath k op s = (Some (Ret None), s1) ->
  exists l m sw ws,
    sl_writing (pop_outputBaseID op) sw ws l /\ Forall wf_message l.*2 /\
    encodes k (pd_node s.2) l (pd_path (OutputPath_Dir (pop_OutputPath op))) [] m /\
    sw_Finalize {| InitialCreationTime := Some (pop_initialCreationTime op); Contents := Some m |} sw ws =
      (Ret None, s1.1).
Proof using PL DL SL.
  unfold saveOutputPath, on_store at 1.
  destruct (store_Write _ s.1) as [[sw|] ws0] eqn:EW; [|done].
  pose proof (sl_Write _ _ _ _ EW) as Hw.
  destruct (saveDirectoryRecursive k _ [] sw (ws0, s.2)) as [[[[[m|]|]|] sw1] s2] eqn:ES; try done.
  2: { unfold on_store. by destruct (sw_Close _ _) as [[] ?]. }
  destruct (saveDirectoryRecursive_spec s.2 _ k _ [] sw (ws0, s.2) m sw1 s2 [] (pd_same_refl _) Hw ES)
    as (l & Hw1 & Hwf & Henc & Hsame). cbn [app] in *.
  unfold on_store. destruct (sw_Finalize _ _ _) as [r ws1] eqn:EF. intros [= -> <-].
  by exists l, m, sw1, s2.1.
Qed.

(** The first build of a process restores what the state file describes. *)
Lemma StartInitialBuild_restores k c cff df t0 p l m tm ws t d t2 rc root' ws' :
  let root := {| InitialCreationTime := Some tm; Contents := Some m |} in
  sl_saved ws c root l -> encodes k (pd_node t0) l p [] m ->
  store_Read c ws = (Ret (Ok (rc, root')), ws') ->
  (forall r dg x, pd_node t0 r = Some (NLeaf (LFile dg x)) ->
     NewDigestFromProto df (Some (GetProto dg)) = Ok dg) ->
  opf_StartInitialBuild c cff df t = (Some (Ret d), t2) ->
  empty_at t2 (pd_path (OutputPath_Dir d)) ->
  exists s3, StartInitialBuild k c cff df (ws, t) =
    (Some (Ret {| pop_OutputPath := d; pop_outputBaseID := c; pop_initialCreationTime := tm |}), s3) /\
    restored (pd_node t0) t2 s3.2 (pd_path (OutputPath_Dir d)) p [].
Proof using PL DL SL.
  intros root Hsaved Henc HR Hdig Hinit Hempty.
  destruct (sl_Read _ _ _ _ _ _ _ Hsaved HR) as [-> Hrd].
  destruct (restoreDirectoryRecursive_spec (pd_node t0)
    {| sr_casFileFactory := cff; sr_digestFunction := df |}) with (k := k) (reader := rc_Reader rc)
    (m := m) (d := OutputPath_Dir d) (tr := @nil Component) (s := (ws', t2)) (l := l) (p := p)
    as (s3 & HRest & Hs3 & Hres);
    [intros r c' n; apply pd_node_tree|exact Hdig|exact Henc|by left|exact Hempty|].
  unfold StartInitialBuild, load_state, on_tree, on_store. cbn [fst snd]. rewrite Hinit.
  cbn [fst snd]. rewrite HR. cbn [root Contents fst snd]. rewrite HRest. cbn [fst snd InitialCreationTime].
  destruct (rc_Close rc s3.1) as [e ws3]. cbn [fst snd].
  eexists. split; [done|]. done.
Qed.

End RoundTrip.

(** *** The messages of a state file

    A store that records the messages that are written. *)

Section Recording.
Context {E : Errors} {P : PathLib}.
Context {WS : Type} (S : Store WS).

Abbreviation record := (list Directory * RootDirectory)%type.

Definition recording_store : Store (WS * record) :=
  let silent {A} (m : st WS A) : st (WS * record) A := fun w => let '(a, s) := m w.1 in (a, (s, w.2)) in
  {|
    StoreReadCloser := StoreReadCloser;
    StoreReader := StoreReader;
    StoreWriter := StoreWriter;
    store_Read c := silent (store_Read c);
    rc_Reader := rc_Reader;
    rc_Close rc := silent (rc_Close rc);
    sr_ReadDirectory r reg := silent (sr_ReadDirectory r reg);
    store_Write c w := let '(r, s) := store_Write c w.1 in (r, (s, ([], empty_RootDirectory)));
    sw_WriteDirectory d sw w :=
      let '(r, s) := sw_WriteDirectory d sw w.1 in (r, (s, (w.2.1 ++ [d], w.2.2)));
    sw_Finalize root sw w := let '(r, s) := sw_Finalize root sw w.1 in (r, (s, (w.2.1, root)));
    sw_Close sw := silent (sw_Close sw);
    store_Clean c := silent (store_Clean c);
  |}.

Definition recording_laws (SL : StoreLaws S) : StoreLaws recording_store.
Proof.
  refine (@Build_StoreLaws E P (WS * record) recording_store
    (fun c sw w l => sl_writing (S := S) c sw w.1 l /\ w.2.1 = l.*2)
    (fun w => sl_saved (S := S) w.1) (fun sr w => sl_reading (S := S) sr w.1) (sl_fits (S := S))
    _ _ _ _ _ (fun w => sl_absent (S := S) w.1) _ _).
  - intros c w sw w'. cbn. destruct (store_Write (Store := S) c w.1) as [r s] eqn:HW. intros [= -> <-].
    split; [by eapply sl_Write|done].
  - intros c sw w l d reg sw' w' [Hw Hrec]. cbn. destruct (sw_WriteDirectory (Store := S) d sw w.1) as [r s] eqn:HW.
    intros [= -> <-]. split; [by eapply sl_WriteDirectory|]. cbn. by rewrite Hrec, fmap_app.
  - intros c sw w l root w' [Hw _] Hfits. cbn. destruct (sw_Finalize (Store := S) root sw w.1) as [r s] eqn:HF.
    intros [= -> <-]. by eapply sl_Finalize.
  - intros w c root l rc root' w' Hs. cbn. destruct (store_Read (Store := S) c w.1) as [r s] eqn:HR.
    intros [= -> <-]. by eapply sl_Read.
  - intros sr w l j reg d Hr Hj. destruct (sl_ReadDirectory (S := S) sr w.1 l j reg d Hr Hj) as (sr' & HR & Hsr').
    exists sr'. cbn. rewrite HR. by destruct w.
  - intros c w w'. cbn. destruct (store_Clean (Store := S) c w.1) as [r s] eqn:HC. intros [= -> <-].
    by eapply sl_Clean.
  - intros w c Ha. destruct (sl_Read_absent (S := S) w.1 c Ha) as (e & w' & HR). cbn. rewrite HR. by eexists _, _.
Defined.
End Recording.

Section Recorded.
Context {E : Errors} {P : PathLib} {D : DigestLib}.
Context {WS WT : Type} {S : Store WS} {OPF : OutputPathFactory WT} {PD : PrepopulatedDirectory WT}.

Lemma save_directories_recorded rec rec' tr ds m sw s t x
    (Hrec : forall d tr sw s t x, exists x', rec' d tr sw ((s, x), t) =
       let '(r, (s', t')) := rec d tr sw (s, t) in (r, ((s', x'), t'))) :
  exists x', save_directories (S := recording_store S) rec' tr ds m sw ((s, x), t) =
    let '(r, (s', t')) := save_directories (S := S) rec tr ds m sw (s, t) in (r, ((s', x'), t')).
Proof using.
  revert m sw s t x. induction ds as [|[c d] ds IH]; intros m sw s t x; cbn; [by exists x|].
  destruct (Hrec d (tr ++ [c]) sw s t x) as [x1 ->].
  destruct (rec d (tr ++ [c]) sw (s, t)) as [[[[[md|]|]|] sw1] [s1 t1]]; try by exists x1.
  unfold on_store. cbn. destruct (sw_WriteDirectory (Store := S) md sw1 s1) as [[[reg|] sw2] s2]; cbn; [apply IH|by eexists].
Qed.

Lemma saveDirectoryRecursive_recorded k d tr sw s t x :
  exists x', saveDirectoryRecursive (S := recording_store S) k d tr sw ((s, x), t) =
    let '(r, (s', t')) := saveDirectoryRecursive (S := S) k d tr sw (s, t) in (r, ((s', x'), t')).
Proof using.
  revert d tr sw s t x. induction k as [|k IH]; intros d tr sw s t x; [by exists x|].
  cbn [saveDirectoryRecursive]. unfold on_tree at 1 3. cbn.
  destruct (LookupAllChildren d t) as [[[ds ls]|] t1]; [|by exists x]. cbn.
  destruct (save_directories_recorded _ _ tr ds empty_Directory sw s t1 x IH) as [x1 ->].
  destruct (save_directories (S := S) _ tr ds empty_Directory sw (s, t1)) as [[[[[md|]|]|] sw1] [s1 t2]];
    try by exists x1.
  unfold on_tree. cbn. exists x1. by destruct (save_leaves _ _ _ _) as [[] ?].
Qed.

Lemma saveOutputPath_recorded k op s t x :
  exists x', saveOutputPath (S := recording_store S) k op ((s, x), t) =
    let '(r, (s', t')) := saveOutputPath (S := S) k op (s, t) in (r, ((s', x'), t')).
Proof using.
  unfold saveOutputPath, on_store. cbn. destruct (store_Write (Store := S) _ s) as [[sw|] s1]; [|by eexists]. cbn.
  destruct (saveDirectoryRecursive_recorded k (OutputPath_Dir (pop_OutputPath op)) [] sw s1 t
    ([], empty_RootDirectory)) as [x1 ->].
  destruct (saveDirectoryRecursive (S := S) k _ [] sw (s1, t)) as [[[[[m|e]|]|] sw1] [s2 t1]];
    try by exists x1.
  - cbn. destruct (sw_Finalize (Store := S) _ sw1 s2) as [r s3]. by eexists.
  - cbn. destruct (sw_Close (Store := S) sw1 s2) as [[r|] s3]; by exists x1.
Qed.

(** The messages of the directories and the root directory that are saved. *)
Definition saved_messages (k : nat) (op : persistentOutputPath) (s : WS * WT) : list Directory * RootDirectory :=
  (saveOutputPath (S := recording_store S) k op ((s.1, ([], empty_RootDirectory)), s.2)).2.1.2.

(** They are within the limits of the store. *)
Definition saved_fits {SL : StoreLaws S} (k : nat) (op : persistentOutputPath) (s : WS * WT) : Prop :=
  sl_fits (saved_messages k op s).1 (saved_messages k op s).2.

Context {PL : PathLaws P} {SL : StoreLaws S} {DL : DirectoryLaws PD}.

(** Saving leaves a state file behind that describes the output path. *)
Lemma saveOutputPath_messages k op s s1 :
  saveOutputPath k op s = (Some (Ret None), s1) ->
  exists l m,
    let root := {| InitialCreationTime := Some (pop_initialCreationTime op); Contents := Some m |} in
    saved_messages k op s = (l.*2, root) /\ Forall wf_message l.*2 /\
    encodes k (pd_node s.2) l (pd_path (OutputPath_Dir (pop_OutputPath op))) [] m /\
    (sl_fits l.*2 root -> sl_saved s1.1 (pop_outputBaseID op) root l).
Proof using PL DL SL.
  destruct s as [s t]. intros Hsave. unfold saved_messages.
  destruct (saveOutputPath_recorded k op s t ([], empty_RootDirectory)) as [x' Hx]. cbn [fst snd].
  rewrite Hsave in Hx. destruct s1 as [s1 t1]. rewrite Hx. cbn [fst snd].
  destruct (saveOutputPath_encodes (SL := recording_laws S SL) k op _ _ Hx)
    as (l & m & sw & [ws y] & [Hw Hrec] & Hwf & Henc & HF). cbn in Hw, Hrec, HF.
  destruct (sw_Finalize (Store := S) _ sw ws) as [r s'] eqn:HF'. injection HF as -> -> <-. cbn.
  exists l, m. rewrite Hrec. split_and!; [done..|]. intros Hfits. by eapply sl_Finalize.
Qed.

Lemma saveOutputPath_saved k op s s1 :
  saveOutputPath k op s = (Some (Ret None), s1) -> saved_fits k op s ->
  exists l m,
    sl_saved s1.1 (pop_outputBaseID op)
      {| InitialCreationTime := Some (pop_initialCreationTime op); Contents := Some m |} l /\
    encodes k (pd_node s.2) l (pd_path (OutputPath_Dir (pop_OutputPath op))) [] m.
Proof using PL DL SL.
  intros (l & m & Hm & _ & Henc & Hsaved)%saveOutputPath_messages. unfold saved_fits. rewrite Hm.
  intros Hfits. exists l, m. split; [by apply Hsaved|done].
Qed.

(** C20. State files are well formed. In every message that is saved, those of the
    directories and that in the root directory, the names of subdirectories, files and
    symbolic links are filenames, and no two children have the same name. *)
Theorem saved_messages_wf k op s s1 :
  saveOutputPath k op s = (Some (Ret None), s1) ->
  Forall wf_message (saved_messages k op s).1 /\
  exists m, Contents (saved_messages k op s).2 = Some m /\ wf_message m.
Proof using PL DL SL.
  intros (l & m & Hm & Hwf & Henc & _)%saveOutputPath_messages. rewrite Hm. split; [done|].
  exists m. split; [done|]. by eapply encodes_wf.
Qed.

(** C4. Output paths survive restarts. After the contents of an output path were
    saved without error, starting the first build of a new process restores its
    directories, its files in the Content Addressable Storage and its symbolic
    links, at all depths: exactly what it contained, less the files that are only
    available locally and, at the top level, the two status files. Its initial
    creation time is kept. *)
Theorem output_path_roundtrip k op s s1 :
  saveOutputPath k op s = (Some (Ret None), s1) -> saved_fits k op s ->
  forall cff df t d t2 rc root' ws,
    store_Read (pop_outputBaseID op) s1.1 = (Ret (Ok (rc, root')), ws) ->
    (forall r dg x, pd_node s.2 r = Some (NLeaf (LFile dg x)) ->
       NewDigestFromProto df (Some (GetProto dg)) = Ok dg) ->
    opf_StartInitialBuild (pop_outputBaseID op) cff df t = (Some (Ret d), t2) ->
    empty_at t2 (pd_path (OutputPath_Dir d)) ->
    exists s3, StartInitialBuild k (pop_outputBaseID op) cff df (s1.1, t) =
      (Some (Ret {| pop_OutputPath := d; pop_outputBaseID := pop_outputBaseID op;
                    pop_initialCreationTime := pop_initialCreationTime op |}), s3) /\
      restored (pd_node s.2) t2 s3.2 (pd_path (OutputPath_Dir d))
        (pd_path (OutputPath_Dir (pop_OutputPath op))) [].
Proof using PL DL SL.
  intros Hsave Hfits. destruct (saveOutputPath_saved k op s s1 Hsave Hfits) as (l & m & Hsaved & Henc).
  intros. by eapply StartInitialBuild_restores.
Qed.
End Recorded.
