(* ===== verification/OutputPathResources.v ===== *)
(** * Output paths: termination and resources

    Restoring and saving come to an end, and release the leaves, readers and
    writers they obtained, whatever fails. *)

From S2P Require Import Prelude GoLib Errors GoIo StateFile Virtual Examples OutputPathFactory Store OutputPath OutputPathRoundTrip.
Local Open Scope Z_scope.

(** ** Termination *)

Definition region_ok (reg : option FileRegion) : Prop :=
  match reg with Some g => SizeBytes g < 2 ^ 31 | None => True end.

(** The sizes in a message are 32-bit integers. *)
Definition dir_ok (d : Directory) : Prop := Forall (fun n => region_ok (dn_FileRegion n)) (Directories d).

(** Every directory that is read lies before the one that refers to it, or has no
    subdirectories. [sr_ok] is an invariant of readers. *)
Class ReaderDescends {E : Errors} {P : PathLib} {W : Type} (S : Store W) : Type := {
  sr_ok : StoreReader -> Prop;
  sr_measure : StoreReader -> nat;
  sr_descends sr reg w sr' d w' :
    sr_ok sr -> region_ok reg -> sr_ReadDirectory sr reg w = (Ok (sr', d), w') ->
    sr_ok sr' /\ dir_ok d /\ ((sr_measure sr' < sr_measure sr)%nat \/ Directories d = []);
}.

(** The offsets of a state file decrease, whatever it contains. *)
Definition directoryBackedStore_descends {E : Errors} {P : PathLib} {CD : ProtoCodec Directory}
    {CR : ProtoCodec RootDirectory} {W : Type} {FD : FilesystemDirectory W} (max : Z)
    (Hunmarshal : forall bs (d : Directory), Unmarshal bs = Ok d -> dir_ok d) :
  ReaderDescends (NewDirectoryBackedStore max).
Proof.
  refine {|
    sr_ok := (fun r : directoryBackedReader => maximumOffsetBytes (dr_reader r) < 2 ^ 62)
      : StoreReader (Store := NewDirectoryBackedStore max) -> Prop;
    sr_measure := (fun r : directoryBackedReader => Z.to_nat (maximumOffsetBytes (dr_reader r)))
      : StoreReader (Store := NewDirectoryBackedStore max) -> nat |}.
  intros sr reg w sr' d w' Hok Hreg. cbn. unfold directoryBackedReader_ReadDirectory, ReadDirectory.
  destruct reg as [g|].
  - destruct (readMessage _ _ _) as [[r' d']|] eqn:ER; [|done]. intros [= <- <- <-]. cbn.
    pose proof (readMessage_unmarshals _ _ _ _ _ ER) as [bs Hbs].
    apply readMessage_accepts in ER as (Hoff & Hsz & Hend & ->). cbn in *.
    unfold headerSizeBytes in *. rewrite i64_id in Hend by lia.
    split; [lia|]. split; [by eapply Hunmarshal|]. left. lia.
  - intros [= <- <- <-]. cbn. split; [lia|]. split; [apply Forall_nil_2|by right].
Defined.

Section Termination.
Context {E : Errors} {P : PathLib} {D : DigestLib}.
Context {WS WT : Type} {S : Store WS} {SD : ReaderDescends S}.
Context {OPF : OutputPathFactory WT} {PD : PrepopulatedDirectory WT}.

Lemma restore_directories_terminates fuel sr reader d tr ns s :
  (forall reader m d tr s, sr_ok reader -> dir_ok m ->
     (sr_measure reader + 1 < fuel)%nat \/ (0 < fuel)%nat /\ Directories m = [] ->
     exists e s', restoreDirectoryRecursive fuel sr reader m d tr s = (Some e, s')) ->
  sr_ok reader -> Forall (fun n => region_ok (dn_FileRegion n)) ns ->
  (sr_measure reader + 1 <= fuel)%nat \/ ns = [] ->
  exists e s', restore_directories (restoreDirectoryRecursive fuel sr) reader d tr ns s = (Some e, s').
Proof using.
  intros Hrec Hrd Hok Hfuel. revert s. induction Hok as [|n ns Hn Hok IH]; intros s; cbn; [by eexists _, _|].
  destruct Hfuel as [Hle|]; [|done].
  destruct (NewComponent _); [|by eexists _, _]. unfold on_store.
  destruct (sr_ReadDirectory _ _ _) as [[[rd' md]|] ws] eqn:ER; [|by eexists _, _].
  apply sr_descends in ER as (Hrd' & Hmd & Hlt); [|done|done]. cbn. unfold on_tree. cbn.
  destruct (CreateAndEnterPrepopulatedDirectory _ _ _) as [[d'|] t]; [|by eexists _, _]. cbn.
  destruct (Hrec rd' md d' (tr ++ [c]) (ws, t) Hrd' Hmd) as (e & s' & ->).
  { destruct Hlt as [Hlt|Hd]; [left; lia|right; split; [lia|done]]. }
  destruct e; [by eexists _, _|]. apply IH. by left.
Qed.

(** C33. Restoring terminates on every state file, however it was corrupted: one
    level of recursion for every byte that lies before the directory is enough. *)
Theorem restore_terminates fuel sr reader m d tr s :
  sr_ok reader -> dir_ok m -> (sr_measure reader + 1 < fuel)%nat ->
  exists e s', restoreDirectoryRecursive fuel sr reader m d tr s = (Some e, s').
Proof using.
  intros Hrd Hm Hfuel.
  assert (forall reader m d tr s, sr_ok reader -> dir_ok m ->
    (sr_measure reader + 1 < fuel)%nat \/ (0 < fuel)%nat /\ Directories m = [] ->
    exists e s', restoreDirectoryRecursive fuel sr reader m d tr s = (Some e, s')) as Hall;
    [|apply Hall; auto].
  clear. induction fuel as [|fuel IH]; intros reader m d tr s Hrd Hm Hfuel; [lia|].
  cbn [restoreDirectoryRecursive].
  destruct (restore_directories_terminates fuel sr reader d tr (Directories m) s IH Hrd Hm) as (e & s' & ->).
  { destruct Hfuel as [Hlt|[_ Hd]]; [left; lia|by right]. }
  destruct e as [e|]; [by eexists _, _|]. destruct (on_tree _ _). by eexists _, _.
Qed.
End Termination.

(** *** Saving and uploading

    One level of recursion for every level of the output path is enough. *)

Section SaveTermination.
Context {E : Errors} {P : PathLib} {D : DigestLib}.
Context {WS WT : Type} {S : Store WS}.
Context {OPF : OutputPathFactory WT} {PD : PrepopulatedDirectory WT} {DL : DirectoryLaws PD}.

Definition entries_same (t t' : WT) : Prop := forall p, pd_entry t' p = pd_entry t p.

#[global] Instance entries_same_preorder : PreOrder entries_same.
Proof using. split; [by intros t p|]. intros t1 t2 t3 H12 H23 p. by rewrite H23. Qed.

Lemma pd_same_entries t t' : pd_same t t' -> entries_same t t'.
Proof using. by intros [He _]. Qed.

(** There is a directory at [p], and directories below it are nested less than [k]
    levels deep. *)
Definition shallow (k : nat) (t : WT) (p : list Component) : Prop :=
  pd_entry t p = Some EDir /\ forall q, pd_entry t (p ++ q) = Some EDir -> (length q < k)%nat.

Lemma shallow_same k t t' p : entries_same t t' -> shallow k t p -> shallow k t' p.
Proof using. intros Hs [Hp Hk]. split; [by rewrite Hs|]. intros q. rewrite Hs. apply Hk. Qed.

Lemma shallow_pos t p : ~ shallow 0 t p.
Proof using. intros [Hp Hk]. specialize (Hk []). rewrite app_nil_r in Hk. by apply Hk in Hp as ?%Nat.nlt_0_r. Qed.

(** Listing a directory, whose subdirectories are shallow too. *)
Lemma shallow_list k d t r t' :
  shallow (Datatypes.S k) t (pd_path d) -> LookupAllChildren d t = (r, t') ->
  entries_same t t' /\
  forall ds ls, r = Ok (ds, ls) -> Forall (fun x => shallow k t (pd_path x.2)) ds.
Proof using.
  intros [Hp Hk] HL. destruct r as [[ds ls]|e].
  - apply pd_LookupAllChildren in HL as (Hs & _ & _ & Hpath & Hds & _).
    split; [by apply pd_same_entries|]. intros ds' ls' [= <- <-]. apply Forall_forall. intros [c d'] Hin. cbn.
    rewrite (Hpath c d') by done. split.
    + apply Hds. change c with ((c, d').1). by apply list_elem_of_fmap_2.
    + intros q Hq. rewrite <-app_assoc in Hq. apply Hk in Hq. cbn in Hq. lia.
  - apply pd_LookupAllChildren_error in HL. split; [by apply pd_same_entries|done].
Qed.

Lemma save_leaves_same tr ls m t : exists m' t', save_leaves tr ls m t = (Ret m', t') /\ pd_same t t'.
Proof using DL. destruct (save_leaves_spec tr ls m t) as (t' & Heq & Hs). eauto. Qed.

Lemma save_directories_terminates k rec tr ds m sw s
    (Hrec : forall d tr sw s, shallow k s.2 (pd_path d) -> exists r sw' s',
       rec d tr sw s = ((Some (Ret r), sw'), s') /\ entries_same s.2 s'.2) :
  Forall (fun x => shallow k s.2 (pd_path x.2)) ds ->
  exists r sw' s', save_directories rec tr ds m sw s = ((Some (Ret r), sw'), s') /\ entries_same s.2 s'.2.
Proof using.
  revert m sw s. induction ds as [|[c d] ds IH]; intros m sw s Hds; cbn; [by eexists _, _, _|].
  apply Forall_cons in Hds as [Hd Hds]. destruct (Hrec d (tr ++ [c]) sw s Hd) as ([md|e] & sw1 & s1 & -> & Hs1);
    [|by eexists _, _, _]. unfold on_store.
  destruct (sw_WriteDirectory md sw1 s1.1) as [[[reg|e] sw2] ws]; [|by eexists _, _, _].
  match goal with |- context [save_directories rec tr ds ?m' sw2 ?s2] => destruct (IH m' sw2 s2) as (r & sw' & s' & -> & Hs') end.
  { eapply Forall_impl; [done|]. intros x Hx. by eapply shallow_same. }
  eexists _, _, _. split; [done|]. by etrans.
Qed.

Lemma saveDirectoryRecursive_terminates k d tr sw s :
  shallow k s.2 (pd_path d) ->
  exists r sw' s', saveDirectoryRecursive k d tr sw s = ((Some (Ret r), sw'), s') /\ entries_same s.2 s'.2.
Proof using DL.
  revert d tr sw s. induction k as [|k IH]; intros d tr sw s Hk; [by apply shallow_pos in Hk|].
  cbn [saveDirectoryRecursive]. unfold on_tree at 1.
  destruct (LookupAllChildren d s.2) as [r t1] eqn:HL. apply (shallow_list k) in HL as [Hs1 Hds]; [|done].
  destruct r as [[ds ls]|e]; [|by eexists _, _, _].
  destruct (save_directories_terminates k _ tr ds empty_Directory sw (s.1, t1) IH) as ([m|e] & sw1 & s1 & -> & Hs2).
  { eapply Forall_impl; [by eapply Hds|]. intros x Hx. by eapply shallow_same. }
  - unfold on_tree. destruct (save_leaves_same tr ls m s1.2) as (m' & t2 & -> & Hs3).
    eexists _, _, _. split; [done|]. cbn. etrans; [done|]. etrans; [done|]. by apply pd_same_entries.
  - eexists _, _, _. split; [done|]. by etrans.
Qed.

Lemma saveOutputPath_terminates k op s :
  shallow k s.2 (pd_path (OutputPath_Dir (pop_OutputPath op))) ->
  exists r s', saveOutputPath k op s = (Some r, s').
Proof using DL.
  intros Hk. unfold saveOutputPath, on_store at 1.
  destruct (store_Write _ s.1) as [[sw|e] ws]; [|by eexists _, _].
  destruct (saveDirectoryRecursive_terminates k (OutputPath_Dir (pop_OutputPath op)) [] sw (ws, s.2) Hk)
    as ([m|e] & sw1 & s1 & -> & _); unfold on_store.
  - destruct (sw_Finalize _ _ _) as [r ws']. by eexists _, _.
  - destruct (sw_Close _ _) as [[r|msg] ws']; by eexists _, _.
Qed.

Context {UL : UploadLaws PD}.

Lemma upload_leaves_same u tr ls t r t' : upload_leaves u tr ls t = (Ret r, t') -> entries_same t t'.
Proof using UL.
  revert t. induction ls as [|[c l] ls IH]; intros t; cbn; [by intros [= _ <-]|].
  destruct (ApplyUploadFile l _ t) as [[r1|] t1] eqn:HA; [|done]. apply ul_ApplyUploadFile in HA as [He _].
  destruct r1 as [e|]; [case_decide|]; [by intros [= _ <-]|..]; intros Hr%IH; by etrans.
Qed.

Lemma upload_directories_terminates k rec tr ds t
    (Hrec : forall d tr t, shallow k t (pd_path d) -> exists r t', rec d tr t = (Some r, t') /\
       (forall e, r = Ret e -> entries_same t t')) :
  Forall (fun x => shallow k t (pd_path x.2)) ds ->
  exists r t', upload_directories rec tr ds t = (Some r, t') /\ (forall e, r = Ret e -> entries_same t t').
Proof using.
  revert t. induction ds as [|[c d] ds IH]; intros t Hds; cbn; [by eexists _, _|].
  apply Forall_cons in Hds as [Hd Hds]. destruct (Hrec d (tr ++ [c]) t Hd) as ([[e|]|msg] & t1 & -> & Hs1);
    [by eexists _, _| |by eexists _, _]. specialize (Hs1 None eq_refl).
  destruct (IH t1) as (r & t' & -> & Hs').
  { eapply Forall_impl; [done|]. intros x Hx. by eapply shallow_same. }
  eexists _, _. split; [done|]. intros e He. etrans; [done|]. by eapply Hs'.
Qed.

Lemma uploadLocalFilesRecursive_terminates k u d tr t :
  shallow k t (pd_path d) ->
  exists r t', uploadLocalFilesRecursive k u d tr t = (Some r, t') /\ (forall e, r = Ret e -> entries_same t t').
Proof using UL.
  revert d tr t. induction k as [|k IH]; intros d tr t Hk; [by apply shallow_pos in Hk|].
  cbn [uploadLocalFilesRecursive].
  destruct (LookupAllChildren d t) as [r t1] eqn:HL. apply (shallow_list k) in HL as [Hs1 Hds]; [|done].
  destruct r as [[ds ls]|e]; [|by eexists _, _].
  destruct (upload_directories_terminates k _ tr ds t1 (fun d tr t => IH d tr t)) as (r & t2 & -> & Hs2).
  { eapply Forall_impl; [by eapply Hds|]. intros x Hx. by eapply shallow_same. }
  destruct r as [[e|]|msg]; [| |by eexists _, _].
  - eexists _, _. split; [done|]. intros e' _. etrans; [done|]. by eapply Hs2.
  - destruct (upload_leaves u tr ls t2) as [r3 t3] eqn:HU. eexists _, _. split; [done|]. intros e ->.
    apply upload_leaves_same in HU. etrans; [done|]. etrans; [by eapply Hs2|done].
Qed.
End SaveTermination.

(** ** Resources

    Directories and a store that log what is done with leaves, readers and
    writers. *)

Section Logged.
Context {E : Errors} {P : PathLib} {D : DigestLib}.
Context {WS WT : Type} (S : Store WS) (OPF : OutputPathFactory WT) (PD : PrepopulatedDirectory WT).

Inductive tree_event : Type :=
| EvLookup (l : Leaf)
| EvCreateChildren (ls : gmap Component Leaf) (e : option err)
| EvUnlink (l : Leaf)
| EvListed (r : res err (list (Component * Dir) * list (Component * Leaf)))
| EvUploaded (l : Leaf) (r : option (option err)).

Inductive store_event : Type :=
| EvOpenReader (r : StoreReadCloser)
| EvCloseReader (r : StoreReadCloser)
| EvOpenWriter
| EvFinalizeWriter
| EvCloseWriter.

Definition lift {X A : Type} (m : st WT A) : st (WT * list X) A := fun w =>
  let '(a, w') := m w.1 in (a, (w', w.2)).

(** [m], logging the events that its result gives rise to. *)
Definition logging {V X A : Type} (m : st V A) (ev : A -> list X) : st (V * list X) A := fun w =>
  let '(a, w') := m w.1 in (a, (w', w.2 ++ ev a)).

Definition logged_opf : OutputPathFactory (WT * list tree_event) := {|
  OutputPath := OutputPath;
  CASFileFactory := CASFileFactory;
  opf_StartInitialBuild c cff df := lift (opf_StartInitialBuild c cff df);
  opf_Clean c := lift (opf_Clean c);
  op_RemoveAllChildren op b := lift (op_RemoveAllChildren op b);
  op_FinalizeBuild op df := lift (op_FinalizeBuild op df);
  NewCASFileFactory := lift NewCASFileFactory;
|}.

Definition logged_pd : @PrepopulatedDirectory E P D _ logged_opf :=
  @Build_PrepopulatedDirectory E P D _ logged_opf
    (Dir (W := WT)) (Leaf (W := WT)) (OutputPath_Dir (W := WT))
    (fun d c => lift (CreateAndEnterPrepopulatedDirectory (W := WT) d c))
    (fun d => logging (LookupAllChildren (W := WT) d) (fun r => [EvListed r]))
    (fun d m b => logging (CreateChildren (W := WT) d m b) (fun e => [EvCreateChildren m e]))
    (fun l => logging (Unlink (W := WT) l) (fun _ => [EvUnlink l]))
    (fun cff dg x => logging (LookupFile (W := WT) cff dg x) (fun l => [EvLookup l]))
    (fun t => logging (LookupSymlink (W := WT) t) (fun r => match r with Ok l => [EvLookup l] | Err _ => [] end))
    (fun l c d => lift (ApplyAppendOutputPathPersistencyDirectoryNode (W := WT) l c d))
    (fun l df => logging (ApplyUploadFile (W := WT) l df) (fun r => [EvUploaded l r]))
    (fun e => lift (Log (W := WT) e))
    (lift (Now (W := WT))).

Definition logged_store : Store (WS * list store_event) := {|
  StoreReadCloser := StoreReadCloser;
  StoreReader := StoreReader;
  StoreWriter := StoreWriter;
  store_Read c := logging (store_Read c)
    (fun r => match r with Ret (Ok (rc, _)) => [EvOpenReader rc] | _ => [] end);
  rc_Reader := rc_Reader;
  rc_Close rc := logging (rc_Close rc) (fun _ => [EvCloseReader rc]);
  sr_ReadDirectory r reg := logging (sr_ReadDirectory r reg) (fun _ => []);
  store_Write c := logging (store_Write c) (fun r => match r with Ok _ => [EvOpenWriter] | Err _ => [] end);
  sw_WriteDirectory d sw := logging (sw_WriteDirectory d sw) (fun _ => []);
  sw_Finalize root sw := logging (sw_Finalize root sw) (fun _ => [EvFinalizeWriter]);
  sw_Close sw := logging (sw_Close sw) (fun _ => [EvCloseWriter]);
  store_Clean c := logging (store_Clean c) (fun _ => []);
|}.

(** The leaves that were created, and those that were unlinked. *)
Definition looked_up (evs : list tree_event) : list Leaf :=
  omap (fun ev => match ev with EvLookup l => Some l | _ => None end) evs.
Definition unlinked (evs : list tree_event) : list Leaf :=
  omap (fun ev => match ev with EvUnlink l => Some l | _ => None end) evs.

#[local] Existing Instance logged_opf.
#[local] Existing Instance logged_pd.

Lemma unlink_all_log ls w evs :
  exists w', unlink_all ls (w, evs) = (tt, (w', evs ++ (EvUnlink <$> ls.*2))).
Proof using.
  revert w evs. induction ls as [|[c l] ls IH]; intros w evs; cbn.
  { exists w. by rewrite app_nil_r. }
  unfold logging. cbn. destruct (Unlink (PrepopulatedDirectory := PD) l w) as [[] w1]. destruct (IH w1 (evs ++ [EvUnlink l])) as [w' ->].
  exists w'. by rewrite <-app_assoc.
Qed.

Lemma restore_files_log sr tr files m w evs :
  exists e m' w' evs', restore_files sr tr files m (w, evs) = ((e, m'), (w', evs ++ evs')) /\
    unlinked evs' = [] /\ (map_to_list m').*2 ≡ₚ (map_to_list m).*2 ++ looked_up evs'.
Proof using.
  revert m w evs. induction files as [|f files IH]; intros m w evs; cbn.
  { exists None, m, w, []. by rewrite !app_nil_r. }
  assert (forall e : err, exists e' m' w' evs', ((Some e, m), (w, evs)) = ((e', m'), (w', evs ++ evs')) /\
    unlinked evs' = [] /\ (map_to_list m').*2 ≡ₚ (map_to_list m).*2 ++ looked_up evs') as Hfail.
  { intros e. exists (Some e), m, w, []. by rewrite !app_nil_r. }
  destruct (NewComponent _) as [c|]; [|apply Hfail]. match goal with |- context [match ?x with Some _ => _ | None => _ end] =>
    destruct x eqn:Hc; [apply Hfail|] end.
  destruct (NewDigestFromProto _ _) as [dg|]; [|apply Hfail].
  unfold logging. cbn. destruct (LookupFile (PrepopulatedDirectory := PD) _ dg _ w) as [leaf w1].
  match goal with |- context [restore_files sr tr files ?m1 (w1, _)] =>
    destruct (IH m1 w1 (evs ++ [EvLookup leaf])) as (e & m' & w' & evs' & -> & Hu & Hp) end.
  exists e, m', w', (EvLookup leaf :: evs'). rewrite <-app_assoc. split; [done|]. split; [done|].
  rewrite Hp, map_to_list_insert by done. cbn. apply Permutation_middle.
Qed.

Lemma restore_symlinks_log tr links m w evs :
  exists e m' w' evs', restore_symlinks tr links m (w, evs) = ((e, m'), (w', evs ++ evs')) /\
    unlinked evs' = [] /\ (map_to_list m').*2 ≡ₚ (map_to_list m).*2 ++ looked_up evs'.
Proof using.
  revert m w evs. induction links as [|f links IH]; intros m w evs; cbn.
  { exists None, m, w, []. by rewrite !app_nil_r. }
  assert (forall (e : err) (w : WT), exists e' m' w' evs', ((Some e, m), (w, evs)) = ((e', m'), (w', evs ++ evs')) /\
    unlinked evs' = [] /\ (map_to_list m').*2 ≡ₚ (map_to_list m).*2 ++ looked_up evs') as Hfail.
  { intros e w0. exists (Some e), m, w0, []. by rewrite !app_nil_r. }
  destruct (NewComponent _) as [c|]; [|apply Hfail]. match goal with |- context [match ?x with Some _ => _ | None => _ end] =>
    destruct x eqn:Hc; [apply Hfail|] end.
  unfold logging. cbn. destruct (LookupSymlink (PrepopulatedDirectory := PD) _ w) as [[leaf|] w1].
  2: { cbn. rewrite app_nil_r. apply Hfail. }
  match goal with |- context [restore_symlinks tr links ?m1 (w1, _)] =>
    destruct (IH m1 w1 (evs ++ [EvLookup leaf])) as (e & m' & w' & evs' & -> & Hu & Hp) end.
  exists e, m', w', (EvLookup leaf :: evs'). rewrite <-app_assoc. split; [done|]. split; [done|].
  rewrite Hp, map_to_list_insert by done. cbn. apply Permutation_middle.
Qed.

(** Leaves are not leaked when restoring a directory fails: every leaf that
    was created is unlinked, exactly once, unless it was handed to the directory.
    A directory that was restored has all leaves that were created. *)
Theorem restore_leaves_unlinks sr contents d tr w :
  exists e w' evs, restore_leaves sr contents d tr (w, []) = (e, (w', evs)) /\
    match e with
    | Some _ => unlinked evs ≡ₚ looked_up evs
    | None => unlinked evs = [] /\ exists m, last evs = Some (EvCreateChildren m None) /\
        (map_to_list m).*2 ≡ₚ looked_up evs
    end.
Proof using.
  unfold restore_leaves.
  destruct (restore_files_log sr tr (Files contents) ∅ w []) as (e & m1 & w1 & evs1 & -> & Hu1 & Hp1).
  rewrite map_to_list_empty in Hp1. cbn [fmap list_fmap app] in Hp1.
  assert (forall e (m : gmap Component Leaf) w evs, unlinked evs = [] -> (map_to_list m).*2 ≡ₚ looked_up evs ->
    exists e' w' evs', (let '(_, w) := unlink_all (map_to_list m) (w, evs) in (Some e : option err, w))
      = (Some e', (w', evs')) /\ unlinked evs' ≡ₚ looked_up evs') as Hfail.
  { intros e0 m w0 evs Hu Hp. destruct (unlink_all_log (map_to_list m) w0 evs) as [w' ->].
    eexists _, _, _. split; [done|]. unfold unlinked, looked_up in *. rewrite !omap_app, Hu.
    assert (forall ls : list Leaf, omap (fun ev => match ev with EvUnlink l => Some l | _ => None end) (EvUnlink <$> ls) = ls) as ->.
    { intros ls. induction ls as [|l ls IH]; [done|]. cbn. by rewrite IH. }
    assert (forall ls : list Leaf, omap (fun ev => match ev with EvLookup l => Some l | _ => None end) (EvUnlink <$> ls) = []) as ->.
    { intros ls. induction ls as [|l ls IH]; [done|]. by cbn. }
    by rewrite app_nil_r. }
  destruct e as [e|].
  { destruct (Hfail e m1 w1 evs1 Hu1 Hp1) as (e' & w' & evs' & Heq & H).
    exists (Some e'), w', evs'. by split. }
  change ([] ++ evs1) with evs1.
  destruct (restore_symlinks_log tr (Symlinks contents) m1 w1 evs1) as (e & m2 & w2 & evs2 & -> & Hu2 & Hp2).
  assert (unlinked (evs1 ++ evs2) = []) as Hu.
  { unfold unlinked in *. by rewrite omap_app, Hu1, Hu2. }
  assert ((map_to_list m2).*2 ≡ₚ looked_up (evs1 ++ evs2)) as Hp.
  { unfold looked_up in *. by rewrite Hp2, Hp1, omap_app. }
  destruct e as [e|].
  { destruct (Hfail e m2 w2 _ Hu Hp) as (e' & w' & evs' & Heq & H).
    exists (Some e'), w', evs'. by split. }
  cbn. unfold logging. cbn. destruct (CreateChildren (PrepopulatedDirectory := PD) d m2 true w2) as [[e|] w3].
  - destruct (Hfail (StatusWrap e "Failed to create files and symbolic links") m2 w3
      ((evs1 ++ evs2) ++ [EvCreateChildren m2 (Some e)])) as (e' & w' & evs' & Heq & H).
    + unfold unlinked in *. by rewrite omap_app, Hu.
    + unfold looked_up in *. by rewrite (omap_app _ (evs1 ++ evs2)), app_nil_r.
    + exists (Some e'), w', evs'. by split.
  - eexists None, _, _. split; [done|]. split; [unfold unlinked in *; by rewrite omap_app, Hu|].
    exists m2. rewrite last_app. split; [done|].
    unfold looked_up in *. by rewrite (omap_app _ (evs1 ++ evs2)), app_nil_r.
Qed.

(** The directories and leaves that were found, and the leaves that were
    uploaded. *)
Definition listed_dirs (evs : list tree_event) : list Dir :=
  mjoin ((fun ev => match ev with EvListed (Ok (ds, _)) => ds.*2 | _ => [] end) <$> evs).
Definition listed_leaves (evs : list tree_event) : list Leaf :=
  mjoin ((fun ev => match ev with EvListed (Ok (_, ls)) => ls.*2 | _ => [] end) <$> evs).
Definition uploaded (evs : list tree_event) : list Leaf :=
  omap (fun ev => match ev with EvUploaded l _ => Some l | _ => None end) evs.
Definition listings (evs : list tree_event) : nat :=
  length (List.filter (fun ev => match ev with EvListed _ => true | _ => false end) evs).

(** An upload that did not fail, or only because the file cannot be uploaded. *)
Definition upload_ok (ev : tree_event) : Prop :=
  match ev with
  | EvUploaded _ (Some (Some e)) => status_Code e = InvalidArgument
  | EvUploaded _ None => False
  | _ => True
  end.

(** The events of a complete traversal: [n] directories were visited. *)
Definition traversal (n : nat) (evs : list tree_event) : Prop :=
  uploaded evs ≡ₚ listed_leaves evs /\ listings evs = (n + length (listed_dirs evs))%nat /\
  Forall upload_ok evs.

Lemma uploaded_app a b : uploaded (a ++ b) = uploaded a ++ uploaded b.
Proof using. apply omap_app. Qed.
Lemma listed_leaves_app a b : listed_leaves (a ++ b) = listed_leaves a ++ listed_leaves b.
Proof using. unfold listed_leaves. by rewrite fmap_app, join_app. Qed.
Lemma listed_dirs_app a b : listed_dirs (a ++ b) = listed_dirs a ++ listed_dirs b.
Proof using. unfold listed_dirs. by rewrite fmap_app, join_app. Qed.
Lemma listings_app a b : listings (a ++ b) = (listings a + listings b)%nat.
Proof using. unfold listings. by rewrite List.filter_app, length_app. Qed.

Lemma traversal_app n m a b : traversal n a -> traversal m b -> traversal (n + m) (a ++ b).
Proof using.
  intros (Ha1 & Ha2 & Ha3) (Hb1 & Hb2 & Hb3). unfold traversal.
  rewrite uploaded_app, listed_leaves_app, listed_dirs_app, listings_app, length_app, Ha1, Hb1, Ha2, Hb2.
  split; [done|]. split; [lia|]. by apply Forall_app.
Qed.

Lemma upload_leaves_log u tr ls w evs w' evs' :
  upload_leaves u tr ls (w, evs) = (Ret None, (w', evs')) ->
  exists evs1, evs' = evs ++ evs1 /\ uploaded evs1 = ls.*2 /\ listed_leaves evs1 = [] /\
    listed_dirs evs1 = [] /\ listings evs1 = 0%nat /\ Forall upload_ok evs1.
Proof using.
  revert w evs. induction ls as [|[c l] ls IH]; intros w evs; cbn.
  { intros [= <- <-]. exists []. rewrite app_nil_r. repeat split. constructor. }
  unfold logging. cbn. destruct (ApplyUploadFile (PrepopulatedDirectory := PD) l _ w) as [[[e|]|] w1]; [| |done].
  - case_decide as He; [done|]. intros Hu. destruct (IH _ _ Hu) as (evs1 & -> & H1 & H2 & H3 & H4 & H5).
    exists (EvUploaded l (Some (Some e)) :: evs1). rewrite <-app_assoc. split; [done|].
    split; [exact (f_equal (cons l) H1)|]. split; [done|]. split; [done|]. split; [done|].
    constructor; [|done].
    destruct (decide (status_Code e = InvalidArgument)) as [?|Hne]; [done|by destruct He].
  - intros Hu. destruct (IH _ _ Hu) as (evs1 & -> & H1 & H2 & H3 & H4 & H5).
    exists (EvUploaded l (Some None) :: evs1). rewrite <-app_assoc. split; [done|].
    split; [exact (f_equal (cons l) H1)|]. split; [done|]. split; [done|]. split; [done|]. by constructor.
Qed.

Lemma upload_directories_log rec tr ds w evs w' evs'
    (Hrec : forall d tr w evs w' evs', rec d tr (w, evs) = (Some (Ret None), (w', evs')) ->
       exists evs1, evs' = evs ++ evs1 /\ traversal 1 evs1) :
  upload_directories rec tr ds (w, evs) = (Some (Ret None), (w', evs')) ->
  exists evs1, evs' = evs ++ evs1 /\ traversal (length ds) evs1.
Proof using.
  revert w evs. induction ds as [|[c d] ds IH]; intros w evs; cbn.
  { intros [= <- <-]. exists []. rewrite app_nil_r. repeat split; constructor. }
  destruct (rec d (tr ++ [c]) (w, evs)) as [[[[e|]|]|] [w1 evs1]] eqn:ER; try done.
  apply Hrec in ER as (evs2 & -> & Ht). intros Hu. destruct (IH _ _ Hu) as (evs3 & -> & Ht').
  exists (evs2 ++ evs3). rewrite app_assoc. split; [done|]. by apply (traversal_app 1).
Qed.

(** Uploading leaves nothing out: when it reports no error, every directory
    that was found was visited, every leaf that was found was handed to the
    uploader exactly once, and no upload failed other than with
    InvalidArgument. *)
Theorem upload_complete k u d tr w evs w' evs' :
  uploadLocalFilesRecursive k u d tr (w, evs) = (Some (Ret None), (w', evs')) ->
  exists evs1, evs' = evs ++ evs1 /\
    uploaded evs1 ≡ₚ listed_leaves evs1 /\ listings evs1 = (1 + length (listed_dirs evs1))%nat /\
    Forall upload_ok evs1.
Proof using.
  revert d tr w evs w' evs'. induction k as [|k IH]; intros d tr w evs w' evs'; [done|].
  cbn [uploadLocalFilesRecursive]. cbn. unfold logging. cbn.
  destruct (LookupAllChildren (PrepopulatedDirectory := PD) d w) as [[[ds ls]|] w1] eqn:EL; [|done].
  match goal with |- context [upload_directories ?f tr ds ?x] =>
    destruct (upload_directories f tr ds x) as [[[[e|]|]|] [w2 evs2]] eqn:ED; try done end.
  apply upload_directories_log in ED as (evs3 & -> & Ht); [|exact IH].
  match goal with |- (let '(_, _) := ?x in _) = _ -> _ =>
    destruct x as [[[e|]|] [w3 evs4]] eqn:EU; try done end. intros [= <- <-].
  apply upload_leaves_log in EU as (evs5 & -> & H1 & H2 & H3 & H4 & H5).
  exists ([EvListed (Ok (ds, ls))] ++ evs3 ++ evs5). rewrite <-!app_assoc. split; [done|].
  destruct Ht as (Hu & Hl & Hok).
  rewrite !uploaded_app, !listed_leaves_app, !listed_dirs_app, !listings_app, !length_app.
  rewrite H1, H2, H3, H4, Hu, Hl, app_nil_r. cbn. rewrite !app_nil_r.
  split; [apply Permutation_app_comm|].
  split; [rewrite length_fmap; cbn; lia|]. constructor; [done|]. by apply Forall_app.
Qed.
End Logged.

Section StoreLogged.
Context {E : Errors} {P : PathLib} {D : DigestLib}.
Context {WS WT : Type} (S : Store WS) {OPF : OutputPathFactory WT} {PD : PrepopulatedDirectory WT}.
#[local] Existing Instance logged_store.

Lemma save_directories_log rec tr ds m sw s evs t
    (Hrec : forall d tr sw s evs t, exists r s' t', rec d tr sw ((s, evs), t) = (r, ((s', evs), t'))) :
  exists r s' t', save_directories (S := logged_store S) rec tr ds m sw ((s, evs), t)
    = (r, ((s', evs), t')).
Proof using.
  revert m sw s t. induction ds as [|[c d] ds IH]; intros m sw s t; cbn; [by eexists _, _, _|].
  destruct (Hrec d (tr ++ [c]) sw s evs t) as ([[[[md|]|]|] sw1] & s1 & t1 & ->);
    try by eexists _, _, _.
  unfold on_store. cbn. unfold logging. cbn.
  destruct (sw_WriteDirectory (Store := S) md sw1 s1) as [[[reg|] sw2] s2]; cbn; rewrite app_nil_r;
    [apply IH|by eexists _, _, _].
Qed.

Lemma saveDirectoryRecursive_log k d tr sw s evs t :
  exists r s' t', saveDirectoryRecursive (S := logged_store S) k d tr sw ((s, evs), t)
    = (r, ((s', evs), t')).
Proof using.
  revert d tr sw s evs t. induction k as [|k IH]; intros d tr sw s evs t; [by eexists _, _, _|].
  cbn [saveDirectoryRecursive]. unfold on_tree at 1. cbn.
  destruct (LookupAllChildren d t) as [[[ds ls]|] t1]; [|by eexists _, _, _]. cbn.
  destruct (save_directories_log (saveDirectoryRecursive (S := logged_store S) k) tr ds empty_Directory
    sw s evs t1 IH) as ([[[[md|]|]|] sw1] & s1 & t2 & ->); try by eexists _, _, _.
  unfold on_tree. cbn. destruct (save_leaves _ _ _ _) as [[] ?]; by eexists _, _, _.
Qed.

(** C34. Saving an output path releases its writer: every writer that was obtained
    is given back by exactly one call to [Finalize] or [Close], whether or not an
    error occurs. *)
Theorem saveOutputPath_releases k op s t r s' evs t' :
  saveOutputPath (S := logged_store S) k op ((s, []), t) = (Some (Ret r), ((s', evs), t')) ->
  evs = [] \/ evs = [EvOpenWriter S; EvFinalizeWriter S] \/ evs = [EvOpenWriter S; EvCloseWriter S].
Proof using.
  unfold saveOutputPath, on_store at 1. cbn. unfold logging. cbn.
  destruct (store_Write (Store := S) _ s) as [[sw|] s1]; [|intros [= <- <- <-]; by left]. cbn.
  destruct (saveDirectoryRecursive_log k (OutputPath_Dir (pop_OutputPath op)) [] sw s1 [EvOpenWriter S] t)
    as ([[[[m|e]|]|] sw1] & s2 & t1 & ->); try done; unfold on_store; cbn.
  - destruct (sw_Finalize (Store := S) _ sw1 s2) as [r1 s3]. cbn. intros [= -> <- <- <-]. by right; left.
  - destruct (sw_Close (Store := S) sw1 s2) as [[r1|] s3]; [|done]. cbn. intros [= <- <- <- <-]. by right; right.
Qed.

Lemma restore_directories_log rec rd d tr ns s evs t
    (Hrec : forall rd m d tr s evs t, exists r s' t', rec rd m d tr ((s, evs), t) = (r, ((s', evs), t'))) :
  exists r s' t', restore_directories (S := logged_store S) rec rd d tr ns ((s, evs), t)
    = (r, ((s', evs), t')).
Proof using.
  revert s t. induction ns as [|n ns IH]; intros s t; cbn; [by eexists _, _, _|].
  destruct (NewComponent _); [|by eexists _, _, _]. unfold on_store. cbn. unfold logging. cbn.
  destruct (sr_ReadDirectory (Store := S) rd _ s) as [[[rd' md]|] s1]; cbn; rewrite app_nil_r;
    [|by eexists _, _, _].
  unfold on_tree. cbn. destruct (CreateAndEnterPrepopulatedDirectory d _ t) as [[d'|] t1]; cbn;
    [|by eexists _, _, _].
  destruct (Hrec rd' md d' (tr ++ [c]) s1 evs t1) as ([[e|]|] & s2 & t2 & ->); [by eexists _, _, _|apply IH|].
  by eexists _, _, _.
Qed.

Lemma restoreDirectoryRecursive_log k sr rd m d tr s evs t :
  exists r s' t', restoreDirectoryRecursive (S := logged_store S) k sr rd m d tr ((s, evs), t)
    = (r, ((s', evs), t')).
Proof using.
  revert rd m d tr s evs t. induction k as [|k IH]; intros rd m d tr s evs t; [by eexists _, _, _|].
  cbn [restoreDirectoryRecursive].
  destruct (restore_directories_log (restoreDirectoryRecursive (S := logged_store S) k sr) rd d tr
    (Directories m) s evs t IH) as ([[e|]|] & s1 & t1 & ->); try by eexists _, _, _.
  unfold on_tree. cbn. destruct (restore_leaves _ _ _ _ _). by eexists _, _, _.
Qed.

(** Starting the first build of an output path closes the reader of its state
    exactly once, and only after the state was restored or found unusable. Errors
    do not prevent the build from starting: the output path always has a creation
    time. *)
Theorem StartInitialBuild_closes k c cff df s t r s' evs t' :
  StartInitialBuild (S := logged_store S) k c cff df ((s, []), t) = (Some (Ret r), ((s', evs), t')) ->
  pop_outputBaseID r = c /\
  (evs = [] \/ exists rc, evs = [EvOpenReader S rc; EvCloseReader S rc]).
Proof using.
  unfold StartInitialBuild, load_state, on_store, on_tree, log_error. cbn. unfold logging. cbn.
  destruct (opf_StartInitialBuild c cff df t) as [[[d|]|] t1]; [|done|done]. cbn.
  destruct (store_Read (Store := S) c s) as [[[[rc root]|e]|msg] s1]; [| |done]; cbn.
  - destruct (Contents root) as [m|]; cbn.
    + destruct (restoreDirectoryRecursive_log k {| sr_casFileFactory := cff; sr_digestFunction := df |}
        (rc_Reader rc) m (OutputPath_Dir d) [] s1 [EvOpenReader S rc] t1) as ([[e|]|] & s2 & t2 & ->); [| |done].
      all: cbn; destruct (rc_Close (Store := S) rc s2) as [e1 s3]; cbn.
      * unfold on_tree. cbn. destruct (Log _ t2) as [[] t3]. cbn.
        destruct (InitialCreationTime root); [|destruct (Now t3)];
          intros [= <- <- <- <-]; (split; [done|]); right; by exists rc.
      * destruct (InitialCreationTime root); [|destruct (Now t2)];
          intros [= <- <- <- <-]; (split; [done|]); right; by exists rc.
    + destruct (rc_Close (Store := S) rc s1) as [e1 s3]; cbn. unfold on_tree. cbn. destruct (Log _ t1) as [[] t3]. cbn.
      destruct (Now t3). intros [= <- <- <- <-]. split; [done|]. right. by exists rc.
  - unfold on_tree. cbn. destruct (Log _ t1) as [[] t3]. cbn. destruct (Now t3).
    intros [= <- <- <- <-]. split; [done|]. by left.
Qed.
End StoreLogged.

