(* ===== verification/OutputPathStack.v ===== *)
(** * The stack of output path factories

    [cmd/bb_clientd/main.go] decorates the in-memory output path factory with the
    one that uploads local files and then with the one that persists output paths.
    Both decorators are [OutputPathFactory]s themselves, whose methods call those of
    the factory that they were given, so that the service of [OutputService] runs on
    top of any of them. *)

From S2P Require Import Prelude GoLib Errors GoIo StateFile Virtual Examples OutputPathFactory.
From S2P Require Import OutputService Store OutputPath OutputPathRoundTrip OutputPathResources.
Local Open Scope Z_scope.

(** ** [NewLocalFileUploadingOutputPathFactory]

    The factory and its output paths embed the ones that they decorate: methods that
    they do not define are those of the embedded ones. *)

Section Uploading.
Context {E : Errors} {P : PathLib} {D : DigestLib}.
Context {WT : Type} (OPF : OutputPathFactory WT) (PD : PrepopulatedDirectory WT).
Context (flusher : st WT (option err)) (fuel : nat).

Definition NewLocalFileUploadingOutputPathFactory : OutputPathFactory WT := {|
  OutputPath := localFileUploadingOutputPath;
  CASFileFactory := CASFileFactory;
  opf_StartInitialBuild := localFileUploading_StartInitialBuild;
  opf_Clean := opf_Clean;
  op_RemoveAllChildren op := op_RemoveAllChildren (lop_OutputPath op);
  op_FinalizeBuild := localFileUploadingOutputPath_FinalizeBuild flusher fuel;
  NewCASFileFactory := NewCASFileFactory;
|}.

Definition uploading_directory : PrepopulatedDirectory (OPF := NewLocalFileUploadingOutputPathFactory) WT :=
  @Build_PrepopulatedDirectory E P D WT NewLocalFileUploadingOutputPathFactory
    Dir Leaf (fun op => OutputPath_Dir (lop_OutputPath op))
    CreateAndEnterPrepopulatedDirectory LookupAllChildren CreateChildren Unlink
    (LookupFile (OPF := OPF)) LookupSymlink
    ApplyAppendOutputPathPersistencyDirectoryNode ApplyUploadFile Log Now.

Definition uploading_laws (DL : DirectoryLaws PD) : DirectoryLaws uploading_directory :=
  @Build_DirectoryLaws E P D WT NewLocalFileUploadingOutputPathFactory uploading_directory
    (pd_path (PD := PD)) (pd_entry (PD := PD)) (leaf_info (PD := PD)) (valid_target (PD := PD))
    (pd_tree (PD := PD)) (pd_CreateAndEnter (PD := PD)) (pd_CreateChildren (PD := PD))
    (pd_LookupAllChildren (PD := PD)) (pd_LookupAllChildren_error (PD := PD)) (pd_LookupFile (PD := PD)) (pd_LookupSymlink (PD := PD))
    (pd_valid_target (PD := PD)) (pd_ApplyAppend (PD := PD)).
End Uploading.

(** ** [NewPersistentOutputPathFactory] *)

Section Persistent.
Context {E : Errors} {P : PathLib} {D : DigestLib}.
Context {WS WT : Type} (S : Store WS) (OPF : OutputPathFactory WT) (PD : PrepopulatedDirectory WT).
Context (fuel : nat).

Definition NewPersistentOutputPathFactory : OutputPathFactory (WS * WT) := {|
  OutputPath := persistentOutputPath;
  CASFileFactory := CASFileFactory;
  opf_StartInitialBuild := StartInitialBuild fuel;
  opf_Clean := Clean;
  op_RemoveAllChildren op forbidNewChildren := RemoveAllChildren forbidNewChildren op;
  op_FinalizeBuild op digestFunction := OutputPath.FinalizeBuild fuel digestFunction op;
  NewCASFileFactory := on_tree NewCASFileFactory;
|}.
End Persistent.

(** ** The store that only keeps state files of the current epoch

    It promises what the store that it decorates promises, as long as asking for the
    time does not change state files. *)

Definition maximumAgeStore_laws {E : Errors} {P : PathLib} {TL : TimestampLib} {W : Type} {S : Store W}
    (SL : StoreLaws S) (clock_Now : st W Z) (age : Z)
    (Hclock : forall sr w l, sl_reading sr w l -> sl_reading sr (clock_Now w).2 l) :
  StoreLaws (NewMaximumAgeStore S clock_Now age).
Proof.
  refine (@Build_StoreLaws E P W (NewMaximumAgeStore S clock_Now age) (sl_writing (S := S))
    (sl_saved (S := S)) (sl_reading (S := S)) sl_fits (sl_Write (S := S)) (sl_WriteDirectory (S := S))
    (sl_Finalize (S := S)) _ (sl_ReadDirectory (S := S)) (sl_absent (S := S)) (sl_Clean (S := S)) _).
  2: { intros w c (e & w' & HR)%sl_Read_absent. cbn. unfold maximumAgeStore_Read. rewrite HR. by eexists _, _. }
  intros w c root l rc root' w' Hsaved. cbn. unfold maximumAgeStore_Read.
  destruct (store_Read (Store := S) c w) as [[[[rc1 root1]|]|] w1] eqn:HR; try done.
  destruct (sl_Read _ _ _ _ _ _ _ Hsaved HR) as [-> Hrd].
  destruct (CheckValid _); [by destruct (rc_Close _ _)|]. destruct (timeToEpoch _ _); [|done].
  pose proof (Hclock _ _ _ Hrd) as Hrd'. destruct (clock_Now w1) as [now w2].
  destruct (timeToEpoch _ _); [|done]. case_bool_decide; [|by destruct (rc_Close _ _)].
  by intros [= <- <- <-].
Defined.

(** ** Uploading leaves no local files behind *)

(** What is left of a node after the build ended and the first build of the next
    process started. Local files have been uploaded in the meantime. *)
Definition survives {E : Errors} {D : DigestLib} (before after : option node) : Prop :=
  match before with
  | Some (NLeaf LLocal) => exists dg x, after = Some (NLeaf (LFile dg x))
  | None | Some (NLeaf LSpecial) => after = None
  | _ => after = before
  end.

Section Uploads.
Context {E : Errors} {P : PathLib} {D : DigestLib}.
Context {W : Type} {OPF : OutputPathFactory W} {PD : PrepopulatedDirectory W} {DL : DirectoryLaws PD}.
Context {UL : UploadLaws PD}.

Definition upgrades (df : DigestFunction) (w w' : W) : Prop :=
  (forall p, pd_entry w' p = pd_entry w p) /\
  (forall l, leaf_info w' l = leaf_info w l \/
     leaf_info w l = LLocal /\ exists dg x, leaf_info w' l = LFile dg x /\
       NewDigestFromProto df (Some (GetProto dg)) = Ok dg).

#[global] Instance upgrades_preorder df : PreOrder (upgrades df).
Proof using.
  split.
  - intros w. split; [done|by left].
  - intros w1 w2 w3 [He Hi] [He' Hi']. split; [congruence|]. intros l.
    destruct (Hi l) as [Hl|(Hl & dg & x & Hl2 & Hdg)], (Hi' l) as [Hl'|(Hl' & Hl3)].
    + left. congruence.
    + right. split; [congruence|done].
    + right. split; [done|]. exists dg, x. split; [congruence|done].
    + congruence.
Qed.

Lemma pd_same_upgrades df w w' : pd_same w w' -> upgrades df w w'.
Proof using. intros [He Hi]. split; [done|]. intros l. by left. Qed.

(** There are no local files below [p]. *)
Definition no_local (w : W) (p : list Component) : Prop :=
  forall q leaf, q <> [] -> pd_entry w (p ++ q) = Some (ELeaf leaf) -> leaf_info w leaf <> LLocal.

Lemma upgrades_not_local df w w' l : upgrades df w w' -> leaf_info w l <> LLocal -> leaf_info w' l <> LLocal.
Proof using. intros [_ Hi] Hl. destruct (Hi l) as [->|[? _]]; done. Qed.

Lemma upgrades_no_local df w w' p : upgrades df w w' -> no_local w p -> no_local w' p.
Proof using.
  intros Hu Hn q leaf Hq He. rewrite (proj1 Hu) in He. by eapply upgrades_not_local, Hn.
Qed.

Lemma upload_leaves_spec u tr ls w w' :
  upload_leaves u tr ls w = (Ret None, w') ->
  upgrades (u_digestFunction u) w w' /\ Forall (fun l => leaf_info w' l <> LLocal) ls.*2.
Proof using UL.
  revert w. induction ls as [|[c l] ls IH]; intros w; cbn.
  { intros [= <-]. split; [done|constructor]. }
  destruct (ApplyUploadFile l _ w) as [[r|] w1] eqn:HA; [|by destruct (ApplyUploadFile l _ w)].
  apply ul_ApplyUploadFile in HA as (He & Hi & Hr). intros Hup.
  assert (upload_leaves u tr ls w1 = (Ret None, w')) as Hup' by (destruct r; [by case_decide|done]).
  destruct (IH w1 Hup') as [Hu Hls]. split; [by etrans; [by split|]|]. constructor; [|done].
  eapply upgrades_not_local; [done|]. intros (e & -> & Hne)%Hr. by rewrite decide_True in Hup.
Qed.

Lemma upload_directories_spec df p tr rec
    (Hrec : forall d tr w w', rec d tr w = (Some (Ret None), w') ->
       upgrades df w w' /\ no_local w' (pd_path d)) ds w w' :
  (forall c d, (c, d) ∈ ds -> pd_path d = p ++ [c]) ->
  upload_directories rec tr ds w = (Some (Ret None), w') ->
  upgrades df w w' /\ Forall (fun c => no_local w' (p ++ [c])) ds.*1.
Proof using.
  revert w. induction ds as [|[c d] ds IH]; intros w Hp; cbn.
  { intros [= <-]. split; [done|constructor]. }
  destruct (rec d (tr ++ [c]) w) as [[[[e|]|]|] w1] eqn:HR; try done.
  apply Hrec in HR as [Hu Hn]. intros Hup.
  destruct (IH w1) as [Hu' Hns]; [intros; apply Hp; by right|done|].
  split; [by etrans|]. constructor; [|done]. rewrite <-(Hp c d) by by left.
  by eapply upgrades_no_local.
Qed.

Lemma uploadLocalFilesRecursive_spec k u d tr w w' :
  uploadLocalFilesRecursive k u d tr w = (Some (Ret None), w') ->
  upgrades (u_digestFunction u) w w' /\ no_local w' (pd_path d).
Proof using UL.
  revert d tr w w'. induction k as [|k IH]; intros d tr w w'; [done|]. cbn.
  destruct (LookupAllChildren d w) as [[[ds ls]|] w1] eqn:HL; [|done].
  apply pd_LookupAllChildren in HL as (Hs & _ & _ & Hp & Hds & Hls).
  destruct (upload_directories _ tr ds w1) as [[[[e|]|]|] w2] eqn:HD; try done.
  apply (upload_directories_spec (u_digestFunction u) (pd_path d)) in HD as [Hu Hn]; [|intros *; apply IH|done].
  destruct (upload_leaves u tr ls w2) as [[[e|]|] w3] eqn:HU; try done.
  intros [= <-]. apply upload_leaves_spec in HU as [Hu' Hl].
  assert (upgrades (u_digestFunction u) w w3) as Hu3
    by (etrans; [by apply pd_same_upgrades|]; by etrans).
  split; [done|]. intros [|c q] leaf Hq He; [done|]. destruct q as [|x q].
  - rewrite (proj1 Hu3) in He. apply Hls in He. rewrite Forall_forall in Hl. apply Hl.
    change leaf with ((c, leaf).2). by apply list_elem_of_fmap_2.
  - assert (pd_entry w (pd_path d ++ [c]) = Some EDir) as Hc.
    { rewrite (proj1 Hu3) in He. by eapply pd_prefix. }
    apply Hds in Hc. rewrite Forall_forall in Hn. specialize (Hn c Hc).
    eapply (upgrades_no_local _ _ _ _ Hu' Hn (x :: q)); [done|]. by rewrite <-app_assoc.
Qed.
Lemma keep_survives df w w' p q :
  upgrades df w w' -> no_local w' p -> q <> [] -> (forall c, q = [c] -> skipped [] c = false) ->
  survives (pd_node w (p ++ q)) (keep (pd_node w') p [] q).
Proof using.
  intros [He Hi] Hn Hq Hsk. specialize (Hn q). unfold keep, pd_node. rewrite He in *.
  destruct (pd_entry w (p ++ q)) as [[|l]|]; cbn; [done| |done]. specialize (Hn l Hq eq_refl).
  assert (forall i : leafinfo, match q with [c] => if skipped [] c then None else Some (NLeaf i)
    | _ => Some (NLeaf i) end = Some (NLeaf i)) as Hkeep.
  { intros i. destruct q as [|c [|]]; [done| |done]. by rewrite (Hsk c eq_refl). }
  destruct (Hi l) as [Heq|(Heq & dg & x & Heq' & _)].
  - rewrite Heq in *. destruct (leaf_info w l); cbn; [by apply Hkeep..|done|done].
  - rewrite Heq, Heq'. cbn. exists dg, x. by apply Hkeep.
Qed.

Lemma upgrades_digests df w w' :
  upgrades df w w' ->
  (forall r dg x, pd_node w r = Some (NLeaf (LFile dg x)) -> NewDigestFromProto df (Some (GetProto dg)) = Ok dg) ->
  forall r dg x, pd_node w' r = Some (NLeaf (LFile dg x)) -> NewDigestFromProto df (Some (GetProto dg)) = Ok dg.
Proof using.
  intros [He Hi] Hw r dg x (l & Hl & Hx)%pd_node_leaf. rewrite He in Hl.
  destruct (Hi l) as [Heq|(_ & dg' & x' & Heq & Hdg)]; [|congruence].
  apply (Hw r dg x), pd_node_leaf. exists l. split; [done|congruence].
Qed.
End Uploads.

(** ** Output paths at the bottom of the stack

    Output paths that exist only in memory are empty when they are created, and
    nothing happens to them when a build ends. *)
Class OutputPathLaws {E : Errors} {P : PathLib} {D : DigestLib} {W : Type} {OPF : OutputPathFactory W}
    (PD : PrepopulatedDirectory W) {DL : DirectoryLaws PD} : Prop := {
  opl_StartInitialBuild c cff df t : exists d t',
    opf_StartInitialBuild c cff df t = (Some (Ret d), t') /\ empty_at t' (pd_path (OutputPath_Dir d));
  opl_FinalizeBuild op df t : exists t', op_FinalizeBuild op df t = (Some (Ret tt), t') /\ pd_same t t';
  (** Logging and asking for the time leave output paths alone. *)
  opl_Log e t : pd_same t (Log e t).2;
  opl_Now t : pd_same t (Now t).2;
}.

Section Stack.
Context {E : Errors} {P : PathLib} {PL : PathLaws P} {D : DigestLib}.
Context {WS WT : Type} {S : Store WS} {SL : StoreLaws S}.
Context {OPF : OutputPathFactory WT} {PD : PrepopulatedDirectory WT} {DL : DirectoryLaws PD}.
Context {UL : UploadLaws PD} {OL : OutputPathLaws PD}.
Context (flusher : st WT (option err)) (Hflusher : forall w r w', flusher w = (r, w') -> pd_same w w').
Context (k : nat).

#[local] Instance uploading : OutputPathFactory WT := NewLocalFileUploadingOutputPathFactory OPF PD flusher k.
#[local] Instance uploads : PrepopulatedDirectory (OPF := uploading) WT := uploading_directory OPF PD flusher k.
Definition uploads_laws : DirectoryLaws uploads := uploading_laws OPF PD flusher k DL.
#[local] Instance stack : OutputPathFactory (WS * WT) := NewPersistentOutputPathFactory S uploading uploads k.

(** Where the contents of an output path are. *)
Definition contents_path (op : OutputPath (OutputPathFactory := stack)) : list Component :=
  pd_path (PD := PD) (OutputPath_Dir (lop_OutputPath (pop_OutputPath op))).

(** The steps at the end of a build, none of which gives an error. The messages that
    are saved are within the limits of the store. *)
Definition finalized (df : DigestFunction) (op : OutputPath (OutputPathFactory := stack)) (s s1 : WS * WT) : Prop :=
  let lop := pop_OutputPath (OPF := uploading) op in
  exists t1 t2 t3,
    op_FinalizeBuild (OutputPathFactory := OPF) (lop_OutputPath lop) df s.2 = (Some (Ret tt), t1) /\
    uploadLocalFilesRecursive k {| u_digestFunction := df; u_outputBaseID := lop_outputBaseID lop |}
      (OutputPath_Dir (lop_OutputPath lop)) [] t1 = (Some (Ret None), t2) /\
    flusher t2 = (None, t3) /\
    saveOutputPath (OPF := uploading) k op (s.1, t3) = (Some (Ret None), s1) /\
    saved_fits (OPF := uploading) k op (s.1, t3).

Lemma finalized_FinalizeBuild df op s s1 :
  finalized df op s s1 -> op_FinalizeBuild (OutputPathFactory := stack) op df s = (Some (Ret tt), s1).
Proof using.
  intros (t1 & t2 & t3 & Hfin & Hup & Hflush & Hsave & _).
  cbn. unfold OutputPath.FinalizeBuild, on_tree at 1. cbn.
  unfold localFileUploadingOutputPath_FinalizeBuild. rewrite Hfin, Hup, Hflush. cbn. by rewrite Hsave.
Qed.

Lemma finalized_upgrades df op s s1 : finalized df op s s1 ->
  exists t3, upgrades (PD := PD) df s.2 t3 /\ no_local (PD := PD) t3 (contents_path op) /\
    saveOutputPath (OPF := uploading) k op (s.1, t3) = (Some (Ret None), s1) /\
    saved_fits (OPF := uploading) k op (s.1, t3).
Proof using UL OL Hflusher.
  intros (t1 & t2 & t3 & Hfin & Hup & Hflush & Hsave & Hfits). exists t3.
  destruct (opl_FinalizeBuild (lop_OutputPath (pop_OutputPath (OPF := uploading) op)) df s.2) as (t1' & Hfin' & Hs1).
  rewrite Hfin in Hfin'. injection Hfin' as <-. apply uploadLocalFilesRecursive_spec in Hup as [Hu Hn].
  apply Hflusher in Hflush. split_and!; [|by eapply (upgrades_no_local df), Hn; apply pd_same_upgrades|done..].
  etrans; [by apply pd_same_upgrades|]. etrans; [done|]. by apply pd_same_upgrades.
Qed.

(** What the first build of the next process finds, if the state file can be read:
    [t] is the file system of that process, and [t'] what it becomes. *)
Definition restarted (op op' : OutputPath (OutputPathFactory := stack)) (t t' : WT) : Prop :=
  pop_initialCreationTime op' = pop_initialCreationTime op /\
  forall q, q <> [] -> (forall c, q = [c] -> skipped [] c = false) ->
    survives (pd_node (PD := PD) t (contents_path op ++ q)) (pd_node (PD := PD) t' (contents_path op' ++ q)).

Lemma finalized_restarts df op s s1 :
  finalized df op s s1 ->
  (forall r dg x, pd_node (PD := PD) s.2 r = Some (NLeaf (LFile dg x)) ->
     NewDigestFromProto df (Some (GetProto dg)) = Ok dg) ->
  forall cff t rc root' ws,
    store_Read (pop_outputBaseID op) s1.1 = (Ret (Ok (rc, root')), ws) ->
    exists op' s3,
      opf_StartInitialBuild (OutputPathFactory := stack) (pop_outputBaseID op) cff df (s1.1, t) =
        (Some (Ret op'), s3) /\
      pop_outputBaseID op' = pop_outputBaseID op /\ restarted op op' s.2 s3.2.
Proof using PL SL UL OL Hflusher.
  intros Hfin Hdig. destruct (finalized_upgrades df op s s1 Hfin) as (t3 & Hu & Hn & Hsave & Hfits).
  destruct (saveOutputPath_saved (OPF := uploading) (DL := uploads_laws) k op (s.1, t3) s1 Hsave Hfits)
    as (l & m & Hsaved & Henc).
  intros cff t rc root' ws HR.
  destruct (opl_StartInitialBuild (PD := PD) (pop_outputBaseID op) cff df t) as (d & t' & Hstart & Hempty).
  set (lop := {| lop_OutputPath := d; lop_outputBaseID := pop_outputBaseID op |}).
  destruct (StartInitialBuild_restores (OPF := uploading) (DL := uploads_laws) k (pop_outputBaseID op) cff df
    t3 (contents_path op) l m (pop_initialCreationTime op) s1.1 t lop t' rc root' ws Hsaved Henc HR)
    as (s3 & Heq & Hres & _).
  { exact (upgrades_digests df s.2 t3 Hu Hdig). }
  { cbn. unfold localFileUploading_StartInitialBuild. by rewrite (run_fmap_ret _ _ _ _ _ Hstart). }
  { exact Hempty. }
  eexists _, s3. split; [exact Heq|]. split; [done|]. split; [done|]. intros q Hq Hsk.
  specialize (Hres q Hq). change (pd_node (PD := PD) s3.2 (pd_path (PD := PD) (OutputPath_Dir d) ++ q)
    = keep (pd_node (PD := PD) t3) (contents_path op) [] q) in Hres.
  unfold contents_path at 2. cbn. rewrite Hres. by eapply keep_survives.
Qed.

(** *** The service on top of the stack *)

Context {ScopeWalkerFactory : Type}.
Abbreviation directory := (BazelOutputServiceDirectory (OPF := stack) (ScopeWalkerFactory := ScopeWalkerFactory)).

(** Output paths are saved under the name that they have in the service. *)
Lemma initial_root_outputBaseID c df s (root : CASFileFactory * OutputPath (OutputPathFactory := stack)) :
  (initial_root (OPF := stack) c df s).1 = Some (Ret root) -> pop_outputBaseID root.2 = c.
Proof using.
  unfold initial_root, fmap, run_fmap. destruct (NewCASFileFactory (W := WS * WT) s) as [cff s1].
  destruct (opf_StartInitialBuild c cff df s1) as [[[op|]|] s2] eqn:Hop; try done.
  intros [= <-]. revert Hop. cbn. unfold StartInitialBuild.
  destruct (on_tree _ s1) as [[[d|]|] s3]; try done.
  destruct (load_state _ _ _ _ _ _) as [[[[t|]|]|] s4]; try done.
  - by intros [= <- <-].
  - destruct (on_tree Now s4). by intros [= <- <-].
Qed.

(** C3. Builds survive restarts of the whole program. Suppose that any
    requests were made to a service that persists output paths and uploads local
    files, and that [FinalizeBuild] is called for a running build without an error
    occurring. Then, if the state file can be read, [StartBuild] for the same output
    base by a new process yields an output path under the same name with the same
    directories, symbolic links and files, at all depths: no local file is lost, as
    the local files were uploaded before the output path was saved. Only special
    files and, at the top level, the two status files are gone. *)
Theorem service_restart n (sys : system (OPF := stack) (ScopeWalkerFactory := ScopeWalkerFactory)) b i bs st s s1 :
  nsteps step n init_system sys -> Z.of_nat n < 2 ^ 64 ->
  getOutputPathAndBuildState b (sys_dir sys) = Ok (i, Some bs) -> heap (sys_dir sys) !! i = Some st ->
  finalized (digestFunction bs) (rootDirectory st) s s1 ->
  (forall r dg x, pd_node (PD := PD) s.2 r = Some (NLeaf (LFile dg x)) ->
     NewDigestFromProto (digestFunction bs) (Some (GetProto dg)) = Ok dg) ->
  (exists d', OutputService.FinalizeBuild b (sys_dir sys) s = (Some (Ret d'), s1) /\ buildIDs d' !! b = None) /\
  forall b' swf t rc root' ws,
    store_Read (OutputService.outputBaseID st) s1.1 = (Ret (Ok (rc, root')), ws) ->
    exists j (d : directory) op s3,
      StartBuild_locked (OutputService.outputBaseID st) b' (digestFunction bs) swf
        NewBazelOutputServiceDirectory (s1.1, t) = (Some (Ret (j, d)), s3) /\
      VirtualLookup (OutputService.outputBaseID st) d = VOk op /\ restarted (rootDirectory st) op s.2 s3.2.
Proof using PL SL UL OL Hflusher.
  intros Hsteps Hn Hget Hst Hfin Hdig.
  destruct (reachable_implements n sys Hsteps Hn) as (a & Hrtc & Himp & _).
  unfold getOutputPathAndBuildState in Hget. destruct (buildIDs (sys_dir sys) !! b) as [i'|] eqn:Hb; [|done].
  injection Hget as -> Hbs. rewrite Hst in Hbs. cbn in Hbs.
  assert (pop_outputBaseID (rootDirectory st) = OutputService.outputBaseID st) as Hid.
  { pose proof (reachable_roots (OPF := stack) (fun c op => pop_outputBaseID (OPF := uploading) op = c) a
      initial_root_outputBaseID Hrtc) as Hroots.
    destruct Himp as (l & Hwf & Hents & _). rewrite Hents, Forall_forall in Hroots.
    apply (Hroots (entry_of st)), list_elem_of_omap. exists i. split; [by eapply wf_builds|].
    unfold ent. by rewrite Hst. }
  split.
  - pose proof (FinalizeBuild_implements _ _ Himp b s) as Hspec.
    assert (exists d', OutputService.FinalizeBuild b (sys_dir sys) s = (Some (Ret d'), s1)) as [d' Heq].
    { unfold OutputService.FinalizeBuild. rewrite Hb, Hst, Hbs. eexists.
      exact (run_fmap_ret _ _ _ _ _ (finalized_FinalizeBuild _ _ _ _ Hfin)). }
    rewrite Heq in Hspec. apply run_rel_Ret in Hspec as (a' & _ & _ & Hb'). by exists d'.
  - intros b' swf t rc root' ws HR. rewrite <-Hid in *.
    destruct (NewCASFileFactory (OutputPathFactory := OPF) t) as [cff t0] eqn:Hcff.
    destruct (finalized_restarts _ _ _ _ Hfin Hdig cff t0 rc root' ws HR) as (op & s3 & Hop & _ & Hres).
    destruct (first_StartBuild (OPF := stack) (pop_outputBaseID (rootDirectory st)) b' (digestFunction bs) swf (s1.1, t)
      (s1.1, t0) s3 cff op) as (j & d & Hsb & Hlook & _); [|exact Hop|].
    { cbn. unfold on_tree. cbn. by rewrite Hcff. }
    by exists j, d, op, s3.
Qed.

(** *** Cleaning *)

Lemma StartInitialBuild_absent c cff df s :
  sl_absent s.1 c ->
  exists op s', opf_StartInitialBuild (OutputPathFactory := stack) c cff df s = (Some (Ret op), s') /\
    forall q, q <> [] -> pd_entry (PD := PD) s'.2 (contents_path op ++ q) = None.
Proof using OL.
  intros Ha. destruct (opl_StartInitialBuild (PD := PD) c cff df s.2) as (d & t1 & Hstart & _ & Hempty).
  destruct (sl_Read_absent _ _ Ha) as (e & s1 & HR).
  cbn. unfold StartInitialBuild, load_state, log_error, on_tree, on_store. cbn.
  unfold localFileUploading_StartInitialBuild. rewrite (run_fmap_ret _ _ _ _ _ Hstart). cbn. rewrite HR. cbn.
  match goal with |- context [Log ?x t1] => pose proof (opl_Log (PD := PD) x t1) as [Hl _];
    destruct (Log x t1) as [[] t2] end.
  cbn in *. pose proof (opl_Now (PD := PD) t2) as [Hn _]. destruct (Now t2) as [tm t3]. cbn in *.
  eexists _, _. split; [done|]. intros q Hq. cbn. rewrite Hn, Hl. by apply pd_node_None, Hempty.
Qed.

(** C18. An output path that was cleaned successfully stays empty: whether it was
    removed from the service along with its contents, or only its state was left
    behind by an earlier process, the next initial build for the output base starts
    with an empty output path, and nothing is restored. *)
Theorem cleaned_stays_empty c (op : OutputPath (OutputPathFactory := stack)) s s1 :
  opf_Clean (OutputPathFactory := stack) c s = (None, s1) \/
  pop_outputBaseID op = c /\ op_RemoveAllChildren (OutputPathFactory := stack) op true s = (None, s1) ->
  forall cff df t, exists op' s2,
    opf_StartInitialBuild (OutputPathFactory := stack) c cff df (s1.1, t) = (Some (Ret op'), s2) /\
    forall q, q <> [] -> pd_entry (PD := PD) s2.2 (contents_path op' ++ q) = None.
Proof using SL OL.
  intros Hclean cff df t. apply StartInitialBuild_absent. cbn [fst].
  destruct Hclean as [Hc|[<- Hr]].
  - revert Hc. cbn. unfold Clean, on_tree, on_store. cbn. destruct (opf_Clean _ _) as [[e|] t1]; [done|]. cbn.
    destruct (store_Clean c s.1) as [[e|] ws] eqn:HC; [done|]. intros [= <-]. by eapply sl_Clean.
  - revert Hr. cbn. unfold RemoveAllChildren, on_tree, on_store. cbn.
    destruct (op_RemoveAllChildren _ _ _) as [[e|] t1]; [done|]. cbn.
    destruct (store_Clean _ s.1) as [[e|] ws] eqn:HC; [done|]. intros [= <-]. by eapply sl_Clean.
Qed.

(** C19. The end of a build terminates: one level of recursion for every level of
    directories in the output path is enough for uploading and saving it, whatever
    errors occur. *)
Theorem stack_FinalizeBuild_terminates df (op : OutputPath (OutputPathFactory := stack)) s :
  shallow (PD := PD) k s.2 (contents_path op) ->
  exists r s1, op_FinalizeBuild (OutputPathFactory := stack) op df s = (Some r, s1).
Proof using UL OL Hflusher.
  intros Hk. cbn. unfold OutputPath.FinalizeBuild, on_tree. cbn.
  unfold localFileUploadingOutputPath_FinalizeBuild.
  destruct (opl_FinalizeBuild (PD := PD) (lop_OutputPath (pop_OutputPath (OPF := uploading) op)) df s.2)
    as (t1 & -> & Hs1%pd_same_entries).
  match goal with |- context [uploadLocalFilesRecursive k ?u ?d [] t1] =>
    destruct (uploadLocalFilesRecursive_terminates k u d [] t1) as (r & t2 & -> & Hs2);
      [by eapply shallow_same|] end.
  destruct r as [e|msg]; [|by eexists _, _]. specialize (Hs2 e eq_refl).
  destruct (flusher t2) as [e2 t3] eqn:Hf. apply Hflusher in Hf as Hs3%pd_same_entries.
  assert (forall t4, entries_same (PD := PD) t3 t4 -> exists r s1,
    match saveOutputPath (OPF := uploading) (PD := uploads) k op (s.1, t4) with
    | (Some (Ret (Some e)), s) =>
        let '(_, s) := log_error (OPF := uploading) (PD := uploads) (StatusWrapf e
          "Failed to save the contents of output path %#v" [FStr (Component_String (pop_outputBaseID op))]) s in
        (Some (Ret tt), s)
    | (Some (Ret None), s) => (Some (Ret tt), s)
    | (Some (Panic msg), s) => (Some (Panic msg), s)
    | (None, s) => (None, s)
    end = (Some r, s1)) as Hsave.
  { intros t4 Hs4. destruct (saveOutputPath_terminates (OPF := uploading) (DL := uploads_laws) k op (s.1, t4))
      as ([[e'|]|msg] & s' & ->).
    - refine (shallow_same (PD := PD) k s.2 t4 (contents_path op) _ Hk).
      etrans; [done|]. etrans; [done|]. by etrans.
    - destruct (log_error _ _). by eexists _, _.
    - by eexists _, _.
    - by eexists _, _. }
  destruct e as [e|], e2 as [e2|]; cbn; [| | |by apply Hsave].
  all: match goal with |- context [Log ?x ?t] => pose proof (pd_same_entries _ _ (opl_Log (PD := PD) x t)) as Hl;
    destruct (Log x t) as [[] t4] end; cbn in *; by apply Hsave.
Qed.
End Stack.
