(* ===== verification/OutputPathExamples.v ===== *)
(** * Concrete output paths

    A file system in memory, and an output path in it that is saved and restored. *)

From S2P Require Import Prelude GoLib Errors GoIo StateFile Virtual Examples OutputPathFactory OutputService.
From S2P Require Import Store OutputPath OutputPathRoundTrip OutputPathResources OutputPathStack.
Local Open Scope Z_scope.

(** ** A concrete file system in memory *)

Module ExampleTree.
Set Warnings "-register-all".

Section Tree.
Context {E : Errors} {P : PathLib} {D : DigestLib}.

(** A leaf whose contents never change, or a local file that gets its digest when
    it is uploaded. *)
Inductive ex_leaf : Type :=
| ExFixed (i : leafinfo)
| ExLocal (n : nat) (contents : ProtoDigest) (isExecutable : bool).

Inductive tree : Type :=
| TDir (m : gmap Component tree)
| TLeaf (l : ex_leaf).

(** The state: the root directory, and the digests of local files that were
    uploaded. *)
Definition world : Type := tree * gmap nat Digest.

Definition ex_info (w : world) (l : ex_leaf) : leafinfo :=
  match l with
  | ExFixed i => i
  | ExLocal n _ x => match w.2 !! n with Some dg => LFile dg x | None => LLocal end
  end.

Definition kind (t : tree) : dirent ex_leaf := match t with TDir _ => EDir | TLeaf l => ELeaf l end.

Fixpoint get_at (t : tree) (r : list Component) : option tree :=
  match r with
  | [] => Some t
  | c :: r => match t with TDir m => m !! c ≫= fun t => get_at t r | TLeaf _ => None end
  end.

Definition entry_at (t : tree) (r : list Component) : option (dirent ex_leaf) := kind <$> get_at t r.

Fixpoint update_at (f : gmap Component tree -> gmap Component tree) (t : tree) (p : list Component) : tree :=
  match t with
  | TLeaf _ => t
  | TDir m =>
      match p with
      | [] => TDir (f m)
      | c :: p => TDir (alter (fun t => update_at f t p) c m)
      end
  end.

Lemma get_at_app t p q : get_at t (p ++ q) = get_at t p ≫= fun t => get_at t q.
Proof using.
  revert t. induction p as [|c p IH]; intros t; [done|]. cbn. destruct t as [m|]; [|done].
  destruct (m !! c) as [t'|]; [apply IH|done].
Qed.

(** All leaves of a tree. *)
Definition all_leaves (Q : ex_leaf -> Prop) (t : tree) : Prop :=
  forall r l, entry_at t r = Some (ELeaf l) -> Q l.

Lemma all_leaves_leaf (Q : ex_leaf -> Prop) l : Q l -> all_leaves Q (TLeaf l).
Proof using. intros Hl [|c r] l'; [by intros [= <-]|done]. Qed.

Lemma all_leaves_dir (Q : ex_leaf -> Prop) m : map_Forall (fun _ t => all_leaves Q t) m -> all_leaves Q (TDir m).
Proof using.
  intros Hm [|c r] l; [done|]. unfold entry_at. cbn. destruct (m !! c) as [t|] eqn:Hc; [|done].
  apply (Hm c t Hc).
Qed.

(** Directories are nested less than [n] levels deep. *)
Definition nested_below (n : nat) (t : tree) : Prop :=
  forall q, entry_at t q = Some EDir -> (length q < n)%nat.

Lemma nested_below_leaf n l : nested_below n (TLeaf l).
Proof using. by intros [|c q]. Qed.

Lemma nested_below_dir n m : map_Forall (fun _ t => nested_below n t) m -> nested_below (S n) (TDir m).
Proof using.
  intros Hm [|c q]; cbn; [lia|]. unfold entry_at. cbn. destruct (m !! c) as [t|] eqn:Hc; [|done].
  intros Hq%(Hm c t Hc). lia.
Qed.

Lemma entry_at_tree t r c n : entry_at t (r ++ [c]) = Some n -> entry_at t r = Some EDir.
Proof using.
  unfold entry_at. rewrite get_at_app. destruct (get_at t r) as [[m|l]|]; done.
Qed.

Lemma get_update_below f t p m c q :
  get_at t p = Some (TDir m) ->
  get_at (update_at f t p) (p ++ c :: q) = f m !! c ≫= fun t => get_at t q.
Proof using.
  revert t. induction p as [|x p IH]; intros [m'|i] Hp; try done.
  - cbn in Hp. injection Hp as ->. done.
  - cbn in Hp |- *. rewrite lookup_alter_eq. destruct (m' !! x) as [t'|]; [|done]. by apply IH.
Qed.

Lemma entry_update_other f t p r :
  (forall c q, r <> p ++ c :: q) -> entry_at (update_at f t p) r = entry_at t r.
Proof using.
  revert t r. induction p as [|x p IH]; intros [m|l] r Hr; try done.
  - destruct r as [|c q]; [done|]. by destruct (Hr c q).
  - destruct r as [|c q]; [done|]. unfold entry_at. cbn. rewrite lookup_alter.
    case_decide as Hx; [|done]. subst. destruct (m !! c) as [t'|]; [|done]. cbn.
    apply IH. intros c' q' ->. by destruct (Hr c' q').
Qed.

Lemma entry_update_below f t p m c q :
  get_at t p = Some (TDir m) ->
  entry_at (update_at f t p) (p ++ c :: q) = f m !! c ≫= fun t => entry_at t q.
Proof using.
  intros Hp. unfold entry_at. rewrite (get_update_below f t p m) by done. by destruct (f m !! c).
Qed.

Lemma entry_below t p m c q :
  get_at t p = Some (TDir m) -> entry_at t (p ++ c :: q) = m !! c ≫= fun t => entry_at t q.
Proof using. intros Hp. unfold entry_at. rewrite get_at_app, Hp. cbn. by destruct (m !! c). Qed.

Lemma entry_at_dir t p : entry_at t p = Some EDir -> exists m, get_at t p = Some (TDir m).
Proof using. unfold entry_at. destruct (get_at t p) as [[m|]|]; try done. by exists m. Qed.

(** Directories are identified with their paths. *)
Definition ex_CreateAndEnter (d : list Component) (c : Component) : st world (res err (list Component)) :=
  fun w => match get_at w.1 d with
  | Some (TDir m) =>
      match m !! c with
      | None => (Ok (d ++ [c]), (update_at (<[c := TDir ∅]>) w.1 d, w.2))
      | Some (TDir _) => (Ok (d ++ [c]), w)
      | Some (TLeaf _) => (Err ENOTDIR, w)
      end
  | _ => (Err ENOENT, w)
  end.

Definition ex_CreateChildren (d : list Component) (ls : gmap Component ex_leaf) (_ : bool)
  : st world (option err) := fun w =>
  match get_at w.1 d with
  | Some (TDir _) => (None, (update_at (fun m => (TLeaf <$> ls) ∪ m) w.1 d, w.2))
  | _ => (Some ENOENT, w)
  end.

Definition dirs_of (d : list Component) (m : gmap Component tree) : list (Component * list Component) :=
  omap (fun x => match x.2 with TDir _ => Some (x.1, d ++ [x.1]) | _ => None end) (map_to_list m).
Definition leaves_of (m : gmap Component tree) : list (Component * ex_leaf) :=
  omap (fun x => match x.2 with TLeaf l => Some (x.1, l) | _ => None end) (map_to_list m).

Definition ex_LookupAllChildren (d : list Component)
  : st world (res err (list (Component * list Component) * list (Component * ex_leaf))) := fun w =>
  match get_at w.1 d with
  | Some (TDir m) => (Ok (dirs_of d m, leaves_of m), w)
  | _ => (Err ENOENT, w)
  end.

(** Only files can be uploaded. *)
Definition ex_ApplyUploadFile (l : ex_leaf) (df : DigestFunction) : st world (option (option err)) := fun w =>
  match l with
  | ExFixed (LFile _ _) => (Some None, w)
  | ExFixed LLocal => (Some (Some (status_Error Unavailable "Server is down")), w)
  | ExFixed _ => (Some (Some (status_Error InvalidArgument "Not a file")), w)
  | ExLocal n contents _ =>
      match w.2 !! n, NewDigestFromProto df (Some contents) with
      | Some _, _ => (Some None, w)
      | None, Ok dg => (Some None, (w.1, <[n := dg]> w.2))
      | None, Err _ => (Some (Some (status_Error Unavailable "Server is down")), w)
      end
  end.

Definition children_of (t : tree) : gmap Component tree := match t with TDir m => m | TLeaf _ => ∅ end.

(** Every output base has its directory in the root directory. *)
#[local] Instance tree_factory : OutputPathFactory world := {|
  OutputPath := list Component;
  CASFileFactory := unit;
  opf_StartInitialBuild c _ _ w := (Some (Ret [c]), (TDir (<[c := TDir ∅]> (children_of w.1)), w.2));
  opf_Clean _ w := (None, w);
  op_RemoveAllChildren d _ w := (None, (update_at (fun _ => ∅) w.1 d, w.2));
  op_FinalizeBuild _ _ := mret tt;
  NewCASFileFactory w := (tt, w);
|}.

#[local] Instance tree_directory : PrepopulatedDirectory world := {|
  Dir := list Component;
  Leaf := ex_leaf;
  OutputPath_Dir d := d;
  CreateAndEnterPrepopulatedDirectory := ex_CreateAndEnter;
  LookupAllChildren := ex_LookupAllChildren;
  CreateChildren := ex_CreateChildren;
  Unlink _ w := (tt, w);
  LookupFile _ dg x w := (ExFixed (LFile dg x), w);
  LookupSymlink target w := (Ok (ExFixed (LSymlink target)), w);
  ApplyAppendOutputPathPersistencyDirectoryNode l c d w := (Some (append_info (ex_info w l) c d), w);
  ApplyUploadFile := ex_ApplyUploadFile;
  Log _ w := (tt, w);
  Now w := ({| seconds := 0; nanos := 0 |}, w);
|}.

Lemma path_cases (d r : list Component) : (exists c q, r = d ++ c :: q) \/ (forall c q, r <> d ++ c :: q).
Proof using.
  revert r. induction d as [|x d IH]; intros r.
  - destruct r as [|c q]; [by right|left; by exists c, q].
  - destruct r as [|y r]; [by right|]. destruct (decide (x = y)) as [->|Hne]; [|right; by intros c q [= -> ->]].
    destruct (IH r) as [(c & q & ->)|Hr]; [left; by exists c, q|].
    right. intros c q [= ->]. by eapply Hr.
Qed.

Lemma CreateAndEnter_spec d c w :
  entry_at w.1 d = Some EDir -> entry_at w.1 (d ++ [c]) = None ->
  exists d' w', ex_CreateAndEnter d c w = (Ok d', w') /\ d' = d ++ [c] /\ 
    (forall l, ex_info w' l = ex_info w l) /\
    forall r, entry_at w'.1 r = if decide (r = d ++ [c]) then Some EDir else entry_at w.1 r.
Proof using.
  destruct w as [t u]. cbn. intros [m Hd]%entry_at_dir Hc. rewrite (entry_below t d m) in Hc by done.
  unfold ex_CreateAndEnter. cbn. rewrite Hd. destruct (m !! c) as [t'|] eqn:Hm; [done|].
  eexists _, _. split; [done|]. split; [done|]. split; [done|]. intros r. cbn.
  destruct (path_cases d r) as [(x & q & ->)|Hr].
  - rewrite (entry_update_below _ t d m), (entry_below t d m) by done. case_decide as Heq.
    + apply app_inv_head in Heq as [= -> ->]. by rewrite lookup_insert_eq.
    + destruct (decide (c = x)) as [<-|Hcx].
      * rewrite lookup_insert_eq, Hm. cbn. destruct q as [|y q]; [done|].
        unfold entry_at. cbn. by rewrite lookup_empty.
      * by rewrite lookup_insert_ne.
  - rewrite entry_update_other by done. rewrite decide_False; [done|]. apply Hr.
Qed.

Lemma CreateChildren_spec d (ls : gmap Component ex_leaf) w :
  entry_at w.1 d = Some EDir -> (forall c, is_Some (ls !! c) -> entry_at w.1 (d ++ [c]) = None) ->
  exists w', ex_CreateChildren d ls true w = (None, w') /\ (forall l, ex_info w' l = ex_info w l) /\
    (forall c l, ls !! c = Some l -> entry_at w'.1 (d ++ [c]) = Some (ELeaf l)) /\
    (forall r, (forall c, is_Some (ls !! c) -> r <> d ++ [c]) -> entry_at w'.1 r = entry_at w.1 r).
Proof using.
  destruct w as [t u]. cbn. intros [m Hd]%entry_at_dir Hfresh. unfold ex_CreateChildren. cbn. rewrite Hd.
  eexists. split; [done|]. split; [done|]. cbn. split.
  - intros c l Hc. rewrite (entry_update_below _ t d m) by done.
    by rewrite (lookup_union_Some_l _ _ _ (TLeaf l)) by by rewrite lookup_fmap, Hc.
  - intros r Hr. destruct (path_cases d r) as [(x & q & ->)|Hne]; [|by apply entry_update_other].
    rewrite (entry_update_below _ t d m), (entry_below t d m) by done.
    rewrite lookup_union, lookup_fmap. destruct (ls !! x) as [l|] eqn:Hx; cbn.
    + assert (entry_at t (d ++ [x]) = None) as Hn by (apply Hfresh; by rewrite Hx).
      rewrite (entry_below t d m) in Hn by done. destruct (m !! x) as [t'|]; [done|]. cbn.
      destruct q as [|y q]; [|done]. exfalso. apply (Hr x); [by rewrite Hx|done].
    + by destruct (m !! x).
Qed.

Lemma dirs_of_spec d m :
  NoDup (dirs_of d m).*1 /\ (forall c d', (c, d') ∈ dirs_of d m -> d' = d ++ [c]) /\
  forall c, c ∈ (dirs_of d m).*1 <-> exists m', m !! c = Some (TDir m').
Proof using.
  split; [|split].
  - unfold dirs_of. apply (NoDup_omap_fst (map_to_list m)); [by intros [c [|]] y; [intros [= <-]|]|].
    apply NoDup_fst_map_to_list.
  - intros c d' ([x [m'|]] & Hin & [= <- <-])%list_elem_of_omap. done.
  - intros c. rewrite list_elem_of_fmap. split.
    + intros ([c' d'] & -> & ([x [m'|]] & Hin%elem_of_map_to_list & [= <- <-])%list_elem_of_omap).
      by exists m'.
    + intros (m' & Hc%elem_of_map_to_list). exists (c, d ++ [c]). split; [done|].
      apply list_elem_of_omap. by exists (c, TDir m').
Qed.

Lemma leaves_of_spec m :
  NoDup (leaves_of m).*1 /\ forall c l, (c, l) ∈ leaves_of m <-> m !! c = Some (TLeaf l).
Proof using.
  split.
  - unfold leaves_of. apply (NoDup_omap_fst (map_to_list m)); [by intros [c [|]] y; [|intros [= <-]]|].
    apply NoDup_fst_map_to_list.
  - intros c l. unfold leaves_of. rewrite list_elem_of_omap. split.
    + by intros ([x [|l']] & Hin%elem_of_map_to_list & [= <- <-]).
    + intros Hc%elem_of_map_to_list. by exists (c, TLeaf l).
Qed.

Definition tree_laws : DirectoryLaws tree_directory.
Proof using.
  refine {|
    pd_path := (fun d : list Component => d) : Dir (PrepopulatedDirectory := tree_directory) -> list Component;
    pd_entry := (fun w => entry_at w.1)
      : world -> list Component -> option (dirent (Leaf (PrepopulatedDirectory := tree_directory)));
    leaf_info := ex_info : world -> Leaf (PrepopulatedDirectory := tree_directory) -> leafinfo;
    valid_target := fun _ => True;
  |}; cbv beta.
  - intros w r c n. apply entry_at_tree.
  - intros d c w. apply CreateAndEnter_spec.
  - intros d ls w. apply CreateChildren_spec.
  - intros d [t u] ds ls w'. cbn. unfold ex_LookupAllChildren. cbn.
    destruct (get_at t d) as [[m|]|] eqn:Hd; try done. intros [= <- <- <-].
    destruct (dirs_of_spec d m) as (H1 & H2 & H3). destruct (leaves_of_spec m) as (H4 & H5).
    split; [done|]. split; [done|]. split; [done|]. split; [done|]. split.
    + intros c. rewrite H3, (entry_below t d m) by done. split.
      * by intros [m' ->].
      * destruct (m !! c) as [[m'|]|]; try done. by exists m'.
    + intros c l. rewrite (entry_below t d m), H5 by done. destruct (m !! c) as [[m'|l']|]; cbn; try done.
      split; [by intros [= ->]|by intros [= ->]].
  - intros d w e w'. cbn. unfold ex_LookupAllChildren.
    destruct (get_at w.1 d) as [[m|]|]; try done; by intros [= _ <-].
  - intros cff dg x w. by eexists _, _.
  - intros target w _. by eexists _, _.
  - done.
  - intros l c d w. by eexists.
Defined.

#[local] Existing Instance tree_laws.

Lemma tree_output_paths : OutputPathLaws tree_directory.
Proof using.
  split.
  - intros c cff df w. eexists _, _. split; [reflexivity|]. split; cbn.
    + unfold pd_node. cbn. unfold entry_at. cbn. by rewrite lookup_insert_eq.
    + intros [|c' q] Hq; [done|]. unfold pd_node. cbn. unfold entry_at. cbn.
      by rewrite lookup_insert_eq.
  - intros op df w. exists w. split; [done|apply pd_same_refl].
  - intros e w. apply pd_same_refl.
  - intros w. apply pd_same_refl.
Qed.

Lemma tree_uploads
    (Hdigests : forall df p dg, NewDigestFromProto df (Some p) = Ok dg ->
       NewDigestFromProto df (Some (GetProto dg)) = Ok dg)
    (Hcodes : forall msg, status_Code (status_Error Unavailable msg) = Unavailable) :
  UploadLaws tree_directory.
Proof using.
  split. intros l df [t u] r w'. cbn.
  assert (Some (Some (status_Error Unavailable "Server is down")) = Some r -> exists e, r = Some e /\ status_Code e <> InvalidArgument) as Hdown.
  { intros [= <-]. eexists. split; [done|]. by rewrite Hcodes. }
  destruct l as [[dg x|tgt| |]|n contents x]; cbn.
  - intros [= <- <-]. split; [done|]. split; [by left|done].
  - intros [= <- <-]. split; [done|]. split; [by left|done].
  - intros [= Hr <-]. split; [done|]. split; [by left|]. intros _. apply Hdown. by rewrite Hr.
  - intros [= <- <-]. split; [done|]. split; [by left|done].
  - destruct (u !! n) as [dg|] eqn:Hn.
    + intros [= <- <-]. split; [done|]. split; [by left|]. cbn. by rewrite Hn.
    + destruct (NewDigestFromProto df (Some contents)) as [dg|] eqn:Hdg.
      * intros [= <- <-]. split; [done|]. cbn. rewrite lookup_insert_eq. split; [|done].
        intros [i|m c' x']; [by left|]. cbn. destruct (decide (n = m)) as [<-|Hnm].
        -- right. rewrite Hn, lookup_insert_eq. split; [done|]. exists dg, x'. split; [done|]. by eapply Hdigests.
        -- left. by rewrite lookup_insert_ne.
      * intros [= Hr <-]. split; [done|]. split; [by left|]. intros _. apply Hdown. by rewrite Hr.
Qed.
End Tree.
End ExampleTree.

(** ** An output path that survives a restart *)

Module ExampleOutputPath.
Import ErrorTree ExamplePath ExampleDigest ExampleTree ExampleStore.
#[local] Existing Instance filesystem.
#[local] Existing Instance tree_factory.
#[local] Existing Instance tree_directory.

Definition base : Component := comp "base" eq_refl.
Definition a : Component := comp "a" eq_refl.
Definition d : Component := comp "d" eq_refl.
Definition l : Component := comp "l" eq_refl.
Definition t : Component := comp "t" eq_refl.

Definition dg : Digest := {| d_function := "sha256"; d_hash := "abc"; d_size := 3 |}.

(** A directory with a file, a symbolic link, and a local file. *)
Definition contents0 : tree := TDir (<[d := TDir {[ a := TLeaf (ExFixed (LFile dg true)) ]}]>
  (<[l := TLeaf (ExFixed (LSymlink "d/a"))]> {[ t := TLeaf (ExLocal 0 {| hash := "def"; size_bytes := 4 |} false) ]})).
Definition tree0 : world := (TDir {[ base := contents0 ]}, ∅).

(** The messages it is saved as. *)
Definition message1 : Directory := {|
  Files := [{| fn_Name := "a"; fn_Digest := Some {| hash := "abc"; size_bytes := 3 |};
               fn_IsExecutable := true |}];
  Directories := []; Symlinks := [] |}.
Definition message2 : Directory := {|
  Files := [];
  Directories := [{| dn_Name := "d"; dn_FileRegion := Some {| OffsetBytes := 16; SizeBytes := 1 |} |}];
  Symlinks := [{| sn_Name := "l"; sn_Target := "d/a" |}] |}.
Definition root : RootDirectory :=
  {| InitialCreationTime := Some {| seconds := 5; nanos := 0 |}; Contents := Some message2 |}.

#[local] Instance dirCodec : ProtoCodec Directory := {|
  Marshal := ExampleFile.table_Marshal empty_Directory [message1];
  Unmarshal := ExampleFile.table_Unmarshal empty_Directory [message1];
|}.
#[local] Instance rootCodec : ProtoCodec RootDirectory := {|
  Marshal := @ExampleFile.table_Marshal _ ExampleFile.rootDirectory_eq_dec empty_RootDirectory [root];
  Unmarshal := ExampleFile.table_Unmarshal empty_RootDirectory [root];
|}.
Definition dirLaws : ProtoLaws Directory empty_Directory.
Proof. split; [apply ExampleFile.table_roundtrip|done]. Qed.
Definition rootLaws : ProtoLaws RootDirectory empty_RootDirectory.
Proof. split; [apply ExampleFile.table_roundtrip|done]. Qed.

#[local] Instance store : Store files := NewDirectoryBackedStore 100.
#[local] Instance store_laws : StoreLaws store :=
  directoryBackedStore_laws filesystem_laws 100 dirLaws rootLaws (PL := path_laws).

Definition op : persistentOutputPath := {|
  pop_OutputPath := [base] : OutputPath (OutputPathFactory := tree_factory);
  pop_outputBaseID := base;
  pop_initialCreationTime := {| seconds := 5; nanos := 0 |} |}.

Definition saved_state : files * world := (saveOutputPath (WT := world) 3 op (fs0, tree0)).2.

Example save_op : saveOutputPath (WT := world) 3 op (fs0, tree0) = (Some (Ret None), saved_state).
Proof. reflexivity. Qed.

(** After a restart, the local file is gone and everything else is there. *)
Definition restored_contents : tree := TDir (<[d := TDir {[ a := TLeaf (ExFixed (LFile dg true)) ]}]>
  {[ l := TLeaf (ExFixed (LSymlink "d/a")) ]}).

Definition empty_tree : world := (TDir ∅, ∅).

Example restart :
  StartInitialBuild (WT := world) 3 base (tt : CASFileFactory) ("sha256" : DigestFunction)
    (saved_state.1, empty_tree) =
  (Some (Ret op), (saved_state.1, (TDir {[ base := restored_contents ]}, ∅))).
Proof. reflexivity. Qed.

Definition read_back := store_Read base saved_state.1.

Example readable : exists rc root' ws, read_back = (Ret (Ok (rc, root')), ws).
Proof. by eexists _, _, _. Qed.

Example op_messages : saved_messages 3 op (fs0, tree0) = ([message1], root).
Proof. vm_compute. reflexivity. Qed.

Lemma saved_messages_wf_witness :
  Forall wf_message (saved_messages 3 op (fs0, tree0)).1 /\
  exists m, Contents (saved_messages 3 op (fs0, tree0)).2 = Some m /\ wf_message m.
Proof.
  exact (saved_messages_wf (PL := path_laws) (SL := store_laws) (DL := tree_laws) 3 op (fs0, tree0) saved_state save_op).
Defined.

Lemma op_fits : saved_fits (SL := store_laws) 3 op (fs0, tree0).
Proof.
  unfold saved_fits. rewrite op_messages. change (fits [message1] root 100 /\ Marshal root <> Ok []).
  split; [|vm_compute; discriminate]. split; [apply Forall_singleton; vm_compute; reflexivity|].
  split; [vm_compute; reflexivity|]. split; [vm_compute; discriminate|vm_compute; reflexivity].
Qed.

Lemma files_have_digests r dg x :
  pd_node (DirectoryLaws := tree_laws) tree0 r = Some (NLeaf (LFile dg x)) ->
  NewDigestFromProto ("sha256" : DigestFunction) (Some (GetProto dg)) = Ok dg.
Proof.
  intros (leaf & Hl & Hi)%pd_node_leaf.
  assert (all_leaves (fun leaf => ex_info tree0 leaf = LFile dg x ->
    NewDigestFromProto ("sha256" : DigestFunction) (Some (GetProto dg)) = Ok dg) tree0.1) as Hall.
  { apply all_leaves_dir, map_Forall_singleton, all_leaves_dir.
    apply map_Forall_insert_2; [|apply map_Forall_insert_2; [|apply map_Forall_singleton]].
    - apply all_leaves_dir, map_Forall_singleton, all_leaves_leaf. by intros [= <- _].
    - apply all_leaves_leaf. intros [=].
    - apply all_leaves_leaf. intros [=]. }
  exact (Hall r leaf Hl Hi).
Qed.

Lemma output_path_roundtrip_witness :
  exists s3, StartInitialBuild (WT := world) 3 base (tt : CASFileFactory) "sha256" (saved_state.1, empty_tree) =
      (Some (Ret op), s3) /\
    restored (DL := tree_laws) (pd_node (DirectoryLaws := tree_laws) tree0)
      (TDir {[ base := TDir ∅ ]}, ∅) s3.2 [base] [base] [].
Proof.
  refine (output_path_roundtrip (PL := path_laws) (SL := store_laws) (DL := tree_laws)
    3 op (fs0, tree0) saved_state save_op op_fits tt "sha256" empty_tree [base]
    (TDir {[ base := TDir ∅ ]}, ∅) _ _ _ eq_refl _ eq_refl _).
  - exact files_have_digests.
  - split; [reflexivity|]. intros [|c q] Hq; [destruct (Hq eq_refl)|]. reflexivity.
Defined.

Definition base_dir : Dir (PrepopulatedDirectory := tree_directory) := [base].

Lemma codec_ok bs (m : Directory) : Unmarshal bs = Ok m -> dir_ok m.
Proof.
  cbn. unfold ExampleFile.table_Unmarshal. destruct (length bs) as [|[|n]]; try done.
  - intros [= <-]. apply Forall_nil_2.
  - intros [= <-]. apply Forall_nil_2.
Qed.

Definition reader : directoryBackedReader := {|
  dr_file := 1%nat : FileReader;
  dr_reader := {| rawReader := ExampleFile.no_reader; maximumOffsetBytes := 17 |} |}.

Definition restorer : stateRestorer (WT := world) :=
  {| sr_casFileFactory := tt : CASFileFactory; sr_digestFunction := "sha256" |}.

Lemma restore_terminates_witness :
  exists e s', restoreDirectoryRecursive (WT := world) 20 restorer reader message2 base_dir []
    (saved_state.1, (TDir {[ base := TDir ∅ ]}, ∅)) = (Some e, s').
Proof.
  apply (restore_terminates (SD := directoryBackedStore_descends 100 codec_ok) 20 restorer reader message2
    base_dir [] (saved_state.1, (TDir {[ base := TDir ∅ ]}, ∅))).
  - cbn. lia.
  - apply Forall_cons_2; [cbn; lia|apply Forall_nil_2].
  - vm_compute. lia.
Defined.

Definition logged_save := saveOutputPath (S := logged_store store) (WT := world) 3 op ((fs0, []), tree0).

Lemma eta_result {A X Y Z} (x : A * ((X * Y) * Z)) a : x.1 = a -> x = (a, ((x.2.1.1, x.2.1.2), x.2.2)).
Proof. destruct x as [? [[? ?] ?]]. cbn. by intros ->. Qed.

Lemma saveOutputPath_releases_witness :
  logged_save.2.1.2 = [] \/ logged_save.2.1.2 = [EvOpenWriter store; EvFinalizeWriter store] \/
  logged_save.2.1.2 = [EvOpenWriter store; EvCloseWriter store].
Proof.
  refine (saveOutputPath_releases store 3 op fs0 tree0 None _ _ _ (eta_result logged_save _ _)).
  reflexivity.
Defined.

Definition logged_start := StartInitialBuild (S := logged_store store) (WT := world) 3 base
  (tt : CASFileFactory) "sha256" ((saved_state.1, []), empty_tree).

Lemma StartInitialBuild_closes_witness :
  pop_outputBaseID op = base /\
  (logged_start.2.1.2 = [] \/
   exists rc, logged_start.2.1.2 = [EvOpenReader store rc; EvCloseReader store rc]).
Proof.
  refine (StartInitialBuild_closes store 3 base tt "sha256" saved_state.1 empty_tree op _ _ _
    (eta_result logged_start _ _)).
  reflexivity.
Defined.

Definition uploader : localFileUploader :=
  {| u_digestFunction := "sha256" : DigestFunction; u_outputBaseID := base |}.

Lemma upload_complete_witness :
  let s1 := (uploadLocalFilesRecursive (PD := logged_pd tree_factory tree_directory) 3
    uploader base_dir [] (tree0, [])).2 in
  exists evs, s1.2 = [] ++ evs /\
    uploaded tree_factory tree_directory evs ≡ₚ listed_leaves tree_factory tree_directory evs /\
    listings tree_factory tree_directory evs = 2%nat.
Proof.
  destruct (upload_complete tree_factory tree_directory 3
    uploader base_dir [] tree0 []
    (uploadLocalFilesRecursive (PD := logged_pd tree_factory tree_directory) 3
      uploader base_dir [] (tree0, [])).2.1
    (uploadLocalFilesRecursive (PD := logged_pd tree_factory tree_directory) 3
      uploader base_dir [] (tree0, [])).2.2)
    as (evs & H1 & H2 & H3 & _); [reflexivity|].
  exists evs. split; [exact H1|]. split; [exact H2|]. cbn [app] in H1. rewrite <-H1. reflexivity.
Defined.
End ExampleOutputPath.

(** ** A service whose builds survive a restart *)

Module ExampleStack.
Import ErrorTree ExamplePath ExampleDigest ExampleVirtual ExampleTree ExampleStore ExampleOutputPath.
#[local] Existing Instance filesystem.
#[local] Existing Instance tree_factory.
#[local] Existing Instance tree_directory.
#[local] Existing Instance tree_laws.

#[local] Instance uploads_ok : UploadLaws tree_directory.
Proof.
  apply tree_uploads; [|done]. intros df p dg. cbn. unfold new_digest. case_bool_decide as Hp; [|done].
  intros [= <-]. cbn. by rewrite bool_decide_true.
Qed.

#[local] Instance output_paths_ok : OutputPathLaws tree_directory := tree_output_paths.

(** The message of the root directory, with the local file that was uploaded. *)
Definition message3 : Directory := {|
  Files := [{| fn_Name := "t"; fn_Digest := Some {| hash := "def"; size_bytes := 4 |};
               fn_IsExecutable := false |}];
  Directories := [{| dn_Name := "d"; dn_FileRegion := Some {| OffsetBytes := 16; SizeBytes := 1 |} |}];
  Symlinks := [{| sn_Name := "l"; sn_Target := "d/a" |}] |}.
Definition root3 : RootDirectory :=
  {| InitialCreationTime := Some {| seconds := 0; nanos := 0 |}; Contents := Some message3 |}.

#[local] Instance dirCodec3 : ProtoCodec Directory := dirCodec.
#[local] Instance rootCodec3 : ProtoCodec RootDirectory := {|
  Marshal := @ExampleFile.table_Marshal _ ExampleFile.rootDirectory_eq_dec empty_RootDirectory [root3];
  Unmarshal := ExampleFile.table_Unmarshal empty_RootDirectory [root3];
|}.
Definition rootLaws3 : ProtoLaws RootDirectory empty_RootDirectory.
Proof. split; [apply ExampleFile.table_roundtrip|done]. Qed.

(** The store only accepts state files of the same two days. *)
Definition two_days : Z := 2 * 86400 * Second.
Definition store3 : Store files := NewMaximumAgeStore (NewDirectoryBackedStore 100) (clock (10 * Second)) two_days.
#[local] Existing Instance store3.
#[local] Instance store3_laws : StoreLaws store3 :=
  maximumAgeStore_laws (directoryBackedStore_laws filesystem_laws 100 dirLaws rootLaws3 (PL := path_laws))
    (clock (10 * Second)) two_days (fun _ _ _ H => H).

Definition flush : st world (option err) := fun w => (None, w).

Definition factory := stack (S := store3) flush 3.
Abbreviation directory := (BazelOutputServiceDirectory (OPF := factory) (ScopeWalkerFactory := unit)).

Definition op0 : OutputPath (OutputPathFactory := factory) :=
  Build_persistentOutputPath (OPF := uploading flush 3)
    (Build_localFileUploadingOutputPath (OPF := tree_factory) [base] base) base {| seconds := 0; nanos := 0 |}.

Definition started := StartBuild_locked (OPF := factory) base "b1" ("sha256" : DigestFunction) tt
  NewBazelOutputServiceDirectory (fs0, empty_tree).

Definition d1 : directory :=
  match started.1 with Some (Ret (_, d)) => d | _ => NewBazelOutputServiceDirectory end.

Definition sys1 : system (OPF := factory) (ScopeWalkerFactory := unit) := {| sys_dir := d1; pending := [] |}.

Lemma sys1_reachable : nsteps step 1 init_system sys1.
Proof.
  eapply nsteps_l; [|apply nsteps_O].
  exact (step_StartBuild (OPF := factory) NewBazelOutputServiceDirectory [] base "b1" ("sha256" : DigestFunction) tt
    (fs0, empty_tree) 0%nat d1 eq_refl).
Qed.

Definition bs1 : buildState (ScopeWalkerFactory := unit) :=
  {| id := "b1"; digestFunction := ("sha256" : DigestFunction); scopeWalkerFactory := tt |}.

Definition state1 : outputPathState (OPF := factory) (ScopeWalkerFactory := unit) := {|
  buildStateOf := Some bs1;
  rootDirectory := op0;
  casFileFactory := tt : CASFileFactory (OutputPathFactory := factory);
  previous := Sentinel;
  next := Sentinel;
  cookie := 0;
  OutputService.outputBaseID := base;
|}.

(** At the end of the build, the local file has been uploaded. *)
Definition tree1 : world := (tree0.1, {[ 0%nat := {| d_function := "sha256"; d_hash := "def"; d_size := 4 |} ]}).

Definition saved1 : files * world :=
  (saveOutputPath (S := store3) (OPF := uploading flush 3) (PD := uploads flush 3) 3 op0 (fs0, tree1)).2.

Lemma messages1 :
  saved_messages (S := store3) (OPF := uploading flush 3) (PD := uploads flush 3) 3 op0 (fs0, tree1) =
    ([message1], root3).
Proof. vm_compute. reflexivity. Qed.

Lemma finalized1 : finalized (S := store3) flush 3 ("sha256" : DigestFunction) op0 (fs0, tree0) saved1.
Proof.
  exists tree0, tree1, tree1. split; [reflexivity|]. split; [reflexivity|]. split; [reflexivity|].
  split; [reflexivity|].
  refine (eq_ind_r (fun x => sl_fits (StoreLaws := store3_laws) x.1 x.2) _ messages1).
  change (fits [message1] root3 100 /\ Marshal root3 <> Ok []).
  split; [|vm_compute; discriminate]. split; [apply Forall_singleton; vm_compute; reflexivity|].
  split; [vm_compute; reflexivity|]. split; [vm_compute; discriminate|vm_compute; reflexivity].
Qed.

(** The build ends, and another one starts after a restart. *)
Lemma service_restart_witness :
  exists j (d : directory) op s3,
    StartBuild_locked (OPF := factory) base "b2" ("sha256" : DigestFunction) tt NewBazelOutputServiceDirectory
      (saved1.1, empty_tree) = (Some (Ret (j, d)), s3) /\
    VirtualLookup base d = VOk op /\ restarted (S := store3) flush 3 op0 op tree0 s3.2.
Proof.
  refine (proj2 (service_restart (PL := path_laws) (SL := store3_laws) (OL := output_paths_ok) flush
    (fun w r w' H => eq_ind w (fun w' => pd_same w w') (pd_same_refl w) w' (f_equal snd H)) 3
    1 sys1 "b1" 0%nat bs1 state1 (fs0, tree0) saved1 sys1_reachable eq_refl eq_refl eq_refl
    finalized1 files_have_digests) "b2" tt empty_tree _ _ _ eq_refl).
Defined.

(** The local file is there, with the digest that it got. *)
Example restarted1 :
  (StartBuild_locked (OPF := factory) base "b2" ("sha256" : DigestFunction) tt NewBazelOutputServiceDirectory
    (saved1.1, empty_tree)).2.2.1 =
  TDir {[ base := TDir (<[d := TDir {[ a := TLeaf (ExFixed (LFile dg true)) ]}]>
    (<[l := TLeaf (ExFixed (LSymlink "d/a"))]>
      {[ t := TLeaf (ExFixed (LFile {| d_function := "sha256"; d_hash := "def"; d_size := 4 |} false)) ]})) ]}.
Proof. reflexivity. Qed.

(** The output path is cleaned after it was saved. *)
Definition cleaned := op_RemoveAllChildren (OutputPathFactory := factory) op0 true saved1.

Lemma cleaned_stays_empty_witness :
  cleaned.1 = None /\
  exists op s2, opf_StartInitialBuild (OutputPathFactory := factory) base (tt : CASFileFactory) "sha256"
      (cleaned.2.1, empty_tree) = (Some (Ret op), s2) /\
    forall q, q <> [] -> pd_entry (PD := tree_directory) s2.2 (contents_path (S := store3) flush 3 op ++ q) = None.
Proof.
  split; [reflexivity|].
  refine (cleaned_stays_empty (SL := store3_laws) (OL := output_paths_ok) flush 3 base op0 saved1 cleaned.2
    (or_intror (conj eq_refl _)) (tt : CASFileFactory) "sha256" empty_tree).
  reflexivity.
Defined.

Lemma contents0_shallow : nested_below 3 contents0.
Proof.
  apply nested_below_dir.
  apply map_Forall_insert_2; [|apply map_Forall_insert_2; [|apply map_Forall_singleton]];
    [|apply nested_below_leaf..].
  apply nested_below_dir, map_Forall_singleton, nested_below_leaf.
Qed.

Lemma stack_FinalizeBuild_terminates_witness :
  exists r s1, op_FinalizeBuild (OutputPathFactory := factory) op0 ("sha256" : DigestFunction) (fs0, tree0) =
    (Some r, s1).
Proof.
  refine (stack_FinalizeBuild_terminates (UL := uploads_ok) (OL := output_paths_ok) flush
    (fun w r w' H => eq_ind w (fun w' => pd_same w w') (pd_same_refl w) w' (f_equal snd H)) 3
    ("sha256" : DigestFunction) op0 (fs0, tree0) (conj eq_refl contents0_shallow)).
Defined.
End ExampleStack.
