(* ===== verification/ErrorRetrying.v ===== *)
(** * Retrying of failed operations

    [pkg/blobstore/error_retrying_blob_access.go]: operations against the Content
    Addressable Storage that fail with an infrastructure error are retried with
    exponential backoff and full jitter. *)

From S2P Require Import Prelude Errors StateFile Virtual Examples.
Local Open Scope Z_scope.

(** ** What is called

    [W] is the state of the clock, the random number generator, the context and
    the storage backend. Times and durations are in nanoseconds. *)

Class RetryEnvironment {E : Errors} (W : Type) : Type := {
  (** [clock.Now] *)
  clock_Now : st W Z;
  (** [random.Duration]: a random duration up to the given one *)
  random_Duration : Z -> st W Z;
  (** [errorLogger.Log] *)
  errorLogger_Log : err -> st W unit;
  (** [clock.NewTimer] followed by the [select]: whether the timer fired, rather
      than the context being cancelled *)
  wait_for_timer : Z -> st W bool;
}.

(** [blobstore.BlobAccess]; reading from buffers is not modelled. *)
Class BlobAccess {E : Errors} {D : DigestLib} (W : Type) : Type := {
  Buffer : Type;
  BlobSlicer : Type;
  DigestSet : Type;
  ServerCapabilities : Type;
  ba_Get : Digest -> st W Buffer;
  ba_GetFromComposite : Digest -> Digest -> BlobSlicer -> st W Buffer;
  ba_FindMissing : DigestSet -> st W (res err DigestSet);
  ba_GetCapabilities : InstanceName -> st W (res err ServerCapabilities);
}.

Section ErrorRetrying.
Context {E : Errors} {D : DigestLib} {W : Type} {RE : RetryEnvironment W} {BA : BlobAccess W}.

Record errorRetryingBlobAccess : Type := {
  initialInterval : Z;
  maximumInterval : Z;
  maximumDelay : Z;
}.

Record retryState : Type := {
  endTime : Z;
  interval : Z;
}.

Context (ba : errorRetryingBlobAccess).

Definition getRetryState : st W retryState := fun w =>
  let '(now, w) := clock_Now w in
  ({| endTime := now + maximumDelay ba; interval := initialInterval ba |}, w).

(** The interval of the next retry. *)
Definition next_interval (i : Z) : Z :=
  let i := i64 (i * 2) in
  if bool_decide (maximumInterval ba < i) then maximumInterval ba else i.

(** Whether to stop, and the retry state for the next time. The clock is only
    read for errors that can be retried. *)
Definition maybeSleep (rs : retryState) (e : err) : st W (bool * retryState) := fun w =>
  if negb (IsInfrastructureError e) then ((true, rs), w)
  else
    let '(now, w) := clock_Now w in
    if bool_decide (endTime rs < now) then ((true, rs), w)
    else
      let '(randomInterval, w) := random_Duration (interval rs) w in
      let '(_, w) := errorLogger_Log
        (StatusWrapf e "Retrying failed operation after %s" [FInt randomInterval]) w in
      let '(fired, w) := wait_for_timer randomInterval w in
      if fired then ((false, {| endTime := endTime rs; interval := next_interval (interval rs) |}), w)
      else ((true, rs), w).

(** The loop of [FindMissing] and [GetCapabilities], of which [call] is the
    operation; [None] is running out of [fuel]. *)
Fixpoint retry_loop {A : Type} (fuel : nat) (call : st W (res err A)) (rs : retryState)
  : st W (option (res err A)) := fun w =>
  match fuel with
  | O => (None, w)
  | S fuel =>
      match call w with
      | (Ok a, w) => (Some (Ok a), w)
      | (Err e, w) =>
          match maybeSleep rs e w with
          | ((true, _), w) => (Some (Err e), w)
          | ((false, rs), w) => retry_loop fuel call rs w
          end
      end
  end.

Definition FindMissing (fuel : nat) (digests : DigestSet) : st W (option (res err DigestSet)) := fun w =>
  let '(rs, w) := getRetryState w in retry_loop fuel (ba_FindMissing digests) rs w.

Definition GetCapabilities (fuel : nat) (instanceName : InstanceName)
  : st W (option (res err ServerCapabilities)) := fun w =>
  let '(rs, w) := getRetryState w in retry_loop fuel (ba_GetCapabilities instanceName) rs w.

(** *** Error handlers

    [Get] and [GetFromComposite] return a buffer whose errors are passed to a
    handler, which either returns another buffer or the error. *)

Record retryingGetErrorHandler : Type := {
  geh_digest : Digest;
  geh_retryState : retryState;
}.

Definition Get (digest : Digest) : st W (Buffer * retryingGetErrorHandler) := fun w =>
  let '(rs, w) := getRetryState w in
  let '(b, w) := ba_Get digest w in
  ((b, {| geh_digest := digest; geh_retryState := rs |}), w).

Definition retryingGetErrorHandler_OnError (eh : retryingGetErrorHandler) (e : err)
  : st W (res err Buffer * retryingGetErrorHandler) := fun w =>
  let '((stop, rs), w) := maybeSleep (geh_retryState eh) e w in
  let eh := {| geh_digest := geh_digest eh; geh_retryState := rs |} in
  if stop then ((Err e, eh), w)
  else let '(b, w) := ba_Get (geh_digest eh) w in ((Ok b, eh), w).

Record retryingGetFromCompositeErrorHandler : Type := {
  gceh_parentDigest : Digest;
  gceh_childDigest : Digest;
  gceh_slicer : BlobSlicer;
  gceh_retryState : retryState;
}.

Definition GetFromComposite (parentDigest childDigest : Digest) (slicer : BlobSlicer)
  : st W (Buffer * retryingGetFromCompositeErrorHandler) := fun w =>
  let '(rs, w) := getRetryState w in
  let '(b, w) := ba_GetFromComposite parentDigest childDigest slicer w in
  ((b, {| gceh_parentDigest := parentDigest; gceh_childDigest := childDigest;
          gceh_slicer := slicer; gceh_retryState := rs |}), w).

Definition retryingGetFromCompositeErrorHandler_OnError (eh : retryingGetFromCompositeErrorHandler)
    (e : err) : st W (res err Buffer * retryingGetFromCompositeErrorHandler) := fun w =>
  let '((stop, rs), w) := maybeSleep (gceh_retryState eh) e w in
  let eh := {| gceh_parentDigest := gceh_parentDigest eh; gceh_childDigest := gceh_childDigest eh;
               gceh_slicer := gceh_slicer eh; gceh_retryState := rs |} in
  if stop then ((Err e, eh), w)
  else let '(b, w) := ba_GetFromComposite (gceh_parentDigest eh) (gceh_childDigest eh) (gceh_slicer eh) w
       in ((Ok b, eh), w).

(** ** The sequence of attempts

    [attempts call rs w l r w']: starting in [w] with [rs], the calls in [l] are
    made, each of them with the state before it; the last one gives [r], which
    is returned in [w']. *)
Inductive attempts {A : Type} (call : st W (res err A)) :
  retryState -> W -> list (retryState * W) -> res err A -> W -> Prop :=
| attempts_success rs w a w' :
    call w = (Ok a, w') -> attempts call rs w [(rs, w)] (Ok a) w'
| attempts_stop rs w e w1 rs' w' :
    call w = (Err e, w1) -> maybeSleep rs e w1 = ((true, rs'), w') ->
    attempts call rs w [(rs, w)] (Err e) w'
| attempts_retry rs w e w1 rs' w2 l r w' :
    call w = (Err e, w1) -> maybeSleep rs e w1 = ((false, rs'), w2) ->
    attempts call rs' w2 l r w' ->
    attempts call rs w ((rs, w) :: l) r w'.

Lemma retry_loop_attempts {A} (call : st W (res err A)) fuel rs w r w' :
  retry_loop fuel call rs w = (Some r, w') ->
  exists l, attempts call rs w l r w' /\ (length l <= fuel)%nat.
Proof using.
  revert rs w. induction fuel as [|fuel IH]; intros rs w; [done|]. cbn.
  destruct (call w) as [[a|e] w1] eqn:Hc.
  { intros [= <- <-]. exists [(rs, w)]. split; [by constructor|cbn; lia]. }
  destruct (maybeSleep rs e w1) as [[[] rs'] w2] eqn:Hs.
  - intros [= <- <-]. exists [(rs, w)]. split; [by eapply attempts_stop|cbn; lia].
  - intros Hl. destruct (IH _ _ Hl) as (l & Hl' & Hlen).
    exists ((rs, w) :: l). split; [by eapply attempts_retry|cbn; lia].
Qed.
End ErrorRetrying.

(** ** The retry policy *)

(** What the clock, the random number generator and timers promise: time does not
    go backward, random durations are in range, and a timer does not fire early. *)
Class RetryLaws {E : Errors} {W : Type} (RE : RetryEnvironment W) : Type := {
  time : W -> Z;
  Now_time w : (clock_Now w).1 = time w /\ time w <= time (clock_Now w).2;
  Duration_range d w : 0 < d -> 0 <= (random_Duration d w).1 <= d;
  Duration_time d w : time w <= time (random_Duration d w).2;
  Log_time e w : time w <= time (errorLogger_Log e w).2;
  timer_time d w : (wait_for_timer d w).1 = true -> time w + d <= time (wait_for_timer d w).2;
}.

Section Policy.
Context {E : Errors} {W : Type} {RE : RetryEnvironment W} (RL : RetryLaws RE).
Context (ba : errorRetryingBlobAccess).

(** When [maybeSleep] asks for another attempt. *)
Lemma maybeSleep_retry rs e w rs' w' :
  maybeSleep ba rs e w = ((false, rs'), w') ->
  IsInfrastructureError e = true /\ time w <= endTime rs /\
  rs' = {| endTime := endTime rs; interval := next_interval ba (interval rs) |} /\
  exists d w1, d = (random_Duration (interval rs) (clock_Now w).2).1 /\
    wait_for_timer d w1 = (true, w') /\ time w <= time w1.
Proof using.
  unfold maybeSleep. destruct (IsInfrastructureError e); [|done]. cbn [negb].
  destruct (Now_time w) as [Hnow Ht]. destruct (clock_Now w) as [now w1]. cbn in *. subst now.
  case_bool_decide as He; [done|].
  pose proof (Duration_time (interval rs) w1). destruct (random_Duration _ w1) as [d w2]. cbn in *.
  pose proof (Log_time (StatusWrapf e "Retrying failed operation after %s" [FInt d]) w2).
  destruct (errorLogger_Log _ w2) as [[] w3]. cbn in *.
  destruct (wait_for_timer d w3) as [[] w4] eqn:Hw; [|done]. intros [= <- <-].
  split; [done|]. split; [lia|]. split; [done|]. exists d, w3. split; [done|]. split; [done|]. lia.
Qed.

(** When it gives up. *)
Lemma maybeSleep_stop rs e w rs' w' :
  maybeSleep ba rs e w = ((true, rs'), w') ->
  IsInfrastructureError e = false \/ endTime rs < time w \/
  exists d w1, wait_for_timer d w1 = (false, w').
Proof using RL.
  intros Hs. unfold maybeSleep in Hs. destruct (IsInfrastructureError e); [|by left]. cbn [negb] in Hs.
  right. destruct (Now_time w) as [Hnow _]. destruct (clock_Now w) as [now w1]. cbn in *. subst now.
  case_bool_decide as He; [by left|]. right. revert Hs.
  destruct (random_Duration _ w1) as [d w2]. destruct (errorLogger_Log _ w2) as [[] w3].
  destruct (wait_for_timer d w3) as [[] w4] eqn:Hw; [done|]. intros [= _ <-]. by exists d, w3.
Qed.

Lemma attempts_endTime {A} (call : st W (res err A)) rs w l r w' i rs1 w1 :
  attempts ba call rs w l r w' -> l !! i = Some (rs1, w1) -> endTime rs1 = endTime rs.
Proof using RL.
  intros Hatt. revert i. induction Hatt as [rs w a w' Hc|rs w e w2 rs' w' Hc Hs|rs w e w2 rs' w3 l r w' Hc Hs _ IH];
    intros [|i] Hi; cbn in Hi; try (by injection Hi as <- _); try done.
  rewrite (IH i Hi). apply maybeSleep_retry in Hs as (_ & _ & -> & _). done.
Qed.

(** C28. An operation is repeated exactly as long as it fails with an
    infrastructure error, no later than the maximum delay after it started: all
    attempts but the last failed that way. The result is that of the last
    attempt; an error is only returned when it cannot be retried, the deadline
    has passed, or the context was cancelled. *)
Theorem retry_policy {A} fuel (call : st W (res err A)) rs w r w' :
  retry_loop ba fuel call rs w = (Some r, w') ->
  exists l, attempts ba call rs w l r w' /\ (length l <= fuel)%nat /\
    (forall i rs1 w1, l !! i = Some (rs1, w1) -> (S i < length l)%nat ->
       exists e w2, call w1 = (Err e, w2) /\ IsInfrastructureError e = true /\ time w2 <= endTime rs) /\
    (exists rs1 w1 w2, last l = Some (rs1, w1) /\ call w1 = (r, w2) /\
       forall e, r = Err e ->
         IsInfrastructureError e = false \/ endTime rs < time w2 \/
         exists d w3, wait_for_timer d w3 = (false, w')).
Proof using RL.
  intros Hloop. destruct (retry_loop_attempts ba call _ _ _ _ _ Hloop) as (l & Hatt & Hlen).
  exists l. split; [done|]. split; [done|]. clear Hloop Hlen. split.
  - intros i rs1 w1. revert i.
    induction Hatt as [rs w a w' Hc|rs w e w2 rs' w' Hc Hs|rs w e w2 rs' w3 l r w' Hc Hs Hatt IH];
      intros [|i] Hi Hl; cbn in Hi, Hl; try lia; try done.
    + injection Hi as <- <-. apply maybeSleep_retry in Hs as (Hinf & Ht & _). by exists e, w2.
    + destruct (IH i Hi) as (e' & w4 & Hc' & Hinf & Ht); [lia|]. exists e', w4.
      split; [done|]. split; [done|]. apply maybeSleep_retry in Hs as (_ & _ & -> & _). done.
  - induction Hatt as [rs w a w' Hc|rs w e w2 rs' w' Hc Hs|rs w e w2 rs' w3 l r w' Hc Hs Hatt IH].
    + by exists rs, w, w'.
    + exists rs, w, w2. split; [done|]. split; [done|]. intros e' [= <-].
      destruct (maybeSleep_stop _ _ _ _ _ Hs) as [|[|]]; auto.
    + destruct IH as (rs1 & w1 & w4 & Hlast & Hc' & Herr). exists rs1, w1, w4.
      split; [|split; [done|]].
      * destruct l as [|x l]; [done|]. done.
      * intros e' He'. apply maybeSleep_retry in Hs as (_ & _ & -> & _). by apply Herr.
Qed.

(** Exponential backoff: the interval starts out as configured, doubles with
    every attempt and never exceeds the maximum afterwards; no random delay is
    longer than the interval. *)
Theorem backoff {A} (call : st W (res err A)) rs w l r w' i rs1 w1 :
  attempts ba call rs w l r w' ->
  interval rs = initialInterval ba ->
  0 < initialInterval ba < 2 ^ 62 -> 0 < maximumInterval ba < 2 ^ 62 ->
  l !! i = Some (rs1, w1) ->
  interval rs1 = (if bool_decide (i = 0%nat) then initialInterval ba
                  else Z.min (initialInterval ba * 2 ^ Z.of_nat i) (maximumInterval ba)) /\
  forall w2, 0 <= (random_Duration (interval rs1) w2).1 <= interval rs1.
Proof using RL.
  intros Hatt Hint Hinit Hmax Hi.
  assert (forall j k, 0 < k < 2 ^ 62 -> attempts ba call rs w l r w' -> interval rs = k ->
    l !! j = Some (rs1, w1) ->
    interval rs1 = if bool_decide (j = 0%nat) then k else Z.min (k * 2 ^ Z.of_nat j) (maximumInterval ba)) as Hgen.
  { clear - RL Hmax. intros j k Hk Hatt. revert j k Hk.
    induction Hatt as [rs w a w' Hc|rs w e w2 rs' w' Hc Hs|rs w e w2 rs' w3 l r w' Hc Hs Hatt IH];
      intros [|j] k Hk Hint Hj; cbn in Hj; try (by injection Hj as <- _); try done.
    apply maybeSleep_retry in Hs as (_ & _ & -> & _). rewrite bool_decide_false by lia.
    assert (next_interval ba (interval rs) = Z.min (k * 2) (maximumInterval ba)) as Hnext.
    { unfold next_interval. rewrite Hint, i64_id by lia. case_bool_decide; lia. }
    rewrite (IH j (Z.min (k * 2) (maximumInterval ba))); [|lia|done|done].
    assert (0 < 2 ^ Z.of_nat j) by (apply Z.pow_pos_nonneg; lia).
    rewrite Nat2Z.inj_succ, Z.pow_succ_r by lia.
    case_bool_decide as Hj0; [subst j; lia|].
    assert (2 <= 2 ^ Z.of_nat j).
    { change 2 with (2 ^ 1) at 1. apply Z.pow_le_mono_r; lia. }
    nia. }
  pose proof (Hgen i _ Hinit Hatt Hint Hi) as Heq. split; [done|]. intros w2. apply Duration_range.
  rewrite Heq. case_bool_decide; [lia|]. assert (0 < 2 ^ Z.of_nat i) by (apply Z.pow_pos_nonneg; lia). nia.
Qed.

(** C29. Retrying terminates: when an attempt takes at least [delta], there are at
    most [maximumDelay / delta + 2] of them. *)
Theorem retry_terminates {A} (call : st W (res err A)) delta w :
  0 < delta -> (forall w, time w + delta <= time (call w).2) -> 0 <= maximumDelay ba ->
  0 < initialInterval ba < 2 ^ 62 -> 0 < maximumInterval ba < 2 ^ 62 ->
  exists r w', (let '(rs, w) := getRetryState ba w in
     retry_loop ba (Z.to_nat (maximumDelay ba / delta) + 2) call rs w) = (Some r, w').
Proof using RL.
  intros Hd Hcall Hdelay Hinit Hmax.
  assert (forall fuel rs w, 0 < interval rs < 2 ^ 62 -> endTime rs - time w < Z.of_nat fuel * delta ->
    exists r w', retry_loop ba (S fuel) call rs w = (Some r, w')) as Hgen.
  { clear w. induction fuel as [|fuel IH]; intros rs w Hint Hfuel; cbn [retry_loop];
      pose proof (Hcall w) as Ht; destruct (call w) as [[a|e] w1]; try by eexists _, _.
    all: cbn in Ht; destruct (maybeSleep ba rs e w1) as [[[] rs'] w2] eqn:Hs; try by eexists _, _.
    all: apply maybeSleep_retry in Hs as (_ & Hle & -> & d & w3 & Hdur & Hwait & Ht3).
    - cbn in Hfuel. lia.
    - assert (0 <= d) as Hd0.
      { rewrite Hdur. apply Duration_range. lia. }
      pose proof (timer_time d w3) as Htimer. rewrite Hwait in Htimer. specialize (Htimer eq_refl). cbn in Htimer.
      apply IH; cbn.
      + unfold next_interval. case_bool_decide; [lia|].
        rewrite i64_id in * by lia. lia.
      + lia. }
  unfold getRetryState. destruct (Now_time w) as [Hnow Ht]. destruct (clock_Now w) as [now w1]. cbn in *.
  replace (Z.to_nat (maximumDelay ba / delta) + 2)%nat with (S (Z.to_nat (maximumDelay ba / delta) + 1)) by lia.
  apply Hgen; cbn; [lia|].
  pose proof (Z.div_mod (maximumDelay ba) delta ltac:(lia)). pose proof (Z.mod_pos_bound (maximumDelay ba) delta Hd).
  pose proof (Z.div_pos (maximumDelay ba) delta Hdelay Hd). nia.
Qed.

(** The delay caused by retrying is bounded by the maximum delay plus one
    interval: every sleep starts before the deadline and lasts no longer than the
    larger of the two configured intervals. *)
Theorem sleeps_bounded {A} (call : st W (res err A)) rs w l r w' i rs1 w1 e w2 rs2 w3 :
  attempts ba call rs w l r w' ->
  interval rs = initialInterval ba ->
  0 < initialInterval ba < 2 ^ 62 -> 0 < maximumInterval ba < 2 ^ 62 ->
  l !! i = Some (rs1, w1) -> call w1 = (Err e, w2) -> maybeSleep ba rs1 e w2 = ((false, rs2), w3) ->
  time w2 <= endTime rs /\
  exists d w4, wait_for_timer d w4 = (true, w3) /\
    0 <= d <= Z.max (initialInterval ba) (maximumInterval ba).
Proof using RL.
  intros Hatt Hint Hinit Hmax Hi Hc Hs.
  rewrite <-(attempts_endTime _ _ _ _ _ _ _ _ _ Hatt Hi).
  assert (0 < interval rs1 <= Z.max (initialInterval ba) (maximumInterval ba)) as Hrange.
  { assert (forall i, l !! i = Some (rs1, w1) -> 0 < interval rs <= Z.max (initialInterval ba) (maximumInterval ba) ->
      0 < interval rs1 <= Z.max (initialInterval ba) (maximumInterval ba)) as Hgen.
    { clear - RL Hatt Hinit Hmax.
      induction Hatt as [rs w a w' Hc|rs w e w2 rs' w' Hc Hs|rs w e w2 rs' w3 l r w' Hc Hs Hatt IH];
        intros [|i] Hi Hr; cbn in Hi; try (by injection Hi as <- _); try done.
      apply (IH i Hi). apply maybeSleep_retry in Hs as (_ & _ & -> & _). cbn. unfold next_interval.
      case_bool_decide; [lia|]. rewrite i64_id in * by lia. lia. }
    apply (Hgen i Hi). lia. }
  apply maybeSleep_retry in Hs as (_ & Hle & _ & d & w4 & -> & Hw & _). split; [done|].
  eexists _, w4. split; [exact Hw|]. pose proof (Duration_range (interval rs1) (clock_Now w2).2). lia.
Qed.
End Policy.

(** ** A concrete environment

    The state is the time. Random durations are as long as they can be, timers
    are exact, and the storage is unavailable. *)

Module ExampleRetrying.
Import ErrorTree.

#[export] Instance environment : RetryEnvironment Z := {|
  clock_Now t := (t, t);
  random_Duration d t := (d, t);
  errorLogger_Log _ t := (tt, t);
  wait_for_timer d t := (true, t + d);
|}.

#[export] Instance laws : RetryLaws environment.
Proof.
  refine {| time t := t |}; cbn; intros; try lia.
Defined.

Definition unavailable : err := status_Error Unavailable "Server offline".
Definition call : st Z (res err unit) := fun t => (Err unavailable, t + 1).

Definition second : Z := 10 ^ 9.

(** The configuration of bb_clientd, with a maximum delay of 32 seconds. *)
Definition config : errorRetryingBlobAccess :=
  {| initialInterval := second; maximumInterval := 30 * second; maximumDelay := 32 * second |}.

Definition run (fuel : nat) : option (res err unit) * Z :=
  let '(rs, w) := getRetryState config 0 in retry_loop config fuel call rs w.

Definition rs0 : retryState := {| endTime := 32 * second; interval := second |}.
Definition rs1 : retryState := {| endTime := 32 * second; interval := 2 * second |}.

(** Retrying can take much longer than the maximum delay, since the deadline
    is only looked at before a sleep: with a maximum delay of 32 seconds, the
    operation fails 61 seconds after it started, all of which but 7 nanoseconds
    were spent sleeping. *)
Theorem delay_overshoot :
  exists w, run 10 = (Some (Err unavailable), w) /\ w = 61 * second + 7 /\
    29 * second < w - maximumDelay config.
Proof. eexists. split; [vm_compute; reflexivity|]. split; vm_compute; reflexivity. Qed.

Lemma retry_policy_witness :
  exists l, attempts config call rs0 0 l (Err unavailable) (61 * second + 7) /\ (length l <= 10)%nat.
Proof.
  destruct (retry_policy laws config 10 call rs0 0 (Err unavailable) (61 * second + 7)) as (l & H1 & H2 & _).
  - vm_compute. reflexivity.
  - exists l. split; [exact H1|exact H2].
Defined.

(** A request that fails once. *)
Definition call_once : st Z (res err unit) := fun t =>
  if bool_decide (t = 0) then (Err unavailable, t + 1) else (Ok tt, t + 1).
Definition two_attempts : list (retryState * Z) := [(rs0, 0); (rs1, second + 1)].

Lemma attempts_once : attempts config call_once rs0 0 two_attempts (Ok tt) (second + 2).
Proof.
  eapply attempts_retry; [reflexivity|reflexivity|]. apply attempts_success. reflexivity.
Qed.

Lemma backoff_witness : interval rs1 = Z.min (second * 2 ^ Z.of_nat 1) (30 * second).
Proof.
  refine (proj1 (backoff laws config call_once rs0 0 two_attempts (Ok tt) (second + 2) 1 rs1 (second + 1)
    attempts_once eq_refl _ _ eq_refl)); split; reflexivity.
Defined.

Lemma retry_terminates_witness :
  exists r w', (let '(rs, w) := getRetryState config 0 in
    retry_loop config (Z.to_nat (maximumDelay config / (32 * second)) + 2)
      (fun t => (Err unavailable : res err unit, t + 32 * second)) rs w) = (Some r, w').
Proof.
  apply (retry_terminates laws config (fun t => (Err unavailable : res err unit, t + 32 * second)) (32 * second) 0).
  - reflexivity.
  - intros w. cbn. lia.
  - discriminate.
  - split; reflexivity.
  - split; reflexivity.
Defined.

Lemma sleeps_bounded_witness :
  1 <= endTime rs0 /\ exists d w4, wait_for_timer d w4 = (true, second + 1) /\ 0 <= d <= 30 * second.
Proof.
  refine (sleeps_bounded laws config call_once rs0 0 two_attempts (Ok tt) (second + 2) 0 rs0 0 unavailable 1
    rs1 (second + 1) attempts_once eq_refl _ _ eq_refl _ _); try (split; reflexivity); reflexivity.
Defined.
End ExampleRetrying.
