(* ===== verification/FilterMissing.v ===== *)
(** * Removing missing files when a build starts

    [findMissingAndRemove] and [filterMissingChildren] of
    [pkg/filesystem/virtual/bazel_output_service_directory.go]: at the start of a
    build, the contents of the output path that are absent from the Content
    Addressable Storage are removed. *)

From S2P Require Import Prelude Errors StateFile Virtual Examples.
Local Open Scope Z_scope.

(** What is called, on the state [W] of the storage and the output path. *)
Class FilterEnvironment {E : Errors} {D : DigestLib} (W : Type) : Type := {
  (** [virtual.InitialChild], along with the [virtual.ChildRemover] that is
      passed with it *)
  Child : Type;
  remove : Child -> st W (option err);
  (** [VirtualApply] of [ApplyGetContainingDigests]: [None] if the child does not
      support it, and the items of the set otherwise *)
  GetContainingDigests : Child -> st W (option (res err (list Digest)));
  (** [PrepopulatedDirectory.FilterChildren], for a callback that keeps some state
      of its own *)
  Directory : Type;
  FilterChildren : forall {X : Type}, Directory -> (Child -> st (X * W) bool) -> st (X * W) (option err);
  (** [FindMissing] of the storage that does not retry; the items of the set *)
  FindMissing : gset Digest -> st W (res err (list Digest));
  RecommendedFindMissingDigestsCount : nat;
}.

Section FilterMissing.
Context {E : Errors} {D : DigestLib} {W : Type} {FE : FilterEnvironment W}.

(** Digests with the functions that remove the children that depend on them. *)
Abbreviation Queue := (gmap Digest (list Child)).

Fixpoint remove_children (blobDigest : Digest) (cs : list Child) : st W (option err) := fun w =>
  match cs with
  | [] => (None, w)
  | c :: cs =>
      match remove c w with
      | (Some e, w) => (Some (StatusWrapf e "Failed to remove file with digest %#v"
            [FStr (Digest_String blobDigest)]), w)
      | (None, w) => remove_children blobDigest cs w
      end
  end.

Fixpoint remove_missing (queue : Queue) (missing : list Digest) : st W (option err) := fun w =>
  match missing with
  | [] => (None, w)
  | d :: missing =>
      match remove_children d (default [] (queue !! d)) w with
      | (Some e, w) => (Some e, w)
      | (None, w) => remove_missing queue missing w
      end
  end.

Definition findMissingAndRemove (queue : Queue) : st W (option err) := fun w =>
  match FindMissing (dom queue) w with
  | (Err e, w) => (Some (StatusWrap e "Failed to find missing blobs"), w)
  | (Ok missing, w) => remove_missing queue missing w
  end.

(** The variables that the callback captures. *)
Record filterState : Type := {
  queue : Queue;
  savedErr : option err;
}.

(** The loop that queues the digests of a child. The result tells whether to
    continue. *)
Fixpoint enqueue (child : Child) (blobDigests : list Digest) : st (filterState * W) bool := fun s =>
  match blobDigests with
  | [] => (true, s)
  | d :: blobDigests =>
      let add (q : Queue) w :=
        enqueue child blobDigests
          ({| queue := <[d := default [] (q !! d) ++ [child]]> q; savedErr := savedErr s.1 |}, w) in
      if bool_decide (RecommendedFindMissingDigestsCount <= size (queue s.1))%nat then
        match findMissingAndRemove (queue s.1) s.2 with
        | (Some e, w) => (false, ({| queue := queue s.1; savedErr := Some e |}, w))
        | (None, w) => add ∅ w
        end
      else add (queue s.1) s.2
  end.

Definition save_error (e : err) (s : filterState * W) : filterState * W :=
  ({| queue := queue s.1; savedErr := Some e |}, s.2).

(** The callback of [FilterChildren]. *)
Definition filter_child (digestFunction : DigestFunction) (child : Child) : st (filterState * W) bool :=
  fun s =>
  let '(p, w) := GetContainingDigests child s.2 in
  let s := (s.1, w) in
  match p with
  | None => (true, s)
  | Some (Err e) =>
      if decide (status_Code e <> NotFound) then (false, save_error e s)
      else
        match remove child w with
        | (Some e, w) => (false, save_error (StatusWrap e "Failed to remove non-existent directory") (s.1, w))
        | (None, w) => (true, (s.1, w))
        end
  | Some (Ok blobDigests) =>
      match List.find (fun d => negb (UsesDigestFunction d digestFunction)) blobDigests with
      | Some d =>
          match remove child w with
          | (Some e, w) => (false, save_error (StatusWrapf e
              "Failed to remove file with different instance name or digest function with digest %#v"
              [FStr (Digest_String d)]) (s.1, w))
          | (None, w) => (true, (s.1, w))
          end
      | None => enqueue child blobDigests s
      end
  end.

Definition filterMissingChildren (rootDirectory : Directory) (digestFunction : DigestFunction)
  : st W (option err) := fun w =>
  let '(e, (s, w)) := FilterChildren rootDirectory (filter_child digestFunction)
                        ({| queue := ∅; savedErr := None |}, w) in
  match e with
  | Some e => (Some e, w)
  | None =>
      match savedErr s with
      | Some e => (Some e, w)
      | None =>
          if bool_decide (0 < size (queue s))%nat then findMissingAndRemove (queue s) w
          else (None, w)
      end
  end.

(** ** Traversals *)

(** A callback is called for one child after the other until it returns false. *)
Fixpoint visit {X : Type} (f : Child -> st X bool) (cs : list Child) (s : X) : X :=
  match cs with
  | [] => s
  | c :: cs => let '(continue, s) := f c s in if continue then visit f cs s else s
  end.
End FilterMissing.

(** What the storage and the directory promise while children are filtered: the
    set of missing digests and those that children depend on do not change. *)
Class FilterLaws {E : Errors} {D : DigestLib} {W : Type} (FE : FilterEnvironment W) : Type := {
  children : Directory -> W -> list Child;
  digests_of : Child -> option (res err (list Digest));
  is_missing : Digest -> bool;
  removed : W -> Child -> Prop;
  GetContainingDigests_spec c w :
    GetContainingDigests c w = (digests_of c, (GetContainingDigests c w).2) /\
    forall x, removed (GetContainingDigests c w).2 x <-> removed w x;
  remove_spec c w w' : remove c w = (None, w') -> forall x, removed w' x <-> removed w x \/ x = c;
  FindMissing_spec ds w missing w' : FindMissing ds w = (Ok missing, w') ->
    (forall d, d ∈ missing <-> d ∈ ds /\ is_missing d = true) /\
    forall x, removed w' x <-> removed w x;
  FilterChildren_spec X dir (f : Child -> st (X * W) bool) s e s' :
    FilterChildren dir f s = (e, s') ->
    exists cs, s' = visit f cs s /\ (e = None -> cs = children dir s.2);
  RecommendedFindMissingDigestsCount_pos : (0 < RecommendedFindMissingDigestsCount)%nat;
}.

Section Correctness.
Context {E : Errors} {D : DigestLib} {W : Type} {FE : FilterEnvironment W} (FL : FilterLaws FE).
Context (digestFunction : DigestFunction).
Abbreviation Queue := (gmap Digest (list Child)).

(** The children that have to go: those whose digests refer to another instance
    or function or are missing, and directories that cannot be found. *)
Definition should_remove (c : Child) : Prop :=
  match digests_of c with
  | None => False
  | Some (Err e) => status_Code e = NotFound
  | Some (Ok ds) =>
      (exists d, d ∈ ds /\ UsesDigestFunction d digestFunction = false) \/
      (exists d, d ∈ ds /\ is_missing d = true)
  end.

(** The children that will be removed on account of the queue. *)
Definition queued (q : Queue) (c : Child) : Prop :=
  exists d, is_missing d = true /\ c ∈ default [] (q !! d).

Lemma remove_children_spec d cs w w' :
  remove_children d cs w = (None, w') -> forall x, removed w' x <-> removed w x \/ x ∈ cs.
Proof using FL.
  revert w. induction cs as [|c cs IH]; intros w; cbn.
  { intros [= <-] x. rewrite elem_of_nil. tauto. }
  destruct (remove c w) as [[e|] w1] eqn:Hr; [done|]. intros Hc x.
  rewrite (IH _ Hc), (remove_spec _ _ _ Hr), elem_of_cons. tauto.
Qed.

Lemma remove_missing_spec q missing w w' :
  remove_missing q missing w = (None, w') ->
  forall x, removed w' x <-> removed w x \/ exists d, d ∈ missing /\ x ∈ default [] (q !! d).
Proof using FL.
  revert w. induction missing as [|d missing IH]; intros w; cbn.
  { intros [= <-] x. split; [by left|]. intros [?|(d & Hd & _)]; [done|]. by apply not_elem_of_nil in Hd. }
  destruct (remove_children d _ w) as [[e|] w1] eqn:Hr; [done|]. intros Hm x.
  rewrite (IH _ Hm), (remove_children_spec _ _ _ _ Hr). setoid_rewrite elem_of_cons. naive_solver.
Qed.

Lemma findMissingAndRemove_spec q w w' :
  findMissingAndRemove q w = (None, w') ->
  forall x, removed w' x <-> removed w x \/ queued q x.
Proof using FL.
  unfold findMissingAndRemove. destruct (FindMissing (dom q) w) as [[missing|] w1] eqn:Hf; [|done].
  destruct (FindMissing_spec _ _ _ _ Hf) as [Hm Hrem]. intros Hr x.
  rewrite (remove_missing_spec _ _ _ _ Hr), Hrem. unfold queued. setoid_rewrite Hm.
  split; [intros [?|(d & [_ Hd] & Hx)]; [by left|right; by exists d]|].
  intros [?|(d & Hd & Hx)]; [by left|right].
  assert (d ∈ dom q) as Hq.
  { apply elem_of_dom. destruct (q !! d) as [cs|] eqn:Hq; [by exists cs|]. by apply not_elem_of_nil in Hx. }
  by exists d.
Qed.

Lemma queued_insert q d c x :
  queued (<[d := default [] (q !! d) ++ [c]]> q) x <->
  queued q x \/ (is_missing d = true /\ x = c).
Proof using.
  unfold queued. split.
  - intros (d' & Hd' & Hx). destruct (decide (d = d')) as [<-|Hne].
    + rewrite lookup_insert_eq in Hx. cbn in Hx. apply elem_of_app in Hx as [Hx|Hx].
      * left. by exists d.
      * apply list_elem_of_singleton in Hx. by right.
    + rewrite lookup_insert_ne in Hx by done. left. by exists d'.
  - intros [(d' & Hd' & Hx)|[Hd ->]].
    + exists d'. split; [done|]. destruct (decide (d = d')) as [<-|Hne].
      * rewrite lookup_insert_eq. cbn. apply elem_of_app. by left.
      * by rewrite lookup_insert_ne.
    + exists d. split; [done|]. rewrite lookup_insert_eq. cbn. apply elem_of_app. right. by left.
Qed.

(** Everything that has been removed or is going to be, given the queue. *)
Definition doomed (s : filterState * W) (x : Child) : Prop := removed s.2 x \/ queued (queue s.1) x.

Lemma enqueue_spec c ds s s' :
  enqueue c ds s = (true, s') ->
  savedErr s'.1 = savedErr s.1 /\
  forall x, doomed s' x <-> doomed s x \/ (x = c /\ exists d, d ∈ ds /\ is_missing d = true).
Proof using FL.
  revert s. induction ds as [|d ds IH]; intros s; cbn.
  { intros [= <-]. split; [done|]. intros x. setoid_rewrite elem_of_nil. naive_solver. }
  case_bool_decide.
  - destruct (findMissingAndRemove (queue s.1) s.2) as [[e|] w] eqn:Hf; [done|]. intros Heq.
    destruct (IH _ Heq) as [Herr Hd]. split; [done|]. intros x. rewrite Hd.
    pose proof (findMissingAndRemove_spec _ _ _ Hf x) as Hx. unfold doomed. cbn [fst snd queue].
    rewrite (queued_insert ∅), Hx. setoid_rewrite elem_of_cons.
    assert (queued ∅ x <-> False) as Hq.
    { split; [|done]. intros (d' & _ & Hin). rewrite lookup_empty in Hin. by apply not_elem_of_nil in Hin. }
    naive_solver.
  - intros Heq. destruct (IH _ Heq) as [Herr Hd]. split; [done|]. intros x. rewrite Hd.
    unfold doomed. cbn [fst snd queue]. rewrite queued_insert. setoid_rewrite elem_of_cons. naive_solver.
Qed.

Lemma enqueue_false c ds s s' : enqueue c ds s = (false, s') -> is_Some (savedErr s'.1).
Proof using.
  revert s. induction ds as [|d ds IH]; intros s; cbn; [done|]. case_bool_decide; [|apply IH].
  destruct (findMissingAndRemove (queue s.1) s.2) as [[e|] w]; [|apply IH]. intros [= <-]. by eexists.
Qed.

(** Children whose digests could not be computed. *)
Definition unreadable (c : Child) : Prop :=
  exists e, digests_of c = Some (Err e) /\ status_Code e <> NotFound.

Lemma find_uses ds :
  match List.find (fun d => negb (UsesDigestFunction d digestFunction)) ds with
  | Some d => d ∈ ds /\ UsesDigestFunction d digestFunction = false
  | None => forall d, d ∈ ds -> UsesDigestFunction d digestFunction = true
  end.
Proof using.
  destruct (List.find _ ds) as [d|] eqn:Hf.
  - apply List.find_some in Hf as [Hin Hd%negb_true_iff]. by rewrite <-list_elem_of_In in Hin.
  - intros d Hd. apply list_elem_of_In in Hd.
    pose proof (List.find_none _ _ Hf d Hd) as Hn. by apply negb_false_iff in Hn.
Qed.

Lemma filter_child_spec c s continue s' :
  filter_child digestFunction c s = (continue, s') ->
  (continue = false -> is_Some (savedErr s'.1)) /\
  (continue = true -> savedErr s'.1 = savedErr s.1 /\ ~ unreadable c /\
     forall x, doomed s' x <-> doomed s x \/ (x = c /\ should_remove c)).
Proof using FL.
  unfold filter_child. destruct (GetContainingDigests_spec c s.2) as [Hg Hrem]. rewrite Hg.
  set (w1 := (GetContainingDigests c s.2).2) in *.
  assert (forall x, doomed (s.1, w1) x <-> doomed s x) as Hd1.
  { intros x. unfold doomed. cbn. by rewrite Hrem. }
  unfold should_remove, unreadable. destruct (digests_of c) as [[ds|e]|].
  - pose proof (find_uses ds) as Hf. destruct (List.find _ ds) as [d|].
    + destruct Hf as [Hin Hd]. destruct (remove c w1) as [[e|] w2] eqn:Hr; intros [= <- <-].
      { split; [|done]. intros _. by eexists. }
      split; [done|]. intros _. split; [done|]. split; [by intros (? & ? & _)|]. intros x.
      pose proof (remove_spec _ _ _ Hr x) as Hx. unfold doomed in *. cbn in *. rewrite Hx.
      specialize (Hd1 x). split; [|naive_solver]. intros [[? | ->]|?]; [naive_solver| |naive_solver].
      right. split; [done|]. left. by exists d.
    + intros Heq. split; [intros ->; by eapply enqueue_false|]. intros ->.
      destruct (enqueue_spec _ _ _ _ Heq) as [Herr Hd]. split; [done|].
      split; [by intros (? & ? & _)|]. intros x. rewrite Hd, Hd1.
      split; [naive_solver|]. intros [?|[-> [(d & Hin & Hu)|?]]]; [by left| |naive_solver].
      by rewrite (Hf d Hin) in Hu.
  - case_decide as He; [intros [= <- <-]; split; [|done]; intros _; by eexists|].
    destruct (remove c w1) as [[e'|] w2] eqn:Hr; intros [= <- <-].
    { split; [|done]. intros _. by eexists. }
    split; [done|]. intros _. split; [done|]. split; [by intros (e1 & [= ->] & ?)|]. intros x.
    pose proof (remove_spec _ _ _ Hr x) as Hx. unfold doomed in *. cbn in *. rewrite Hx.
    specialize (Hd1 x). naive_solver.
  - intros [= <- <-]. split; [done|]. intros _. split; [done|]. split; [by intros (? & ? & _)|].
    intros x. rewrite Hd1. naive_solver.
Qed.

Lemma visit_spec cs s :
  savedErr s.1 = None -> savedErr (visit (filter_child digestFunction) cs s).1 = None ->
  (forall c, c ∈ cs -> ~ unreadable c) /\
  forall x, doomed (visit (filter_child digestFunction) cs s) x <->
    doomed s x \/ (x ∈ cs /\ should_remove x).
Proof using FL.
  revert s. induction cs as [|c cs IH]; intros s Hs; cbn.
  { intros _. split; [by intros c Hc%not_elem_of_nil|]. intros x. rewrite elem_of_nil. tauto. }
  destruct (filter_child digestFunction c s) as [[] s1] eqn:Hf;
    apply filter_child_spec in Hf as [Hfalse Htrue].
  - destruct (Htrue eq_refl) as (Herr & Hun & Hd). intros Hs'.
    destruct (IH s1 ltac:(congruence) Hs') as [Hun' Hd']. split.
    + intros c' [->|Hc']%elem_of_cons; [done|by apply Hun'].
    + intros x. rewrite Hd', Hd, elem_of_cons. naive_solver.
  - destruct (Hfalse eq_refl) as [e He]. congruence.
Qed.

Lemma filterMissingChildren_removes dir w w' :
  filterMissingChildren dir digestFunction w = (None, w') ->
  (forall c, c ∈ children dir w -> ~ unreadable c) /\
  forall x, removed w' x <-> removed w x \/ (x ∈ children dir w /\ should_remove x).
Proof using FL.
  unfold filterMissingChildren.
  destruct (FilterChildren dir _ _) as [[e|] s1] eqn:HF; [by destruct s1|].
  apply FilterChildren_spec in HF as (cs & HF & Hcs). rewrite Hcs in HF by done. cbn [snd] in HF.
  destruct s1 as [s1 w1]. destruct (savedErr s1) as [e|] eqn:Herr; [done|].
  destruct (visit_spec (children dir w) ({| queue := ∅; savedErr := None |}, w) eq_refl) as [Hun Hd].
  { by rewrite <-HF. }
  rewrite <-HF in Hd. intros Hfin. split; [done|]. intros x.
  assert (doomed ({| queue := ∅; savedErr := None |}, w) x <-> removed w x) as H0.
  { unfold doomed, queued. cbn. split; [|by left]. intros [?|(d & _ & Hx)]; [done|].
    rewrite lookup_empty in Hx. by apply not_elem_of_nil in Hx. }
  rewrite <-H0, <-Hd. unfold doomed. cbn. case_bool_decide as Hsz.
  - by rewrite (findMissingAndRemove_spec _ _ _ Hfin).
  - injection Hfin as <-. assert (queue s1 = ∅) as Hq by (apply map_size_empty_inv; lia).
    rewrite Hq. unfold queued. split; [by left|]. intros [?|(d & _ & Hx)]; [done|].
    rewrite lookup_empty in Hx. by apply not_elem_of_nil in Hx.
Qed.

(** C8. When filtering reports no error, exactly the right children have been
    removed: those that are absent from the storage, those that belong to another
    instance name or digest function, and directories that cannot be found. All
    other children are left alone, and there is none whose digests could not be
    computed for another reason. *)
Theorem filterMissingChildren_correct dir w w' :
  filterMissingChildren dir digestFunction w = (None, w') ->
  (forall c, c ∈ children dir w -> ~ unreadable c) /\
  forall x, removed w' x <-> removed w x \/ (x ∈ children dir w /\ should_remove x).
Proof using FL. apply filterMissingChildren_removes. Qed.
End Correctness.

(** ** The size of batches *)

Section Batches.
Context {E : Errors} {D : DigestLib} {W : Type} (FE : FilterEnvironment W).

(** The same environment, which also records the number of digests of every call
    to [FindMissing]. *)
#[local] Instance logged : FilterEnvironment (W * list nat) := {
  Child := Child;
  remove c '(w, l) := let '(e, w) := remove c w in (e, (w, l));
  GetContainingDigests c '(w, l) := let '(r, w) := GetContainingDigests c w in (r, (w, l));
  Directory := Directory;
  FilterChildren X dir f '(x, (w, l)) :=
    let '(e, (x, l, w)) :=
      FilterChildren dir
        (fun c '(x, l, w) => let '(b, (x, (w, l))) := f c (x, (w, l)) in (b, (x, l, w))) (x, l, w) in
    (e, (x, (w, l)));
  FindMissing ds '(w, l) := let '(r, w) := FindMissing ds w in (r, (w, l ++ [size ds]));
  RecommendedFindMissingDigestsCount := RecommendedFindMissingDigestsCount;
}.

Definition small (n : nat) : Prop := (0 < n <= RecommendedFindMissingDigestsCount (W:=W))%nat.

Lemma remove_children_log d cs w l e w' l' :
  remove_children d cs (w, l) = (e, (w', l')) -> l' = l.
Proof using.
  revert w. induction cs as [|c cs IH]; intros w; cbn; [by intros [= _ _ <-]|].
  destruct (remove (W:=W) c w) as [[e'|] w1]; [by intros [= _ _ <-]|]. apply IH.
Qed.

Lemma remove_missing_log q ds w l e w' l' :
  remove_missing q ds (w, l) = (e, (w', l')) -> l' = l.
Proof using.
  revert w. induction ds as [|d ds IH]; intros w; cbn; [by intros [= _ _ <-]|].
  destruct (remove_children d _ (w, l)) as [e1 [w1 l1]] eqn:Hr.
  apply remove_children_log in Hr as ->. destruct e1; [by intros [= _ _ <-]|]. apply IH.
Qed.

Lemma findMissingAndRemove_log q w l e w' l' :
  findMissingAndRemove q (w, l) = (e, (w', l')) -> l' = l ++ [size q].
Proof using.
  unfold findMissingAndRemove.
  assert (size (dom (D:=gset Digest) q) = size q) as <- by apply size_dom.
  generalize (dom (D:=gset Digest) q) as ds. intros ds. cbn.
  destruct (FindMissing (W:=W) ds w) as [[missing|e1] w1]; [|by intros [= _ _ <-]].
  apply remove_missing_log.
Qed.

(** Between children, there is room in the queue for what it holds, and the calls
    made so far were small. *)
Definition room (s : filterState (FE:=logged) * (W * list nat)) : Prop :=
  (size (queue s.1) <= RecommendedFindMissingDigestsCount (W:=W))%nat /\ Forall small s.2.2.

Lemma enqueue_room c ds s :
  (0 < RecommendedFindMissingDigestsCount (W:=W))%nat -> room s -> room (enqueue c ds s).2.
Proof using.
  intros Hpos. revert s. induction ds as [|d ds IH]; intros [s [w l]]; [done|].
  intros [Hq Hl]. cbn [enqueue fst snd]. case_bool_decide as Hfull.
  - destruct (findMissingAndRemove _ _) as [e [w1 l1]] eqn:Hf.
    apply findMissingAndRemove_log in Hf as ->.
    assert (Forall small (l ++ [size (queue s)])) as Hl'.
    { apply Forall_app. split; [done|]. apply Forall_singleton.
      split; [exact (Nat.lt_le_trans _ _ _ Hpos Hfull)|exact Hq]. }
    destruct e; [done|]. apply IH. split; [|done]. cbn [fst queue]. rewrite map_size_insert, lookup_empty.
    rewrite map_size_empty. exact Hpos.
  - apply IH. split; [|done]. cbn [fst queue]. rewrite map_size_insert.
    case_match; [exact Hq|]. apply Nat.nle_gt. exact Hfull.
Qed.

Lemma filter_child_room df c s :
  (0 < RecommendedFindMissingDigestsCount (W:=W))%nat -> room s -> room (filter_child df c s).2.
Proof using.
  intros Hpos. destruct s as [s [w l]]. intros Hs. unfold filter_child. cbn.
  destruct (GetContainingDigests (W:=W) c w) as [[[ds|e]|] w1]; [| |done].
  - destruct (List.find _ ds) as [d|]; [|by apply enqueue_room].
    cbn. by destruct (remove (W:=W) c w1) as [[e|] w2].
  - case_decide; [done|].
    cbn. by destruct (remove (W:=W) c w1) as [[e'|] w2].
Qed.

Lemma visit_room df cs s :
  (0 < RecommendedFindMissingDigestsCount (W:=W))%nat ->
  room s -> room (visit (filter_child df) cs s).
Proof using.
  intros Hpos. revert s. induction cs as [|c cs IH]; intros s Hs; [done|]. cbn [visit].
  pose proof (filter_child_room df c s Hpos Hs) as Hc.
  destruct (filter_child df c s) as [[] s1]; [by apply IH|done].
Qed.

(** [visit] for the callback that [FilterChildren] passes on. *)
Lemma visit_transport {X} (f : Child (W:=W) -> st (X * (W * list nat)) bool) cs x w l :
  visit (fun c '(x, l, w) => let '(b, (x, (w, l))) := f c (x, (w, l)) in (b, (x, l, w))) cs (x, l, w) =
  let '(x, (w, l)) := visit (FE:=logged) f cs (x, (w, l)) in (x, l, w).
Proof using.
  revert x w l. induction cs as [|c cs IH]; intros x w l; cbn; [done|].
  destruct (f c (x, (w, l))) as [[] [x1 [w1 l1]]]; [apply IH|done].
Qed.

(** C35. Whatever the outcome, no request for missing digests is empty or exceeds
    the recommended number of digests. *)
Theorem FindMissing_batches (FL : FilterLaws FE) digestFunction dir w e w' l' :
  filterMissingChildren (FE:=logged) dir digestFunction (w, []) = (e, (w', l')) ->
  Forall small l'.
Proof using.
  pose proof RecommendedFindMissingDigestsCount_pos as Hpos.
  unfold filterMissingChildren. cbn.
  destruct (FilterChildren (W:=W) dir _ _) as [e1 [[s1 l1] w1]] eqn:HF.
  apply FilterChildren_spec in HF as (cs & HF & _). rewrite visit_transport in HF.
  pose proof (visit_room digestFunction cs ({| queue := ∅; savedErr := None |}, (w, [])) Hpos) as Hroom.
  set (sf := visit (FE:=logged) (filter_child digestFunction) cs _) in Hroom.
  change ((s1, l1, w1) = let '(x, (w, l)) := sf in (x, l, w)) in HF.
  clearbody sf. destruct sf as [s2 [w2 l2]]. injection HF as -> -> ->.
  destruct Hroom as [Hq Hl]; [split; [apply Nat.le_0_l|apply Forall_nil_2]|]. cbn in Hl.
  destruct e1; [by intros [= _ _ <-]|]. destruct (savedErr s2); [by intros [= _ _ <-]|].
  case_bool_decide as Hsize; [|by intros [= _ _ <-]].
  intros ->%findMissingAndRemove_log. apply Forall_app. split; [done|].
  apply Forall_singleton. split; [exact Hsize|exact Hq].
Qed.
End Batches.

(** ** A concrete output path *)

Module ExampleFilter.
Import ErrorTree ExampleDigest.

(** Children with the digests they depend on; the state is the list of the ones
    that were removed. *)
Definition child : Type := string * option (res tree (list digest)).

Definition gone (d : digest) : bool := bool_decide (d_hash d = "gone").

#[export] Instance environment : FilterEnvironment (D:=digests) (list child) := {
  Child := child;
  remove c w := (None, c :: w);
  GetContainingDigests c w := (c.2, w);
  Directory := list child;
  FilterChildren X dir f s :=
    (None, (fix go (cs : list child) s :=
       match cs with
       | [] => s
       | c :: cs => let '(continue, s) := f c s in if continue then go cs s else s
       end) dir s);
  FindMissing ds w := (Ok (filter (fun d => gone d = true) (elements ds)), w);
  RecommendedFindMissingDigestsCount := 2;
}.

#[export] Instance laws : FilterLaws environment.
Proof.
  unshelve eapply Build_FilterLaws.
  - exact (fun dir _ => dir).
  - exact snd.
  - exact gone.
  - exact (fun w c => c ∈ w).
  - done.
  - intros c w w' [= <-] x. rewrite elem_of_cons. tauto.
  - intros ds w missing w' [= <- <-]. split; [|done]. intros d.
    rewrite list_elem_of_filter, elem_of_elements. tauto.
  - intros X dir f s e s' [= <- <-]. exists dir. split; [|done].
    revert s. induction dir as [|c cs IH]; intros s; [done|]. cbn [visit].
    destruct (f c s) as [[] s1]; [apply IH|done].
  - cbn. lia.
Defined.

Definition d (f h : string) : digest := {| d_function := f; d_hash := h; d_size := 1 |}.
Definition fine : child := ("fine", Some (Ok [d "sha256" "x"; d "sha256" "y"])).
Definition broken : child := ("broken", Some (Ok [d "sha256" "z"; d "sha256" "gone"])).
Definition foreign : child := ("foreign", Some (Ok [d "md5" "v"])).
Definition absent : child := ("absent", Some (Err (status_Error NotFound "Directory not found"))).
Definition other : child := ("other", None).
Definition dir : list child := [fine; broken; foreign; absent; other].

Lemma filterMissingChildren_correct_witness :
  (forall c, c ∈ children (FE:=environment) dir [] -> ~ unreadable laws c) /\
  forall x, removed (FE:=environment) [broken; absent; foreign] x <->
    removed (FE:=environment) [] x \/
    (x ∈ children (FE:=environment) dir [] /\ should_remove laws "sha256" x).
Proof.
  apply (filterMissingChildren_correct laws "sha256" dir []). vm_compute. reflexivity.
Defined.

Lemma FindMissing_batches_witness :
  filterMissingChildren (FE:=logged environment) dir "sha256" ([], []) =
    (None, ([broken; absent; foreign], [2; 2]%nat)) /\
  Forall (small environment) [2; 2]%nat.
Proof.
  split; [vm_compute; reflexivity|].
  apply (FindMissing_batches environment laws "sha256" dir [] None [broken; absent; foreign]).
  vm_compute. reflexivity.
Defined.
End ExampleFilter.
