(* ===== verification/TreeWalker.v ===== *)
(** * Directories of the Content Addressable Storage

    The REv2 [Directory] message and the interface of bb-remote-execution's
    [cas.DirectoryFetcher], along with the directory walker of
    [pkg/cas/tree_directory_walker.go]. *)

From S2P Require Import Prelude Errors StateFile Virtual.
Local Open Scope Z_scope.

(** ** The messages

    [remoteexecution.DirectoryNode] and [remoteexecution.Directory]. The nodes for
    files and symbolic links have the fields of those in state files. *)

Record REDirectoryNode : Type := { rdn_Name : string; rdn_Digest : option ProtoDigest }.

Record REDirectory : Type := {
  re_Files : list FileNode;
  re_Directories : list REDirectoryNode;
  re_Symlinks : list SymlinkNode;
}.

(** ** [cas.DirectoryFetcher] *)

Class DirectoryFetcher {E : Errors} {D : DigestLib} (W : Type) : Type := {
  GetDirectory : Digest -> st W (res err REDirectory);
  GetTreeRootDirectory : Digest -> st W (res err REDirectory);
  GetTreeChildDirectory : Digest -> Digest -> st W (res err REDirectory);
}.

Section TreeWalker.
Context {E : Errors} {D : DigestLib} {W : Type} {DF : DirectoryFetcher W}.

(** The two implementations of [cas.DirectoryWalker]: the root directory of the
    tree when its digest is not known, and any other directory of the tree. *)
Inductive treeDirectoryWalker : Type :=
| treeRootDirectoryWalker (treeDigest : Digest)
| treeChildDirectoryWalker (treeDigest childDigest : Digest).

Definition NewTreeDirectoryWalker (treeDigest : Digest) (rootDirectoryDigest : option Digest)
  : treeDirectoryWalker :=
  match rootDirectoryDigest with
  | None => treeRootDirectoryWalker treeDigest
  | Some d => treeChildDirectoryWalker treeDigest d
  end.

Definition GetContainingDigest (dw : treeDirectoryWalker) : Digest :=
  match dw with treeRootDirectoryWalker t => t | treeChildDirectoryWalker t _ => t end.

Definition GetChild (dw : treeDirectoryWalker) (childDigest : Digest) : treeDirectoryWalker :=
  treeChildDirectoryWalker (GetContainingDigest dw) childDigest.

Definition walker_GetDirectory (dw : treeDirectoryWalker) : st W (res err REDirectory) :=
  match dw with
  | treeRootDirectoryWalker t => GetTreeRootDirectory t
  | treeChildDirectoryWalker t c => GetTreeChildDirectory t c
  end.

(** [GetDescription], a format and its arguments *)
Definition GetDescription (dw : treeDirectoryWalker) : string * list fmtarg :=
  match dw with
  | treeRootDirectoryWalker t => ("Tree %#v root directory", [FStr (Digest_String t)])
  | treeChildDirectoryWalker t c =>
      ("Tree %#v child directory %#v", [FStr (Digest_String t); FStr (Digest_String c)])
  end.

(** A walker never leaves its tree. *)
Lemma GetChild_containing dw ds :
  GetContainingDigest (foldl GetChild dw ds) = GetContainingDigest dw.
Proof using. revert dw. induction ds as [|d ds IH]; intros dw; [done|]. cbn. by rewrite IH. Qed.

End TreeWalker.
