(* ===== verification/PathWalk.v ===== *)
(** * Path resolution

    The interfaces of bb-storage's [pkg/filesystem/path], as far as the program
    implements its walkers, and of [util.NonEmptyStack]. *)

From S2P Require Import Prelude Errors Virtual Examples.
Local Open Scope Z_scope.

(** ** Walkers

    The callbacks change the state [X] of the walker, or panic. Those of this
    repository continue with themselves or with [path.VoidComponentWalker]. *)

Definition cb (X A : Type) : Type := X -> outcome (A * X).

Inductive GotDirectoryOrSymlink (Parser : Type) : Type :=
| GotDirectory (IsReversible : bool)
| GotSymlink (Target : Parser).
Arguments GotDirectory {Parser} IsReversible.
Arguments GotSymlink {Parser} Target.

Inductive NextWalker : Type := Self | VoidComponentWalker.

(** [path.Parser], [path.VirtualRootScopeWalkerFactory] and [path.Builder] *)
Class PathTypes : Type := {
  Parser : Type;
  UNIXFormat_NewParser : string -> Parser;
  VirtualRootScopeWalkerFactory : Type;
  Builder : Type;
  Builder_GetUNIXString : Builder -> string;
}.

Record ComponentWalker {E : Errors} {P : PathLib} {PT : PathTypes} (X : Type) : Type := {
  OnDirectory : Component -> cb X (res err (GotDirectoryOrSymlink Parser));
  OnTerminal : Component -> cb X (res err (option Parser));
  OnUp : cb X (res err NextWalker);
}.
Arguments OnDirectory {E P PT X}.
Arguments OnTerminal {E P PT X}.
Arguments OnUp {E P PT X}.

Record ScopeWalker {E : Errors} {P : PathLib} {PT : PathTypes} (X : Type) : Type := {
  OnAbsolute : cb X (res err unit);
  OnRelative : cb X (res err unit);
  OnDriveLetter : Z -> cb X (res err unit);
  OnShare : string -> string -> cb X (res err unit);
  walker : ComponentWalker X;
}.
Arguments OnAbsolute {E P PT X}.
Arguments OnRelative {E P PT X}.
Arguments OnDriveLetter {E P PT X}.
Arguments OnShare {E P PT X}.
Arguments walker {E P PT X}.

(** The functions of the library that the program calls. *)
Class PathResolution {E : Errors} {P : PathLib} {PT : PathTypes} : Type := {
  (** [path.Resolve(p, path.NewRelativeScopeWalker(w))] *)
  Resolve_relative : forall {X}, ComponentWalker X -> Parser -> cb X (option err);
  (** [path.Resolve(p, s)], where [resolvedPath, s = path.EmptyBuilder.Join(
      f.New(path.NewLoopDetectingScopeWalker(w)))], along with [resolvedPath] *)
  Resolve_virtual_root : forall {X},
    VirtualRootScopeWalkerFactory -> ScopeWalker X -> Parser -> cb X (option err * Builder);
  (** [OnTerminal] of [path.TerminalNameTrackingComponentWalker], acting on its
      [TerminalName] *)
  TerminalNameTracking_OnTerminal : Component -> option Component -> option Component;
  (** [path.Resolve(p, s)], where [b, s = path.EmptyBuilder.Join(
      path.NewAbsoluteScopeWalker(path.VoidComponentWalker))]; yields [b] *)
  Resolve_absolute : Parser -> res err Builder;
  (** [suffix, s = path.EmptyBuilder.Join(path.VoidScopeWalker)] and [b, s = b.Join(s)],
      then [c, err = s.OnRelative()] and [c.OnTerminal(name)]; yields [b] and
      [suffix] *)
  Join_terminal : Builder -> Component -> res err (Builder * Builder);
  NewVirtualRootScopeWalkerFactory :
    Builder -> gmap string string -> res err VirtualRootScopeWalkerFactory;
}.

(** [util.NonEmptyStack] *)
Class StackLib : Type := {
  NonEmptyStack : Type -> Type;
  NewNonEmptyStack : forall {A}, A -> NonEmptyStack A;
  Peek : forall {A}, NonEmptyStack A -> A;
  Push : forall {A}, A -> NonEmptyStack A -> NonEmptyStack A;
  (** [None] if there is just one element, which remains *)
  PopSingle : forall {A}, NonEmptyStack A -> option (NonEmptyStack A);
  PopAll : forall {A}, NonEmptyStack A -> NonEmptyStack A;
}.

(** ** What is documented of them

    [items] lists a stack from its top to its bottom. *)
Class StackLaws (SL : StackLib) : Type := {
  items : forall {A}, NonEmptyStack A -> list A;
  items_New A (x : A) : items (NewNonEmptyStack x) = [x];
  items_Peek A (s : NonEmptyStack A) : exists l, items s = Peek s :: l;
  items_Push A (x : A) s : items (Push x s) = x :: items s;
  items_PopSingle A (s : NonEmptyStack A) :
    match PopSingle s with
    | None => length (items s) = 1%nat
    | Some s' => exists x, items s = x :: items s' /\ items s' <> []
    end;
  items_PopAll A (s : NonEmptyStack A) : items (PopAll s) = drop (length (items s) - 1) (items s);
}.

(** ** Stacks of directories

    The stacks of the walkers lead from a root directory to the current one;
    [located d cs] says that [d] is at the path [cs] below that root. *)
Section Stacks.
Context {SL : StackLib} (SLL : StackLaws SL) {C T : Type} (located : T -> list C -> Prop).

Inductive chain : list T -> list C -> Prop :=
| chain_root d : located d [] -> chain [d] []
| chain_cons d l cs c : chain l cs -> located d (cs ++ [c]) -> chain (d :: l) (cs ++ [c]).

Lemma chain_New d : located d [] -> chain (items (NewNonEmptyStack d)) [].
Proof using. rewrite items_New. apply chain_root. Qed.

Lemma chain_Peek s cs : chain (items s) cs -> located (Peek s) cs.
Proof using. destruct (items_Peek T s) as [l ->]. by inversion 1. Qed.

Lemma chain_Push d s cs c :
  chain (items s) cs -> located d (cs ++ [c]) -> chain (items (Push d s)) (cs ++ [c]).
Proof using. intros Hs Hd. rewrite items_Push. by apply chain_cons. Qed.

Lemma chain_PopSingle s cs :
  chain (items s) cs ->
  match PopSingle s with
  | None => cs = []
  | Some s' => cs <> [] /\ chain (items s') (removelast cs)
  end.
Proof using.
  pose proof (items_PopSingle T s) as Hs. intros Hc. destruct (PopSingle s) as [s'|].
  - destruct Hs as (x & Hx & Hne). rewrite Hx in Hc. inversion Hc as [|d l cs' c Hl Hd]; simplify_eq.
    split; [by destruct cs'|]. by rewrite removelast_last.
  - inversion Hc as [d Hd Heq|d l cs' c Hl Hd Heq]; simplify_eq; [done|].
    rewrite <-Heq in Hs. destruct l; [inversion Hl|done].
Qed.

(** What remains is the root. *)
Lemma chain_drop l cs : chain l cs -> chain (drop (length l - 1) l) [].
Proof using.
  induction 1 as [d Hd|d l cs c Hl IH Hd]; [by apply chain_root|].
  assert (l <> []) by (by destruct Hl).
  replace (length (d :: l) - 1)%nat with (S (length l - 1)) by (destruct l; [done|]; cbn; lia).
  exact IH.
Qed.

Lemma chain_PopAll s cs : chain (items s) cs -> chain (items (PopAll s)) [].
Proof using. rewrite items_PopAll. apply chain_drop. Qed.
End Stacks.

Section Walks.
Context {E : Errors} {P : PathLib} {PT : PathTypes} {X : Type}.

(** The states that can be reached by calling a component walker. *)
Inductive called (w : ComponentWalker X) : X -> X -> Prop :=
| called_nil x : called w x x
| called_OnDirectory c x r x1 x2 :
    OnDirectory w c x = Ret (r, x1) -> called w x1 x2 -> called w x x2
| called_OnTerminal c x r x1 x2 :
    OnTerminal w c x = Ret (r, x1) -> called w x1 x2 -> called w x x2
| called_OnUp x r x1 x2 : OnUp w x = Ret (r, x1) -> called w x1 x2 -> called w x x2.

(** A path in terms of the callbacks it gives rise to: the last one is
    [OnTerminal], unless the path ends with a slash or a dot. *)
Inductive piece : Type :=
| Directory_ (c : Component)
| Terminal (c : Component)
| Up.

Inductive path_form : Type :=
| Relative (ps : list piece)
| Absolute (ps : list piece).

(** A path of which more follows denotes a directory. *)
Definition as_directories (ps : list piece) : list piece :=
  (fun p => match p with Terminal c => Directory_ c | _ => p end) <$> ps.

(** The target of a symbolic link, followed by what remains of the path. *)
Definition followed_by (t : path_form) (rest : list piece) : path_form :=
  match t with
  | Relative ps => Relative (as_directories ps ++ rest)
  | Absolute ps => Absolute (as_directories ps ++ rest)
  end.

(** What becomes of a walk: [None] if that is not described here. *)
Definition walk : Type := X -> option (outcome (option err * X)).

(** The calls for the pieces of a path. [follow] goes on when there is a symbolic
    link, given its target and what remains of the path. *)
Fixpoint run (follow : Parser -> list piece -> walk) (w : ComponentWalker X) (ps : list piece) : walk :=
  fun x =>
  match ps with
  | [] => Some (Ret (None, x))
  | Directory_ c :: ps =>
      match OnDirectory w c x with
      | Panic m => Some (Panic m)
      | Ret (Err e, x) => Some (Ret (Some e, x))
      | Ret (Ok (GotDirectory _), x) => run follow w ps x
      | Ret (Ok (GotSymlink t), x) => follow t ps x
      end
  | Terminal c :: _ =>
      match OnTerminal w c x with
      | Panic m => Some (Panic m)
      | Ret (Err e, x) => Some (Ret (Some e, x))
      | Ret (Ok None, x) => Some (Ret (None, x))
      | Ret (Ok (Some _), x) => None
      end
  | Up :: ps =>
      match OnUp w x with
      | Panic m => Some (Panic m)
      | Ret (Err e, x) => Some (Ret (Some e, x))
      | Ret (Ok Self, x) => run follow w ps x
      | Ret (Ok VoidComponentWalker, x) => Some (Ret (None, x))
      end
  end.

(** For paths without symbolic links *)
Definition no_links : Parser -> list piece -> walk := fun _ _ _ => None.

(** Calling the scope walker first. [below] yields what remains of an absolute path
    below the virtual root; it is [None] for a path that stays outside, of which
    nothing is looked up. *)
Definition enter (below : list piece -> option (list piece)) (w : ScopeWalker X)
    (go : list piece -> walk) (t : path_form) : walk := fun x =>
  let continue (r : outcome (res err unit * X)) ps :=
    match r with
    | Panic m => Some (Panic m)
    | Ret (Err e, x) => Some (Ret (Some e, x))
    | Ret (Ok tt, x) => go ps x
    end in
  match t with
  | Relative ps => continue (OnRelative w x) ps
  | Absolute ps =>
      match below ps with
      | None => Some (Ret (None, x))
      | Some ps => continue (OnAbsolute w x) ps
      end
  end.

(** Symbolic links are followed, [links] of them at most. *)
Fixpoint run_links (form : Parser -> option path_form) (below : list piece -> option (list piece))
    (too_many : err) (w : ScopeWalker X) (links : nat) : list piece -> walk :=
  run (fun t rest x =>
    match links with
    | O => Some (Ret (Some too_many, x))
    | S links =>
        match form t with
        | None => None
        | Some t => enter below w (run_links form below too_many w links) (followed_by t rest) x
        end
    end) (walker w).

Lemma called_trans w x1 x2 x3 : called w x1 x2 -> called w x2 x3 -> called w x1 x3.
Proof using. induction 1; eauto using called. Qed.

Lemma called_invariant (I : X -> Prop) w x x' :
  (forall c x r x', I x -> OnDirectory w c x = Ret (r, x') -> I x') ->
  (forall c x r x', I x -> OnTerminal w c x = Ret (r, x') -> I x') ->
  (forall x r x', I x -> OnUp w x = Ret (r, x') -> I x') ->
  called w x x' -> I x -> I x'.
Proof using. intros HD HT HU. induction 1; eauto. Qed.

(** Running the callbacks for a path is calling the walker. *)
Lemma run_called w ps x e x' : run no_links w ps x = Some (Ret (e, x')) -> called w x x'.
Proof using.
  revert x. induction ps as [|[c|c|] ps IH]; intros x; cbn.
  - intros [= _ <-]. constructor.
  - destruct (OnDirectory w c x) as [[[[r|t]|e1] x1]|m] eqn:Hc; [|done| |done].
    + intros Hr. eapply called_OnDirectory; [done|]. by apply IH.
    + intros [= _ <-]. eapply called_OnDirectory; [done|constructor].
  - destruct (OnTerminal w c x) as [[[[t|]|e1] x1]|m] eqn:Hc; [done| | |done];
      intros [= _ <-]; (eapply called_OnTerminal; [done|constructor]).
  - destruct (OnUp w x) as [[[[]|e1] x1]|m] eqn:Hc; [| | |done].
    + intros Hr. eapply called_OnUp; [done|]. by apply IH.
    + intros [= _ <-]. eapply called_OnUp; [done|constructor].
    + intros [= _ <-]. eapply called_OnUp; [done|constructor].
Qed.
End Walks.

(** Resolution only changes the state of a walker by calling it. A relative path
    that does not contain symbolic links is resolved from left to right. Below a
    virtual root, symbolic links in the middle of a path are followed as well: their
    targets are relative to the directory that contains them, or absolute, in which
    case they may lead to the root or to an alias of it. *)
Class PathResolutionLaws {E : Errors} {P : PathLib} {PT : PathTypes} (PR : PathResolution) : Type := {
  (** [None] for paths that are not valid or that start with a drive letter or a share *)
  path_form_of : Parser -> option path_form;
  below_root : VirtualRootScopeWalkerFactory -> list piece -> option (list piece);
  (** of [path.NewLoopDetectingScopeWalker] *)
  maximum_links : nat;
  too_many_links : err;
  Resolve_relative_called X (w : ComponentWalker X) p x e x' :
    Resolve_relative w p x = Ret (e, x') -> called w x x';
  Resolve_relative_run X (w : ComponentWalker X) p ps x r :
    path_form_of p = Some (Relative ps) -> run no_links w ps x = Some r ->
    Resolve_relative w p x = r;
  Resolve_virtual_root_run X f (w : ScopeWalker X) p t x r :
    path_form_of p = Some t ->
    enter (below_root f) w (run_links path_form_of (below_root f) too_many_links w maximum_links) t x
      = Some r ->
    exists b, Resolve_virtual_root f w p x =
      match r with Panic m => Panic m | Ret (e, x) => Ret (e, b, x) end;
  TerminalNameTracking_spec c t : TerminalNameTracking_OnTerminal c t = Some c;
}.

(** The pieces of a relative path in the UNIX format *)
Definition UNIX_pieces {E : Errors} {P : PathLib} {PT : PathTypes} {PR : PathResolution}
    {PRL : PathResolutionLaws PR} (p : string) : option (list piece) :=
  match path_form_of (UNIXFormat_NewParser p) with Some (Relative ps) => Some ps | _ => None end.

(** ** A concrete instance

    Parsers are the paths themselves, and stacks are lists. *)

Module ExampleWalk.
Import ErrorTree.

#[export] Instance types : PathTypes := {|
  Parser := string;
  UNIXFormat_NewParser s := s;
  VirtualRootScopeWalkerFactory := string;
  Builder := string;
  Builder_GetUNIXString s := s;
|}.

#[export] Instance stacks : StackLib := {|
  NonEmptyStack A := (A * list A)%type;
  NewNonEmptyStack A x := (x, []);
  Peek A := fst;
  Push A x '(y, l) := (x, y :: l);
  PopSingle A '(x, l) := match l with [] => None | y :: l => Some (y, l) end;
  PopAll A '(x, l) := (List.last l x, []);
|}.

Lemma drop_last {A} (l : list A) x : drop (length l) (x :: l) = [List.last l x].
Proof.
  revert x. induction l as [|y l IH]; intros x; [done|]. cbn [length]. rewrite skipn_cons, IH.
  f_equal. clear IH. revert x y. induction l as [|z l IH]; intros x y; [done|]. exact (eq_trans (eq_sym (IH y z)) (IH x z)).
Qed.

#[export] Instance stacks_laws : StackLaws stacks.
Proof.
  apply (Build_StackLaws stacks (fun A s => s.1 :: s.2)).
  - done.
  - intros A s. by exists s.2.
  - by intros A x [y l].
  - intros A [x [|y l]]; [done|]. by exists x.
  - intros A [x l]. cbn [PopAll stacks fst snd]. cbn [length].
    rewrite Nat.sub_succ, Nat.sub_0_r. symmetry. apply drop_last.
Defined.

Fixpoint split (s acc : string) : list string :=
  match s with
  | EmptyString => [acc]
  | String c s => if Ascii.eqb c "/" then acc :: split s "" else split s (acc +:+ String c "")
  end.

Section Pieces.
Context {P : PathLib}.

Fixpoint pieces_of (names : list string) : option (list piece) :=
  match names with
  | [] => Some []
  | n :: names =>
      if bool_decide (n = ""%string) || bool_decide (n = "."%string) then pieces_of names
      else
        let first :=
          if bool_decide (n = ".."%string) then Some Up
          else match names with
               | [] => Terminal <$> NewComponent n
               | _ => Directory_ <$> NewComponent n
               end in
        f ← first; rest ← pieces_of names; Some (f :: rest)
  end.

Definition form (s : string) : option path_form :=
  match s with
  | EmptyString => Some (Relative [])
  | String c s' =>
      if Ascii.eqb c "/" then Absolute <$> pieces_of (split s' "") else Relative <$> pieces_of (split s "")
  end.

(** What remains of an absolute path once it has led to the root, which is the
    directory of that name in [/]. *)
Fixpoint below (root : string) (ps : list piece) : option (list piece) :=
  match ps with
  | Directory_ c :: ps | Terminal c :: ps =>
      if bool_decide (Component_String c = root) then Some ps else None
  | Up :: ps => below root ps
  | [] => None
  end.

Definition loop : err := status_Error InvalidArgument "Maximum number of symbolic link redirections reached".

Definition resolve {X} (r : option (outcome (option err * X))) (x : X) : outcome (option err * X) :=
  match r with
  | None => Ret (Some (status_Error InvalidArgument "Path is invalid"), x)
  | Some r => r
  end.

#[export] Instance resolution : PathResolution (E:=errors) (PT:=types) := {|
  Resolve_relative X w p x :=
    resolve (match form p with Some (Relative ps) => run no_links w ps x | _ => None end) x;
  Resolve_virtual_root X f w p x :=
    match resolve (t ← form p; enter (below f) w (run_links form (below f) loop w 5) t x) x with
    | Panic m => Panic m
    | Ret (e, x) => Ret (e, p, x)
    end;
  TerminalNameTracking_OnTerminal c t := Some c;
  Resolve_absolute p := Ok p;
  Join_terminal b c := Ok (b +:+ "/" +:+ Component_String c, Component_String c);
  NewVirtualRootScopeWalkerFactory b _ := Ok b;
|}.

#[export] Instance resolution_laws : PathResolutionLaws resolution.
Proof using.
  apply (Build_PathResolutionLaws _ _ _ resolution form below 5 loop); cbn.
  - intros X w p x e x'. destruct (form p) as [[ps|ps]|]; [|intros [= _ <-]; constructor..].
    destruct (run no_links w ps x) as [r|] eqn:Hr; cbn; [|intros [= _ <-]; constructor].
    intros ->. by eapply run_called.
  - intros X w p ps x r -> ->. done.
  - intros X f w p t x r -> Hr. cbn. rewrite Hr. by exists p.
  - done.
Defined.
End Pieces.
End ExampleWalk.
