(* ===== verification/StageArtifacts.v ===== *)
(** * Staging artifacts

    [StageArtifacts] of [pkg/filesystem/virtual/bazel_output_service_directory.go]:
    creating files and directories that are loaded from the Content Addressable
    Storage lazily, at paths below an output path. *)

From S2P Require Import Prelude Errors StateFile Virtual Examples OutputPathFactory OutputService.
From S2P Require Import TreeWalker PathWalk.
Local Open Scope Z_scope.

(** ** Requests

    The messages that a locator can hold, and the [anypb.Any] that wraps them. *)
Inductive locator : Type :=
| FileArtifactLocator (Digest : option ProtoDigest)
| TreeArtifactLocator (TreeDigest RootDirectoryDigest : option ProtoDigest)
| UnknownLocator.

Class AnyLib {E : Errors} : Type := {
  Any : Type;
  UnmarshalNew : Any -> res err locator;
}.

Record Artifact {E : Errors} {A : AnyLib} : Type := {
  Path : string;
  Locator : Any;
}.

(** ** The output path

    [virtual.InitialChild]: a leaf, or a directory whose contents are fetched by
    [virtual.NewCASInitialContentsFetcher], with the arguments it is given. *)
Inductive InitialChild {E : Errors} {P : PathLib} {D : DigestLib} {W : Type}
    {OPF : OutputPathFactory W} {PD : PrepopulatedDirectory W} : Type :=
| FromLeaf (l : Leaf)
| FromDirectory (contents : treeDirectoryWalker) (f : CASFileFactory) (df : DigestFunction).

(** [PrepopulatedDirectory.CreateChildren] *)
Class StagingDirectory {E : Errors} {P : PathLib} {D : DigestLib} (W : Type)
    {OPF : OutputPathFactory W} {PD : PrepopulatedDirectory W} : Type := {
  CreateInitialChildren : Dir -> gmap Component InitialChild -> bool -> st W (option err);
}.

Section StageArtifacts.
Context {E : Errors} {P : PathLib} {D : DigestLib} {PT : PathTypes} {PR : PathResolution} {SL : StackLib}.
Context {A : AnyLib} {W : Type} {OPF : OutputPathFactory W} {PD : PrepopulatedDirectory W}.
Context {SD : StagingDirectory W}.
Context (maximumTreeSizeBytes : Z).

(** ** The walker that creates parent directories *)

Record parentDirectoryCreatingComponentWalker : Type := {
  TerminalName : option Component;
  stack : NonEmptyStack Dir;
}.

Definition parent_OnDirectory (name : Component)
  : cb (parentDirectoryCreatingComponentWalker * W) (res err (GotDirectoryOrSymlink Parser)) :=
  fun '(cw, w) =>
  match CreateAndEnterPrepopulatedDirectory (Peek (stack cw)) name w with
  | (Err e, w) => Ret (Err e, (cw, w))
  | (Ok child, w) =>
      Ret (Ok (GotDirectory true),
           ({| TerminalName := TerminalName cw; stack := Push child (stack cw) |}, w))
  end.

(** Inherited from [path.TerminalNameTrackingComponentWalker] *)
Definition parent_OnTerminal (name : Component)
  : cb (parentDirectoryCreatingComponentWalker * W) (res err (option Parser)) :=
  fun '(cw, w) =>
  Ret (Ok None, ({| TerminalName := TerminalNameTracking_OnTerminal name (TerminalName cw);
                    stack := stack cw |}, w)).

Definition parent_OnUp : cb (parentDirectoryCreatingComponentWalker * W) (res err NextWalker) :=
  fun '(cw, w) =>
  match PopSingle (stack cw) with
  | None => Ret (Err (status_Error InvalidArgument
                        "Path resolves to a location outside the output path"), (cw, w))
  | Some s => Ret (Ok Self, ({| TerminalName := TerminalName cw; stack := s |}, w))
  end.

Definition outputParentCreator : ComponentWalker (parentDirectoryCreatingComponentWalker * W) := {|
  OnDirectory := parent_OnDirectory;
  OnTerminal := parent_OnTerminal;
  OnUp := parent_OnUp;
|}.

(** ** [stageSingleArtifact] *)

(** The branch for [FileArtifactLocator]. *)
Definition stage_file (dir : Dir) (name : Component) (d : option ProtoDigest) (f : CASFileFactory)
    (df : DigestFunction) : st W (option err) := fun w =>
  match NewDigestFromProto df d with
  | Err e => (Some (StatusWrap e "Invalid digest"), w)
  | Ok childDigest =>
      let '(leaf, w) := LookupFile f childDigest true w in
      CreateInitialChildren dir {[name := FromLeaf leaf]} true w
  end.

(** The branch for [TreeArtifactLocator]. *)
Definition stage_tree (dir : Dir) (name : Component) (TreeDigest RootDirectoryDigest : option ProtoDigest)
    (f : CASFileFactory) (df : DigestFunction) : st W (option err) := fun w =>
  match NewDigestFromProto df TreeDigest with
  | Err e => (Some (StatusWrap e "Invalid tree digest"), w)
  | Ok childDigest =>
      let sizeBytes := GetSizeBytes childDigest in
      if bool_decide (sizeBytes > maximumTreeSizeBytes) then
        (Some (status_Errorf InvalidArgument
           "Directory is %d bytes in size, which exceeds the permitted maximum of %d bytes"
           [FInt sizeBytes; FInt maximumTreeSizeBytes]), w)
      else
        let create rootDirectoryDigest :=
          CreateInitialChildren dir
            {[name := FromDirectory (NewTreeDirectoryWalker childDigest rootDirectoryDigest) f df]}
            true w in
        match RootDirectoryDigest with
        | None => create None
        | Some _ =>
            match NewDigestFromProto df RootDirectoryDigest with
            | Err e => (Some (StatusWrap e "Invalid root directory digest"), w)
            | Ok d => create (Some d)
            end
        end
  end.

(** [buildState] is a pointer, which is only followed for locators of known
    types. *)
Definition stageSingleArtifact (artifact : Artifact)
    (outputPathState : outputPathState (ScopeWalkerFactory:=VirtualRootScopeWalkerFactory))
    (bs : option (buildState (ScopeWalkerFactory:=VirtualRootScopeWalkerFactory)))
  : W -> outcome (option err * W) := fun w =>
  match Resolve_relative outputParentCreator (UNIXFormat_NewParser (Path artifact))
          ({| TerminalName := None;
              stack := NewNonEmptyStack (OutputPath_Dir (rootDirectory outputPathState)) |}, w) with
  | Panic m => Panic m
  | Ret (Some e, (_, w)) => Ret (Some (StatusWrap e "Failed to resolve path"), w)
  | Ret (None, (cw, w)) =>
      match TerminalName cw with
      | None => Ret (Some (status_Errorf InvalidArgument "Path resolves to a directory" []), w)
      | Some name =>
          match UnmarshalNew (Locator artifact) with
          | Err e => Ret (Some (StatusWrapWithCode e InvalidArgument "Failed to unmarshal locator"), w)
          | Ok UnknownLocator =>
              Ret (Some (status_Error InvalidArgument "Locator is of an unknown type"), w)
          | Ok (FileArtifactLocator d) =>
              match bs with
              | None => Panic "nil pointer dereference: buildState"
              | Some bs => Ret (stage_file (Peek (stack cw)) name d
                                  (casFileFactory outputPathState) (digestFunction bs) w)
              end
          | Ok (TreeArtifactLocator t r) =>
              match bs with
              | None => Panic "nil pointer dereference: buildState"
              | Some bs => Ret (stage_tree (Peek (stack cw)) name t r
                                  (casFileFactory outputPathState) (digestFunction bs) w)
              end
          end
      end
  end.

(** ** [StageArtifacts]

    A response for every artifact: the error that staging it gave, if any. *)

Fixpoint stage_all (artifacts : list Artifact) s bs (responses : list (option err))
  : W -> outcome (list (option err) * W) := fun w =>
  match artifacts with
  | [] => Ret (responses, w)
  | artifact :: artifacts =>
      match stageSingleArtifact artifact s bs w with
      | Panic m => Panic m
      | Ret (e, w) => stage_all artifacts s bs (responses ++ [e]) w
      end
  end.

Definition StageArtifacts (BuildId : string) (Artifacts : list Artifact)
    (d : BazelOutputServiceDirectory) : W -> outcome (res err (list (option err)) * W) := fun w =>
  match getOutputPathAndBuildState BuildId d with
  | Err e => Ret (Err e, w)
  | Ok (n, bs) =>
      match heap d !! n with
      | None => Panic "nil pointer dereference: outputPathState"
      | Some s =>
          match stage_all Artifacts s bs [] w with
          | Panic m => Panic m
          | Ret (responses, w) => Ret (Ok responses, w)
          end
      end
  end.
End StageArtifacts.

(** ** Correctness

    Where directories are: in which output path, and at which path below it. [None]
    stands for directories that are not part of any output path. *)
Class DirectoryLocations {E : Errors} {P : PathLib} {D : DigestLib} (W : Type)
    {OPF : OutputPathFactory W} {PD : PrepopulatedDirectory W} : Type := {
  pd_location : Dir -> option (OutputPath * list Component);
  OutputPath_location o : pd_location (OutputPath_Dir o) = Some (o, []);
}.

(** What directories promise: their location, and two histories, of the calls to
    [CreateChildren] and of the directories on which a method that changes them is
    called. *)
Class StagingLaws {E : Errors} {P : PathLib} {D : DigestLib} {W : Type}
    {OPF : OutputPathFactory W} {PD : PrepopulatedDirectory W} (SD : StagingDirectory W) : Type := {
  staging_locations :: DirectoryLocations W;
  created : W -> list (Dir * gmap Component InitialChild);
  touched : W -> list Dir;
  CreateAndEnter_location d c w d' w' o p :
    CreateAndEnterPrepopulatedDirectory d c w = (Ok d', w') ->
    pd_location d = Some (o, p) -> pd_location d' = Some (o, p ++ [c]);
  CreateAndEnter_history d c w r w' :
    CreateAndEnterPrepopulatedDirectory d c w = (r, w') ->
    created w' = created w /\ touched w' = touched w ++ [d];
  LookupFile_history f dg x w :
    created (LookupFile f dg x w).2 = created w /\ touched (LookupFile f dg x w).2 = touched w;
  CreateInitialChildren_history d m o w e w' :
    CreateInitialChildren d m o w = (e, w') ->
    created w' = created w ++ [(d, m)] /\ touched w' = touched w ++ [d];
}.

Section Correctness.
Context {E : Errors} {P : PathLib} {D : DigestLib} {PT : PathTypes} {PR : PathResolution} {SL : StackLib}.
Context {A : AnyLib} {W : Type} {OPF : OutputPathFactory W} {PD : PrepopulatedDirectory W}.
Context {SD : StagingDirectory W}.
Context (maximumTreeSizeBytes : Z).
Context (PRL : PathResolutionLaws PR) (SLL : StackLaws SL) (SDL : StagingLaws SD).

Abbreviation state := (outputPathState (ScopeWalkerFactory:=VirtualRootScopeWalkerFactory)).
Abbreviation build := (buildState (ScopeWalkerFactory:=VirtualRootScopeWalkerFactory)).

(** The path that a sequence of callbacks leads to: the directory, and the name
    in it. *)
Fixpoint target (ps : list piece) (dir : list Component) (name : option Component)
  : option (list Component * option Component) :=
  match ps with
  | [] => Some (dir, name)
  | Directory_ c :: ps => target ps (dir ++ [c]) name
  | Terminal c :: _ => Some (dir, Some c)
  | Up :: ps => match dir with [] => None | _ => target ps (removelast dir) name end
  end.

Definition inside (o : OutputPath) (d : Dir) (dir : list Component) : Prop := pd_location d = Some (o, dir).

Definition walker_at (o : OutputPath) (cw : parentDirectoryCreatingComponentWalker)
    (dir : list Component) (name : option Component) : Prop :=
  chain (inside o) (items (stack cw)) dir /\ TerminalName cw = name.

(** All that is called is called on directories of the output path. *)
Definition touches (o : OutputPath) (w w' : W) : Prop :=
  exists ds, touched w' = touched w ++ ds /\ Forall (fun d => exists dir, inside o d dir) ds.

Lemma touches_eq o w w' : touched w' = touched w -> touches o w w'.
Proof using. intros Hw. exists []. by rewrite Hw, app_nil_r. Qed.

Lemma touches_one o d dir w w' : touched w' = touched w ++ [d] -> inside o d dir -> touches o w w'.
Proof using. intros Hw Hd. exists [d]. split; [done|]. apply Forall_singleton. by exists dir. Qed.

Lemma touches_trans o w1 w2 w3 : touches o w1 w2 -> touches o w2 w3 -> touches o w1 w3.
Proof using.
  intros (ds & Hw2 & Hds) (ds' & Hw3 & Hds'). exists (ds ++ ds'). rewrite Hw3, Hw2, app_assoc.
  split; [done|]. by apply Forall_app.
Qed.

Lemma outputParentCreator_run o ps cw w dir name :
  walker_at o cw dir name ->
  exists e cw' w', run no_links outputParentCreator ps (cw, w) = Some (Ret (e, (cw', w'))) /\
    created w' = created w /\
    match target ps dir name with
    | None => e <> None
    | Some (dir', name') => e = None -> walker_at o cw' dir' name'
    end.
Proof using PRL SLL SDL.
  revert cw w dir name. induction ps as [|[c|c|] ps IH]; intros cw w dir name [Hc Hn]; cbn.
  - by exists None, cw, w.
  - destruct (CreateAndEnterPrepopulatedDirectory (Peek (stack cw)) c w) as [[d|e] w1] eqn:Hd;
      pose proof (CreateAndEnter_history _ _ _ _ _ Hd) as [Hcr1 _].
    + edestruct (IH {| TerminalName := TerminalName cw; stack := Push d (stack cw) |} w1) as
        (e & cw' & w' & Hr & Hcr & Ht).
      { split; [|exact Hn]. apply chain_Push; [done|].
        eapply CreateAndEnter_location; [done|]. exact (chain_Peek _ _ _ _ Hc). }
      exists e, cw', w'. split; [done|]. split; [by rewrite Hcr|done].
    + exists (Some e), cw, w1. split; [done|]. split; [done|].
      by destruct (target ps (dir ++ [c]) name) as [[]|].
  - eexists None, _, w. split; [done|]. split; [done|]. intros _. split; [done|].
    apply TerminalNameTracking_spec.
  - pose proof (chain_PopSingle _ _ _ _ Hc) as Hp. destruct (PopSingle (stack cw)) as [s|].
    + destruct Hp as [Hne Hs].
      edestruct (IH {| TerminalName := TerminalName cw; stack := s |} w) as
        (e & cw' & w' & Hr & Hcr & Ht); [split; [exact Hs|exact Hn]|].
      exists e, cw', w'. split; [done|]. split; [done|]. by destruct dir.
    + subst dir. by eexists _, cw, w.
Qed.

(** Whatever is called, the walker stays below the output path. *)
Lemma outputParentCreator_called o x x' :
  called outputParentCreator x x' ->
  (exists dir, chain (inside o) (items (stack x.1)) dir) ->
  (exists dir, chain (inside o) (items (stack x'.1)) dir) /\
  created x'.2 = created x.2 /\ touches o x.2 x'.2.
Proof using SLL SDL.
  intros Hc Hx. apply (called_invariant
    (fun y => (exists dir, chain (inside o) (items (stack y.1)) dir) /\ created y.2 = created x.2 /\
       touches o x.2 y.2)
    outputParentCreator x x'); [| | |done|].
  - intros c [cw w] r [cw' w'] [[dir Hd] [Hcr Ht]]. cbn in *.
    destruct (CreateAndEnterPrepopulatedDirectory (Peek (stack cw)) c w) as [[d|e] w1] eqn:He;
      pose proof (CreateAndEnter_history _ _ _ _ _ He) as [Hcr1 Ht1];
      pose proof (chain_Peek _ _ _ _ Hd) as Hin;
      intros [= _ <- <-]; (split; [|split; [by rewrite Hcr1|]]);
      try (eapply touches_trans; [exact Ht|]; by eapply touches_one); [|by exists dir].
    exists (dir ++ [c]). apply chain_Push; [done|]. by eapply CreateAndEnter_location.
  - intros c [cw w] r [cw' w'] [Hd Hcr]. cbn. intros [= _ <- <-]. done.
  - intros [cw w] r [cw' w'] [[dir Hd] Hcr]. cbn in *.
    pose proof (chain_PopSingle _ _ _ _ Hd) as Hp. destruct (PopSingle (stack cw)) as [s|];
      intros [= _ <- <-]; [|by split; [exists dir|]]. destruct Hp as [_ Hp].
    split; [by exists (removelast dir)|done].
  - split; [done|]. split; [done|]. by apply touches_eq.
Qed.

(** What is created for an artifact: a file with the digest of the locator, or a
    tree that is not too large. *)
Definition child_of (a : Artifact) (s : state) (bs : build) (ch : InitialChild) : Prop :=
  match UnmarshalNew (Locator a), ch with
  | Ok (FileArtifactLocator d), FromLeaf l =>
      exists dg w, NewDigestFromProto (digestFunction bs) d = Ok dg /\
        l = (LookupFile (casFileFactory s) dg true w).1
  | Ok (TreeArtifactLocator t r), FromDirectory dw f df =>
      f = casFileFactory s /\ df = digestFunction bs /\
      exists dg, NewDigestFromProto (digestFunction bs) t = Ok dg /\
        GetSizeBytes dg <= maximumTreeSizeBytes /\
        match r with
        | None => dw = NewTreeDirectoryWalker dg None
        | Some _ => exists root, NewDigestFromProto (digestFunction bs) r = Ok root /\
            dw = NewTreeDirectoryWalker dg (Some root)
        end
  | _, _ => False
  end.

(** The child is the only thing that is created. *)
Definition creates (dir : Dir) (name : Component) (ok : InitialChild -> Prop) (e : option err)
    (w w' : W) : Prop :=
  (e <> None /\ created w' = created w /\ touched w' = touched w) \/
  exists ch, ok ch /\ created w' = created w ++ [(dir, {[name := ch]})] /\ touched w' = touched w ++ [dir].

Lemma stage_file_creates dir name d f df w :
  let r := stage_file dir name d f df w in
  creates dir name (fun ch => exists dg w0, NewDigestFromProto df d = Ok dg /\
    ch = FromLeaf (LookupFile f dg true w0).1) r.1 w r.2.
Proof using SDL.
  unfold stage_file. destruct (NewDigestFromProto df d) as [dg|e] eqn:Hd; [|left; by split].
  pose proof (LookupFile_history f dg true w) as [Hw Ht].
  destruct (LookupFile f dg true w) as [leaf w1] eqn:Hl. cbn in Hw, Ht.
  destruct (CreateInitialChildren _ _ _ _) as [e w2] eqn:Hc. right.
  exists (FromLeaf leaf). split; [exists dg, w; by rewrite Hl|].
  cbn. rewrite <-Hw, <-Ht. by eapply CreateInitialChildren_history.
Qed.

Lemma stage_tree_creates dir name t r f df w :
  let res := stage_tree maximumTreeSizeBytes dir name t r f df w in
  creates dir name (fun ch => exists dw, ch = FromDirectory dw f df /\
    exists dg, NewDigestFromProto df t = Ok dg /\ GetSizeBytes dg <= maximumTreeSizeBytes /\
      match r with
      | None => dw = NewTreeDirectoryWalker dg None
      | Some _ => exists root, NewDigestFromProto df r = Ok root /\
          dw = NewTreeDirectoryWalker dg (Some root)
      end) res.1 w res.2.
Proof using SDL.
  unfold stage_tree. destruct (NewDigestFromProto df t) as [dg|e] eqn:Hd; [|left; by split].
  case_bool_decide; [left; by split|]. destruct r as [r|].
  - destruct (NewDigestFromProto df (Some r)) as [root|e] eqn:Hr; [|left; by split].
    destruct (CreateInitialChildren _ _ _ _) as [e w2] eqn:Hc. right. eexists. split.
    + eexists. split; [done|]. exists dg. split; [done|]. split; [lia|]. by exists root.
    + by eapply CreateInitialChildren_history.
  - destruct (CreateInitialChildren _ _ _ _) as [e w2] eqn:Hc. right. eexists. split.
    + eexists. split; [done|]. exists dg. split; [done|]. split; [lia|]. done.
    + by eapply CreateInitialChildren_history.
Qed.

Lemma creates_impl dir name (ok ok' : InitialChild -> Prop) e w w' :
  (forall ch, ok ch -> ok' ch) -> creates dir name ok e w w' -> creates dir name ok' e w w'.
Proof using. intros Hok [?|(ch & ? & ?)]; [by left|right]. exists ch. split; [by apply Hok|done]. Qed.

(** The part of [stageSingleArtifact] that follows path resolution. *)
Lemma stage_locator_spec a s bs cw w0 w name :
  TerminalName cw = Some name ->
  Resolve_relative outputParentCreator (UNIXFormat_NewParser (Path a))
    ({| TerminalName := None; stack := NewNonEmptyStack (OutputPath_Dir (rootDirectory s)) |}, w0)
    = Ret (None, (cw, w)) ->
  exists e w', stageSingleArtifact maximumTreeSizeBytes a s (Some bs) w0 = Ret (e, w') /\
    creates (Peek (stack cw)) name (child_of a s bs) e w w'.
Proof using SDL.
  intros Hn Hr. unfold stageSingleArtifact, child_of. rewrite Hr, Hn.
  destruct (UnmarshalNew (Locator a)) as [[d|t r|]|e].
  - eexists _, _. split; [by rewrite <-surjective_pairing|].
    eapply creates_impl; [|apply stage_file_creates]. intros ch (dg & w1 & Hd & ->). by exists dg, w1.
  - eexists _, _. split; [by rewrite <-surjective_pairing|].
    eapply creates_impl; [|apply stage_tree_creates]. intros ch (dw & -> & Hdg). done.
  - eexists _, _. split; [done|]. left. by split.
  - eexists _, _. split; [done|]. left. by split.
Qed.

(** C9. Staging an artifact at a relative path, which may contain [..], returns a
    result. If it succeeds, exactly one child has been created: the file or tree of
    the locator, below the name and in the directory that the path denotes. A path
    that leads out of the output path or that denotes a directory gives an error,
    upon which nothing has been created. *)
Theorem stageSingleArtifact_location a s bs w ps :
  UNIX_pieces (Path a) = Some ps ->
  exists e w', stageSingleArtifact maximumTreeSizeBytes a s (Some bs) w = Ret (e, w') /\
    match target ps [] None with
    | Some (dir, Some name) =>
        e = None -> exists d ch, pd_location d = Some (rootDirectory s, dir) /\ child_of a s bs ch /\
          created w' = created w ++ [(d, {[name := ch]})]
    | _ => e <> None /\ created w' = created w
    end.
Proof using PRL SLL SDL.
  intros Hps.
  destruct (outputParentCreator_run (rootDirectory s) ps {| TerminalName := None;
      stack := NewNonEmptyStack (OutputPath_Dir (rootDirectory s)) |} w [] None)
    as (e & cw & w1 & Hrun & Hcr & Ht).
  { split; [|done]. apply chain_New, OutputPath_location. }
  assert (path_form_of (UNIXFormat_NewParser (Path a)) = Some (Relative ps)) as Hform.
  { unfold UNIX_pieces in Hps. by destruct (path_form_of _) as [[]|]; simplify_eq. }
  pose proof (Resolve_relative_run _ _ _ _ _ _ Hform Hrun) as Hr.
  destruct e as [e|].
  { eexists _, _. split; [unfold stageSingleArtifact; by rewrite Hr|].
    destruct (target ps [] None) as [[dir [name|]]|]; done. }
  destruct (target ps [] None) as [[dir name]|]; [|by destruct Ht].
  destruct (Ht eq_refl) as [Hc Hn]. destruct name as [name|].
  - destruct (stage_locator_spec a s bs cw w w1 name Hn Hr) as (e & w' & Hs & Hcreates).
    exists e, w'. split; [done|]. intros He.
    destruct Hcreates as [[He' _]|(ch & Hok & Hch & _)]; [done|].
    exists (Peek (stack cw)), ch. split; [exact (chain_Peek SLL _ _ _ Hc)|]. split; [done|]. by rewrite Hch, Hcr.
  - eexists _, _. split; [unfold stageSingleArtifact; by rewrite Hr, Hn|]. by split.
Qed.

(** C10. Whatever the path is and however it is resolved, staging an artifact stays
    inside the output path: every directory that is entered or that something is
    created in belongs to this output path, and not to another one or to the outside.
    At most one child is created. It is the file or tree of the locator; trees are at
    most [maximumTreeSizeBytes] in size. *)
Theorem stageSingleArtifact_safe a s bs w e w' :
  stageSingleArtifact maximumTreeSizeBytes a s (Some bs) w = Ret (e, w') ->
  (exists ds, touched w' = touched w ++ ds /\
     Forall (fun d => exists dir, pd_location d = Some (rootDirectory s, dir)) ds) /\
  (created w' = created w \/
   exists d dir name ch, pd_location d = Some (rootDirectory s, dir) /\
     created w' = created w ++ [(d, {[name := ch]})] /\ child_of a s bs ch /\
     match ch with
     | FromLeaf _ => True
     | FromDirectory dw _ _ => GetSizeBytes (GetContainingDigest dw) <= maximumTreeSizeBytes
     end).
Proof using PRL SLL SDL.
  destruct (Resolve_relative outputParentCreator (UNIXFormat_NewParser (Path a))
    ({| TerminalName := None; stack := NewNonEmptyStack (OutputPath_Dir (rootDirectory s)) |}, w))
    as [[e1 [cw w1]]|m] eqn:Hr; [|by unfold stageSingleArtifact; rewrite Hr].
  destruct (outputParentCreator_called (rootDirectory s) _ _ (Resolve_relative_called _ _ _ _ _ _ Hr))
    as [[dir Hc] [Hcr Ht]].
  { exists []. apply chain_New, OutputPath_location. }
  cbn in Hcr, Ht. destruct e1 as [e1|].
  { unfold stageSingleArtifact. rewrite Hr. intros [= _ <-]. split; [exact Ht|]. by left. }
  destruct (TerminalName cw) as [name|] eqn:Hn.
  - destruct (stage_locator_spec a s bs cw w w1 name Hn Hr) as (e2 & w2 & Hs & Hcreates).
    rewrite Hs. intros [= <- <-]. pose proof (chain_Peek _ _ _ _ Hc) as Hin. rewrite <-Hcr.
    destruct Hcreates as [(_ & ? & Ht2)|(ch & Hok & Hch & Ht2)].
    { split; [|by left]. exact (touches_trans _ _ _ _ Ht (touches_eq _ _ _ Ht2)). }
    split; [exact (touches_trans _ _ _ _ Ht (touches_one _ _ _ _ _ Ht2 Hin))|right].
    exists (Peek (stack cw)), dir, name, ch.
    split; [exact Hin|]. split; [done|]. split; [done|].
    destruct ch as [|dw f df]; [done|]. unfold child_of in Hok.
    destruct (UnmarshalNew (Locator a)) as [[]|]; try done.
    destruct Hok as (_ & _ & dg & _ & Hsize & Hdw).
    destruct RootDirectoryDigest as [r|]; [destruct Hdw as (root & _ & ->)|subst dw]; done.
  - unfold stageSingleArtifact. rewrite Hr, Hn. intros [= _ <-]. split; [exact Ht|]. by left.
Qed.
End Correctness.

(** ** A concrete output path

    Output paths have names. Directories are the names of their output paths along
    with the paths to them, or the outside. All that is recorded is what is entered
    and created. *)

Module ExampleStage.
Import ErrorTree ExamplePath ExampleDigest ExampleWalk.

Definition content : Type := digest + treeDirectoryWalker (D:=digests) * string.
Definition directory : Type := option (string * list component).

(** The directories that are entered do not have contents. *)
Definition world : Type := list (directory * option (gmap component content)).

#[export] Instance factory : OutputPathFactory world := {|
  OutputPath := string;
  CASFileFactory := unit;
  opf_StartInitialBuild c _ _ := mret (Component_String c);
  opf_Clean _ w := (None, w);
  op_RemoveAllChildren _ _ w := (None, w);
  op_FinalizeBuild _ _ := mret tt;
  NewCASFileFactory w := (tt, w);
|}.

#[export] Instance prepopulated : PrepopulatedDirectory world := {|
  Dir := directory;
  Leaf := digest;
  OutputPath_Dir o := Some (o : string, []);
  CreateAndEnterPrepopulatedDirectory d c w :=
    (Ok ((fun l : string * list component => (l.1, l.2 ++ [c])) <$> d), w ++ [(d, None)]);
  LookupAllChildren d w := (Err ENOENT, w);
  CreateChildren d m o w := (None, w);
  Unlink l w := (tt, w);
  LookupFile f dg x w := (dg, w);
  LookupSymlink t w := (Err ENOENT, w);
  ApplyAppendOutputPathPersistencyDirectoryNode l c d w := (None, w);
  ApplyUploadFile l df w := (None, w);
  Log e w := (tt, w);
  Now w := ({| seconds := 0; nanos := 0 |}, w);
|}.

Definition to_content (ch : InitialChild (PD:=prepopulated)) : content :=
  match ch with FromLeaf l => inl l | FromDirectory dw _ df => inr (dw, df) end.
Definition of_content (x : content) : InitialChild (PD:=prepopulated) :=
  match x with inl l => FromLeaf (l : Leaf) | inr (dw, df) => FromDirectory dw (tt : CASFileFactory) df end.

#[export] Instance staging : StagingDirectory world := {|
  CreateInitialChildren d m _ w := (None, w ++ [(d, Some (to_content <$> m))]);
|}.

Lemma of_to_content (m : gmap component (InitialChild (PD:=prepopulated))) :
  of_content <$> (to_content <$> m) = m.
Proof.
  rewrite <-map_fmap_compose. rewrite <-(map_fmap_id m) at 2. apply map_fmap_ext.
  by intros c [l|dw [] df] _.
Qed.

Definition creation (x : directory * option (gmap component content))
  : option (Dir * gmap Component (InitialChild (PD:=prepopulated))) :=
  match x.2 with None => None | Some m => Some (x.1 : Dir, of_content <$> m) end.
Definition history (w : list (directory * option (gmap component content))) := omap creation w.
Definition entered (w : list (directory * option (gmap component content))) : list Dir := w.*1.

#[export] Instance locations : DirectoryLocations world := {|
  pd_location (d : Dir (PrepopulatedDirectory:=prepopulated)) := d : option (OutputPath * list Component);
  OutputPath_location o := eq_refl;
|}.

#[export] Instance staging_laws : StagingLaws staging.
Proof.
  apply (Build_StagingLaws _ _ _ _ _ _ staging locations history entered).
  - intros d c w d' w' o p [= <- _]. cbn. intros Hd. by rewrite Hd.
  - intros d c w r w' [= _ <-]. unfold history, entered. by rewrite omap_app, app_nil_r, fmap_app.
  - done.
  - intros d m o w e w' [= _ <-]. unfold history, entered. rewrite omap_app, fmap_app. split; [|done]. f_equal.
    exact (f_equal (fun x => [(d, x)]) (of_to_content m)).
Defined.

#[export] Instance any : AnyLib := {| Any := locator; UnmarshalNew := Ok |}.

Definition state := outputPathState (OPF:=factory) (ScopeWalkerFactory:=VirtualRootScopeWalkerFactory (PathTypes:=types)).

Definition s : state := {|
  buildStateOf := None;
  rootDirectory := ("base"%string : OutputPath (OutputPathFactory:=factory));
  casFileFactory := (tt : CASFileFactory (OutputPathFactory:=factory));
  previous := Sentinel;
  next := Sentinel;
  cookie := 0;
  outputBaseID := comp "base" eq_refl;
|}.

Definition bs : buildState (ScopeWalkerFactory:=VirtualRootScopeWalkerFactory (PathTypes:=types)) :=
  {| id := "build"; digestFunction := "sha256"; scopeWalkerFactory := "/out" |}.

Definition file : Artifact := {|
  Path := "x/../bin/./a.o";
  Locator := FileArtifactLocator (Some {| hash := "abc"; size_bytes := 3 |}) : Any (AnyLib:=any);
|}.

Definition tree (size : Z) : Artifact := {|
  Path := "bin/out";
  Locator := TreeArtifactLocator (Some {| hash := "tree"; size_bytes := size |}) None : Any (AnyLib:=any);
|}.

Definition bin : component := comp "bin" eq_refl.
Definition a_o : component := comp "a.o" eq_refl.

Lemma stageSingleArtifact_location_witness :
  UNIX_pieces (Path file) =
    Some [Directory_ (comp "x" eq_refl); Up; Directory_ bin; Terminal a_o] /\
  exists e w', stageSingleArtifact 100 file s (Some bs) [] = Ret (e, w') /\
    (e = None -> exists d ch, pd_location d = Some ("base"%string, [bin]) /\ child_of 100 file s bs ch /\
      created w' = created [] ++ [(d, {[a_o := ch]})]).
Proof.
  split; [reflexivity|].
  exact (stageSingleArtifact_location 100 resolution_laws stacks_laws staging_laws file s bs []
    [Directory_ (comp "x" eq_refl); Up; Directory_ bin; Terminal a_o] eq_refl).
Defined.

Lemma stageSingleArtifact_safe_witness :
  exists w', stageSingleArtifact 100 (tree 7) s (Some bs) [] = Ret (None, w') /\
  (exists ds, touched w' = touched [] ++ ds /\
     Forall (fun d => exists dir, pd_location d = Some (rootDirectory s, dir)) ds) /\
  (created w' = created [] \/
   exists d dir name ch, pd_location d = Some (rootDirectory s, dir) /\
     created w' = created [] ++ [(d, {[name := ch]})] /\ child_of 100 (tree 7) s bs ch /\
     match ch with
     | FromLeaf _ => True
     | FromDirectory dw _ _ => GetSizeBytes (GetContainingDigest dw) <= 100
     end).
Proof.
  eexists. split; [reflexivity|].
  apply (stageSingleArtifact_safe 100 resolution_laws stacks_laws staging_laws (tree 7) s bs [] None).
  reflexivity.
Defined.

Example large_tree_is_refused : exists e, stageSingleArtifact 100 (tree 101) s (Some bs) []
    = Ret (Some e, [(Some ("base"%string, []), None)]).
Proof. eexists. reflexivity. Qed.

Example escaping_path_is_refused : exists e,
  stageSingleArtifact 100 {| Path := "bin/../../a.o"; Locator := Locator file |} s (Some bs) []
    = Ret (Some e, [(Some ("base"%string, []), None)]).
Proof. eexists. reflexivity. Qed.
End ExampleStage.
