(* ===== verification/BatchStat.v ===== *)
(** * The status of files in an output path

    [BatchStat] of [pkg/filesystem/virtual/bazel_output_service_directory.go]:
    resolving paths in an output path, following symbolic links. *)

From S2P Require Import Prelude Errors StateFile Virtual Examples OutputPathFactory OutputService.
From S2P Require Import TreeWalker PathWalk StageArtifacts.
Local Open Scope Z_scope.

(** [bazeloutputservice.BatchStatResponse_Stat] *)
Inductive StatType {E : Errors} {A : AnyLib} : Type :=
| Stat_File (Locator : option Any)
| Stat_Symlink (Target : string)
| Stat_Directory.

Record Stat {E : Errors} {A : AnyLib} : Type := { stat_Type : option StatType }.

(** What is called of the directories and leaves of the output path. *)
Class StatDirectory {E : Errors} {P : PathLib} {D : DigestLib} {PT : PathTypes} {A : AnyLib} (W : Type)
    {OPF : OutputPathFactory W} {PD : PrepopulatedDirectory W} : Type := {
  (** [PrepopulatedDirectory.LookupChild] *)
  LookupChild : Dir -> Component -> st W (res err (Dir + Leaf));
  (** [VirtualGetAttributes] with [AttributesMaskSymlinkTarget], and
      [GetSymlinkTarget] *)
  GetSymlinkTarget : Leaf -> st W (option Parser);
  (** [VirtualApply] of [ApplyGetBazelOutputServiceStat]; [None] if the leaf does
      not support it *)
  ApplyGetBazelOutputServiceStat : Leaf -> DigestFunction -> st W (option (res err Stat));
}.

Section BatchStat.
Context {E : Errors} {P : PathLib} {D : DigestLib} {PT : PathTypes} {PR : PathResolution} {SL : StackLib}.
Context {A : AnyLib} {W : Type} {OPF : OutputPathFactory W} {PD : PrepopulatedDirectory W}.
Context {SD : StatDirectory W}.

(** ** The walker *)

Record statWalker : Type := {
  sw_digestFunction : DigestFunction;
  sw_stack : NonEmptyStack Dir;
  sw_stat : Stat;
}.

Definition set_stack (s : NonEmptyStack Dir) (cw : statWalker) : statWalker :=
  {| sw_digestFunction := sw_digestFunction cw; sw_stack := s; sw_stat := sw_stat cw |}.
Definition set_stat (s : Stat) (cw : statWalker) : statWalker :=
  {| sw_digestFunction := sw_digestFunction cw; sw_stack := sw_stack cw; sw_stat := s |}.

Definition stat_OnRelative : cb (statWalker * W) (res err unit) := fun '(cw, w) =>
  Ret (Ok tt, (set_stat {| stat_Type := Some Stat_Directory |} cw, w)).

Definition stat_OnAbsolute : cb (statWalker * W) (res err unit) := fun '(cw, w) =>
  stat_OnRelative (set_stack (PopAll (sw_stack cw)) cw, w).

Definition stat_OnDriveLetter (driveLetter : Z) : cb (statWalker * W) (res err unit) := fun x =>
  Ret (Err (status_Error Unimplemented "Drive letters not supported"), x).

Definition stat_OnShare (server share : string) : cb (statWalker * W) (res err unit) := fun x =>
  Ret (Err (status_Error Unimplemented "Shares not supported"), x).

Definition stat_OnDirectory (name : Component)
  : cb (statWalker * W) (res err (GotDirectoryOrSymlink Parser)) := fun '(cw, w) =>
  match LookupChild (Peek (sw_stack cw)) name w with
  | (Err e, w) => Ret (Err e, (cw, w))
  | (Ok (inl directory), w) =>
      Ret (Ok (GotDirectory true), (set_stack (Push directory (sw_stack cw)) cw, w))
  | (Ok (inr leaf), w) =>
      match GetSymlinkTarget leaf w with
      | (None, w) => Ret (Err ENOTDIR, (cw, w))
      | (Some target, w) => Ret (Ok (GotSymlink target), (set_stat {| stat_Type := None |} cw, w))
      end
  end.

Definition stat_OnTerminal (name : Component) : cb (statWalker * W) (res err (option Parser)) :=
  fun '(cw, w) =>
  match LookupChild (Peek (sw_stack cw)) name w with
  | (Err e, w) => Ret (Err e, (cw, w))
  | (Ok (inl directory), w) => Ret (Ok None, (set_stack (Push directory (sw_stack cw)) cw, w))
  | (Ok (inr leaf), w) =>
      match ApplyGetBazelOutputServiceStat leaf (sw_digestFunction cw) w with
      | (None, w) => Panic "output path contains leaves that don't support ApplyGetBazelOutputServiceStat"
      | (Some (Err e), w) => Ret (Err e, (cw, w))
      | (Some (Ok s), w) => Ret (Ok None, (set_stat s cw, w))
      end
  end.

Definition stat_OnUp : cb (statWalker * W) (res err NextWalker) := fun '(cw, w) =>
  match PopSingle (sw_stack cw) with
  | None => Ret (Ok VoidComponentWalker, (set_stat {| stat_Type := None |} cw, w))
  | Some s => Ret (Ok Self, (set_stack s cw, w))
  end.

Definition statScopeWalker : ScopeWalker (statWalker * W) := {|
  OnAbsolute := stat_OnAbsolute;
  OnRelative := stat_OnRelative;
  OnDriveLetter := stat_OnDriveLetter;
  OnShare := stat_OnShare;
  walker := {| OnDirectory := stat_OnDirectory; OnTerminal := stat_OnTerminal; OnUp := stat_OnUp |};
|}.

(** ** [BatchStat] *)

Abbreviation state := (outputPathState (ScopeWalkerFactory:=VirtualRootScopeWalkerFactory)).
Abbreviation build := (buildState (ScopeWalkerFactory:=VirtualRootScopeWalkerFactory)).

(** The body of the loop: the [Stat] of the response, if any. *)
Definition stat_path (statPath : string) (s : state) (bs : build) : W -> outcome (res err (option Stat) * W) :=
  fun w =>
  match Resolve_virtual_root (scopeWalkerFactory bs) statScopeWalker (UNIXFormat_NewParser statPath)
          ({| sw_digestFunction := digestFunction bs;
              sw_stack := NewNonEmptyStack (OutputPath_Dir (rootDirectory s));
              sw_stat := {| stat_Type := None |} |}, w) with
  | Panic m => Panic m
  | Ret ((None, _), (cw, w)) => Ret (Ok (Some (sw_stat cw)), w)
  | Ret ((Some e, resolvedPath), (_, w)) =>
      if decide (e = ENOENT) then Ret (Ok None, w)
      else Ret (Err (StatusWrapf e "Failed to resolve path %#v beyond %#v"
                  [FStr statPath; FStr (Builder_GetUNIXString resolvedPath)]), w)
  end.

Fixpoint stat_paths (Paths : list string) (s : state) (bs : option build) (responses : list (option Stat))
  : W -> outcome (res err (list (option Stat)) * W) := fun w =>
  match Paths with
  | [] => Ret (Ok responses, w)
  | statPath :: Paths =>
      match bs with
      | None => Panic "nil pointer dereference: buildState"
      | Some bs' =>
          match stat_path statPath s bs' w with
          | Panic m => Panic m
          | Ret (Err e, w) => Ret (Err e, w)
          | Ret (Ok r, w) => stat_paths Paths s bs (responses ++ [r]) w
          end
      end
  end.

Definition BatchStat (BuildId : string) (Paths : list string) (d : BazelOutputServiceDirectory)
  : W -> outcome (res err (list (option Stat)) * W) := fun w =>
  match getOutputPathAndBuildState BuildId d with
  | Err e => Ret (Err e, w)
  | Ok (n, bs) =>
      match heap d !! n with
      | None => Panic "nil pointer dereference: outputPathState"
      | Some s => stat_paths Paths s bs [] w
      end
  end.
End BatchStat.

(** ** Correctness

    What there is at a path below an output path, if looking it up succeeds. *)
Inductive entry_kind {Leaf : Type} : Type :=
| EDirectory
| ELeaf (l : Leaf).
Arguments entry_kind : clear implicits.

Class StatLaws {E : Errors} {P : PathLib} {D : DigestLib} {PT : PathTypes} {A : AnyLib} {W : Type}
    {OPF : OutputPathFactory W} {PD : PrepopulatedDirectory W} (SD : StatDirectory W) : Type := {
  stat_locations :: DirectoryLocations W;
  entry_at : W -> OutputPath -> list Component -> res err (entry_kind Leaf);
  symlink_target : Leaf -> option Parser;
  leaf_stat : Leaf -> DigestFunction -> option (res err Stat);
  (** Nothing that is called changes the output paths. *)
  LookupChild_spec d c w r w' o p : LookupChild d c w = (r, w') ->
    pd_location d = Some (o, p) ->
    entry_at w' = entry_at w /\
    match entry_at w o (p ++ [c]) with
    | Err e => r = Err e
    | Ok EDirectory => exists d', r = Ok (inl d') /\ pd_location d' = Some (o, p ++ [c])
    | Ok (ELeaf l) => r = Ok (inr l)
    end;
  GetSymlinkTarget_spec l w r w' : GetSymlinkTarget l w = (r, w') ->
    entry_at w' = entry_at w /\ r = symlink_target l;
  ApplyGetBazelOutputServiceStat_spec l df w r w' : ApplyGetBazelOutputServiceStat l df w = (r, w') ->
    entry_at w' = entry_at w /\ r = leaf_stat l df;
}.

(** *** What a path denotes

    [entries] are the contents of an output path. *)
Section Status.
Context {E : Errors} {P : PathLib} {PT : PathTypes} {A : AnyLib} {Leaf : Type}.
Context (entries : list Component -> res err (entry_kind Leaf)).
Context (symlink_target : Leaf -> option Parser) (stat_of : Leaf -> option (res err Stat)).

(** The status of what a path denotes, starting from the directory [dir]. [None] if
    that depends on a leaf of which the status cannot be requested, or on what
    [follow] makes of a symbolic link. *)
Fixpoint status_from (follow : Parser -> list piece -> list Component -> option (res err Stat))
    (ps : list piece) (dir : list Component) : option (res err Stat) :=
  match ps with
  | [] => Some (Ok {| stat_Type := Some Stat_Directory |})
  | Directory_ c :: ps =>
      match entries (dir ++ [c]) with
      | Err e => Some (Err e)
      | Ok EDirectory => status_from follow ps (dir ++ [c])
      | Ok (ELeaf l) =>
          match symlink_target l with
          | None => Some (Err ENOTDIR)
          | Some t => follow t ps dir
          end
      end
  | Terminal c :: _ =>
      match entries (dir ++ [c]) with
      | Err e => Some (Err e)
      | Ok EDirectory => Some (Ok {| stat_Type := Some Stat_Directory |})
      | Ok (ELeaf l) => stat_of l
      end
  | Up :: ps =>
      match dir with
      | [] => Some (Ok {| stat_Type := None |})
      | _ => status_from follow ps (removelast dir)
      end
  end.

Context (form : Parser -> option path_form) (below : list piece -> option (list piece)) (too_many : err).

(** Relative paths start from a directory, and absolute ones from the root of the
    output path, provided that they lead there. *)
Definition status_at (go : list piece -> list Component -> option (res err Stat)) (t : path_form)
    (dir : list Component) : option (res err Stat) :=
  match t with
  | Relative ps => go ps dir
  | Absolute ps =>
      match below ps with
      | None => Some (Ok {| stat_Type := None |})
      | Some ps => go ps []
      end
  end.

(** The target of a symbolic link takes the place of the link. *)
Fixpoint status_of (links : nat) : list piece -> list Component -> option (res err Stat) :=
  status_from (fun t rest dir =>
    match links with
    | O => Some (Err too_many)
    | S links =>
        match form t with
        | None => None
        | Some t => status_at (status_of links) (followed_by t rest) dir
        end
    end).
End Status.

Section Correctness.
Context {E : Errors} {P : PathLib} {D : DigestLib} {PT : PathTypes} {PR : PathResolution} {SL : StackLib}.
Context {A : AnyLib} {W : Type} {OPF : OutputPathFactory W} {PD : PrepopulatedDirectory W}.
Context {SD : StatDirectory W}.
Context (PRL : PathResolutionLaws PR) (SLL : StackLaws SL) (SDL : StatLaws SD).

Abbreviation state := (outputPathState (ScopeWalkerFactory:=VirtualRootScopeWalkerFactory)).
Abbreviation build := (buildState (ScopeWalkerFactory:=VirtualRootScopeWalkerFactory)).

Section Walk.
Context (o : OutputPath) (df : DigestFunction) (w0 : W).

(** The walker is in a directory of the output path, and nothing has changed. *)
Definition walker_in (x : statWalker * W) (dir : list Component) : Prop :=
  chain (fun d p => pd_location d = Some (o, p)) (items (sw_stack x.1)) dir /\
  sw_digestFunction x.1 = df /\ entry_at x.2 = entry_at w0.

(** The walk ends with the status [r]. *)
Definition ends_with (r : res err Stat) (out : option (outcome (option err * (statWalker * W)))) : Prop :=
  exists e cw' w', out = Some (Ret (e, (cw', w'))) /\ entry_at w' = entry_at w0 /\
    match r with Ok s => e = None /\ sw_stat cw' = s | Err x => e = Some x end.

Abbreviation status follow := (status_from (entry_at w0 o) symlink_target (fun l => leaf_stat l df) follow).

(** One run of the walker, up to a symbolic link. Upon reaching one, the walker is
    in the directory that contains it, and its status is empty. *)
Lemma statWalker_run follow_walk follow ps cw w dir r :
  (forall t rest cw w dir r, walker_in (cw, w) dir -> sw_stat cw = {| stat_Type := None |} ->
     follow t rest dir = Some r -> ends_with r (follow_walk t rest (cw, w))) ->
  walker_in (cw, w) dir -> sw_stat cw = {| stat_Type := Some Stat_Directory |} ->
  status follow ps dir = Some r ->
  ends_with r (run follow_walk (walker statScopeWalker) ps (cw, w)).
Proof using SLL SDL.
  intros Hfollow. revert cw w dir.
  induction ps as [|[c|c|] ps IH]; intros cw w dir (Hd & Hdf & Hw) Hs; cbn in *; rewrite <-?Hw.
  - intros [= <-]. by exists None, cw, w.
  - destruct (LookupChild (Peek (sw_stack cw)) c w) as [x w1] eqn:Hl.
    eapply LookupChild_spec in Hl as [Hw1 Hl]; [|exact (chain_Peek SLL _ _ _ Hd)].
    destruct (entry_at w o (dir ++ [c])) as [[|l]|e]; [destruct Hl as (d' & -> & Hd')| |]; try subst x.
    + intros Hr. apply (IH (set_stack (Push d' (sw_stack cw)) cw) w1 (dir ++ [c])); [|done|by rewrite <-Hw].
      split; [by apply chain_Push|]. split; [done|exact (eq_trans Hw1 Hw)].
    + destruct (GetSymlinkTarget l w1) as [t w2] eqn:Ht. apply GetSymlinkTarget_spec in Ht as [Hw2 ->].
      destruct (symlink_target l) as [t|].
      * intros Hr. eapply Hfollow; [|done|exact Hr]. split; [exact Hd|].
        split; [done|]. cbn. by rewrite Hw2, Hw1.
      * intros [= <-]. exists (Some ENOTDIR), cw, w2. by rewrite Hw2, Hw1.
    + intros [= <-]. exists (Some e), cw, w1. by rewrite Hw1.
  - destruct (LookupChild (Peek (sw_stack cw)) c w) as [x w1] eqn:Hl.
    eapply LookupChild_spec in Hl as [Hw1 Hl]; [|exact (chain_Peek SLL _ _ _ Hd)].
    destruct (entry_at w o (dir ++ [c])) as [[|l]|e]; [destruct Hl as (d' & -> & Hd')| |]; try subst x.
    + intros [= <-]. eexists None, _, w1. by rewrite Hw1.
    + rewrite Hdf. destruct (ApplyGetBazelOutputServiceStat l df w1) as [t w2] eqn:Ht.
      apply ApplyGetBazelOutputServiceStat_spec in Ht as [Hw2 ->]. intros ->.
      destruct r as [s|e]; eexists _, _, w2; by rewrite Hw2, Hw1.
    + intros [= <-]. exists (Some e), cw, w1. by rewrite Hw1.
  - pose proof (chain_PopSingle SLL _ _ _ Hd) as Hp. destruct (PopSingle (sw_stack cw)) as [s|].
    + destruct Hp as [Hne Hp]. intros Hr. apply (IH (set_stack s cw) w (removelast dir)); [by split|done|].
      rewrite <-Hw. by destruct dir.
    + subst dir. intros [= <-]. by eexists None, _, w.
Qed.

(** Entering a path, with a walker whose status is empty. *)
Lemma statWalker_enter below go_walk go t cw w dir r :
  (forall ps cw w dir r, walker_in (cw, w) dir -> sw_stat cw = {| stat_Type := Some Stat_Directory |} ->
     go ps dir = Some r -> ends_with r (go_walk ps (cw, w))) ->
  walker_in (cw, w) dir -> sw_stat cw = {| stat_Type := None |} ->
  status_at below go t dir = Some r ->
  ends_with r (enter below statScopeWalker go_walk t (cw, w)).
Proof using SLL.
  intros Hgo (Hd & Hdf & Hw) Hs. unfold status_at, enter. destruct t as [ps|ps].
  - intros Hr. eapply Hgo; [|done|exact Hr]. done.
  - destruct (below ps) as [ps'|].
    + intros Hr. eapply Hgo; [|done|exact Hr]. split; [|done]. by eapply chain_PopAll.
    + intros [= <-]. by exists None, cw, w.
Qed.

Lemma statWalker_run_links form below too_many links ps cw w dir r :
  walker_in (cw, w) dir -> sw_stat cw = {| stat_Type := Some Stat_Directory |} ->
  status_of (entry_at w0 o) symlink_target (fun l => leaf_stat l df) form below too_many links ps dir
    = Some r ->
  ends_with r (run_links form below too_many statScopeWalker links ps (cw, w)).
Proof using SLL SDL.
  revert ps cw w dir r. induction links as [|links IH]; intros ps cw w dir r Hin Hs Hr;
    cbn [status_of run_links] in *; (eapply statWalker_run; [|exact Hin|exact Hs|exact Hr]);
    intros t rest cw' w' dir' r' Hin' Hs'.
  - intros [= <-]. exists (Some too_many), cw', w'. by destruct Hin' as (_ & _ & ?).
  - cbn. destruct (form t) as [t'|]; [|discriminate]. apply statWalker_enter; [exact IH|exact Hin'|exact Hs'].
Qed.
End Walk.

(** The status of a path in an output path, relative to its root directory or
    absolute, is [r]. *)
Definition has_status (w : W) (s : state) (bs : build) (p : string) (r : res err Stat) : Prop :=
  let below := below_root (scopeWalkerFactory bs) in
  exists t, path_form_of (UNIXFormat_NewParser p) = Some t /\
    status_at below
      (status_of (entry_at w (rootDirectory s)) symlink_target (fun l => leaf_stat l (digestFunction bs))
         path_form_of below too_many_links maximum_links) t [] = Some r.

Lemma stat_path_spec p s bs w0 w r :
  has_status w0 s bs p r -> entry_at w = entry_at w0 ->
  exists res w', stat_path p s bs w = Ret (res, w') /\ entry_at w' = entry_at w0 /\
    match r with
    | Ok x => res = Ok (Some x)
    | Err e => if decide (e = ENOENT) then res = Ok None else exists m args, res = Err (StatusWrapf e m args)
    end.
Proof using PRL SLL SDL.
  intros (t & Hp & Hr) Hw. set (cw := {| sw_digestFunction := digestFunction bs;
    sw_stack := NewNonEmptyStack (OutputPath_Dir (rootDirectory s)); sw_stat := {| stat_Type := None |} |}).
  assert (walker_in (rootDirectory s) (digestFunction bs) w0 (cw, w) []) as Hin.
  { split; [|done]. apply chain_New, OutputPath_location. }
  pose proof (statWalker_enter _ _ w0 _ _ _ t cw w [] r
    (statWalker_run_links _ _ w0 _ _ _ _) Hin eq_refl Hr) as (e & cw' & w' & Hrun & Hw' & Hres).
  destruct (Resolve_virtual_root_run _ _ _ _ _ _ _ Hp Hrun) as [b Hb].
  unfold stat_path. fold cw. rewrite Hb. destruct r as [x|x].
  - destruct Hres as [-> <-]. by exists (Ok (Some (sw_stat cw'))), w'.
  - subst e. case_decide; eexists _, w'; (split; [done|]; split; [done|]); [done|]. by eexists _, _.
Qed.

(** The first status that makes the request fail. *)
Definition first_error (results : list (res err Stat)) : option err :=
  snd <$> list_find (fun e => e <> ENOENT)
    (omap (fun r => match r with Ok _ => None | Err e => Some e end) results).

Definition response_of (r : res err Stat) : option Stat :=
  match r with Ok s => Some s | Err _ => None end.

Lemma first_error_cons r results :
  first_error (r :: results) =
    match r with
    | Err e => if decide (e = ENOENT) then first_error results else Some e
    | Ok _ => first_error results
    end.
Proof using.
  unfold first_error. destruct r as [x|e]; [done|]. cbn.
  repeat case_decide; try done. by destruct (list_find _ _) as [[]|].
Qed.

Lemma stat_paths_spec Paths s bs results responses w0 w :
  Forall2 (has_status w0 s bs) Paths results -> entry_at w = entry_at w0 ->
  exists r w', stat_paths Paths s (Some bs) responses w = Ret (r, w') /\ entry_at w' = entry_at w0 /\
    match first_error results with
    | None => r = Ok (responses ++ (response_of <$> results))
    | Some e => exists m args, r = Err (StatusWrapf e m args)
    end.
Proof using PRL SLL SDL.
  intros Hall. revert responses w.
  induction Hall as [|p r Paths results Hp Hall IH]; intros responses w Hw; cbn [stat_paths].
  { exists (Ok responses), w. by rewrite app_nil_r. }
  destruct (stat_path_spec p s bs w0 w r Hp Hw) as (x & w1 & -> & Hw1 & Hx).
  rewrite first_error_cons. destruct r as [st|e]; [|destruct (decide (e = ENOENT))].
  - subst x. destruct (IH (responses ++ [Some st]) w1 Hw1) as (r & w' & ? & ? & Hr').
    exists r, w'. split; [done|]. split; [done|]. rewrite <-app_assoc in Hr'. exact Hr'.
  - subst x. destruct (IH (responses ++ [None]) w1 Hw1) as (r & w' & ? & ? & Hr').
    exists r, w'. split; [done|]. split; [done|]. rewrite <-app_assoc in Hr'. exact Hr'.
  - destruct Hx as (m & args & ->). exists (Err (StatusWrapf e m args)), w1.
    split; [done|]. split; [done|]. by exists m, args.
Qed.

(** C11. For a build that runs, [BatchStat] returns the status of what every path in
    its output path denotes, in the order of the paths: directories, the leaves of
    the output path, nothing for a path that does not exist, and an empty status for
    a path that leads out of the output path, of which nothing is looked up. Paths
    are relative to the root directory of the output path, or absolute. Symbolic
    links in the middle of a path are followed: their targets are relative to the
    directory that contains them, lead to the root of the output path or to an alias
    of it, or lead outside. A failing lookup, a file in the middle of a path and more
    than [maximum_links] symbolic links make the whole request fail. *)
Theorem BatchStat_correct BuildId Paths d n bs s w results :
  getOutputPathAndBuildState BuildId d = Ok (n, Some bs) -> heap d !! n = Some s ->
  Forall2 (has_status w s bs) Paths results ->
  exists r w', BatchStat BuildId Paths d w = Ret (r, w') /\ entry_at w' = entry_at w /\
    match first_error results with
    | None => r = Ok (response_of <$> results)
    | Some e => exists m args, r = Err (StatusWrapf e m args)
    end.
Proof using PRL SLL SDL.
  intros Hget Hs Hall. unfold BatchStat. rewrite Hget, Hs.
  by apply (stat_paths_spec Paths s bs results [] w w).
Qed.
End Correctness.

(** ** A concrete output path

    A directory [bin] with a file and symbolic links, and one of which the contents
    cannot be loaded. Other output paths are empty. *)

Module ExampleStat.
Import ErrorTree ExamplePath ExampleDigest ExampleWalk.

#[export] Instance any : AnyLib := {| Any := string; UnmarshalNew _ := Ok UnknownLocator |}.

Inductive leaf : Type := LFile | LLink (target : string).

#[export] Instance factory : OutputPathFactory unit := {|
  OutputPath := string;
  CASFileFactory := unit;
  opf_StartInitialBuild c _ _ := mret (Component_String c);
  opf_Clean _ w := (None, w);
  op_RemoveAllChildren _ _ w := (None, w);
  op_FinalizeBuild _ _ := mret tt;
  NewCASFileFactory w := (tt, w);
|}.

#[export] Instance prepopulated : PrepopulatedDirectory unit := {|
  Dir := option (string * list component);
  Leaf := leaf;
  OutputPath_Dir o := Some (o : string, []);
  CreateAndEnterPrepopulatedDirectory d c w :=
    (Ok ((fun l : string * list component => (l.1, l.2 ++ [c])) <$> d), w);
  LookupAllChildren d w := (Err ENOENT, w);
  CreateChildren d m o w := (None, w);
  Unlink l w := (tt, w);
  LookupFile f dg x w := (LFile, w);
  LookupSymlink t w := (Ok (LLink t), w);
  ApplyAppendOutputPathPersistencyDirectoryNode l c d w := (None, w);
  ApplyUploadFile l df w := (None, w);
  Log e w := (tt, w);
  Now w := ({| seconds := 0; nanos := 0 |}, w);
|}.

Definition bin : component := comp "bin" eq_refl.
Definition disk_failure : tree := status_Error Internal "Disk failure".

Definition leaves : list (string * leaf) :=
  [("a.o", LFile); ("link", LLink "a.o"); ("up", LLink "../bin"); ("inside", LLink "/out/bin");
   ("outside", LLink "/etc"); ("loop", LLink "./loop")]%string.

Definition entries (o : string) (p : list component) : res tree (entry_kind leaf) :=
  if decide (o = "base"%string) then
    match Component_String <$> p with
    | ["bin"%string] => Ok EDirectory
    | ["bin"%string; "broken"%string] => Err disk_failure
    | ["bin"%string; n] =>
        match list_find (fun l => l.1 = n) leaves with
        | Some (_, (_, l)) => Ok (ELeaf l)
        | None => Err ENOENT
        end
    | _ => Err ENOENT
    end
  else Err ENOENT.

Definition target_of (l : leaf) : option string := match l with LFile => None | LLink t => Some t end.
Definition file_stat : Stat := {| stat_Type := Some (Stat_File (Some ("digest"%string : Any))) |}.
Definition directory_stat : Stat := {| stat_Type := Some Stat_Directory |}.
Definition empty_stat : Stat := {| stat_Type := None |}.
Definition leaf_status (l : leaf) (df : string) : option (res tree Stat) :=
  match l with
  | LFile => Some (Ok file_stat)
  | LLink t => Some (Ok {| stat_Type := Some (Stat_Symlink t) |})
  end.

#[export] Instance stats : StatDirectory unit := {|
  LookupChild d c w :=
    (match (d : option (string * list component)) with
     | None => Err ENOENT
     | Some (o, p) =>
         match entries o (p ++ [c]) with
         | Err e => Err e
         | Ok EDirectory => Ok (inl (Some (o, p ++ [c])))
         | Ok (ELeaf l) => Ok (inr l)
         end
     end, w);
  GetSymlinkTarget l w := (target_of l, w);
  ApplyGetBazelOutputServiceStat l df w := (leaf_status l df, w);
|}.

#[export] Instance locations : DirectoryLocations unit := {|
  pd_location (d : Dir (PrepopulatedDirectory:=prepopulated)) := d : option (OutputPath * list Component);
  OutputPath_location o := eq_refl;
|}.

#[export] Instance stats_laws : StatLaws stats.
Proof.
  apply (Build_StatLaws _ _ _ _ _ _ _ _ stats locations (fun _ => entries) target_of leaf_status).
  - intros d c w r w' o p [= <- <-] Hd. cbn in Hd. subst d. split; [done|].
    destruct (entries o _) as [[|l]|]; [by eexists|done|done].
  - by intros l w r w' [= <- <-].
  - by intros l df w r w' [= <- <-].
Defined.

Definition build : buildState (ScopeWalkerFactory:=VirtualRootScopeWalkerFactory (PathTypes:=types)) :=
  {| id := "build"; digestFunction := "sha256"; scopeWalkerFactory := "out" |}.

Definition s : outputPathState (OPF:=factory) (ScopeWalkerFactory:=VirtualRootScopeWalkerFactory (PathTypes:=types)) := {|
  buildStateOf := Some build;
  rootDirectory := ("base"%string : OutputPath (OutputPathFactory:=factory));
  casFileFactory := (tt : CASFileFactory (OutputPathFactory:=factory));
  previous := Sentinel;
  next := Sentinel;
  cookie := 0;
  outputBaseID := comp "base" eq_refl;
|}.

Definition service := {|
  changeID := 1;
  outputBaseIDs := {[comp "base" eq_refl := 0%nat]};
  buildIDs := {["build"%string := 0%nat]};
  list_previous := Node 0;
  list_next := Node 0;
  heap := {[0%nat := s]};
  alloc := 1;
|}.

(** A file, a symbolic link, a missing file, a directory and the outside, at relative
    and absolute paths; the same by way of symbolic links. *)
Definition requests : list (string * res tree Stat) := [
  ("bin/a.o", Ok file_stat);
  ("bin/../bin/link", Ok {| stat_Type := Some (Stat_Symlink "a.o") |});
  ("bin/none/x", Err ENOENT);
  ("bin/", Ok directory_stat);
  ("../x", Ok empty_stat);
  ("/out/bin/a.o", Ok file_stat);
  ("/etc/passwd", Ok empty_stat);
  ("bin/up/a.o", Ok file_stat);
  ("bin/inside/up/", Ok directory_stat);
  ("bin/up/inside/none", Err ENOENT);
  ("bin/outside/passwd", Ok empty_stat)]%string.

Definition failing_requests : list (string * res tree Stat) := [
  ("bin/a.o", Ok file_stat);
  ("bin/loop/x", Err loop);
  ("bin/broken/x", Err disk_failure);
  ("bin/link/x", Err ENOTDIR)]%string.

Lemma BatchStat_correct_witness :
  (exists r w', BatchStat "build" requests.*1 service tt = Ret (r, w') /\
     entry_at w' = entry_at tt /\ r = Ok (response_of <$> requests.*2)) /\
  (exists r w', BatchStat "build" failing_requests.*1 service tt = Ret (r, w') /\
     entry_at w' = entry_at tt /\ exists m args, r = Err (StatusWrapf loop m args)).
Proof.
  split.
  - destruct (BatchStat_correct resolution_laws stacks_laws stats_laws "build" requests.*1 service 0 build s
                tt requests.*2) as (r & w' & Hr & Hw & H); [reflexivity|reflexivity| |].
    + repeat constructor; eexists; (split; [reflexivity|]; reflexivity).
    + exists r, w'. split; [exact Hr|]. split; [exact Hw|exact H].
  - destruct (BatchStat_correct resolution_laws stacks_laws stats_laws "build" failing_requests.*1 service 0
                build s tt failing_requests.*2) as (r & w' & Hr & Hw & H); [reflexivity|reflexivity| |].
    + repeat constructor; eexists; (split; [reflexivity|]; reflexivity).
    + exists r, w'. split; [exact Hr|]. split; [exact Hw|exact H].
Defined.
End ExampleStat.
