(* ===== verification/OutputServiceServer.v ===== *)
(** * The requests of the Bazel Output Service

    [Clean], [StartBuild] and [FinalizeArtifacts] of
    [pkg/filesystem/virtual/bazel_output_service_directory.go] as a whole: parsing
    the request, the critical sections, and the calls that are made without holding
    the lock. *)

From S2P Require Import FilterMissing PathWalk.
From S2P Require Import Prelude Errors StateFile Virtual Examples OutputPathFactory OutputService.
Local Open Scope Z_scope.

(** ** Requests *)

(** [bazeloutputservicerev2.StartBuildArgs] *)
Record StartBuildArgs : Type := {
  sba_InstanceName : string;
  sba_DigestFunction : Z;
}.

(** [digest.NewInstanceName], [InstanceName.GetDigestFunction], and the
    [anypb.Any] that holds the arguments *)
Class RequestLib {E : Errors} {D : DigestLib} : Type := {
  NewInstanceName : string -> res err InstanceName;
  InstanceName_GetDigestFunction : InstanceName -> Z -> Z -> res err DigestFunction;
  ArgsAny : Type;
  UnmarshalTo : ArgsAny -> res err StartBuildArgs;
}.

Record StartBuildRequest {E : Errors} {D : DigestLib} {RL : RequestLib} : Type := {
  OutputPathPrefix : string;
  OutputBaseId : string;
  OutputPathAliases : gmap string string;
  Args : ArgsAny;
  BuildId : string;
}.

(** [d.handle.NotifyRemoval], and the output path as the directory that is
    filtered *)
Class ServerEnvironment {E : Errors} {P : PathLib} {D : DigestLib} (W : Type)
    {OPF : OutputPathFactory W} {FE : FilterEnvironment W} : Type := {
  NotifyRemoval : Component -> st W unit;
  as_Directory : OutputPath -> FilterMissing.Directory;
}.

Section Server.
Context {E : Errors} {P : PathLib} {D : DigestLib} {PT : PathTypes} {PR : PathResolution} {RL : RequestLib}.
Context {W : Type} {OPF : OutputPathFactory W} {FE : FilterEnvironment W} {SE : ServerEnvironment W}.

Abbreviation directory := (BazelOutputServiceDirectory (ScopeWalkerFactory:=VirtualRootScopeWalkerFactory)).

(** ** [Clean] *)
Definition Clean (OutputBaseId : string) (d : directory) : run W (res err unit * directory) :=
  fun w =>
  match NewComponent OutputBaseId with
  | None => (Some (Ret (Err (status_Error InvalidArgument "Output base ID is not a valid filename"), d)), w)
  | Some outputBaseID =>
      match Clean_lookup outputBaseID d with
      | Some n =>
          match heap d !! n with
          | None => (Some (Panic "nil pointer dereference: outputPathState"), w)
          | Some outputPathState =>
              match op_RemoveAllChildren (rootDirectory outputPathState) true w with
              | (Some e, w) => (Some (Ret (Err e, d)), w)
              | (None, w) =>
                  let d := Clean_detach outputBaseID n d in
                  let '(_, w) := NotifyRemoval outputBaseID w in
                  (Some (Ret (Ok tt, d)), w)
              end
          end
      | None =>
          match opf_Clean outputBaseID w with
          | (Some e, w) => (Some (Ret (Err e, d)), w)
          | (None, w) => (Some (Ret (Ok tt, d)), w)
          end
      end
  end.

(** ** [StartBuild]

    Everything the request is checked for before the lock is taken. *)
Definition parse_StartBuild (request : StartBuildRequest)
  : res err (Component * VirtualRootScopeWalkerFactory * DigestFunction * Builder) :=
  match Resolve_absolute (UNIXFormat_NewParser (OutputPathPrefix request)) with
  | Err e => Err (StatusWrap e "Failed to resolve output path prefix")
  | Ok prefix =>
      match NewComponent (OutputBaseId request) with
      | None => Err (status_Error InvalidArgument "Output base ID is not a valid filename")
      | Some outputBaseID =>
          match Join_terminal prefix outputBaseID with
          | Err e => Err (StatusWrap e "Failed to resolve output path")
          | Ok (outputPath, outputPathSuffix) =>
              match NewVirtualRootScopeWalkerFactory outputPath (OutputPathAliases request) with
              | Err e => Err e
              | Ok scopeWalkerFactory =>
                  match UnmarshalTo (Args request) with
                  | Err e => Err (StatusWrap e "Failed to unmarshal start build arguments")
                  | Ok args =>
                      match NewInstanceName (sba_InstanceName args) with
                      | Err e => Err (StatusWrapf e "Failed to parse instance name %#v"
                                        [FStr (sba_InstanceName args)])
                      | Ok instanceName =>
                          match InstanceName_GetDigestFunction instanceName (sba_DigestFunction args) 0 with
                          | Err e => Err e
                          | Ok digestFunction =>
                              Ok (outputBaseID, scopeWalkerFactory, digestFunction, outputPathSuffix)
                          end
                      end
                  end
              end
          end
      end
  end.

(** The response holds the output path suffix. *)
Definition StartBuild (request : StartBuildRequest) (d : directory) : run W (res err string * directory) :=
  match parse_StartBuild request with
  | Err e => mret (Err e, d)
  | Ok (outputBaseID, scopeWalkerFactory, digestFunction, outputPathSuffix) =>
      let filter n (d : directory) : run W (res err string * directory) := fun w =>
        match heap d !! n with
        | None => (Some (Panic "nil pointer dereference: state"), w)
        | Some state =>
            match filterMissingChildren (as_Directory (rootDirectory state)) digestFunction w with
            | (Some e, w) =>
                (Some (Ret (Err (StatusWrap e "Failed to filter contents of the output path"), d)), w)
            | (None, w) => (Some (Ret (Ok (Builder_GetUNIXString outputPathSuffix), d)), w)
            end
        end in
      '(n, d) ← StartBuild_locked outputBaseID (BuildId request) digestFunction scopeWalkerFactory d;
      filter n d
  end.

(** ** [FinalizeArtifacts] does nothing. *)
Definition FinalizeArtifacts (d : directory) : st W (res err unit * directory) := fun w => ((Ok tt, d), w).

(** ** Correctness *)

Context (d : directory) (a : service (ScopeWalkerFactory:=VirtualRootScopeWalkerFactory)).
Context (Himp : implements d a).

(** C25. [Clean] rejects names that are not filenames. If there is an output path
    with the name, it removes its contents and, if that succeeds, the output path
    from the service along with the build in it, and notifies the kernel; otherwise
    the state that previous runs left behind is removed. Errors are returned and
    leave the service as it was. It never follows a nil pointer. *)
Theorem Clean_request OutputBaseId w :
  sv_changeID a < 2 ^ 64 - 1 ->
  exists r d' w', Clean OutputBaseId d w = (Some (Ret (r, d')), w') /\
  match NewComponent OutputBaseId with
  | None => r = Err (status_Error InvalidArgument "Output base ID is not a valid filename") /\
      d' = d /\ w' = w
  | Some c =>
      match sv_path c a with
      | Some e =>
          let '(x, w1) := op_RemoveAllChildren (e_root e) true w in
          match x with
          | Some x => r = Err x /\ d' = d /\ w' = w1
          | None => r = Ok tt /\ implements d' (sv_Clean c a) /\ w' = (NotifyRemoval c w1).2
          end
      | None =>
          let '(x, w1) := opf_Clean c w in
          r = match x with Some x => Err x | None => Ok tt end /\ d' = d /\ w' = w1
      end
  end.
Proof using Himp.
  intros Hch. unfold Clean. destruct (NewComponent OutputBaseId) as [c|]; [|by eexists _, _, _].
  unfold Clean_lookup. pose proof Himp as (l & Hwf & Hents & Hcid).
  pose proof (sv_path_spec d a l c Hwf Hents) as Hpath.
  pose proof (Clean_implements d a Himp c) as Hclean. unfold Clean_lookup in Hclean.
  destruct (outputBaseIDs d !! c) as [n|] eqn:Hc.
  - destruct Hpath as (s & Hs & ->). rewrite Hs. cbn [entry_of e_root].
    destruct (op_RemoveAllChildren (rootDirectory s) true w) as [[x|] w1]; [by eexists _, _, _|].
    destruct (NotifyRemoval c w1) as [[] w2]. eexists _, _, _. split; [done|]. split; [done|].
    split; [|done]. specialize (Hclean n Hch). by rewrite decide_True in Hclean.
  - rewrite Hpath. destruct (opf_Clean c w) as [[x|] w1]; by eexists _, _, _.
Qed.

(** C2. A request to start a build that is invalid has no effect. Otherwise the
    build runs, in the abstract service too, no matter whether filtering its output
    path succeeds: a build that runs already stays where it is, others run in the
    output path with the output base ID of the request. If filtering succeeds, the
    output path contains nothing that is absent from the storage or belongs to
    another instance name or digest function, everything else has been kept, and the
    suffix of the output path is returned. The request only panics if creating the
    root directory of the output path does. *)
Theorem StartBuild_request (FL : FilterLaws FE) request w :
  sv_changeID a < 2 ^ 64 - 1 ->
  match parse_StartBuild request with
  | Err e => StartBuild request d w = (Some (Ret (Err e, d)), w)
  | Ok (c, swf, df, suffix) =>
      let bs := {| id := BuildId request; digestFunction := df; scopeWalkerFactory := swf |} in
      match sv_StartBuild c bs a w with
      | (Some (Ret a'), w1) =>
          exists r d' w' e, StartBuild request d w = (Some (Ret (r, d')), w') /\
            implements d' a' /\ sv_running (BuildId request) a' = Some e /\
            match r with
            | Err x => exists y, x = StatusWrap y "Failed to filter contents of the output path"
            | Ok s => s = Builder_GetUNIXString suffix /\
                forall x, removed w' x <->
                  removed w1 x \/ (x ∈ children (as_Directory (e_root e)) w1 /\ should_remove FL df x)
            end
      | (Some (Panic msg), w1) => StartBuild request d w = (Some (Panic msg), w1)
      | (None, w1) => StartBuild request d w = (None, w1)
      end
  end.
Proof using Himp.
  intros Hch. unfold StartBuild. destruct (parse_StartBuild request) as [[[[c swf] df] suffix]|x]; [|done].
  cbn zeta. pose proof (StartBuild_implements d a Himp c (BuildId request) df swf w Hch) as Hsb.
  unfold mbind, run_bind. destruct (StartBuild_locked _ _ _ _ _ _) as [[[[n d']|]|] w1],
    (sv_StartBuild _ _ _ _) as [[[a'|]|] w1']; destruct Hsb as [Hw Hsb]; cbn in *; try done; try congruence.
  destruct Hsb as [Hb Himp']. subst w1'. pose proof Himp' as (l & Hwf & Hents & _).
  destruct (sv_running_spec _ _ l _ _ Hwf Hents Hb) as (s & bs & Hs & _ & _ & Hrun). rewrite Hs.
  destruct (filterMissingChildren _ df w1) as [[x|] w2] eqn:Hf.
  - eexists _, _, _, _. split; [done|]. split; [done|]. split; [done|]. by eexists.
  - eexists _, _, _, _. split; [done|]. split; [done|]. split; [done|]. split; [done|].
    by apply (filterMissingChildren_removes FL) in Hf as [_ ?].
Qed.
End Server.

(** ** A concrete service

    Output paths hold the children of the example for filtering. *)

Module ExampleServer.
Import ErrorTree ExamplePath ExampleDigest ExampleWalk ExampleFilter.

#[export] Instance requests : RequestLib (E:=errors) := {|
  NewInstanceName := Ok;
  InstanceName_GetDigestFunction _ f _ :=
    if bool_decide (f = 1) then Ok "sha256"%string
    else Err (status_Error InvalidArgument "Unknown digest function");
  ArgsAny := StartBuildArgs;
  UnmarshalTo := Ok;
|}.

#[export] Instance factory : OutputPathFactory (list child) := {|
  OutputPath := unit;
  CASFileFactory := unit;
  opf_StartInitialBuild _ _ _ := mret tt;
  opf_Clean _ w := (Some (Sys "device busy"), w);
  op_RemoveAllChildren _ _ w := (None, rev dir ++ w);
  op_FinalizeBuild _ _ := mret tt;
  NewCASFileFactory w := (tt, w);
|}.

#[export] Instance server : ServerEnvironment (list child) := {|
  NotifyRemoval _ w := (tt, w);
  as_Directory _ := dir;
|}.

Definition request : StartBuildRequest := {|
  OutputPathPrefix := "out";
  OutputBaseId := "base1";
  OutputPathAliases := ∅;
  Args := {| sba_InstanceName := "main"; sba_DigestFunction := 1 |} : ArgsAny;
  BuildId := "build1";
|}.

Definition base : Component := comp "base1" eq_refl.

Abbreviation directory := (BazelOutputServiceDirectory (OPF:=factory) (ScopeWalkerFactory:=VirtualRootScopeWalkerFactory)).

Definition empty : directory := NewBazelOutputServiceDirectory.
Definition nothing : service (OPF:=factory) (ScopeWalkerFactory:=VirtualRootScopeWalkerFactory) :=
  {| sv_entries := []; sv_changeID := 0 |}.

Definition build : buildState (ScopeWalkerFactory:=VirtualRootScopeWalkerFactory (PathTypes:=types)) :=
  {| id := "build1"; digestFunction := "sha256"; scopeWalkerFactory := "out/base1" |}.

Definition running : service (OPF:=factory) (ScopeWalkerFactory:=VirtualRootScopeWalkerFactory) :=
  {| sv_entries := [{| e_id := base; e_cookie := 0; e_root := tt : OutputPath (OutputPathFactory:=factory);
                       e_build := Some build |}];
     sv_changeID := 1 |}.

Lemma StartBuild_request_witness :
  exists r d' w' e, StartBuild request empty [] = (Some (Ret (r, d')), w') /\
    implements d' running /\ sv_running "build1" running = Some e /\
    match r with
    | Err x => exists y, x = StatusWrap y "Failed to filter contents of the output path"
    | Ok s => s = "base1"%string /\
        forall x, removed (FE:=environment) w' x <->
          removed (FE:=environment) [] x \/
          (x ∈ children (FE:=environment) (as_Directory (e_root e)) [] /\ should_remove laws "sha256" x)
    end.
Proof. exact (StartBuild_request empty nothing implements_init laws request [] eq_refl). Defined.

Example StartBuild_succeeds :
  match StartBuild request empty [] with
  | (Some (Ret (Ok s, _)), w) => bool_decide (s = "base1"%string /\ fst <$> w = ["broken"; "absent"; "foreign"]%string)
  | _ => false
  end = true.
Proof. vm_compute. reflexivity. Qed.

(** There is nothing to clean but what a previous run left behind, which fails. *)
Lemma Clean_request_witness :
  exists r d' w', Clean "base1" empty [] = (Some (Ret (r, d')), w') /\
    r = Err (Sys "device busy") /\ d' = empty /\ w' = [].
Proof. exact (Clean_request empty nothing implements_init "base1" [] eq_refl). Defined.
End ExampleServer.
