(* ===== verification/CasDirectory.v ===== *)
(** * Directories that are backed by the Content Addressable Storage

    [cas_directory.go]: an immutable directory whose contents are a [Directory]
    message, generic in where the message comes from. *)

From S2P Require Import Prelude GoLib Errors StateFile Virtual Examples TreeWalker.
Import Binary.
Local Open Scope Z_scope.

(** ** Nodes of the virtual file system

    [virtual.Directory] and [virtual.Leaf] as far as they are called. *)
Class VirtualNodes (W : Type) : Type := {
  VDirectory : Type;
  VLeaf : Type;
  Directory_VirtualGetAttributes : VDirectory -> Z -> Attributes -> st W Attributes;
  Leaf_VirtualGetAttributes : VLeaf -> Z -> Attributes -> st W Attributes;
  Leaf_VirtualOpenSelf : VLeaf -> Z -> OpenExistingOptions -> Z -> Attributes -> st W (Status * Attributes);
  (** [OpenExistingOptions.ToAttributesMask] *)
  ToAttributesMask : OpenExistingOptions -> Z;
}.

(** [virtual.DirectoryChild] *)
Inductive DirectoryChild {W : Type} {VN : VirtualNodes W} : Type :=
| FromDirectory (d : VDirectory)
| FromLeaf (l : VLeaf).

Definition Child_VirtualGetAttributes {W : Type} {VN : VirtualNodes W} (c : DirectoryChild)
    (requested : Z) (a : Attributes) : st W Attributes :=
  match c with
  | FromDirectory d => Directory_VirtualGetAttributes d requested a
  | FromLeaf l => Leaf_VirtualGetAttributes l requested a
  end.

(** [CASDirectoryContext]: where a directory gets its contents from, and how it
    creates its children. [C] is the type that implements it. *)
Class CASDirectoryContext {E : Errors} {D : DigestLib} {W : Type} {VN : VirtualNodes W} (C : Type) : Type := {
  LookupDirectory : C -> Digest -> VDirectory;
  LookupFile : C -> Digest -> bool -> VLeaf;
  GetDirectoryContents : C -> st W (vres REDirectory);
  LogError : C -> err -> st W unit;
}.

(** The handle allocators of bb-remote-execution. [New] is given the bytes that
    identify a node within an allocator. The resolver that
    [AsResolvableAllocator] is given is left out: it is called by the library
    with the bytes that follow those of the allocator itself. *)
Class HandleAllocators {W : Type} {VN : VirtualNodes W} : Type := {
  HandleAllocation : Type;
  HandleAllocator : Type;
  AsResolvableAllocator : HandleAllocation -> HandleAllocator;
  New : HandleAllocator -> list byte -> HandleAllocation;
  AsLinkableLeaf : HandleAllocation -> VLeaf -> VLeaf;
}.

Record casDirectory {E : Errors} {D : DigestLib} {W : Type} {VN : VirtualNodes W}
    {HA : HandleAllocators} {C : Type} : Type := {
  directoryContext : C;
  digestFunction : DigestFunction;
  handleAllocator : HandleAllocator;
  sizeBytes : Z;
}.
Arguments casDirectory {E D W VN HA} C.

(** [AsStatelessDirectory] of an allocation, and the symlink factory that
    [virtual.NewBaseSymlinkFactory] creates *)
Class CASDirectoryLib {E : Errors} {D : DigestLib} {W : Type} {VN : VirtualNodes W}
    {HA : HandleAllocators} (C : Type) : Type := {
  AsStatelessDirectory : HandleAllocation -> casDirectory C -> VDirectory;
  LookupSymlink : string -> res err VLeaf;
}.

Section CasDirectory.
Context {E : Errors} {P : PathLib} {D : DigestLib} {VC : VirtualConstants}.
Context {W : Type} {VN : VirtualNodes W} {HA : HandleAllocators}.
Context {C : Type} {CC : CASDirectoryContext C} {CL : CASDirectoryLib C}.

(** ** Creation *)

Definition createSelf (d : casDirectory C) : VDirectory :=
  AsStatelessDirectory (New (handleAllocator d) [byte_of_Z 0]) d.

Definition NewCASDirectory (directoryContext : C) (digestFunction : DigestFunction)
    (handleAllocation : HandleAllocation) (sizeBytes : Z) : VDirectory * casDirectory C :=
  let d := {|
    directoryContext := directoryContext;
    digestFunction := digestFunction;
    handleAllocator := AsResolvableAllocator handleAllocation;
    sizeBytes := sizeBytes;
  |} in
  (createSelf d, d).

Definition createSymlink (d : casDirectory C) (index : Z) (target : string) : st W (vres VLeaf) := fun w =>
  match LookupSymlink target with
  | Err e =>
      let '(_, w) := LogError (directoryContext d)
        (StatusWrapf e "Failed to create symbolic link with target %#v" [FStr target]) w in
      (VErr StatusErrIO, w)
  | Ok symlink =>
      (VOk (AsLinkableLeaf (New (handleAllocator d) (PutUvarint (u64 (index + 1)))) symlink), w)
  end.

(** ** Handles *)
Definition resolveHandle (d : casDirectory C) (r : list byte) : st W (vres DirectoryChild) := fun w =>
  match ReadUvarint r with
  | None => (VErr StatusErrBadHandle, w)
  | Some (index, _) =>
      if bool_decide (index = 0) then (VOk (FromDirectory (createSelf d)), w)
      else
        match GetDirectoryContents (directoryContext d) w with
        | (VErr s, w) => (VErr s, w)
        | (VOk directory, w) =>
            let index := u64 (index - 1) in
            if bool_decide (Z.of_nat (length (re_Symlinks directory)) <= index)
            then (VErr StatusErrBadHandle, w)
            else
              match re_Symlinks directory !! Z.to_nat index with
              | None => (VErr StatusErrBadHandle, w)
              | Some symlink =>
                  match createSymlink d index (sn_Target symlink) w with
                  | (VErr s, w) => (VErr s, w)
                  | (VOk symlink, w) => (VOk (FromLeaf symlink), w)
                  end
              end
        end
  end.

(** ** Attributes *)
Definition VirtualGetAttributes (d : casDirectory C) (a : Attributes) : Attributes :=
  {| a_ChangeID := Some 0;
     a_FileType := Some FileTypeDirectory;
     a_HasNamedAttributes := Some false;
     a_IsInNamedAttributeDirectory := Some false;
     a_LinkCount := Some ImplicitDirectoryLinkCount;
     a_OwnerUserID := a_OwnerUserID a;
     a_OwnerGroupID := a_OwnerGroupID a;
     a_Permissions := Some (Z.lor PermissionsRead PermissionsExecute);
     a_SizeBytes := Some (sizeBytes d) |}.

(** ** Looking up entries

    The binary search: [sort.Search] for the first entry whose name is not less
    than [n], and the test whether it has that name. *)
Definition search_entry {A : Type} (name : A -> string) (entries : list A) (n : string) : option (nat * A) :=
  let i := Sort.Search (length entries)
             (fun i => match entries !! i with Some e => String.leb n (name e) | None => false end) in
  match entries !! i with
  | Some e => if bool_decide (name e = n) then Some (i, e) else None
  | None => None
  end.

(** The result, and what has become of the attributes. *)
Definition VirtualLookup (d : casDirectory C) (name : Component) (requested : Z) (out : Attributes)
  : st W (vres DirectoryChild * Attributes) := fun w =>
  match GetDirectoryContents (directoryContext d) w with
  | (VErr s, w) => ((VErr s, out), w)
  | (VOk directory, w) =>
      let n := Component_String name in
      match search_entry rdn_Name (re_Directories directory) n with
      | Some (_, entry) =>
          match NewDigestFromProto (digestFunction d) (rdn_Digest entry) with
          | Err e =>
              let '(_, w) := LogError (directoryContext d)
                (StatusWrapf e "Failed to parse digest for directory %#v" [FStr n]) w in
              ((VErr StatusErrIO, out), w)
          | Ok entryDigest =>
              let child := LookupDirectory (directoryContext d) entryDigest in
              let '(out, w) := Directory_VirtualGetAttributes child requested out w in
              ((VOk (FromDirectory child), out), w)
          end
      | None =>
          match search_entry fn_Name (re_Files directory) n with
          | Some (_, entry) =>
              match NewDigestFromProto (digestFunction d) (fn_Digest entry) with
              | Err e =>
                  let '(_, w) := LogError (directoryContext d)
                    (StatusWrapf e "Failed to parse digest for file %#v" [FStr n]) w in
                  ((VErr StatusErrIO, out), w)
              | Ok entryDigest =>
                  let child := LookupFile (directoryContext d) entryDigest (fn_IsExecutable entry) in
                  let '(out, w) := Leaf_VirtualGetAttributes child requested out w in
                  ((VOk (FromLeaf child), out), w)
              end
          | None =>
              match search_entry sn_Name (re_Symlinks directory) n with
              | Some (i, entry) =>
                  match createSymlink d (Z.of_nat i) (sn_Target entry) w with
                  | (VErr s, w) => ((VErr s, out), w)
                  | (VOk f, w) =>
                      let '(out, w) := Leaf_VirtualGetAttributes f requested out w in
                      ((VOk (FromLeaf f), out), w)
                  end
              | None => ((VErr StatusErrNoEnt, out), w)
              end
          end
      end
  end.

(** [VirtualOpenChild] returns a leaf, if any, the mask of the attributes that
    were set, and a status. *)
Definition VirtualOpenChild (d : casDirectory C) (name : Component) (shareAccess : Z)
    (createAttributes : option Attributes) (existingOptions : option OpenExistingOptions)
    (requested : Z) (openedFileAttributes : Attributes)
  : st W (option VLeaf * Z * Status * Attributes) := fun w =>
  let fail s w := ((None, 0, s, openedFileAttributes), w) in
  match GetDirectoryContents (directoryContext d) w with
  | (VErr s, w) => fail s w
  | (VOk directory, w) =>
      let n := Component_String name in
      match search_entry rdn_Name (re_Directories directory) n with
      | Some _ => fail (ReadOnlyDirectoryOpenChildWrongFileType existingOptions StatusErrIsDir) w
      | None =>
          match search_entry fn_Name (re_Files directory) n with
          | Some (_, entry) =>
              match existingOptions with
              | None => fail StatusErrExist w
              | Some options =>
                  match NewDigestFromProto (digestFunction d) (fn_Digest entry) with
                  | Err e =>
                      let '(_, w) := LogError (directoryContext d)
                        (StatusWrapf e "Failed to parse digest for file %#v" [FStr n]) w in
                      fail StatusErrIO w
                  | Ok entryDigest =>
                      let leaf := LookupFile (directoryContext d) entryDigest (fn_IsExecutable entry) in
                      let '((s, a), w) :=
                        Leaf_VirtualOpenSelf leaf shareAccess options requested openedFileAttributes w in
                      ((Some leaf, ToAttributesMask options, s, a), w)
                  end
              end
          | None =>
              match search_entry sn_Name (re_Symlinks directory) n with
              | Some _ => fail (ReadOnlyDirectoryOpenChildWrongFileType existingOptions StatusErrSymlink) w
              | None => fail (ReadOnlyDirectoryOpenChildDoesntExist createAttributes) w
              end
          end
      end
  end.

(** ** Listing entries

    What is reported for one entry. *)
Record direntry : Type := {
  nextCookie : Z;
  entryName : Component;
  entryChild : DirectoryChild;
  entryAttributes : Attributes;
}.

(** The three loops have the same shape. [make] is the part of the body that
    creates the child of an entry; a loop ends with a status if the function as a
    whole returns. [i] is the index of the first entry of [entries], and [accept]
    decides whether the reporter has room for an entry after those it took. *)
Fixpoint report_entries {A : Type} (kind : string) (name : A -> string)
    (make : Z -> A -> st W (vres DirectoryChild)) (d : casDirectory C) (requested nextCookieOffset : Z)
    (accept : list direntry -> direntry -> bool) (reported : list direntry) (entries : list A) (i : Z)
  : st W (option Status * list direntry) := fun w =>
  match entries with
  | [] => ((None, reported), w)
  | entry :: entries =>
      match NewComponent (name entry) with
      | None =>
          let '(_, w) := LogError (directoryContext d)
            (status_Errorf InvalidArgument (kind +:+ " %#v has an invalid name") [FStr (name entry)]) w in
          ((Some StatusErrIO, reported), w)
      | Some c =>
          match make i entry w with
          | (VErr s, w) => ((Some s, reported), w)
          | (VOk child, w) =>
              let '(a, w) := Child_VirtualGetAttributes child requested no_Attributes w in
              let e := {| nextCookie := u64 (nextCookieOffset + i); entryName := c;
                          entryChild := child; entryAttributes := a |} in
              if accept reported e
              then report_entries kind name make d requested nextCookieOffset accept
                     (reported ++ [e]) entries (u64 (i + 1)) w
              else ((Some StatusOK, reported), w)
          end
      end
  end.

Definition make_directory (d : casDirectory C) (i : Z) (entry : REDirectoryNode)
  : st W (vres DirectoryChild) := fun w =>
  match NewDigestFromProto (digestFunction d) (rdn_Digest entry) with
  | Err e =>
      let '(_, w) := LogError (directoryContext d)
        (StatusWrapf e "Failed to parse digest for directory %#v" [FStr (rdn_Name entry)]) w in
      (VErr StatusErrIO, w)
  | Ok entryDigest => (VOk (FromDirectory (LookupDirectory (directoryContext d) entryDigest)), w)
  end.

Definition make_file (d : casDirectory C) (i : Z) (entry : FileNode) : st W (vres DirectoryChild) := fun w =>
  match NewDigestFromProto (digestFunction d) (fn_Digest entry) with
  | Err e =>
      let '(_, w) := LogError (directoryContext d)
        (StatusWrapf e "Failed to parse digest for file %#v" [FStr (fn_Name entry)]) w in
      (VErr StatusErrIO, w)
  | Ok entryDigest =>
      (VOk (FromLeaf (LookupFile (directoryContext d) entryDigest (fn_IsExecutable entry))), w)
  end.

Definition make_symlink (d : casDirectory C) (i : Z) (entry : SymlinkNode) : st W (vres DirectoryChild) := fun w =>
  match createSymlink d i (sn_Target entry) w with
  | (VErr s, w) => (VErr s, w)
  | (VOk child, w) => (VOk (FromLeaf child), w)
  end.

(** The entries from index [i] on, and what is left of [i] after the loop and the
    subtraction that follows it. *)
Definition from_index {A : Type} (entries : list A) (i : Z) : list A :=
  if bool_decide (Z.of_nat (length entries) <= i) then [] else drop (Z.to_nat i) entries.
Definition after_loop {A : Type} (entries : list A) (i : Z) : Z :=
  u64 (Z.max i (Z.of_nat (length entries)) - Z.of_nat (length entries)).

Definition VirtualReadDir (d : casDirectory C) (firstCookie requested : Z)
    (accept : list direntry -> direntry -> bool) : st W (Status * list direntry) := fun w =>
  match GetDirectoryContents (directoryContext d) w with
  | (VErr s, w) => ((s, []), w)
  | (VOk directory, w) =>
      let i := firstCookie in
      let nextCookieOffset := 1 in
      match report_entries "Directory" rdn_Name (make_directory d) d requested nextCookieOffset accept []
              (from_index (re_Directories directory) i) i w with
      | ((Some s, reported), w) => ((s, reported), w)
      | ((None, reported), w) =>
          let i := after_loop (re_Directories directory) i in
          let nextCookieOffset := u64 (nextCookieOffset + Z.of_nat (length (re_Directories directory))) in
          match report_entries "File" fn_Name (make_file d) d requested nextCookieOffset accept reported
                  (from_index (re_Files directory) i) i w with
          | ((Some s, reported), w) => ((s, reported), w)
          | ((None, reported), w) =>
              let i := after_loop (re_Files directory) i in
              let nextCookieOffset := u64 (nextCookieOffset + Z.of_nat (length (re_Files directory))) in
              match report_entries "Symbolic link" sn_Name (make_symlink d) d requested nextCookieOffset
                      accept reported (from_index (re_Symlinks directory) i) i w with
              | ((Some s, reported), w) => ((s, reported), w)
              | ((None, reported), w) => ((StatusOK, reported), w)
              end
          end
      end
  end.
End CasDirectory.

(** ** Binary search *)

Lemma StronglySorted_lookup {A} (R : relation A) (l : list A) i j x y :
  StronglySorted R l -> l !! i = Some x -> l !! j = Some y -> (i < j)%nat -> R x y.
Proof.
  intros Hs. revert i j. induction Hs as [|z l Hs IH Hall]; intros i j Hi Hj Hij; [done|].
  destruct j as [|j]; [lia|]. destruct i as [|i].
  - injection Hi as ->. rewrite Forall_forall in Hall. apply Hall. by eapply list_elem_of_lookup_2.
  - by apply (IH i j); [| |lia].
Qed.

Lemma list_find_app_spec {A} (Q : A -> Prop) `{forall x, Decision (Q x)} (l k : list A) :
  list_find Q (l ++ k) =
    match list_find Q l with
    | Some x => Some x
    | None => prod_map (fun i => length l + i)%nat id <$> list_find Q k
    end.
Proof.
  induction l as [|x l IH]; cbn; [by destruct (list_find Q k) as [[]|]|].
  case_decide; [done|]. rewrite IH. destruct (list_find Q l) as [[]|]; [done|].
  by destruct (list_find Q k) as [[]|].
Qed.

Lemma search_entry_name {A} (name : A -> string) (entries : list A) n i e :
  search_entry name entries n = Some (i, e) -> name e = n.
Proof. unfold search_entry. case_match; [|done]. by case_bool_decide; intros [= <- <-]. Qed.

(** On sorted entries the binary search finds the first entry with the name. *)
Lemma search_entry_spec {A} (name : A -> string) (entries : list A) n :
  StronglySorted String.le (name <$> entries) ->
  search_entry name entries n = list_find (fun e => name e = n) entries.
Proof.
  intros Hs. unfold search_entry. set (f := fun i => _).
  assert (forall i e, entries !! i = Some e -> f i = String.leb n (name e)) as Hf.
  { intros i e He. unfold f. by rewrite He. }
  assert (forall i j x y, (i <= j)%nat -> entries !! i = Some x -> entries !! j = Some y ->
    String.le (name x) (name y)) as Hle.
  { intros i j x y Hij Hx Hy. destruct (decide (i = j)) as [<-|Hne].
    - rewrite Hx in Hy. injection Hy as ->. reflexivity.
    - eapply (StronglySorted_lookup _ (name <$> entries) i j);
        [done|by rewrite list_lookup_fmap, Hx|by rewrite list_lookup_fmap, Hy|lia]. }
  assert (Sort.monotone (length entries) f) as Hmono.
  { intros i j Hij. destruct (lookup_lt_is_Some_2 entries i) as [x Hx]; [lia|].
    destruct (lookup_lt_is_Some_2 entries j) as [y Hy]; [lia|].
    rewrite (Hf i x Hx), (Hf j y Hy). intros Hn.
    apply Is_true_true. etrans; [by apply Is_true_true|]. by apply (Hle i j); [lia|..]. }
  destruct (Sort.Search_spec (length entries) f Hmono) as (Hlen & Hlo & Hhi).
  set (i := Sort.Search (length entries) f) in *. clearbody i.
  symmetry. destruct (entries !! i) as [x|] eqn:Hx.
  - case_bool_decide as Hn.
    + apply list_find_Some. split; [done|]. split; [done|]. intros j y Hy Hj Hny.
      specialize (Hlo j Hj). rewrite (Hf j y Hy), Hny in Hlo.
      assert (String.le n n) as Hnn by reflexivity. apply Is_true_true in Hnn. congruence.
    + apply list_find_None, Forall_forall. intros y [j Hy]%list_elem_of_lookup Hny.
      destruct (decide (j < i)%nat) as [Hj|Hj].
      * specialize (Hlo j Hj). rewrite (Hf j y Hy), Hny in Hlo.
        assert (String.le n n) as Hnn by reflexivity. apply Is_true_true in Hnn. congruence.
      * apply Hn. apply (anti_symm String.le).
        -- rewrite <-Hny. by apply (Hle i j); [lia|..].
        -- apply Is_true_true. rewrite <-(Hf i x Hx). apply Hhi. by apply lookup_lt_Some in Hx.
  - apply list_find_None, Forall_forall. intros y [j Hy]%list_elem_of_lookup Hny.
    apply lookup_ge_None in Hx. pose proof (lookup_lt_Some _ _ _ Hy).
    specialize (Hlo j ltac:(lia)). rewrite (Hf j y Hy), Hny in Hlo.
    assert (String.le n n) as Hnn by reflexivity. apply Is_true_true in Hnn. congruence.
Qed.

Section Listing.
Context {E : Errors} {P : PathLib} {D : DigestLib} {VC : VirtualConstants}.
Context {W : Type} {VN : VirtualNodes W} {HA : HandleAllocators}.
Context {C : Type} {CC : CASDirectoryContext C} {CL : CASDirectoryLib C}.

(** ** The listing of a directory

    All entries of a directory in one list: the reference for lookups and for
    reading the directory. *)
Inductive entry : Type :=
| EDirectory (e : REDirectoryNode)
| EFile (e : FileNode)
| ESymlink (index : nat) (e : SymlinkNode).

Definition entry_name (e : entry) : string :=
  match e with EDirectory e => rdn_Name e | EFile e => fn_Name e | ESymlink _ e => sn_Name e end.

Definition make_entry (d : casDirectory C) (e : entry) : st W (vres DirectoryChild) :=
  match e with
  | EDirectory e => make_directory d 0 e
  | EFile e => make_file d 0 e
  | ESymlink i e => make_symlink d (Z.of_nat i) e
  end.

Definition listing (directory : REDirectory) : list entry :=
  (EDirectory <$> re_Directories directory) ++ (EFile <$> re_Files directory) ++
  imap ESymlink (re_Symlinks directory).

(** What the Remote Execution protocol requires of the three lists. *)
Definition sorted (directory : REDirectory) : Prop :=
  StronglySorted String.le (rdn_Name <$> re_Directories directory) /\
  StronglySorted String.le (fn_Name <$> re_Files directory) /\
  StronglySorted String.le (sn_Name <$> re_Symlinks directory).

Lemma list_find_fmap_name {A} (f : A -> entry) (name : A -> string) n (l : list A) :
  (forall x, entry_name (f x) = name x) ->
  list_find (fun e => entry_name e = n) (f <$> l) = prod_map id f <$> list_find (fun e => name e = n) l.
Proof using.
  intros Hf. induction l as [|x l IH]; [done|]. cbn. rewrite Hf. case_decide; [done|].
  rewrite IH. by destruct (list_find _ l) as [[]|].
Qed.

Lemma list_find_imap_symlinks n (l : list SymlinkNode) k :
  list_find (fun e => entry_name e = n) (imap (fun i => ESymlink (k + i)%nat) l) =
  (fun '(i, e) => (i, ESymlink (k + i)%nat e)) <$> list_find (fun e => sn_Name e = n) l.
Proof using.
  revert k. induction l as [|x l IH]; intros k; [done|]. cbn.
  case_decide; [done|]. rewrite <-(imap_ext (fun i => ESymlink (S k + i)%nat)).
  - rewrite IH. destruct (list_find _ l) as [[i e]|]; [|done]. cbn. by rewrite Nat.add_succ_r.
  - intros i y _. cbn. by rewrite Nat.add_succ_r.
Qed.

(** The entry that a lookup finds. *)
Definition find_entry (directory : REDirectory) (n : string) : option entry :=
  snd <$> list_find (fun e => entry_name e = n) (listing directory).

Lemma find_entry_search directory n :
  sorted directory ->
  find_entry directory n =
    match search_entry rdn_Name (re_Directories directory) n with
    | Some (_, e) => Some (EDirectory e)
    | None =>
        match search_entry fn_Name (re_Files directory) n with
        | Some (_, e) => Some (EFile e)
        | None =>
            match search_entry sn_Name (re_Symlinks directory) n with
            | Some (i, e) => Some (ESymlink i e)
            | None => None
            end
        end
    end.
Proof using.
  intros (Hd & Hf & Hs). rewrite !search_entry_spec by done. unfold find_entry, listing.
  rewrite !list_find_app_spec, !(list_find_fmap_name _ rdn_Name), !(list_find_fmap_name _ fn_Name) by done.
  pose proof (list_find_imap_symlinks n (re_Symlinks directory) 0) as Hl.
  change (imap (fun i => ESymlink (0 + i)%nat) (re_Symlinks directory))
    with (imap ESymlink (re_Symlinks directory)) in Hl.
  rewrite Hl.
  destruct (list_find _ (re_Directories directory)) as [[i e]|]; [done|].
  destruct (list_find _ (re_Files directory)) as [[i e]|]; [done|].
  by destruct (list_find _ (re_Symlinks directory)) as [[i e]|].
Qed.

(** Giving the attributes of a child that was created. *)
Definition with_attributes (requested : Z) (out : Attributes) (m : st W (vres DirectoryChild))
  : st W (vres DirectoryChild * Attributes) := fun w =>
  match m w with
  | (VErr s, w) => ((VErr s, out), w)
  | (VOk child, w) =>
      let '(out, w) := Child_VirtualGetAttributes child requested out w in ((VOk child, out), w)
  end.

(** The status of opening an entry that is not a file. *)
Definition open_status (existingOptions : option OpenExistingOptions) (createAttributes : option Attributes)
    (e : option entry) : option Status :=
  match e with
  | Some (EDirectory _) => Some (ReadOnlyDirectoryOpenChildWrongFileType existingOptions StatusErrIsDir)
  | Some (ESymlink _ _) => Some (ReadOnlyDirectoryOpenChildWrongFileType existingOptions StatusErrSymlink)
  | Some (EFile _) => match existingOptions with None => Some StatusErrExist | Some _ => None end
  | None => Some (ReadOnlyDirectoryOpenChildDoesntExist createAttributes)
  end.

(** The lookup of a name is that of the linear search. *)
Lemma VirtualLookup_find d name requested out w directory w1 :
  GetDirectoryContents (directoryContext d) w = (VOk directory, w1) -> sorted directory ->
  VirtualLookup d name requested out w =
    match find_entry directory (Component_String name) with
    | None => ((VErr StatusErrNoEnt, out), w1)
    | Some e => with_attributes requested out (make_entry d e) w1
    end.
Proof using.
  intros Hdir Hsorted. rewrite find_entry_search by done. unfold VirtualLookup, with_attributes. rewrite Hdir.
  destruct (search_entry rdn_Name _ _) as [[i e]|] eqn:Hs.
  { apply search_entry_name in Hs. rewrite <-Hs. cbn. unfold make_directory.
    destruct (NewDigestFromProto _ _) as [dg|x]; [done|]. by destruct (LogError _ _ _). }
  clear Hs. destruct (search_entry fn_Name _ _) as [[i e]|] eqn:Hs.
  { apply search_entry_name in Hs. rewrite <-Hs. cbn. unfold make_file.
    destruct (NewDigestFromProto _ _) as [dg|x]; [done|]. by destruct (LogError _ _ _). }
  destruct (search_entry sn_Name _ _) as [[i e]|]; [|done]. cbn. unfold make_symlink.
  by destruct (createSymlink d _ _ w1) as [[l|s] w2].
Qed.

(** C12. In a directory whose lists are sorted, as the Remote Execution protocol
    demands, the binary searches find what a linear search through the listing
    finds: looking up a name yields the child of the first entry with that name, and
    fails if there is none; opening it fails for everything but an existing file
    that may be opened, and then opens the file that is looked up. *)
Theorem VirtualLookup_linear d name requested out w directory w1 :
  GetDirectoryContents (directoryContext d) w = (VOk directory, w1) -> sorted directory ->
  VirtualLookup d name requested out w =
    match find_entry directory (Component_String name) with
    | None => ((VErr StatusErrNoEnt, out), w1)
    | Some e => with_attributes requested out (make_entry d e) w1
    end /\
  forall share create existing,
    match open_status existing create (find_entry directory (Component_String name)) with
    | Some s => VirtualOpenChild d name share create existing requested out w = ((None, 0, s, out), w1)
    | None => exists e options, find_entry directory (Component_String name) = Some (EFile e) /\
        existing = Some options /\
        VirtualOpenChild d name share create existing requested out w =
          match make_entry d (EFile e) w1 with
          | (VOk (FromLeaf leaf), w2) =>
              let '((s, a), w3) := Leaf_VirtualOpenSelf leaf share options requested out w2 in
              ((Some leaf, ToAttributesMask options, s, a), w3)
          | (_, w2) => ((None, 0, StatusErrIO, out), w2)
          end
    end.
Proof using.
  intros Hdir Hsorted. split; [by apply VirtualLookup_find|]. rewrite find_entry_search by done.
  unfold VirtualOpenChild. rewrite Hdir.
  destruct (search_entry rdn_Name _ _) as [[i e]|]; [done|].
  destruct (search_entry fn_Name _ _) as [[i e]|] eqn:Hs; [|by destruct (search_entry sn_Name _ _) as [[i e]|]].
  apply search_entry_name in Hs. rewrite <-Hs. intros share create [options|]; [|done].
  exists e, options. split; [done|]. split; [done|]. cbn. unfold make_file.
  destruct (NewDigestFromProto _ _) as [dg|x]; [done|]. by destruct (LogError _ _ _).
Qed.

(** ** Reading the directory

    The reference: one loop over the listing. [cookie] is the index of the first
    entry of [es]. *)
Definition entry_type (e : entry) : string :=
  match e with EDirectory _ => "Directory" | EFile _ => "File" | ESymlink _ _ => "Symbolic link" end.

Fixpoint read_entries (d : casDirectory C) (requested : Z) (accept : list direntry -> direntry -> bool)
    (reported : list direntry) (es : list entry) (cookie : Z) : st W (Status * list direntry) := fun w =>
  match es with
  | [] => ((StatusOK, reported), w)
  | e :: es =>
      match NewComponent (entry_name e) with
      | None =>
          let '(_, w) := LogError (directoryContext d)
            (status_Errorf InvalidArgument (entry_type e +:+ " %#v has an invalid name")
               [FStr (entry_name e)]) w in
          ((StatusErrIO, reported), w)
      | Some c =>
          match make_entry d e w with
          | (VErr s, w) => ((s, reported), w)
          | (VOk child, w) =>
              let '(a, w) := Child_VirtualGetAttributes child requested no_Attributes w in
              let x := {| nextCookie := cookie + 1; entryName := c;
                          entryChild := child; entryAttributes := a |} in
              if accept reported x
              then read_entries d requested accept (reported ++ [x]) es (cookie + 1) w
              else ((StatusOK, reported), w)
          end
      end
  end.

(** One of the three loops is a part of that loop. [prior] is the number of
    entries in the lists before, and [f] makes an entry of the listing. *)
Lemma report_entries_read {A} kind (name : A -> string) make d requested prior accept reported
    (entries : list A) i w (f : nat -> A -> entry) rest :
  (forall j x, entry_name (f j x) = name x) -> (forall j x, entry_type (f j x) = kind) ->
  (forall i x w, 0 <= i -> make i x w = make_entry d (f (Z.to_nat i) x) w) ->
  0 <= prior -> 0 <= i -> prior + i + Z.of_nat (length entries) < 2 ^ 64 ->
  let es := imap (fun j => f (Z.to_nat i + j)%nat) entries in
  read_entries d requested accept reported (es ++ rest) (prior + i) w =
    match report_entries kind name make d requested (u64 (1 + prior)) accept reported entries i w with
    | ((Some s, reported), w) => ((s, reported), w)
    | ((None, reported), w) =>
        read_entries d requested accept reported rest (prior + i + Z.of_nat (length entries)) w
    end.
Proof using.
  intros Hname Hkind Hmake Hprior. revert reported i w.
  induction entries as [|x entries IH]; intros reported i w Hi Hlt.
  { cbn. by rewrite Z.add_0_r. }
  cbn [imap report_entries]. rewrite Nat.add_0_r. cbn [app read_entries length] in *.
  rewrite Hname, Hkind. destruct (NewComponent (name x)) as [c|]; [|by destruct (LogError _ _ _)].
  rewrite Hmake by done. destruct (make_entry d _ w) as [[child|s] w1]; [|done].
  destruct (Child_VirtualGetAttributes _ _ _ _) as [a w2].
  rewrite u64_add_l, (u64_id (1 + prior + i)) by lia.
  replace (1 + prior + i) with (prior + i + 1) by lia. case_match; [|done].
  rewrite (u64_id (i + 1)) by lia. replace (prior + i + 1) with (prior + (i + 1)) by lia.
  rewrite (imap_ext _ (fun j => f (Z.to_nat (i + 1) + j)%nat)).
  - rewrite IH by lia. by replace (prior + (i + 1) + Z.of_nat (length entries))
      with (prior + i + Z.of_nat (S (length entries))) by lia.
  - intros j y _. cbn. f_equal. lia.
Qed.

Lemma from_index_app {A} (l k : list A) i :
  0 <= i -> from_index (l ++ k) i =
    from_index l i ++ from_index k (Z.max i (Z.of_nat (length l)) - Z.of_nat (length l)).
Proof using.
  intros Hi. unfold from_index. rewrite length_app, Nat2Z.inj_add.
  repeat case_bool_decide; try lia; try done.
  - rewrite drop_app_ge by lia. cbn. f_equal. lia.
  - rewrite drop_app_le by lia. f_equal. destruct k; [done|cbn in *; lia].
  - rewrite drop_app_le by lia. by rewrite Z.max_r, Z.sub_diag by lia.
Qed.

Lemma from_index_fmap {A B} (g : A -> B) (l : list A) i : from_index (g <$> l) i = g <$> from_index l i.
Proof using. unfold from_index. rewrite length_fmap. case_bool_decide; [done|]. by rewrite fmap_drop. Qed.

Lemma from_index_imap {A B} (g : nat -> A -> B) (l : list A) i :
  from_index (imap g l) i = imap (fun j => g (Z.to_nat i + j)%nat) (from_index l i).
Proof using.
  unfold from_index. rewrite length_imap. case_bool_decide; [done|].
  generalize (Z.to_nat i) as n. clear. revert g. induction l as [|x l IH]; intros g [|n]; try done.
  cbn. rewrite IH. by apply imap_ext.
Qed.

Lemma length_from_index {A} (l : list A) i :
  0 <= i -> i + Z.of_nat (length (from_index l i)) = Z.max i (Z.of_nat (length l)).
Proof using. intros Hi. unfold from_index. case_bool_decide; cbn; [lia|]. rewrite length_drop. lia. Qed.

Lemma imap_const_fmap {A B} (g : A -> B) (l : list A) : imap (fun _ => g) l = g <$> l.
Proof using. apply list_eq. intros i. rewrite list_lookup_imap, list_lookup_fmap. done. Qed.

(** A loop over one of the lists, for the entries from index [i] on. *)
Lemma report_from_index {A} kind (name : A -> string) make d requested prior accept reported
    (entries : list A) i w (f : nat -> A -> entry) rest c :
  (forall j x, entry_name (f j x) = name x) -> (forall j x, entry_type (f j x) = kind) ->
  (forall i x w, 0 <= i -> make i x w = make_entry d (f (Z.to_nat i) x) w) ->
  0 <= prior -> 0 <= i -> prior + i < 2 ^ 64 -> prior + Z.of_nat (length entries) < 2 ^ 64 ->
  c = prior + i ->
  read_entries d requested accept reported (from_index (imap f entries) i ++ rest) c w =
    match report_entries kind name make d requested (u64 (1 + prior)) accept reported
            (from_index entries i) i w with
    | ((Some s, reported), w) => ((s, reported), w)
    | ((None, reported), w) =>
        read_entries d requested accept reported rest
          (prior + Z.of_nat (length entries) + after_loop entries i) w
    end.
Proof using.
  intros Hn Hk Hm Hp Hi Hlt Hlen ->. pose proof (length_from_index entries i Hi) as Hfi.
  rewrite from_index_imap, (report_entries_read kind name make) by (done || lia).
  unfold after_loop. rewrite (u64_id (i `max` _ - _)) by lia.
  replace (prior + i + Z.of_nat (length (from_index entries i))) with
    (prior + Z.of_nat (length entries) + (i `max` Z.of_nat (length entries) - Z.of_nat (length entries)))
    by lia.
  done.
Qed.

Lemma VirtualReadDir_reference d first requested accept w directory w1 :
  GetDirectoryContents (directoryContext d) w = (VOk directory, w1) ->
  0 <= first < 2 ^ 64 -> Z.of_nat (length (listing directory)) < 2 ^ 64 ->
  VirtualReadDir d first requested accept w =
    read_entries d requested accept [] (from_index (listing directory) first) first w1.
Proof using.
  intros Hdir Hfirst. unfold VirtualReadDir, listing. rewrite Hdir.
  rewrite !length_app, !length_fmap, length_imap. set (nd := length (re_Directories directory)).
  set (nf := length (re_Files directory)). set (ns := length (re_Symlinks directory)). intros Hlen.
  rewrite !from_index_app, !length_fmap by lia. fold nd nf.
  rewrite <-(imap_const_fmap EDirectory), <-(imap_const_fmap EFile).
  set (i1 := first `max` Z.of_nat nd - Z.of_nat nd).
  set (i2 := i1 `max` Z.of_nat nf - Z.of_nat nf).
  assert (after_loop (re_Directories directory) first = i1) as Hi1.
  { unfold after_loop. apply u64_id. subst i1 nd. lia. }
  assert (after_loop (re_Files directory) i1 = i2) as Hi2.
  { unfold after_loop. apply u64_id. subst i1 i2 nd nf. lia. }
  rewrite (report_from_index "Directory" rdn_Name (make_directory d) d requested 0) by (done || lia). change (u64 (1 + 0)) with 1.
  destruct (report_entries "Directory" _ _ _ _ _ _ _ _ _ w1) as [[[s|] rep1] w2]; [done|].
  rewrite Hi1, Z.add_0_l. fold nd.
  rewrite (report_from_index "File" fn_Name (make_file d) d requested (Z.of_nat nd)) by (done || subst i1; lia).
  destruct (report_entries "File" _ _ _ _ _ _ _ _ _ w2) as [[[s|] rep2] w3]; [done|].
  rewrite Hi2. fold nf. rewrite u64_add_l.
  rewrite <-(app_nil_r (from_index (imap ESymlink _) _)).
  rewrite (report_from_index "Symbolic link" sn_Name (make_symlink d) d requested (Z.of_nat nd + Z.of_nat nf)); try done; try (subst i1 i2; lia).
  - replace (1 + Z.of_nat nd + Z.of_nat nf) with (1 + (Z.of_nat nd + Z.of_nat nf)) by lia.
    by destruct (report_entries "Symbolic link" _ _ _ _ _ _ _ _ _ w3) as [[[s|] rep3] w4].
  - intros i x w' Hi. cbn. by rewrite Z2Nat.id.
Qed.

(** An entry of which the child can be created. *)
Definition valid_entry (d : casDirectory C) (e : entry) : Prop :=
  is_Some (NewComponent (entry_name e)) /\
  forall w, exists child w', make_entry d e w = (VOk child, w').

Definition key (x : direntry) : Z * string := (nextCookie x, Component_String (entryName x)).

(** Entries with the cookies from which the next page starts. *)
Definition numbered (cookie : Z) (es : list entry) : list (Z * string) :=
  imap (fun j e => (cookie + Z.of_nat j + 1, entry_name e)) es.

Lemma numbered_cons c e es : numbered c (e :: es) = (c + 1, entry_name e) :: numbered (c + 1) es.
Proof using.
  unfold numbered. cbn. rewrite Z.add_0_r. f_equal. apply imap_ext. intros j x _. cbn.
  f_equal. lia.
Qed.

Lemma read_entries_valid {PL : PathLaws P} d requested accept reported es cookie w :
  Forall (valid_entry d) es ->
  exists k page w', read_entries d requested accept reported es cookie w = ((StatusOK, reported ++ page), w') /\
    key <$> page = take k (numbered cookie es) /\ (k <= length es)%nat /\
    ((forall r x, accept r x = true) -> k = length es).
Proof using.
  intros Hall. revert reported cookie w. induction Hall as [|e es [[c Hc] Hmake] Hall IH]; intros reported cookie w.
  { exists 0%nat, [], w. by rewrite app_nil_r. }
  cbn [read_entries]. rewrite Hc. destruct (Hmake w) as (child & w1 & ->).
  destruct (Child_VirtualGetAttributes _ _ _ _) as [a w2].
  set (x := {| nextCookie := cookie + 1; entryName := c; entryChild := child; entryAttributes := a |}).
  destruct (accept reported x) eqn:Ha.
  - destruct (IH (reported ++ [x]) (cookie + 1) w2) as (k & page & w3 & Hr & Hkey & Hk & Hfull).
    exists (S k), (x :: page), w3. rewrite Hr, <-app_assoc. split; [done|]. split; [|split].
    + rewrite numbered_cons. cbn. rewrite Hkey. unfold key at 1. cbn.
      by rewrite (NewComponent_String _ _ Hc).
    + cbn. lia.
    + intros Hacc. cbn. by rewrite Hfull.
  - exists 0%nat, [], w2. rewrite app_nil_r. split; [done|]. split; [done|]. split; [lia|].
    intros Hacc. by rewrite Hacc in Ha.
Qed.

(** Reading page by page, each with a reporter of its own: a page starts at the
    cookie of the last entry that was reported. *)
Fixpoint read_pages (d : casDirectory C) (requested : Z) (accepts : list (list direntry -> direntry -> bool))
    (first : Z) : st W (list Status * list direntry) := fun w =>
  match accepts with
  | [] => (([], []), w)
  | accept :: accepts =>
      let '((s, page), w) := VirtualReadDir d first requested accept w in
      let '((ss, pages), w) :=
        read_pages d requested accepts (from_option nextCookie first (last page)) w in
      ((s :: ss, page ++ pages), w)
  end.

Lemma numbered_drop n cookie es :
  drop n (numbered cookie es) = numbered (cookie + Z.of_nat n) (drop n es).
Proof using.
  revert cookie es. induction n as [|n IH]; intros cookie [|e es]; try done.
  { by rewrite Z.add_0_r. }
  rewrite numbered_cons. cbn [drop]. rewrite IH. f_equal. lia.
Qed.

Lemma length_numbered cookie es : length (numbered cookie es) = length es.
Proof using. apply length_imap. Qed.

(** The cookie that the next page starts from. *)
Lemma last_cookie first k (page : list direntry) es :
  key <$> page = take k (numbered first es) -> (k <= length es)%nat ->
  from_option nextCookie first (last page) = first + Z.of_nat k.
Proof using.
  intros Hkey Hk. assert (length page = k) as Hlen.
  { rewrite <-(length_fmap key), Hkey, length_take, length_numbered. lia. }
  rewrite last_lookup, Hlen. destruct k as [|k]; cbn [pred].
  { destruct page; [|done]. cbn. lia. }
  destruct (lookup_lt_is_Some_2 page k) as [x Hx]; [lia|]. rewrite Hx.
  assert ((key <$> page) !! k = Some (key x)) as Hkx by (by rewrite list_lookup_fmap, Hx).
  rewrite Hkey, lookup_take_lt in Hkx by lia. unfold numbered in Hkx. rewrite list_lookup_imap in Hkx.
  destruct (es !! k); [|done]. cbn in Hkx. injection Hkx as Hc _. cbn. lia.
Qed.

Context {PL : PathLaws P}.
Context (d : casDirectory C) (requested : Z) (directory : REDirectory).
Context (Hdir : forall w, exists w', GetDirectoryContents (directoryContext d) w = (VOk directory, w')).
Context (Hvalid : Forall (valid_entry d) (listing directory)).
Context (Hsize : Z.of_nat (length (listing directory)) < 2 ^ 64).

Lemma VirtualReadDir_page n accept w :
  (n <= length (listing directory))%nat ->
  exists k page w', VirtualReadDir d (Z.of_nat n) requested accept w = ((StatusOK, page), w') /\
    key <$> page = take k (numbered (Z.of_nat n) (drop n (listing directory))) /\
    (k <= length (drop n (listing directory)))%nat /\
    ((forall r x, accept r x = true) -> k = length (drop n (listing directory))).
Proof using Hdir Hvalid Hsize PL.
  intros Hn. destruct (Hdir w) as [w1 Hw].
  rewrite (VirtualReadDir_reference d _ requested accept w directory w1 Hw) by lia.
  assert (from_index (listing directory) (Z.of_nat n) = drop n (listing directory)) as ->.
  { unfold from_index. rewrite Nat2Z.id. case_bool_decide; [|done]. symmetry. apply drop_ge. lia. }
  apply (read_entries_valid d requested accept [] _ (Z.of_nat n) w1). by apply Forall_drop.
Qed.

Lemma read_pages_prefix accepts n w :
  (n <= length (listing directory))%nat ->
  exists k ss pages w', read_pages d requested accepts (Z.of_nat n) w = ((ss, pages), w') /\
    Forall (eq StatusOK) ss /\
    key <$> pages = take k (numbered (Z.of_nat n) (drop n (listing directory))) /\
    (k <= length (drop n (listing directory)))%nat /\
    ((exists accept, last accepts = Some accept /\ forall r x, accept r x = true) ->
       k = length (drop n (listing directory))).
Proof using Hdir Hvalid Hsize PL.
  revert n w. induction accepts as [|accept accepts IH]; intros n w Hn.
  { exists 0%nat, [], [], w. split; [done|]. split; [done|]. split; [done|]. split; [lia|].
    by intros (? & ? & _). }
  cbn [read_pages]. destruct (VirtualReadDir_page n accept w Hn) as (k & page & w1 & -> & Hkey & Hk & Hfull).
  rewrite (last_cookie _ k page _ Hkey Hk), <-Nat2Z.inj_add. rewrite length_drop in Hk.
  destruct (IH (n + k)%nat w1) as (k2 & ss & pages & w2 & -> & Hss & Hkey2 & Hk2 & Hfull2); [lia|].
  rewrite length_drop in Hk2. exists (k + k2)%nat, (StatusOK :: ss), (page ++ pages), w2.
  split; [done|]. split; [by constructor|]. split; [|split].
  - rewrite fmap_app, Hkey, Hkey2. rewrite <-take_take_drop. f_equal. f_equal.
    by rewrite numbered_drop, drop_drop, Nat2Z.inj_add.
  - rewrite length_drop. lia.
  - rewrite !length_drop in *. intros (a & Ha & Hall). destruct accepts as [|a' accepts].
    + injection Ha as ->. rewrite (Hfull Hall) in *. lia.
    + rewrite Hfull2; [lia|]. by exists a.
Qed.

(** C13. Reading a valid directory page by page, by whatever reporters, succeeds and
    reports a prefix of the listing: every entry once, with its name and the cookie
    from which the next page starts; and if the last reporter has room for
    everything, it is the whole listing. *)
Theorem read_pages_listing accepts w :
  exists k ss pages w', read_pages d requested accepts 0 w = ((ss, pages), w') /\
    Forall (eq StatusOK) ss /\
    key <$> pages = take k (numbered 0 (listing directory)) /\
    ((exists accept, last accepts = Some accept /\ forall r x, accept r x = true) ->
       key <$> pages = numbered 0 (listing directory)).
Proof using Hdir Hvalid Hsize PL.
  destruct (read_pages_prefix accepts 0 w) as (k & ss & pages & w' & Hr & Hss & Hkey & _ & Hfull); [lia|].
  exists k, ss, pages, w'. split; [done|]. split; [done|]. split; [done|].
  intros Hall. rewrite Hkey, (Hfull Hall). apply take_ge. by rewrite length_numbered.
Qed.
End Listing.
