(* ===== verification/CasDirectoryFactories.v ===== *)
(** * Factories of directories in the Content Addressable Storage

    [decomposed_cas_directory_factory.go], for [Directory] messages that are
    objects of their own, and [tree_cas_directory_factory.go], for those that are
    part of a [Tree] message: the contexts from which [CasDirectory] gets the
    contents of directories, and the resolution of file handles. *)

From S2P Require Import Prelude GoLib Errors StateFile Virtual Examples TreeWalker CasDirectory.
Import Binary.
Local Open Scope Z_scope.

(** ** What the factories are given

    The CAS file factory, the error logger, the allocator of handles by digest, and
    the functions of [digest] that handles rely on. *)
Class FactoryEnvironment {E : Errors} {D : DigestLib} {W : Type} {VN : VirtualNodes W}
    {HA : HandleAllocators} : Type := {
  CASFileFactory_LookupFile : Digest -> bool -> VLeaf;
  ErrorLogger_Log : err -> st W unit;
  ResolvableDigestHandleAllocator_New : Digest -> HandleAllocation;
  GetInstanceName : Digest -> InstanceName;
  GetCompactBinary : Digest -> list byte;
  (** reads the bytes of a digest, and leaves those that follow *)
  NewDigestFromCompactBinary : InstanceName -> list byte -> option (Digest * list byte);
}.

Section Decomposed.
Context {E : Errors} {P : PathLib} {D : DigestLib} {VC : VirtualConstants}.
Context {W : Type} {VN : VirtualNodes W} {HA : HandleAllocators} {DF : DirectoryFetcher W}.
Context {FE : FactoryEnvironment}.

(** ** Decomposed directories *)

Record decomposedCASDirectoryContext : Type := { cdc_digest : Digest }.

Context {CL : CASDirectoryLib decomposedCASDirectoryContext}.

Definition createDirectory (blobDigest : Digest) : VDirectory * casDirectory decomposedCASDirectoryContext :=
  NewCASDirectory {| cdc_digest := blobDigest |} (GetDigestFunction blobDigest)
    (ResolvableDigestHandleAllocator_New blobDigest) (u64 (GetSizeBytes blobDigest)).

Definition decomposed_LookupDirectory (blobDigest : Digest) : VDirectory := (createDirectory blobDigest).1.

Definition decomposed_LogError (cdc : decomposedCASDirectoryContext) (e : err) : st W unit :=
  ErrorLogger_Log (StatusWrapf e "Directory %#v" [FStr (Digest_String (cdc_digest cdc))]).

Definition decomposed_GetDirectoryContents (cdc : decomposedCASDirectoryContext)
  : st W (vres REDirectory) := fun w =>
  match GetDirectory (cdc_digest cdc) w with
  | (Err e, w) => let '(_, w) := decomposed_LogError cdc e w in (VErr StatusErrIO, w)
  | (Ok directory, w) => (VOk directory, w)
  end.

#[export] Instance decomposed_context : CASDirectoryContext decomposedCASDirectoryContext := {
  LookupDirectory _ := decomposed_LookupDirectory;
  LookupFile _ := CASFileFactory_LookupFile;
  GetDirectoryContents := decomposed_GetDirectoryContents;
  LogError := decomposed_LogError;
}.

Definition decomposed_resolve (blobDigest : Digest) (r : list byte) : st W (vres DirectoryChild) :=
  let '(_, d) := createDirectory blobDigest in resolveHandle d r.
End Decomposed.

Section Tree.
Context {E : Errors} {P : PathLib} {D : DigestLib} {VC : VirtualConstants}.
Context {W : Type} {VN : VirtualNodes W} {HA : HandleAllocators} {DF : DirectoryFetcher W}.
Context {FE : FactoryEnvironment}.

(** ** Directories in trees *)

Record treeCASDirectoryContext : Type := {
  treeDigest : Digest;
  tree_handleAllocator : HandleAllocator;
}.

Record treeRootCASDirectoryContext : Type := { root_context : treeCASDirectoryContext }.

Record treeChildCASDirectoryContext : Type := {
  child_context : treeCASDirectoryContext;
  childDigest : Digest;
}.

Context {CLR : CASDirectoryLib treeRootCASDirectoryContext}.
Context {CLC : CASDirectoryLib treeChildCASDirectoryContext}.

Definition createTreeContext (blobDigest : Digest) : treeCASDirectoryContext := {|
  treeDigest := blobDigest;
  tree_handleAllocator := AsResolvableAllocator (ResolvableDigestHandleAllocator_New blobDigest);
|}.

(** The bytes that identify a directory in a tree. *)
Definition root_identifier : list byte := [byte_of_Z 0].
Definition child_identifier (childDigest : Digest) : list byte := byte_of_Z 1 :: GetCompactBinary childDigest.

Definition createRootDirectory (cdc : treeCASDirectoryContext)
  : VDirectory * casDirectory treeRootCASDirectoryContext :=
  NewCASDirectory {| root_context := cdc |} (GetDigestFunction (treeDigest cdc))
    (New (tree_handleAllocator cdc) root_identifier) (u64 (GetSizeBytes (treeDigest cdc))).

Definition createChildDirectory (cdc : treeCASDirectoryContext) (childDigest : Digest)
  : VDirectory * casDirectory treeChildCASDirectoryContext :=
  NewCASDirectory {| child_context := cdc; childDigest := childDigest |}
    (GetDigestFunction (treeDigest cdc))
    (New (tree_handleAllocator cdc) (child_identifier childDigest)) (u64 (GetSizeBytes (treeDigest cdc))).

(** [LookupDirectory] of the factory, and of the contexts *)
Definition treeFactory_LookupDirectory (blobDigest : Digest) : VDirectory :=
  (createRootDirectory (createTreeContext blobDigest)).1.

Definition tree_LookupDirectory (cdc : treeCASDirectoryContext) (childDigest : Digest) : VDirectory :=
  (createChildDirectory cdc childDigest).1.

Definition treeRoot_LogError (cdc : treeRootCASDirectoryContext) (e : err) : st W unit :=
  ErrorLogger_Log (StatusWrapf e "Tree %#v root directory"
    [FStr (Digest_String (treeDigest (root_context cdc)))]).

Definition treeRoot_GetDirectoryContents (cdc : treeRootCASDirectoryContext)
  : st W (vres REDirectory) := fun w =>
  match GetTreeRootDirectory (treeDigest (root_context cdc)) w with
  | (Err e, w) => let '(_, w) := treeRoot_LogError cdc e w in (VErr StatusErrIO, w)
  | (Ok directory, w) => (VOk directory, w)
  end.

Definition treeChild_LogError (cdc : treeChildCASDirectoryContext) (e : err) : st W unit :=
  ErrorLogger_Log (StatusWrapf e "Tree %#v child directory %#v"
    [FStr (Digest_String (treeDigest (child_context cdc))); FStr (Digest_String (childDigest cdc))]).

Definition treeChild_GetDirectoryContents (cdc : treeChildCASDirectoryContext)
  : st W (vres REDirectory) := fun w =>
  match GetTreeChildDirectory (treeDigest (child_context cdc)) (childDigest cdc) w with
  | (Err e, w) => let '(_, w) := treeChild_LogError cdc e w in (VErr StatusErrIO, w)
  | (Ok directory, w) => (VOk directory, w)
  end.

#[export] Instance treeRoot_context : CASDirectoryContext treeRootCASDirectoryContext := {
  LookupDirectory cdc := tree_LookupDirectory (root_context cdc);
  LookupFile _ := CASFileFactory_LookupFile;
  GetDirectoryContents := treeRoot_GetDirectoryContents;
  LogError := treeRoot_LogError;
}.

#[export] Instance treeChild_context : CASDirectoryContext treeChildCASDirectoryContext := {
  LookupDirectory cdc := tree_LookupDirectory (child_context cdc);
  LookupFile _ := CASFileFactory_LookupFile;
  GetDirectoryContents := treeChild_GetDirectoryContents;
  LogError := treeChild_LogError;
}.

(** [resolve] of a tree, given what follows the digest of the tree in a handle *)
Definition treeContext_resolve (cdc : treeCASDirectoryContext) (r : list byte)
  : st W (vres DirectoryChild) := fun w =>
  match r with
  | [] => (VErr StatusErrBadHandle, w)
  | isChild :: r =>
      if bool_decide (Z_of_byte isChild = 0) then resolveHandle (createRootDirectory cdc).2 r w
      else if bool_decide (Z_of_byte isChild = 1) then
        match NewDigestFromCompactBinary (GetInstanceName (treeDigest cdc)) r with
        | None => (VErr StatusErrBadHandle, w)
        | Some (childDigest, r) => resolveHandle (createChildDirectory cdc childDigest).2 r w
        end
      else (VErr StatusErrBadHandle, w)
  end.

Definition treeFactory_resolve (blobDigest : Digest) (r : list byte) : st W (vres DirectoryChild) :=
  treeContext_resolve (createTreeContext blobDigest) r.
End Tree.

(** ** Handles *)

(** Reading back a digest that was written. *)
Class CompactBinaryLaws {E : Errors} {D : DigestLib} {W : Type} {VN : VirtualNodes W}
    {HA : HandleAllocators} (FE : FactoryEnvironment) : Prop := {
  NewDigestFromCompactBinary_spec i d r :
    GetInstanceName d = i -> NewDigestFromCompactBinary i (GetCompactBinary d ++ r) = Some (d, r);
}.

(** What is documented of the handle allocators: a handle consists of the bytes of
    the allocators in which it was created, each followed by those of the next, and
    a resolver is given those that follow its own. [digest_bytes] is what
    [ResolvableDigestHandleAllocator] puts before the handles of a digest. *)
Class HandleLaws {E : Errors} {D : DigestLib} {W : Type} {VN : VirtualNodes W} {HA : HandleAllocators}
    {FE : FactoryEnvironment} : Type := {
  allocation_bytes : HandleAllocation -> list byte;
  allocator_bytes : HandleAllocator -> list byte;
  directory_bytes : VDirectory -> list byte;
  leaf_bytes : VLeaf -> list byte;
  digest_bytes : Digest -> list byte;
  bytes_digest d : allocation_bytes (ResolvableDigestHandleAllocator_New d) = digest_bytes d;
  bytes_AsResolvableAllocator a : allocator_bytes (AsResolvableAllocator a) = allocation_bytes a;
  bytes_New a id : allocation_bytes (New a id) = allocator_bytes a ++ id;
  bytes_AsLinkableLeaf a l : leaf_bytes (AsLinkableLeaf a l) = allocation_bytes a;
}.

Class DirectoryHandleLaws {E : Errors} {D : DigestLib} {W : Type} {VN : VirtualNodes W} {HA : HandleAllocators}
    {FE : FactoryEnvironment} {HL : HandleLaws} {C : Type} (CL : CASDirectoryLib C) : Prop := {
  bytes_AsStatelessDirectory a d : directory_bytes (AsStatelessDirectory a d) = allocation_bytes a;
}.

(** How the library resolves a handle of a digest. *)
Definition resolves {E : Errors} {D : DigestLib} {W : Type} {VN : VirtualNodes W} {HA : HandleAllocators}
    {FE : FactoryEnvironment} {HL : HandleLaws}
    (resolve : Digest -> list byte -> st W (vres DirectoryChild)) (digest : Digest) (handle : list byte)
    (w : W) (result : vres DirectoryChild * W) : Prop :=
  exists r, handle = digest_bytes digest ++ r /\ resolve digest r w = result.

Section Handles.
Context {E : Errors} {P : PathLib} {D : DigestLib} {VC : VirtualConstants}.
Context {W : Type} {VN : VirtualNodes W} {HA : HandleAllocators}.

(** The bytes that follow those of a directory in the handle of the directory
    itself, and of a symbolic link in it. *)
Definition self_identifier : list byte := [byte_of_Z 0].
Definition symlink_identifier (index : nat) : list byte := PutUvarint (u64 (Z.of_nat index + 1)).

Section Directory.
Context {C : Type} {CC : CASDirectoryContext C} {CL : CASDirectoryLib C}.

Lemma resolveHandle_self (d : casDirectory C) r w :
  resolveHandle d (self_identifier ++ r) w = (VOk (FromDirectory (createSelf d)), w).
Proof using.
  unfold resolveHandle. change self_identifier with (PutUvarint 0).
  by rewrite ReadUvarint_PutUvarint.
Qed.

Lemma resolveHandle_symlink (d : casDirectory C) directory w w1 i e r :
  GetDirectoryContents (directoryContext d) w = (VOk directory, w1) ->
  re_Symlinks directory !! i = Some e -> Z.of_nat (length (re_Symlinks directory)) < 2 ^ 64 ->
  resolveHandle d (symlink_identifier i ++ r) w = make_entry d (ESymlink i e) w1.
Proof using.
  intros Hdir Hi Hlen. pose proof (lookup_lt_Some _ _ _ Hi). unfold resolveHandle, symlink_identifier.
  rewrite (u64_id (Z.of_nat i + 1)), ReadUvarint_PutUvarint by lia.
  rewrite bool_decide_false by lia. rewrite Hdir.
  replace (Z.of_nat i + 1 - 1) with (Z.of_nat i) by lia. rewrite u64_id, bool_decide_false by lia.
  rewrite Nat2Z.id, Hi. done.
Qed.

Context {FE : FactoryEnvironment} {HL : HandleLaws} {DL : DirectoryHandleLaws CL}.

(** The handles of a directory and of its symbolic links. *)
Lemma createSelf_bytes (d : casDirectory C) :
  directory_bytes (createSelf d) = allocator_bytes (handleAllocator d) ++ self_identifier.
Proof using DL. unfold createSelf. by rewrite bytes_AsStatelessDirectory, bytes_New. Qed.

Lemma make_symlink_bytes (d : casDirectory C) i e f w w' :
  make_entry d (ESymlink i e) w = (VOk (FromLeaf f), w') ->
  leaf_bytes f = allocator_bytes (handleAllocator d) ++ symlink_identifier i.
Proof using.
  unfold make_entry, make_symlink, createSymlink. destruct (LookupSymlink _) as [l|e'].
  - intros [= <- _]. by rewrite bytes_AsLinkableLeaf, bytes_New.
  - by destruct (LogError _ _ w).
Qed.
End Directory.

Section TreeHandles.
Context {DF : DirectoryFetcher W} {FE : FactoryEnvironment} (FL : CompactBinaryLaws FE).
Context {CLR : CASDirectoryLib treeRootCASDirectoryContext}.
Context {CLC : CASDirectoryLib treeChildCASDirectoryContext}.

Lemma treeFactory_resolve_root t r :
  treeFactory_resolve t (root_identifier ++ r) = resolveHandle (createRootDirectory (createTreeContext t)).2 r.
Proof using. reflexivity. Qed.

Lemma treeFactory_resolve_child t c r w :
  GetInstanceName c = GetInstanceName t ->
  treeFactory_resolve t (child_identifier c ++ r) w =
    resolveHandle (createChildDirectory (createTreeContext t) c).2 r w.
Proof using FL.
  intros Hi. unfold treeFactory_resolve, treeContext_resolve, child_identifier. cbn [app].
  change (Z_of_byte (byte_of_Z 1)) with 1. cbn [bool_decide decide_rel decide].
  rewrite (NewDigestFromCompactBinary_spec (GetInstanceName (treeDigest (createTreeContext t))) c r Hi).
  done.
Qed.

Context {HL : HandleLaws} {DLR : DirectoryHandleLaws CLR} {DLC : DirectoryHandleLaws CLC}.

Lemma root_allocator_bytes t :
  allocator_bytes (handleAllocator (createRootDirectory (createTreeContext t)).2) =
    digest_bytes t ++ root_identifier.
Proof using.
  cbn. by rewrite bytes_AsResolvableAllocator, bytes_New, bytes_AsResolvableAllocator, bytes_digest.
Qed.

Lemma child_allocator_bytes t c :
  allocator_bytes (handleAllocator (createChildDirectory (createTreeContext t) c).2) =
    digest_bytes t ++ child_identifier c.
Proof using.
  cbn. by rewrite bytes_AsResolvableAllocator, bytes_New, bytes_AsResolvableAllocator, bytes_digest.
Qed.

(** C14. The handles that nodes of a tree are given resolve to these nodes, so that
    different nodes have different handles: that of the root directory, those of
    other directories of the tree, and those of the symbolic links that looking up
    or listing one of them yields. *)
Theorem tree_handles_resolve t c w :
  GetInstanceName c = GetInstanceName t ->
  let cdc := createTreeContext t in
  resolves treeFactory_resolve t (directory_bytes (treeFactory_LookupDirectory t)) w
    (VOk (FromDirectory (treeFactory_LookupDirectory t)), w) /\
  resolves treeFactory_resolve t (directory_bytes (tree_LookupDirectory cdc c)) w
    (VOk (FromDirectory (tree_LookupDirectory cdc c)), w) /\
  (forall directory w1 i e f w2,
     treeRoot_GetDirectoryContents {| root_context := cdc |} w = (VOk directory, w1) ->
     re_Symlinks directory !! i = Some e -> Z.of_nat (length (re_Symlinks directory)) < 2 ^ 64 ->
     make_entry (createRootDirectory cdc).2 (ESymlink i e) w1 = (VOk (FromLeaf f), w2) ->
     resolves treeFactory_resolve t (leaf_bytes f) w (VOk (FromLeaf f), w2)) /\
  (forall directory w1 i e f w2,
     treeChild_GetDirectoryContents {| child_context := cdc; childDigest := c |} w = (VOk directory, w1) ->
     re_Symlinks directory !! i = Some e -> Z.of_nat (length (re_Symlinks directory)) < 2 ^ 64 ->
     make_entry (createChildDirectory cdc c).2 (ESymlink i e) w1 = (VOk (FromLeaf f), w2) ->
     resolves treeFactory_resolve t (leaf_bytes f) w (VOk (FromLeaf f), w2)).
Proof using FL DLR DLC.
  intros Hi cdc. subst cdc. split; [|split; [|split]].
  - exists (root_identifier ++ self_identifier). rewrite treeFactory_resolve_root.
    split; [|apply (resolveHandle_self _ [])].
    change (treeFactory_LookupDirectory t) with (createSelf (createRootDirectory (createTreeContext t)).2).
    by rewrite createSelf_bytes, root_allocator_bytes, <- app_assoc.
  - exists (child_identifier c ++ self_identifier). rewrite treeFactory_resolve_child by done.
    split; [|apply (resolveHandle_self _ [])].
    change (tree_LookupDirectory (createTreeContext t) c) with (createSelf (createChildDirectory (createTreeContext t) c).2).
    by rewrite createSelf_bytes, child_allocator_bytes, <- app_assoc.
  - intros directory w1 i e f w2 Hdir He Hlen Hf. exists (root_identifier ++ symlink_identifier i).
    rewrite (make_symlink_bytes _ _ _ _ _ _ Hf), root_allocator_bytes, <- app_assoc. split; [done|].
    rewrite treeFactory_resolve_root, <- (app_nil_r (symlink_identifier i)), <- Hf.
    by apply (resolveHandle_symlink _ directory).
  - intros directory w1 i e f w2 Hdir He Hlen Hf. exists (child_identifier c ++ symlink_identifier i).
    rewrite (make_symlink_bytes _ _ _ _ _ _ Hf), child_allocator_bytes, <- app_assoc. split; [done|].
    rewrite treeFactory_resolve_child, <- (app_nil_r (symlink_identifier i)), <- Hf by done.
    by apply (resolveHandle_symlink _ directory).
Qed.
End TreeHandles.
End Handles.

(** ** A concrete directory

    Handles are byte strings, and a node is its handle along with what it stands
    for; the state is the list of logged errors. *)

Module ExampleCas.
Import ErrorTree ExamplePath ExampleDigest ExampleVirtual.

(** A digest as a sequence of bits that is terminated. *)
Fixpoint pos_bytes (p : positive) : list byte :=
  match p with
  | xH => [x02]
  | xO p => x00 :: pos_bytes p
  | xI p => x01 :: pos_bytes p
  end.

Fixpoint read_pos (r : list byte) : option (positive * list byte) :=
  match r with
  | x00 :: r => '(p, r) ← read_pos r; Some (xO p, r)
  | x01 :: r => '(p, r) ← read_pos r; Some (xI p, r)
  | x02 :: r => Some (xH, r)
  | _ => None
  end.

Lemma read_pos_bytes p r : read_pos (pos_bytes p ++ r) = Some (p, r).
Proof. induction p as [p IH|p IH|]; cbn; [by rewrite IH|by rewrite IH|done]. Qed.

#[export] Instance nodes : VirtualNodes (list tree) := {|
  VDirectory := list byte;
  VLeaf := list byte * string;
  Directory_VirtualGetAttributes _ _ a w := (a, w);
  Leaf_VirtualGetAttributes _ _ a w := (a, w);
  Leaf_VirtualOpenSelf _ _ _ _ a w := ((StatusOK, a), w);
  ToAttributesMask _ := 0;
|}.

#[export] Instance allocators : HandleAllocators := {|
  HandleAllocation := list byte;
  HandleAllocator := list byte;
  AsResolvableAllocator a := a;
  New a id := a ++ id;
  AsLinkableLeaf h l := (h, l.2) : VLeaf;
|}.

#[export] Instance cas_lib {C : Type} : CASDirectoryLib (HA:=allocators) C := {|
  AsStatelessDirectory h _ := h : VDirectory;
  LookupSymlink target := Ok (([], target) : VLeaf);
|}.

#[export] Instance factory : FactoryEnvironment := {|
  CASFileFactory_LookupFile dg _ := ([], d_hash dg) : VLeaf;
  ErrorLogger_Log e w := (tt, e :: w);
  ResolvableDigestHandleAllocator_New dg := pos_bytes (encode dg);
  GetInstanceName := d_function;
  GetCompactBinary dg := pos_bytes (encode dg);
  NewDigestFromCompactBinary _ r := '(p, r) ← read_pos r; dg ← decode p; Some (dg, r);
|}.

#[export] Instance compact_laws : CompactBinaryLaws factory.
Proof. split. intros i d r _. cbn. rewrite read_pos_bytes. cbn. by rewrite decode_encode. Qed.

Definition digest_of (h : string) : option ProtoDigest := Some {| hash := h; size_bytes := 1 |}.

Definition directory : REDirectory := {|
  re_Directories := [{| rdn_Name := "bin"; rdn_Digest := digest_of "d1" |};
                     {| rdn_Name := "lib"; rdn_Digest := digest_of "d2" |}];
  re_Files := [{| fn_Name := "a.txt"; fn_Digest := digest_of "f1"; fn_IsExecutable := false |};
               {| fn_Name := "run"; fn_Digest := digest_of "f2"; fn_IsExecutable := true |}];
  re_Symlinks := [{| sn_Name := "current"; sn_Target := "bin" |}];
|}.

#[export] Instance fetcher : DirectoryFetcher (list tree) := {|
  GetDirectory dg w := (Ok directory, w);
  GetTreeRootDirectory t w := (Ok directory, w);
  GetTreeChildDirectory t c w := (Ok directory, w);
|}.

Definition t : digest := {| d_function := "sha256"; d_hash := "tree"; d_size := 100 |}.
Definition c : digest := {| d_function := "sha256"; d_hash := "child"; d_size := 10 |}.
Definition dir : casDirectory decomposedCASDirectoryContext := (createDirectory c).2.

#[export] Instance handle_laws : HandleLaws.
Proof.
  refine {| allocation_bytes (a : HandleAllocation) := (a : list byte);
    allocator_bytes (a : HandleAllocator) := (a : list byte);
    directory_bytes (d : VDirectory) := (d : list byte);
    leaf_bytes (l : VLeaf) := (l : list byte * string).1;
    digest_bytes dg := pos_bytes (encode dg) |}; reflexivity.
Defined.

#[export] Instance directory_handle_laws {C : Type} : DirectoryHandleLaws (@cas_lib C).
Proof. by split. Qed.

Definition current : SymlinkNode := {| sn_Name := "current"; sn_Target := "bin" |}.

Definition current_leaf : VLeaf := (pos_bytes (encode t) ++ child_identifier c ++ symlink_identifier 0, "bin"%string).

Lemma tree_handles_resolve_witness :
  resolves treeFactory_resolve t (directory_bytes (tree_LookupDirectory (createTreeContext t) c)) []
    (VOk (FromDirectory (tree_LookupDirectory (createTreeContext t) c)), []) /\
  resolves treeFactory_resolve t (leaf_bytes current_leaf) [] (VOk (FromLeaf current_leaf), []).
Proof.
  destruct (tree_handles_resolve compact_laws t c [] eq_refl) as (_ & Hself & _ & Hlink).
  split; [exact Hself|]. apply (Hlink directory [] 0%nat current current_leaf []); reflexivity.
Defined.

Lemma directory_sorted : sorted directory.
Proof. split; [|split]; repeat constructor. Qed.

Lemma VirtualLookup_linear_witness :
  find_entry directory "lib" =
    Some (EDirectory {| rdn_Name := "lib"; rdn_Digest := digest_of "d2" |}) /\
  VirtualLookup dir (comp "lib" eq_refl) 0 no_Attributes [] =
    with_attributes 0 no_Attributes
      (make_entry dir (EDirectory {| rdn_Name := "lib"; rdn_Digest := digest_of "d2" |})) [].
Proof.
  split; [reflexivity|].
  exact (proj1 (VirtualLookup_linear dir (comp "lib" eq_refl) 0 no_Attributes [] directory []
    eq_refl directory_sorted)).
Defined.

(** Two pages: the first reporter takes three entries, the second all others. *)
Definition three (reported : list direntry) (_ : direntry) : bool := bool_decide (length reported < 3)%nat.
Definition all (reported : list direntry) (_ : direntry) : bool := true.

Lemma entries_valid : Forall (valid_entry dir) (listing directory).
Proof.
  constructor; [split; [eexists; reflexivity|intros w; eexists _, _; reflexivity]|].
  constructor; [split; [eexists; reflexivity|intros w; eexists _, _; reflexivity]|].
  constructor; [split; [eexists; reflexivity|intros w; eexists _, _; reflexivity]|].
  constructor; [split; [eexists; reflexivity|intros w; eexists _, _; reflexivity]|].
  constructor; [split; [eexists; reflexivity|intros w; eexists _, _; reflexivity]|].
  constructor.
Qed.

Lemma read_pages_listing_witness :
  exists ss pages w', read_pages dir 0 [three; all] 0 [] = ((ss, pages), w') /\
    Forall (eq StatusOK) ss /\ key <$> pages = numbered 0 (listing directory).
Proof.
  destruct (read_pages_listing dir 0 directory) with (accepts := [three; all]) (w := @nil tree)
    as (k & ss & pages & w' & Hr & Hss & _ & Hall);
    [intros w; exists w; reflexivity|exact entries_valid|reflexivity|].
  exists ss, pages, w'. split; [exact Hr|]. split; [exact Hss|].
  apply Hall. exists all. split; reflexivity.
Defined.

Example pages_of_example :
  numbered 0 (listing directory) =
    [(1, "bin"); (2, "lib"); (3, "a.txt"); (4, "run"); (5, "current")]%string.
Proof. reflexivity. Qed.
End ExampleCas.
