(* ===== verification/CommandFile.v ===== *)
(** * Command files

    [blob_access_command_file_factory.go] and
    [handle_allocating_command_file_factory.go]: files that hold a shell script for
    a [Command] message. The script is generated anew for every read. *)

From S2P Require Import Prelude Errors StateFile Virtual Examples CasDirectory.
Local Open Scope Z_scope.

(** What the factory calls: loading a message from the storage, and converting it to
    a script, which writes a sequence of strings and may fail in the end.
    [virtual.BoundReadToFileSize] returns the number of bytes that are left of a
    buffer, and whether the end of the file is reached. *)
Class CommandEnvironment {E : Errors} {D : DigestLib} (W : Type) : Type := {
  Command : Type;
  Get_ToProto : Digest -> Z -> st W (res err Command);
  ConvertCommandToShellScript : Command -> list (list byte) * option err;
  Logger_Log : err -> st W unit;
  BoundReadToFileSize : nat -> Z -> Z -> nat * bool;
}.

(** [filesystem.RegionType] *)
Inductive RegionType : Type := Data | Hole | OtherRegion.

(** ** The writers of [blob_access_command_file_factory.go] *)

Record sizeCountingWriter : Type := { size : Z }.

Definition sizeCountingWriter_WriteString (s : list byte) (w : sizeCountingWriter) : sizeCountingWriter :=
  {| size := u64 (size w + Z.of_nat (length s)) |}.

(** [w.buf] is the rest of a buffer that is filled from its start: its length is
    [room], and [written] is what has been copied so far. *)
Record regionExtractingWriter : Type := {
  written : list byte;
  room : nat;
  offset : Z;
}.

Definition regionExtractingWriter_WriteString (s : list byte) (w : regionExtractingWriter)
  : regionExtractingWriter :=
  if bool_decide (Z.of_nat (length s) <= offset w) then
    {| written := written w; room := room w; offset := u64 (offset w - Z.of_nat (length s)) |}
  else
    let copied := take (room w) (drop (Z.to_nat (offset w)) s) in
    {| written := written w ++ copied; room := (room w - length copied)%nat; offset := 0 |}.

Section CommandFile.
Context {E : Errors} {D : DigestLib} {W : Type} {CE : CommandEnvironment W} {VC : VirtualConstants}.
Context (maximumMessageSizeBytes : Z).

(** ** The factory *)

Definition writeShellScript {X : Type} (WriteString : list byte -> X -> X) (blobDigest : Digest) (x : X)
  : st W (Status * X) := fun w =>
  match Get_ToProto blobDigest maximumMessageSizeBytes w with
  | (Err e, w) =>
      let '(_, w) := Logger_Log (StatusWrapf e "Failed to load command %#v"
                                   [FStr (Digest_String blobDigest)]) w in
      ((StatusErrIO, x), w)
  | (Ok m, w) =>
      let '(chunks, e) := ConvertCommandToShellScript m in
      let x := foldl (fun x s => WriteString s x) x chunks in
      match e with
      | Some e =>
          let '(_, w) := Logger_Log (StatusWrapf e "Failed to convert command %#v to a shell script"
                                       [FStr (Digest_String blobDigest)]) w in
          ((StatusErrIO, x), w)
      | None => ((StatusOK, x), w)
      end
  end.

Record commandFile : Type := {
  blobDigest : Digest;
  cf_size : Z;
}.

Definition LookupFile (blobDigest : Digest) : st W (vres commandFile) := fun w =>
  match writeShellScript sizeCountingWriter_WriteString blobDigest {| size := 0 |} w with
  | ((StatusOK, x), w) => (VOk {| blobDigest := blobDigest; cf_size := size x |}, w)
  | ((s, _), w) => (VErr s, w)
  end.

(** ** The file *)

Definition VirtualGetAttributes (f : commandFile) (a : Attributes) : Attributes :=
  {| a_ChangeID := Some 0;
     a_FileType := Some FileTypeRegularFile;
     a_HasNamedAttributes := Some false;
     a_IsInNamedAttributeDirectory := Some false;
     a_LinkCount := a_LinkCount a;
     a_OwnerUserID := a_OwnerUserID a;
     a_OwnerGroupID := a_OwnerGroupID a;
     a_Permissions := Some (Z.lor PermissionsRead PermissionsExecute);
     a_SizeBytes := Some (cf_size f) |}.

Definition VirtualSetAttributes (f : commandFile) (input out : Attributes) : Status * Attributes :=
  match a_Permissions input, a_OwnerUserID input, a_OwnerGroupID input, a_SizeBytes input with
  | Some _, _, _, _ | None, Some _, _, _ | None, None, Some _, _ => (StatusErrPerm, out)
  | None, None, None, Some _ => (StatusErrAccess, out)
  | None, None, None, None => (StatusOK, VirtualGetAttributes f out)
  end.

Definition VirtualAllocate (f : commandFile) (off size : Z) : Status := StatusErrWrongType.

Definition VirtualSeek (f : commandFile) (offset : Z) (regionType : RegionType) : outcome (vres Z) :=
  let sizeBytes := cf_size f in
  match regionType with
  | Data => Ret (if bool_decide (sizeBytes <= offset) then VErr StatusErrNXIO else VOk offset)
  | Hole => Ret (if bool_decide (sizeBytes <= offset) then VErr StatusErrNXIO else VOk sizeBytes)
  | OtherRegion => Panic "Requests for other seek modes should have been intercepted"
  end.

Definition VirtualOpenSelf (f : commandFile) (shareAccess : Z) (options : OpenExistingOptions)
    (attributes : Attributes) : Status * Attributes :=
  if negb (bool_decide (Z.ldiff shareAccess ShareMaskRead = 0)) || Truncate options
  then (StatusErrAccess, attributes)
  else (StatusOK, VirtualGetAttributes f attributes).

(** [buf] is given by its length. The result holds the bytes at its start. *)
Definition VirtualRead (f : commandFile) (buf : nat) (off : Z)
  : W -> outcome (vres (list byte * bool) * W) := fun w =>
  let '(n, eof) := BoundReadToFileSize buf off (cf_size f) in
  if bool_decide (0 < n)%nat then
    match writeShellScript regionExtractingWriter_WriteString (blobDigest f)
            {| written := []; room := n; offset := off |} w with
    | ((StatusOK, x), w) =>
        if bool_decide (room x <> 0%nat)
        then Panic "writeShellScript() only returned partial data, which conflicts with the originally computed size"
        else Ret (VOk (written x, eof), w)
    | ((s, _), w) => Ret (VErr s, w)
    end
  else Ret (VOk ([], eof), w).

Definition VirtualWrite (f : commandFile) (buf : list byte) (off : Z) : outcome (vres nat) :=
  Panic "Request to write to read-only file should have been intercepted".

Definition VirtualOpenNamedAttributes (createDirectory : bool) : Status :=
  if createDirectory then StatusErrAccess else StatusErrNoEnt.
End CommandFile.

(** ** The decorator that allocates handles *)

Section HandleAllocating.
Context {E : Errors} {D : DigestLib} {W : Type} {VN : VirtualNodes W}.
(** [base.LookupFile], and [allocator.New(blobDigest).AsLeaf(leaf)] *)
Context (base : Digest -> st W (vres VLeaf)) (allocate : Digest -> VLeaf -> VLeaf).

Definition handleAllocating_LookupFile (blobDigest : Digest) : st W (vres VLeaf) := fun w =>
  match base blobDigest w with
  | (VErr s, w) => (VErr s, w)
  | (VOk leaf, w) => (VOk (allocate blobDigest leaf), w)
  end.

Definition handleAllocating_resolve (blobDigest : Digest) (remainder : list byte)
  : st W (vres DirectoryChild) := fun w =>
  match handleAllocating_LookupFile blobDigest w with
  | (VErr s, w) => (VErr s, w)
  | (VOk leaf, w) => (VOk (FromLeaf leaf), w)
  end.
End HandleAllocating.

(** ** Correctness *)

(** What is documented of [BoundReadToFileSize]. *)
Class CommandLaws {E : Errors} {D : DigestLib} {W : Type} (CE : CommandEnvironment W) : Prop := {
  BoundReadToFileSize_spec n off sz : 0 <= off -> 0 <= sz ->
    BoundReadToFileSize n off sz =
      (Nat.min n (Z.to_nat (sz - off)), bool_decide (sz <= off + Z.of_nat n));
}.

(** The size is counted modulo 2^64. *)
Lemma sizeCounting chunks n :
  size (foldl (fun x s => sizeCountingWriter_WriteString s x) {| size := u64 n |} chunks) =
    u64 (n + Z.of_nat (length (concat chunks))).
Proof.
  revert n. induction chunks as [|s chunks IH]; intros n; cbn [foldl concat length].
  { by rewrite Z.add_0_r. }
  unfold sizeCountingWriter_WriteString at 2. cbn [size].
  rewrite u64_add_l, IH, length_app. f_equal. lia.
Qed.

(** Writing chunks one by one fills the buffer from the given offset of their
    concatenation. *)
Lemma regionExtracting chunks acc n off :
  Z.of_nat (length (concat chunks)) < 2 ^ 64 -> 0 <= off < 2 ^ 64 ->
  let x := foldl (fun x s => regionExtractingWriter_WriteString s x)
             {| written := acc; room := n; offset := off |} chunks in
  let region := take n (drop (Z.to_nat off) (concat chunks)) in
  written x = acc ++ region /\ room x = (n - length region)%nat.
Proof.
  revert acc n off. induction chunks as [|s chunks IH]; intros acc n off Hlen Hoff.
  { cbn. rewrite drop_nil, take_nil, app_nil_r. cbn. split; [done|lia]. }
  cbn [foldl concat] in *. rewrite length_app in Hlen.
  unfold regionExtractingWriter_WriteString at 2 4. cbn [written room offset]. case_bool_decide as Hs.
  - rewrite u64_id by lia. rewrite drop_app_ge by lia.
    replace (Z.to_nat off - length s)%nat with (Z.to_nat (off - Z.of_nat (length s))) by lia.
    apply IH; lia.
  - set (copied := take n (drop (Z.to_nat off) s)).
    destruct (IH (acc ++ copied) (n - length copied)%nat 0) as [Hw Hr]; [lia|lia|].
    cbn zeta in *. rewrite Hw, Hr, drop_0, (drop_app_le s) by lia. rewrite take_app, <-app_assoc.
    fold copied. rewrite length_app.
    assert (take (n - length copied) (concat chunks) =
            take (n - length (drop (Z.to_nat off) s)) (concat chunks)) as ->.
    { subst copied. rewrite length_take.
      destruct (decide (n <= length (drop (Z.to_nat off) s))%nat).
      - rewrite Nat.min_l, Nat.sub_diag by lia. symmetry. by replace (n - _)%nat with 0%nat by lia.
      - by rewrite Nat.min_r by lia. }
    split; [done|lia].
Qed.

Section Reads.
Context {E : Errors} {D : DigestLib} {W : Type} {CE : CommandEnvironment W} (CL : CommandLaws CE).
Context (max : Z) (d : Digest) (m : Command) (chunks : list (list byte)).
(** The message can be loaded, and is the same every time. *)
Context (Hget : forall w, exists w', Get_ToProto d max w = (Ok m, w')).
Context (Hconvert : ConvertCommandToShellScript m = (chunks, None)).
Context (Hsize : Z.of_nat (length (concat chunks)) < 2 ^ 64).

(** C15. Looking up the file gives one with the size of the script. Reading it never
    panics: it returns the part of the script at the offset that fits in the buffer,
    no matter how the script is split up when it is written, and tells whether its
    end has been reached. *)
Theorem VirtualRead_script w n off :
  0 <= off < 2 ^ 64 ->
  exists f w1 w2, LookupFile max d w = (VOk f, w1) /\
    cf_size f = Z.of_nat (length (concat chunks)) /\
    VirtualRead max f n off w1 = Ret (VOk (take n (drop (Z.to_nat off) (concat chunks)),
      bool_decide (Z.of_nat (length (concat chunks)) <= off + Z.of_nat n)), w2).
Proof using CL Hget Hconvert Hsize.
  intros Hoff. destruct (Hget w) as [w1 Hw]. destruct (Hget w1) as [w2 Hw1].
  pose proof (sizeCounting chunks 0) as Hcount. rewrite Z.add_0_l, !u64_id in Hcount by lia.
  set (f := {| blobDigest := d; cf_size := Z.of_nat (length (concat chunks)) |}).
  assert (LookupFile max d w = (VOk f, w1)) as Hf.
  { unfold LookupFile, writeShellScript. by rewrite Hw, Hconvert, Hcount. }
  exists f, w1. unfold VirtualRead. cbn [cf_size f]. rewrite BoundReadToFileSize_spec by lia.
  set (k := Nat.min _ _). set (script := concat chunks) in *.
  assert (take n (drop (Z.to_nat off) script) = take k (drop (Z.to_nat off) script)) as ->.
  { assert (k = Nat.min n (length (drop (Z.to_nat off) script))) as -> by (subst k; rewrite length_drop; lia).
    rewrite <-take_take. f_equal. symmetry. by apply take_ge. }
  case_bool_decide as Hk.
  - exists w2. split; [done|]. split; [done|]. unfold writeShellScript. cbn [blobDigest f].
    rewrite Hw1, Hconvert.
    destruct (regionExtracting chunks [] k off Hsize Hoff) as [Hwr Hroom]. cbn zeta in *.
    rewrite Hwr, Hroom. fold script. rewrite length_take, length_drop.
    by rewrite bool_decide_false by (subst k; lia).
  - exists w1. split; [done|]. split; [done|]. by replace k with 0%nat by lia.
Qed.
End Reads.

(** ** A concrete script *)

Module ExampleCommand.
Import ErrorTree ExampleDigest.

(** Messages are lists of strings, and the script is their lines. *)
#[export] Instance environment : CommandEnvironment (list tree) := {|
  Command := list (list byte);
  Get_ToProto dg _ w :=
    (if bool_decide (d_hash dg = "cmd") then Ok [[x23; x21]; [x0a; x6c; x73]; []; [x0a]]
     else Err (status_Error NotFound "Object not found"), w);
  ConvertCommandToShellScript m := (m, None);
  Logger_Log e w := (tt, e :: w);
  BoundReadToFileSize n off sz :=
    (Nat.min n (Z.to_nat (sz - off)), bool_decide (sz <= off + Z.of_nat n));
|}.

#[export] Instance command_laws : CommandLaws environment.
Proof. by split. Qed.

Definition d : digest := {| d_function := "sha256"; d_hash := "cmd"; d_size := 12 |}.

Definition script : Command (CommandEnvironment:=environment) := [[x23; x21]; [x0a; x6c; x73]; []; [x0a]].

(** Reading four bytes from the second byte on. *)
Lemma VirtualRead_script_witness :
  exists f w1 w2, LookupFile 1000 d [] = (VOk f, w1) /\ cf_size f = 6 /\
    VirtualRead 1000 f 4 1 w1 = Ret (VOk ([x21; x0a; x6c; x73], false), w2).
Proof.
  apply (VirtualRead_script command_laws 1000 d script script); [intros w; exists w; reflexivity|
    reflexivity|reflexivity|split; reflexivity || (intros H; discriminate H)].
Defined.

Example missing_command : exists e, LookupFile 1000 ({| d_function := "sha256"; d_hash := "x"; d_size := 1 |} : Digest) [] =
  (VErr StatusErrIO, [e]).
Proof. eexists. reflexivity. Qed.
End ExampleCommand.
