(* ===== verification/ParsingDirectories.v ===== *)
(** * Directories that parse their paths

    [digest_parsing_directory.go], [instance_name_parsing_directory.go] and
    [non_iterable_directory.go]: virtual directories in which instance names and
    digests are file names. *)

From S2P Require Import Prelude GoLib Errors StateFile Virtual Examples CasDirectory.
Import Strings Strconv.
Local Open Scope Z_scope.

(** ** [nonIterableDirectory] *)
Definition nonIterable_VirtualReadDir (firstCookie : Z) : Status := StatusErrAccess.

(** The attributes of both directories. *)
Definition parsing_VirtualGetAttributes {VC : VirtualConstants} (a : Attributes) : Attributes :=
  {| a_ChangeID := Some 0;
     a_FileType := Some FileTypeDirectory;
     a_HasNamedAttributes := Some false;
     a_IsInNamedAttributeDirectory := Some false;
     a_LinkCount := Some ImplicitDirectoryLinkCount;
     a_OwnerUserID := a_OwnerUserID a;
     a_OwnerGroupID := a_OwnerGroupID a;
     a_Permissions := Some PermissionsExecute;
     a_SizeBytes := Some 0 |}.

Section Digests.
Context {E : Errors} {P : PathLib} {D : DigestLib} {VC : VirtualConstants} {W : Type} {VN : VirtualNodes W}.

(** ** [digestParsingDirectory] *)

Record digestParsingDirectory : Type := {
  digestFunction : DigestFunction;
  lookupFunc : Digest -> st W (vres DirectoryChild);
}.

Definition NewDigestParsingDirectory (digestFunction : DigestFunction) (lookupFunc : Digest -> st W (vres DirectoryChild))
  : digestParsingDirectory :=
  {| digestFunction := digestFunction; lookupFunc := lookupFunc |}.

Definition parseFilename (d : digestParsingDirectory) (name : Component) : option Digest :=
  let n := Component_String name in
  match LastIndex n "-" with
  | None => None
  | Some i =>
      match ParseInt (slice_from n (i + 1)) with
      | None => None
      | Some sizeBytes =>
          match NewDigest (digestFunction d) (slice_to n i) sizeBytes with
          | Err _ => None
          | Ok fileDigest => Some fileDigest
          end
      end
  end.

Definition digest_VirtualLookup (d : digestParsingDirectory) (name : Component) (requested : Z)
    (out : Attributes) : st W (vres DirectoryChild * Attributes) := fun w =>
  match parseFilename d name with
  | None => ((VErr StatusErrNoEnt, out), w)
  | Some digest =>
      match lookupFunc d digest w with
      | (VErr s, w) => ((VErr s, out), w)
      | (VOk child, w) =>
          let '(out, w) := Child_VirtualGetAttributes child requested out w in ((VOk child, out), w)
      end
  end.

Definition digest_VirtualOpenChild (d : digestParsingDirectory) (name : Component) (shareAccess : Z)
    (createAttributes : option Attributes) (existingOptions : option OpenExistingOptions)
    (requested : Z) (openedFileAttributes : Attributes)
  : st W (option VLeaf * Z * Status * Attributes) := fun w =>
  let fail s w := ((None, 0, s, openedFileAttributes), w) in
  match parseFilename d name with
  | None => fail (ReadOnlyDirectoryOpenChildDoesntExist createAttributes) w
  | Some digest =>
      match existingOptions with
      | None => fail StatusErrExist w
      | Some options =>
          match lookupFunc d digest w with
          | (VErr s, w) => fail s w
          | (VOk (FromDirectory _), w) => fail StatusErrIsDir w
          | (VOk (FromLeaf leaf), w) =>
              let '((s, a), w) :=
                Leaf_VirtualOpenSelf leaf shareAccess options requested openedFileAttributes w in
              ((Some leaf, ToAttributesMask options, s, a), w)
          end
      end
  end.

Lemma parse_of_parts d name h s :
  0 <= s < 2 ^ 63 -> Component_String name = h +:+ String "-" (FormatInt s) ->
  parseFilename d name =
    match NewDigest (digestFunction d) h s with Ok x => Some x | Err _ => None end.
Proof using.
  intros Hs Hn. unfold parseFilename. rewrite Hn, LastIndex_app by by apply FormatInt_no_dash.
  by rewrite Nat.add_1_r, slice_from_app, ParseInt_FormatInt, slice_to_app.
Qed.

Lemma parse_inv d name x :
  parseFilename d name = Some x ->
  exists h t s, Component_String name = h +:+ String "-" t /\ ~ In "-" t /\ ParseInt t = Some s /\
    NewDigest (digestFunction d) h s = Ok x.
Proof using.
  unfold parseFilename. destruct (LastIndex _ _) as [i|] eqn:Hi; [|done].
  apply LastIndex_Some in Hi as [Hn Hno]. rewrite Nat.add_1_r.
  destruct (ParseInt _) as [s|] eqn:Hp; [|done]. destruct (NewDigest _ _ s) as [y|] eqn:Hd; [|done].
  intros [= <-]. by eexists _, _, s.
Qed.

(** The file name of a digest is its hash, a dash and its size: looking up this
    name calls the lookup function with the digest and returns what it returns.
    Conversely, a lookup that succeeds was of the hash of a valid digest, a dash and
    a number that is its size. All other names do not exist, and the lookup function
    is not called for them. *)
Theorem digest_filenames d name requested out w :
  (forall h s x, 0 <= s < 2 ^ 63 -> Component_String name = h +:+ String "-" (FormatInt s) ->
     NewDigest (digestFunction d) h s = Ok x ->
     digest_VirtualLookup d name requested out w =
       with_attributes requested out (lookupFunc d x) w) /\
  match digest_VirtualLookup d name requested out w with
  | ((VOk child, _), _) => exists h t s x, Component_String name = h +:+ String "-" t /\
      ParseInt t = Some s /\ NewDigest (digestFunction d) h s = Ok x /\
      (lookupFunc d x w).1 = VOk child
  | ((VErr s, out'), w') => out' = out /\
      ((s = StatusErrNoEnt /\ w' = w) \/ exists x, parseFilename d name = Some x /\ lookupFunc d x w = (VErr s, w'))
  end.
Proof using.
  split.
  - intros h s x Hs Hn Hd. unfold digest_VirtualLookup, with_attributes.
    by rewrite (parse_of_parts d name h s Hs Hn), Hd.
  - unfold digest_VirtualLookup. destruct (parseFilename d name) as [x|] eqn:Hp; [|by split; [|left]].
    destruct (lookupFunc d x w) as [[child|s] w1] eqn:Hl; [|split; [done|right; by exists x]].
    destruct (Child_VirtualGetAttributes child requested out w1) as [a w2].
    destruct (parse_inv d name x Hp) as (h & t & s & Hn & _ & Ht & Hd).
    exists h, t, s, x. by rewrite Hl.
Qed.
End Digests.

Section InstanceNames.
Context {E : Errors} {P : PathLib} {D : DigestLib} {VC : VirtualConstants} {W : Type} {VN : VirtualNodes W}.

(** ** [instanceNameParsingDirectory] *)

Definition instanceNameParsingPath : Type := list string.

(** The loop of [WriteTo], for what has been written and counted so far. *)
Fixpoint write_components (p : instanceNameParsingPath) (w : string) (nTotal : Z) : string * Z :=
  match p with
  | [] => (w, nTotal)
  | component :: p =>
      let w := w +:+ component in
      let nTotal := i64 (nTotal + Z.of_nat (String.length component)) in
      let w := w +:+ "/" in
      let nTotal := i64 (nTotal + 1) in
      write_components p w nTotal
  end.

(** What [WriteTo] writes, and the number of bytes it returns. *)
Definition WriteTo (p : instanceNameParsingPath) : string * Z :=
  let '(w, nTotal) := write_components p "" 0 in (w +:+ "/", i64 (nTotal + 1)).

Record instanceNameParsingDirectory : Type := {
  lookupFuncs : gmap Component (InstanceName -> VDirectory);
  path : instanceNameParsingPath;
}.

(** [digest.NewInstanceNameFromComponents], and [AsStatelessDirectory] for an
    allocation that is identified by what [WriteTo] writes *)
Class InstanceNameLib : Type := {
  NewInstanceNameFromComponents : list string -> res err InstanceName;
  AsStatelessDirectory : string -> instanceNameParsingDirectory -> VDirectory;
}.

Context {IL : InstanceNameLib}.

Definition instance_createDirectory (lookupFuncs : gmap Component (InstanceName -> VDirectory))
    (path : instanceNameParsingPath) : VDirectory :=
  AsStatelessDirectory (WriteTo path).1 {| lookupFuncs := lookupFuncs; path := path |}.

Definition NewInstanceNameParsingDirectory (lookupFuncs : gmap Component (InstanceName -> VDirectory))
  : VDirectory := instance_createDirectory lookupFuncs [].

Definition instance_VirtualLookup (d : instanceNameParsingDirectory) (name : Component) (requested : Z)
    (out : Attributes) : st W (vres DirectoryChild * Attributes) := fun w =>
  match lookupFuncs d !! name with
  | Some lookupFunc =>
      match NewInstanceNameFromComponents (path d) with
      | Err _ => ((VErr StatusErrNoEnt, out), w)
      | Ok instanceName =>
          let directory := lookupFunc instanceName in
          let '(out, w) := Directory_VirtualGetAttributes directory requested out w in
          ((VOk (FromDirectory directory), out), w)
      end
  | None =>
      let childPath := path d ++ [Component_String name] in
      let child := instance_createDirectory (lookupFuncs d) childPath in
      let '(out, w) := Directory_VirtualGetAttributes child requested out w in
      ((VOk (FromDirectory child), out), w)
  end.

Definition instance_VirtualGetAttributes (d : instanceNameParsingDirectory) (a : Attributes) : Attributes :=
  parsing_VirtualGetAttributes a.

Definition instance_VirtualOpenChild (existingOptions : option OpenExistingOptions) : Status :=
  ReadOnlyDirectoryOpenChildWrongFileType existingOptions StatusErrIsDir.

(** *** Handles of instance names *)

(** Names of components are not empty and have no slash. *)
Class ComponentNames : Prop := {
  Component_String_nonempty c : Component_String c <> ""%string;
  Component_String_slash c : ~ In "/" (Component_String c);
}.

Lemma split_at_slash a b x y :
  ~ In "/" a -> ~ In "/" b -> a +:+ String "/" x = b +:+ String "/" y -> a = b /\ x = y.
Proof using.
  revert b. induction a as [|c a IH]; intros [|c' b] Ha Hb; cbn.
  - by intros [= ->].
  - intros [= <- _]. cbn in Hb. tauto.
  - intros [= -> _]. cbn in Ha. tauto.
  - intros [= <- Heq]. cbn in *. destruct (IH b ltac:(tauto) ltac:(tauto) Heq) as [-> ->]. done.
Qed.

(** All components, each followed by a slash. *)
Fixpoint terminated (p : instanceNameParsingPath) : string :=
  match p with [] => ""%string | c :: p => c +:+ String "/" (terminated p) end.

Lemma write_components_spec p w n :
  write_components p w (i64 n) =
    (w +:+ terminated p, i64 (n + Z.of_nat (String.length (terminated p)))).
Proof using.
  revert w n. induction p as [|c p IH]; intros w n; cbn [write_components terminated].
  { cbn. by rewrite string_app_nil_r, Z.add_0_r. }
  rewrite (i64_add_l n), i64_add_l, IH, !string_app_assoc. f_equal. f_equal.
  rewrite string_length_app. cbn [String.length]. lia.
Qed.

Lemma terminated_prefix_free (CN : ComponentNames) (p q : list Component) x y :
  terminated (Component_String <$> p) +:+ String "/" x = terminated (Component_String <$> q) +:+ String "/" y ->
  Component_String <$> p = Component_String <$> q /\ x = y.
Proof using.
  revert q. induction p as [|c p IH]; intros [|c' q]; cbn [fmap list_fmap terminated].
  - by intros [= ->].
  - rewrite string_app_assoc. intros Heq.
    apply (split_at_slash "" (Component_String c')) in Heq as [He _];
      [by destruct (Component_String_nonempty c')|by intros []|apply Component_String_slash].
  - rewrite string_app_assoc. intros Heq. symmetry in Heq.
    apply (split_at_slash "" (Component_String c)) in Heq as [He _];
      [by destruct (Component_String_nonempty c)|by intros []|apply Component_String_slash].
  - rewrite !string_app_assoc. intros Heq.
    destruct (split_at_slash _ _ _ _ (Component_String_slash c) (Component_String_slash c') Heq) as [He Hrest].
    destruct (IH q Hrest) as [Hp ->]. split; [|done]. cbn. by f_equal.
Qed.

(** C30. What is written for the path of an instance name counts as many bytes as
    are returned, and identifies the path: no such string is a proper prefix of
    another, so that whatever follows it in a handle cannot be mistaken for a part
    of it. *)
Theorem WriteTo_prefix_free (CN : ComponentNames) (p q : list Component) x y :
  (WriteTo (Component_String <$> p)).1 +:+ x = (WriteTo (Component_String <$> q)).1 +:+ y ->
  Component_String <$> p = Component_String <$> q /\ x = y /\
  (WriteTo (Component_String <$> p)).2 =
    i64 (Z.of_nat (String.length (WriteTo (Component_String <$> p)).1)).
Proof using.
  unfold WriteTo. change 0 with (i64 0). rewrite !write_components_spec. cbn [fst snd].
  rewrite !string_app_assoc. intros Heq.
  destruct (terminated_prefix_free CN p q x y Heq) as [Hp Hxy]. split; [done|]. split; [done|].
  rewrite i64_add_l, !string_length_app. f_equal. cbn [String.length]. lia.
Qed.

(** ** Walking to an instance name

    The directory behind a node of the file system. *)
Class InstanceNameLaws : Type := {
  underlying : VDirectory -> option instanceNameParsingDirectory;
  underlying_AsStatelessDirectory id d : underlying (AsStatelessDirectory id d) = Some d;
}.

(** Looking up one name after the other; the attributes are not looked at. *)
Fixpoint walk {IW : InstanceNameLaws} (n : VDirectory) (names : list Component) : st W (vres VDirectory) :=
  fun w =>
  match names with
  | [] => (VOk n, w)
  | name :: names =>
      match underlying n with
      | None => (VErr StatusErrWrongType, w)
      | Some d =>
          match instance_VirtualLookup d name 0 no_Attributes w with
          | ((VErr s, _), w) => (VErr s, w)
          | ((VOk (FromDirectory child), _), w) => walk child names w
          | ((VOk (FromLeaf _), _), w) => (VErr StatusErrWrongType, w)
          end
      end
  end.

Lemma walk_components {IW : InstanceNameLaws} funcs k f names prefix w :
  Forall (fun name => funcs !! name = None) names -> funcs !! k = Some f ->
  (walk (instance_createDirectory funcs prefix) (names ++ [k]) w).1 =
    match NewInstanceNameFromComponents (prefix ++ (Component_String <$> names)) with
    | Ok i => VOk (f i)
    | Err _ => VErr StatusErrNoEnt
    end.
Proof using.
  intros Hnames Hk. revert prefix w. induction Hnames as [|name names Hname Hnames IH]; intros prefix w.
  - cbn. unfold instance_createDirectory at 1. rewrite underlying_AsStatelessDirectory.
    unfold instance_VirtualLookup. cbn. rewrite Hk, app_nil_r.
    destruct (NewInstanceNameFromComponents prefix) as [i|x]; [|done].
    by destruct (Directory_VirtualGetAttributes _ _ _ _).
  - cbn [app walk]. unfold instance_createDirectory at 1. rewrite underlying_AsStatelessDirectory.
    unfold instance_VirtualLookup. cbn [lookupFuncs path]. rewrite Hname.
    destruct (Directory_VirtualGetAttributes _ _ _ _) as [a w1]. rewrite IH, <-app_assoc. done.
Qed.

(** Walking from the root directory through any components that are not
    reserved, and then to a reserved keyword, ends at what the function for the
    keyword gives for the instance name that consists of the components; or does not
    exist if these are not a valid instance name. *)
Theorem instance_name_walk {IW : InstanceNameLaws} funcs k f names w :
  Forall (fun name => funcs !! name = None) names -> funcs !! k = Some f ->
  (walk (NewInstanceNameParsingDirectory funcs) (names ++ [k]) w).1 =
    match NewInstanceNameFromComponents (Component_String <$> names) with
    | Ok i => VOk (f i)
    | Err _ => VErr StatusErrNoEnt
    end.
Proof using. intros Hnames Hk. by apply (walk_components funcs k f names []). Qed.
End InstanceNames.

(** ** Concrete directories *)

Module ExampleParsing.
Import ErrorTree ExamplePath ExampleDigest ExampleVirtual.

Set Warnings "-register-all".

(** A directory of some instance, one at a path below it, or one that parses
    instance names. *)
Inductive directory : Type :=
| Instance_ (instanceName : string)
| Node (instanceName : string) (p : list component)
| Parsing (funcs : gmap component (string -> directory)) (p : list string).

#[export] Instance nodes : VirtualNodes unit := {|
  VDirectory := directory;
  VLeaf := digest;
  Directory_VirtualGetAttributes _ _ a w := (a, w);
  Leaf_VirtualGetAttributes _ _ a w := (a, w);
  Leaf_VirtualOpenSelf _ _ _ _ a w := ((StatusOK, a), w);
  ToAttributesMask _ := 0;
|}.

Definition hashes : digestParsingDirectory := {|
  digestFunction := "sha256"%string : DigestFunction;
  lookupFunc dg w := (VOk (FromLeaf (dg : VLeaf)), w);
|}.

Definition name : Component := comp "ab-c-12" eq_refl.
Definition dg : Digest := {| d_function := "sha256"; d_hash := "ab-c"; d_size := 12 |}.

Lemma digest_filenames_witness :
  digest_VirtualLookup hashes name 0 no_Attributes tt =
    with_attributes 0 no_Attributes (lookupFunc hashes dg) tt.
Proof.
  apply (proj1 (digest_filenames hashes name 0 no_Attributes tt) "ab-c" 12); [lia|reflexivity|reflexivity].
Defined.

Lemma no_slash_spec s : no_slash s = true -> ~ In "/" s.
Proof.
  induction s as [|c s IH]; cbn; [tauto|]. intros Hs [->|Hin]; [done|].
  apply andb_prop in Hs as [_ Hs]. by apply IH.
Qed.

#[export] Instance component_names : ComponentNames.
Proof.
  split; intros [s Hs]; cbn; unfold valid in Hs.
  - intros ->. done.
  - apply no_slash_spec. by apply andb_prop in Hs as [_ Hs].
Qed.

Definition foo : Component := comp "foo" eq_refl.
Definition bar : Component := comp "bar" eq_refl.

Lemma WriteTo_prefix_free_witness :
  (WriteTo (Component_String <$> [foo; bar])).1 +:+ "rest" = "foo/bar//rest"%string /\
  Component_String <$> [foo; bar] = Component_String <$> [foo; bar] /\
  "rest"%string = "rest"%string /\
  (WriteTo (Component_String <$> [foo; bar])).2 =
    i64 (Z.of_nat (String.length (WriteTo (Component_String <$> [foo; bar])).1)).
Proof.
  split; [reflexivity|].
  exact (WriteTo_prefix_free component_names [foo; bar] [foo; bar] "rest" "rest" eq_refl).
Defined.

#[export] Instance instance_names : InstanceNameLib := {|
  NewInstanceNameFromComponents p := Ok (String.concat "/" p : InstanceName);
  AsStatelessDirectory _ d := Parsing (lookupFuncs d) (path d) : VDirectory;
|}.

Definition underlying_of (d : directory) : option instanceNameParsingDirectory :=
  match d with
  | Instance_ _ | Node _ _ => None
  | Parsing funcs p => Some {| lookupFuncs := (funcs : gmap Component (InstanceName -> VDirectory)); path := p |}
  end.

#[export] Instance instance_laws : InstanceNameLaws (VN:=nodes).
Proof. unshelve eapply Build_InstanceNameLaws; [exact underlying_of|by intros id []]. Defined.

Definition blobs : Component := comp "blobs" eq_refl.
Definition functions : gmap Component (InstanceName -> VDirectory) := {[ blobs := Instance_ ]}.

Lemma instance_name_walk_witness :
  (walk (NewInstanceNameParsingDirectory functions) [foo; bar; blobs] tt).1 = VOk (Instance_ "foo/bar").
Proof.
  refine (instance_name_walk (IW:=instance_laws) functions blobs Instance_ [foo; bar] tt _ eq_refl).
  constructor; [reflexivity|]. constructor; [reflexivity|constructor].
Defined.
End ExampleParsing.
