(* ===== verification/BlobsDirectory.v ===== *)
(** * The directories that [main] creates

    The part of [cmd/bb_clientd/main.go] with logic of its own: the function that
    creates the "blobs" directory of an instance name, in which all objects of the
    Content Addressable Storage are found by digest function, type and digest. *)

From S2P Require Import Prelude Errors StateFile Virtual Examples CasDirectory ParsingDirectories.
Local Open Scope Z_scope.
Set Warnings "-register-all".

(** The factories that [main] has created before, and the functions of [digest]
    and [path] that it calls. *)
Class BlobsEnvironment {E : Errors} {P : PathLib} {D : DigestLib} {W : Type} {VN : VirtualNodes W} : Type := {
  (** [digest.SupportedDigestFunctions], and
      [strings.ToLower(digestFunctionValue.String())] *)
  SupportedDigestFunctions : list Z;
  lower_name : Z -> string;
  InstanceName_GetDigestFunction : InstanceName -> Z -> Z -> res err DigestFunction;
  commandFileFactory_LookupFile : Digest -> st W (vres VLeaf);
  casFileFactory_LookupFile : Digest -> bool -> VLeaf;
  decomposed_LookupDirectory : Digest -> VDirectory;
  tree_LookupDirectory : Digest -> VDirectory;
}.

Section BlobsDirectory.
Context {E : Errors} {P : PathLib} {D : DigestLib} {W : Type} {VN : VirtualNodes W} {BE : BlobsEnvironment}.

(** The directories that are created, with the handle allocation that is passed to
    [AsStatelessDirectory]: the value of [allocationCounter]. *)
Inductive directory : Type :=
| StaticDirectory (handle : Z) (children : gmap Component directory)
| DigestDirectory (handle : Z) (d : digestParsingDirectory).

(** [allocateHandle]; the counter is a byte. *)
Definition allocateHandle (allocationCounter : Z) : Z := u8 (allocationCounter + 1).

(** The functions that complete the parsing of digests. *)
Definition lookup_command (digest : Digest) : st W (vres DirectoryChild) := fun w =>
  match commandFileFactory_LookupFile digest w with
  | (VErr s, w) => (VErr s, w)
  | (VOk f, w) => (VOk (FromLeaf f), w)
  end.
Definition lookup_directory (digest : Digest) : st W (vres DirectoryChild) := fun w =>
  (VOk (FromDirectory (decomposed_LookupDirectory digest)), w).
Definition lookup_executable (digest : Digest) : st W (vres DirectoryChild) := fun w =>
  (VOk (FromLeaf (casFileFactory_LookupFile digest true)), w).
Definition lookup_file (digest : Digest) : st W (vres DirectoryChild) := fun w =>
  (VOk (FromLeaf (casFileFactory_LookupFile digest false)), w).
Definition lookup_tree (digest : Digest) : st W (vres DirectoryChild) := fun w =>
  (VOk (FromDirectory (tree_LookupDirectory digest)), w).

(** The literal that lists the five types, in the order in which Go evaluates it. *)
Definition object_types : list (string * (Digest -> st W (vres DirectoryChild))) :=
  [("command", lookup_command); ("directory", lookup_directory); ("executable", lookup_executable);
   ("file", lookup_file); ("tree", lookup_tree)]%string.

(** [path.MustNewComponent] panics if the name is not valid. *)
Fixpoint create_types (types : list (string * (Digest -> st W (vres DirectoryChild)))) (df : DigestFunction)
    (allocationCounter : Z) (children : gmap Component directory)
  : outcome (gmap Component directory * Z) :=
  match types with
  | [] => Ret (children, allocationCounter)
  | (name, lookup) :: types =>
      match NewComponent name with
      | None => Panic "Failed to create component"
      | Some c =>
          let allocationCounter := allocateHandle allocationCounter in
          create_types types df allocationCounter
            (<[c := DigestDirectory allocationCounter
                      (NewDigestParsingDirectory df lookup)]> children)
      end
  end.

(** The loop over the digest functions. *)
Fixpoint create_functions (functions : list Z) (instanceName : InstanceName) (allocationCounter : Z)
    (blobsDirectoryContents : gmap Component directory) : outcome (gmap Component directory * Z) :=
  match functions with
  | [] => Ret (blobsDirectoryContents, allocationCounter)
  | digestFunctionValue :: functions =>
      match InstanceName_GetDigestFunction instanceName digestFunctionValue 0 with
      | Err _ => Panic "Using a supported digest function should always succeed"
      | Ok digestFunction =>
          match NewComponent (lower_name digestFunctionValue) with
          | None => Panic "Failed to create component"
          | Some c =>
              let allocationCounter := allocateHandle allocationCounter in
              match create_types object_types digestFunction allocationCounter ∅ with
              | Panic m => Panic m
              | Ret (children, next) =>
                  create_functions functions instanceName next
                    (<[c := StaticDirectory allocationCounter children]> blobsDirectoryContents)
              end
          end
      end
  end.

Definition blobsDirectoryLookupFunc (instanceName : InstanceName) : outcome directory :=
  match create_functions SupportedDigestFunctions instanceName 0 ∅ with
  | Panic m => Panic m
  | Ret (blobsDirectoryContents, allocationCounter) =>
      Ret (StaticDirectory (allocateHandle allocationCounter) blobsDirectoryContents)
  end.

(** ** Correctness *)

Definition handle_of (d : directory) : Z :=
  match d with StaticDirectory h _ => h | DigestDirectory h _ => h end.

(** The node at a path. *)
Fixpoint node_at (d : directory) (p : list Component) : option directory :=
  match p with
  | [] => Some d
  | c :: p =>
      match d with
      | StaticDirectory _ children => children !! c ≫= fun d => node_at d p
      | DigestDirectory _ _ => None
      end
  end.

(** What is documented of the digest functions: they are supported for all instance
    names, and their names are valid and differ; the names of the types are valid. *)
Class BlobsLaws : Prop := {
  GetDigestFunction_supported i v : v ∈ SupportedDigestFunctions -> exists df, InstanceName_GetDigestFunction i v 0 = Ok df;
  lower_name_valid v : v ∈ SupportedDigestFunctions -> is_Some (NewComponent (lower_name v));
  lower_name_inj v v' c : v ∈ SupportedDigestFunctions -> v' ∈ SupportedDigestFunctions ->
    NewComponent (lower_name v) = Some c -> NewComponent (lower_name v') = Some c -> v = v';
  SupportedDigestFunctions_NoDup : NoDup SupportedDigestFunctions;
  object_types_valid : Forall (fun t => is_Some (NewComponent t.1)) object_types;
}.

Context {PL : PathLaws P}.

Lemma NewComponent_inj s s' c : NewComponent s = Some c -> NewComponent s' = Some c -> s = s'.
Proof using PL. intros H1%NewComponent_String H2%NewComponent_String. congruence. Qed.

(** The directories for the types [types] are numbered from [n] on. *)
Lemma create_types_spec types df n children :
  Forall (fun t => is_Some (NewComponent t.1)) types -> NoDup types.*1 ->
  0 <= n -> n + Z.of_nat (length types) < 256 ->
  exists m, create_types types df n children = Ret (m, n + Z.of_nat (length types)) /\
    (forall c, (forall t, t ∈ types -> NewComponent t.1 <> Some c) -> m !! c = children !! c) /\
    forall k name lookup c, types !! k = Some (name, lookup) -> NewComponent name = Some c ->
      m !! c = Some (DigestDirectory (n + Z.of_nat k + 1)
        (NewDigestParsingDirectory df lookup)).
Proof using PL.
  intros Hvalid. revert n children. induction Hvalid as [|[name lookup] types [c Hc] Hvalid IH];
    intros n children Hnd Hn Hlt; cbn [create_types].
  { exists children. cbn. rewrite Z.add_0_r. done. }
  cbn in Hc. rewrite Hc. cbn [fmap list_fmap fst] in Hnd. apply NoDup_cons in Hnd as [Hnotin Hnd].
  cbn [length] in Hlt. assert (allocateHandle n = n + 1) as -> by (unfold allocateHandle, u8; rewrite Z.mod_small; lia).
  set (child := DigestDirectory (n + 1) (NewDigestParsingDirectory df lookup)).
  destruct (IH (n + 1) (<[c := child]> children) Hnd) as (m & Hm & Hother & Hmine); [lia|lia|].
  exists m. rewrite Hm. split; [do 2 f_equal; cbn [length]; lia|]. split.
  - intros c' Hc'. rewrite Hother by (intros t Ht; apply Hc'; by apply list_elem_of_further).
    apply lookup_insert_ne. intros <-. by destruct (Hc' (name, lookup)); [apply list_elem_of_here|].
  - intros [|k] name' lookup' c' Hk Hc'.
    + injection Hk as <- <-. rewrite Hc' in Hc. injection Hc as <-. rewrite Hother.
      * rewrite lookup_insert_eq. by replace (n + Z.of_nat 0 + 1) with (n + 1) by lia.
      * intros [name2 l2] Ht Hc2. cbn in Hc2. rewrite (NewComponent_inj _ _ _ Hc' Hc2) in Hnotin.
        apply Hnotin. apply (list_elem_of_fmap_2 fst _ _ Ht).
    + rewrite (Hmine k name' lookup' c' Hk Hc'). f_equal. f_equal. lia.
Qed.

Lemma object_types_NoDup : NoDup object_types.*1.
Proof using. apply (bool_decide_unpack _). reflexivity. Qed.

(** The directories for the digest functions and their handles: six for each digest
    function, the directory itself first. *)
Lemma create_functions_spec (BL : BlobsLaws) i functions n contents :
  functions ⊆ SupportedDigestFunctions -> NoDup functions ->
  0 <= n -> n + 6 * Z.of_nat (length functions) < 256 ->
  exists m, create_functions functions i n contents = Ret (m, n + 6 * Z.of_nat (length functions)) /\
    (forall c, (forall v, v ∈ functions -> NewComponent (lower_name v) <> Some c) -> m !! c = contents !! c) /\
    forall k v c, functions !! k = Some v -> NewComponent (lower_name v) = Some c ->
      exists df children,
        InstanceName_GetDigestFunction i v 0 = Ok df /\
        m !! c = Some (StaticDirectory (n + 6 * Z.of_nat k + 1) children) /\
        forall j name lookup t, object_types !! j = Some (name, lookup) -> NewComponent name = Some t ->
          children !! t = Some (DigestDirectory (n + 6 * Z.of_nat k + 2 + Z.of_nat j)
            (NewDigestParsingDirectory df lookup)).
Proof using PL.
  revert n contents. induction functions as [|v functions IH]; intros n contents Hsub Hnd Hn Hlt; cbn [create_functions].
  { exists contents. rewrite Z.add_0_r. done. }
  apply NoDup_cons in Hnd as [Hnotin Hnd]. cbn [length] in Hlt.
  assert (v ∈ SupportedDigestFunctions) as Hv by (apply Hsub, list_elem_of_here).
  destruct (GetDigestFunction_supported i v Hv) as [df Hdf]. destruct (lower_name_valid v Hv) as [c Hc].
  rewrite Hdf, Hc. assert (allocateHandle n = n + 1) as -> by (unfold allocateHandle, u8; rewrite Z.mod_small; lia).
  destruct (create_types_spec object_types df (n + 1) ∅ object_types_valid object_types_NoDup)
    as (children & Hchildren & _ & Htypes); [lia|cbn [length object_types]; lia|].
  rewrite Hchildren. change (Z.of_nat (length object_types)) with 5.
  destruct (IH (n + 1 + 5) (<[c := StaticDirectory (n + 1) children]> contents))
    as (m & Hm & Hother & Hmine); [set_solver|done|lia|lia|].
  exists m. rewrite Hm. split; [do 2 f_equal; cbn [length]; lia|]. split.
  - intros c' Hc'. rewrite Hother by (intros v' Hv'; apply Hc'; by apply list_elem_of_further).
    apply lookup_insert_ne. intros <-. by destruct (Hc' v); [apply list_elem_of_here|].
  - intros [|k] v' c' Hk Hc'.
    + injection Hk as <-. rewrite Hc' in Hc. injection Hc as <-. exists df, children.
      split; [done|]. split.
      * rewrite Hother; [by rewrite lookup_insert_eq, Z.add_0_r|].
        intros v2 Hv2 Hc2. apply Hnotin. by rewrite <- (lower_name_inj v2 v c' (Hsub _ (list_elem_of_further _ _ _ Hv2)) Hv Hc2 Hc').
      * intros j name lookup t Hj Ht. rewrite (Htypes j name lookup t Hj Ht). f_equal. f_equal. lia.
    + destruct (Hmine k v' c' Hk Hc') as (df' & children' & Hdf' & Hm' & Hchildren').
      exists df', children'. split; [done|]. split.
      * rewrite Hm'. do 2 f_equal. lia.
      * intros j name lookup t Hj Ht. rewrite (Hchildren' j name lookup t Hj Ht). do 2 f_equal. lia.
Qed.

(** Where the directory for a digest function and a type is. *)
Lemma blobs_node_at (BL : BlobsLaws) i d k v c j name lookup t :
  6 * Z.of_nat (length SupportedDigestFunctions) + 1 < 256 -> blobsDirectoryLookupFunc i = Ret d ->
  SupportedDigestFunctions !! k = Some v -> NewComponent (lower_name v) = Some c ->
  object_types !! j = Some (name, lookup) -> NewComponent name = Some t ->
  exists df h, InstanceName_GetDigestFunction i v 0 = Ok df /\
    node_at d [c; t] = Some (DigestDirectory h (NewDigestParsingDirectory df lookup)).
Proof using PL.
  intros Hlt Hd Hk Hc Hj Ht. unfold blobsDirectoryLookupFunc in Hd.
  destruct (create_functions_spec BL i SupportedDigestFunctions 0 ∅) as (m & Hm & _ & Hmine);
    [done|apply SupportedDigestFunctions_NoDup|lia|lia|].
  rewrite Hm in Hd. injection Hd as <-.
  destruct (Hmine k v c Hk Hc) as (df & children & Hdf & Hc' & Hchildren).
  eexists df, _. split; [done|]. cbn [node_at]. rewrite Hc'. cbn. by rewrite (Hchildren j name lookup t Hj Ht).
Qed.

(** C31. The "blobs" directory of an instance name has, for every supported digest
    function and every type of object, a directory that parses digests of that
    function and yields objects of that type; it is created without panics. As long
    as the counter, a byte, can number them all, the nodes have different handles:
    [k]-th digest function, [j]-th type, and the "blobs" directory after them. *)
Theorem blobs_layout (BL : BlobsLaws) i :
  6 * Z.of_nat (length SupportedDigestFunctions) + 1 < 256 ->
  exists d, blobsDirectoryLookupFunc i = Ret d /\
    handle_of d = 6 * Z.of_nat (length SupportedDigestFunctions) + 1 /\
    forall k v c, SupportedDigestFunctions !! k = Some v -> NewComponent (lower_name v) = Some c ->
      exists df f, InstanceName_GetDigestFunction i v 0 = Ok df /\
        node_at d [c] = Some f /\ handle_of f = 6 * Z.of_nat k + 1 /\
        forall j name lookup t, object_types !! j = Some (name, lookup) -> NewComponent name = Some t ->
          node_at d [c; t] = Some (DigestDirectory (6 * Z.of_nat k + 2 + Z.of_nat j)
            (NewDigestParsingDirectory df lookup)).
Proof using PL.
  intros Hlt. unfold blobsDirectoryLookupFunc.
  destruct (create_functions_spec BL i SupportedDigestFunctions 0 ∅) as (m & Hm & _ & Hmine);
    [done|apply SupportedDigestFunctions_NoDup|lia|lia|].
  rewrite Hm. eexists. split; [done|]. split; [unfold handle_of, allocateHandle, u8; rewrite Z.mod_small; lia|].
  intros k v c Hk Hc. destruct (Hmine k v c Hk Hc) as (df & children & Hdf & Hc' & Hchildren).
  eexists df, _. cbn [node_at]. rewrite Hc'. split; [done|]. split; [done|]. split; [done|].
  intros j name lookup t Hj Ht. cbn. by rewrite (Hchildren j name lookup t Hj Ht).
Qed.
End BlobsDirectory.

(** ** A concrete application: SHA-256 and MD5 *)

Module ExampleBlobs.
Import ErrorTree ExamplePath ExampleDigest ExampleVirtual ExampleParsing.

(** Whatever the factories are. *)
Definition application {W : Type} {VN : VirtualNodes W} (command : Digest -> st W (vres VLeaf))
    (file : Digest -> bool -> VLeaf) (decomposed tree : Digest -> VDirectory) : BlobsEnvironment (VN:=VN) := {|
  SupportedDigestFunctions := [1; 3];
  lower_name v := (if Z.eqb v 1 then "sha256" else "md5")%string;
  InstanceName_GetDigestFunction _ v _ := Ok (if Z.eqb v 1 then "sha256" else "md5")%string;
  commandFileFactory_LookupFile := command;
  casFileFactory_LookupFile := file;
  decomposed_LookupDirectory := decomposed;
  tree_LookupDirectory := tree;
|}.

Lemma valid_component (s : string) (H : valid s = true) : NewComponent s = Some (comp s H).
Proof. exact (NewComponent_of_Component (comp s H)). Qed.

Lemma valid_is_Some (s : string) : valid s = true -> is_Some (NewComponent s).
Proof. intros H. exists (comp s H). apply valid_component. Qed.

Lemma application_laws {W : Type} {VN : VirtualNodes W} command file decomposed tree :
  BlobsLaws (BE:=application (VN:=VN) command file decomposed tree).
Proof.
  split.
  - intros i v _. by eexists.
  - intros v _. cbn [lower_name application]. by destruct (Z.eqb v 1); apply valid_is_Some.
  - intros v v' c Hv Hv' H H'. pose proof (NewComponent_inj _ _ _ H H') as Heq. cbn in Hv, Hv', Heq.
    rewrite !elem_of_cons, elem_of_nil in Hv, Hv'. destruct Hv as [->|[->|[]]], Hv' as [->|[->|[]]]; done.
  - apply (bool_decide_unpack _). reflexivity.
  - repeat (apply Forall_cons_2; [by apply valid_is_Some|]). apply Forall_nil_2.
Qed.

#[export] Instance environment : BlobsEnvironment (VN:=nodes) :=
  application (VN:=nodes) (fun digest w => (VOk (digest : VLeaf), w)) (fun digest _ => digest : VLeaf)
    (fun digest => Instance_ (d_hash digest) : VDirectory) (fun digest => Instance_ (d_hash digest) : VDirectory).

#[export] Instance laws : BlobsLaws (BE:=environment).
Proof. apply application_laws. Qed.

Definition main : @InstanceName errors digests := "main"%string.

(** The directory "md5/tree" of the instance name "main" is the twelfth that is
    created. *)
Lemma blobs_layout_witness :
  exists d, blobsDirectoryLookupFunc (BE:=environment) main = Ret d /\
    handle_of d = 13 /\
    node_at d [comp "md5" eq_refl; comp "tree" eq_refl] =
      Some (DigestDirectory 12 {| digestFunction := "md5"%string : @DigestFunction errors digests;
                                lookupFunc := lookup_tree (BE:=environment) |}).
Proof.
  destruct (blobs_layout (BE:=environment) laws main) as (d & Hd & Hh & Hnodes); [reflexivity|].
  exists d. split; [exact Hd|]. split; [exact Hh|].
  destruct (Hnodes 1%nat 3 (comp "md5" eq_refl) eq_refl (valid_component _ _)) as (df & f & Hdf & _ & _ & Htypes).
  injection Hdf as <-.
  exact (Htypes 4%nat "tree"%string (lookup_tree (BE:=environment)) (comp "tree" eq_refl) eq_refl (valid_component _ _)).
Defined.
End ExampleBlobs.
