(* ===== verification/CasPath.v ===== *)
(** * Paths below "cas"

    [cmd/bb_clientd/main.go] mounts a directory of instance names as "cas", with the
    function for "blobs" directories under the keyword "blobs". This file resolves
    paths from there down to objects of the Content Addressable Storage. *)

From S2P Require Import Prelude GoLib Errors StateFile Virtual Examples CasDirectory ParsingDirectories BlobsDirectory.
Import Strings Strconv.
Local Open Scope Z_scope.
Set Warnings "-register-all".

(** The nodes of the directories that [main] creates with [AsStatelessDirectory]:
    the node of an instance name at a path in its "blobs" directory. *)
Class BlobsNodes {E : Errors} {P : PathLib} {D : DigestLib} {W : Type} {VN : VirtualNodes W}
    {IL : InstanceNameLib} (IW : InstanceNameLaws) : Type := {
  node_of : InstanceName -> list Component -> VDirectory;
  node_location : VDirectory -> option (InstanceName * list Component);
  node_location_node_of i p : node_location (node_of i p) = Some (i, p);
  underlying_node_of i p : underlying (node_of i p) = None;
}.

Section CasPath.
Context {E : Errors} {P : PathLib} {PL : PathLaws P} {D : DigestLib} {VC : VirtualConstants}.
Context {W : Type} {VN : VirtualNodes W} {BE : BlobsEnvironment} {IL : InstanceNameLib}.
Context {IW : InstanceNameLaws} {BN : BlobsNodes IW}.
(** The "blobs" directory of every instance name, and looking up names in
    directories of other kinds *)
Context (blobsDirectory : InstanceName -> directory).
Context (other_VirtualLookup : VDirectory -> Component -> st W (vres DirectoryChild)).

(** Looking up a name in a directory that [main] created. *)
Definition blobs_VirtualLookup (i : InstanceName) (p : list Component) (name : Component)
  : st W (vres DirectoryChild) := fun w =>
  match node_at (blobsDirectory i) p with
  | Some (StaticDirectory _ children) =>
      (match children !! name with
       | Some _ => VOk (FromDirectory (node_of i (p ++ [name])))
       | None => VErr StatusErrNoEnt
       end, w)
  | Some (DigestDirectory _ d) =>
      let '((r, _), w) := digest_VirtualLookup d name 0 no_Attributes w in (r, w)
  | None => (VErr StatusErrNoEnt, w)
  end.

(** One step. Attributes are not looked at. *)
Definition lookup_child (n : VDirectory) (name : Component) : st W (vres DirectoryChild) := fun w =>
  match underlying n, node_location n with
  | Some d, _ => let '((r, _), w) := instance_VirtualLookup d name 0 no_Attributes w in (r, w)
  | None, Some (i, p) => blobs_VirtualLookup i p name w
  | None, None => other_VirtualLookup n name w
  end.

Fixpoint resolve_path (n : DirectoryChild) (names : list Component) : st W (vres DirectoryChild) := fun w =>
  match names, n with
  | [], _ => (VOk n, w)
  | _ :: _, FromLeaf _ => (VErr StatusErrWrongType, w)
  | name :: names, FromDirectory d =>
      match lookup_child d name w with
      | (VErr s, w) => (VErr s, w)
      | (VOk n, w) => resolve_path n names w
      end
  end.

Lemma node_at_app d p q : node_at d (p ++ q) = node_at d p ≫= fun d => node_at d q.
Proof using.
  revert d. induction p as [|c p IH]; intros d; [done|]. destruct d as [h children|h d]; [|done].
  cbn. destruct (children !! c); [apply IH|done].
Qed.

Lemma resolve_node i p q d names w :
  node_at (blobsDirectory i) (p ++ q) = Some d ->
  resolve_path (FromDirectory (node_of i p)) (q ++ names) w =
    resolve_path (FromDirectory (node_of i (p ++ q))) names w.
Proof using.
  revert p. induction q as [|c q IH]; intros p Hd; [by rewrite app_nil_r|]. cbn [app resolve_path].
  unfold lookup_child. rewrite underlying_node_of, node_location_node_of. unfold blobs_VirtualLookup.
  rewrite (cons_middle c p q), app_assoc in Hd. rewrite (cons_middle c p q), app_assoc, <-(IH _ Hd).
  rewrite !node_at_app in Hd. destruct (node_at (blobsDirectory i) p) as [[h children|h d']|]; [|done..].
  cbn in Hd. by destruct (children !! c).
Qed.

(** From a directory of instance names to the one of the keyword. *)
Lemma resolve_instance_name funcs k f names rest prefix w :
  Forall (fun name => funcs !! name = None) names -> funcs !! k = Some f ->
  exists w', resolve_path (FromDirectory (instance_createDirectory funcs prefix)) (names ++ k :: rest) w =
    match NewInstanceNameFromComponents (prefix ++ (Component_String <$> names)) with
    | Ok i => resolve_path (FromDirectory (f i)) rest w'
    | Err _ => (VErr StatusErrNoEnt, w')
    end.
Proof using.
  intros Hnames Hk. revert prefix w. induction Hnames as [|name names Hname _ IH]; intros prefix w; cbn [app resolve_path].
  - unfold lookup_child, instance_createDirectory at 1. rewrite underlying_AsStatelessDirectory.
    unfold instance_VirtualLookup. cbn [lookupFuncs path fmap list_fmap]. rewrite Hk, app_nil_r.
    destruct (NewInstanceNameFromComponents prefix) as [i|x]; [|by exists w].
    destruct (Directory_VirtualGetAttributes _ _ _ _) as [a w']. by exists w'.
  - unfold lookup_child, instance_createDirectory at 1. rewrite underlying_AsStatelessDirectory.
    unfold instance_VirtualLookup. cbn [lookupFuncs path]. rewrite Hname.
    destruct (Directory_VirtualGetAttributes _ _ _ _) as [a w1]. destruct (IH (prefix ++ [Component_String name]) w1) as [w' Hw].
    exists w'. rewrite Hw, <-app_assoc. done.
Qed.

Lemma resolve_digest i p h d name x s y rest w :
  node_at (blobsDirectory i) p = Some (DigestDirectory h d) ->
  0 <= s < 2 ^ 63 -> Component_String name = x +:+ String "-" (FormatInt s) ->
  NewDigest (digestFunction d) x s = Ok y ->
  exists w', resolve_path (FromDirectory (node_of i p)) (name :: rest) w =
    match lookupFunc d y w with
    | (VOk child, _) => resolve_path child rest w'
    | (VErr e, _) => (VErr e, w')
    end.
Proof using.
  intros Hp Hs Hn Hd. cbn [resolve_path]. unfold lookup_child.
  rewrite underlying_node_of, node_location_node_of. unfold blobs_VirtualLookup. rewrite Hp.
  unfold digest_VirtualLookup. rewrite (parse_of_parts d name x s Hs Hn), Hd.
  destruct (lookupFunc d y w) as [[child|e] w1]; [|by exists w1].
  destruct (Child_VirtualGetAttributes child 0 no_Attributes w1) as [a w2]. by exists w2.
Qed.

(** ** The naming scheme *)

(** What is mounted as "cas" *)
Definition cas_root (blobs : Component) : VDirectory :=
  NewInstanceNameParsingDirectory {[ blobs := fun i => node_of i [] ]}.

Section Scheme.
Context (BL : BlobsLaws) (blobs : Component).
Context (Hfuncs : 6 * Z.of_nat (length SupportedDigestFunctions) + 1 < 256).
Context (Hcreated : forall i, blobsDirectoryLookupFunc i = Ret (blobsDirectory i)).

(** From the root to the directory for a digest function and a type. *)
Lemma resolve_type instanceNames k v c j type lookup t rest w :
  Forall (fun n => n <> blobs) instanceNames ->
  SupportedDigestFunctions !! k = Some v -> NewComponent (lower_name v) = Some c ->
  object_types !! j = Some (type, lookup) -> NewComponent type = Some t ->
  exists w',
    match NewInstanceNameFromComponents (Component_String <$> instanceNames) with
    | Err _ => resolve_path (FromDirectory (cas_root blobs)) (instanceNames ++ [blobs; c; t] ++ rest) w =
        (VErr StatusErrNoEnt, w')
    | Ok i => exists df h, InstanceName_GetDigestFunction i v 0 = Ok df /\
        node_at (blobsDirectory i) [c; t] = Some (DigestDirectory h (NewDigestParsingDirectory df lookup)) /\
        resolve_path (FromDirectory (cas_root blobs)) (instanceNames ++ [blobs; c; t] ++ rest) w =
          resolve_path (FromDirectory (node_of i [c; t])) rest w'
    end.
Proof using PL BL Hfuncs Hcreated.
  intros Hnames Hk Hc Hj Ht. unfold cas_root, NewInstanceNameParsingDirectory. cbn [app].
  destruct (resolve_instance_name {[ blobs := fun i => node_of i [] ]} blobs (fun i => node_of i []) instanceNames
    (c :: t :: rest) [] w) as [w' Hw].
  { eapply Forall_impl; [done|]. intros n Hn. by rewrite lookup_singleton_ne. }
  { by rewrite lookup_singleton_eq. }
  exists w'. cbn [app] in Hw. rewrite Hw. destruct (NewInstanceNameFromComponents _) as [i|x]; [|done].
  destruct (blobs_node_at BL i _ k v c j type lookup t Hfuncs (Hcreated i) Hk Hc Hj Ht) as (df & h & Hdf & Hnode).
  exists df, h. split; [done|]. split; [done|].
  change (c :: t :: rest) with ([c; t] ++ rest). by rewrite (resolve_node i [] [c; t] _ _ _ Hnode).
Qed.

(** C6. Objects are found by the documented names. The path that consists of the
    components of an instance name (which may not be "blobs"), "blobs", the name of a
    supported digest function, the type of the object, and the hash and size of a
    digest of that function resolves to what the factory for the type gives for the
    digest, in that instance; paths that extend it continue from there. If the
    components are not a valid instance name, nothing is there. *)
Theorem cas_path instanceNames k v c j type lookup t name hash size rest w :
  Forall (fun n => n <> blobs) instanceNames ->
  SupportedDigestFunctions !! k = Some v -> NewComponent (lower_name v) = Some c ->
  object_types !! j = Some (type, lookup) -> NewComponent type = Some t ->
  0 <= size < 2 ^ 63 -> Component_String name = hash +:+ String "-" (FormatInt size) ->
  exists w', match NewInstanceNameFromComponents (Component_String <$> instanceNames) with
  | Err _ =>
      resolve_path (FromDirectory (cas_root blobs)) (instanceNames ++ [blobs; c; t; name] ++ rest) w =
        (VErr StatusErrNoEnt, w')
  | Ok i =>
      exists df, InstanceName_GetDigestFunction i v 0 = Ok df /\
        forall digest, NewDigest df hash size = Ok digest ->
        exists w'',
          resolve_path (FromDirectory (cas_root blobs)) (instanceNames ++ [blobs; c; t; name] ++ rest) w =
            match lookup digest w' with
            | (VOk child, _) => resolve_path child rest w''
            | (VErr e, _) => (VErr e, w'')
            end
  end.
Proof using PL BL Hfuncs Hcreated.
  intros Hnames Hk Hc Hj Ht Hsize Hname.
  destruct (resolve_type instanceNames k v c j type lookup t (name :: rest) w Hnames Hk Hc Hj Ht) as [w' Hw].
  exists w'. destruct (NewInstanceNameFromComponents _) as [i|x]; [|done]. destruct Hw as (df & h & Hdf & Hnode & Hw).
  exists df. split; [done|]. intros digest Hdigest.
  destruct (resolve_digest i [c; t] h _ name hash size digest rest w' Hnode Hsize Hname Hdigest) as [w'' Heq].
  exists w''. cbn [app] in *. by rewrite Hw.
Qed.
End Scheme.
End CasPath.

(** ** A concrete path *)

Module ExampleCasPath.
Import ErrorTree ExamplePath ExampleDigest ExampleVirtual ExampleParsing ExampleBlobs.

#[local] Instance blobs_nodes : BlobsNodes instance_laws.
Proof.
  refine {|
    node_of := Node : InstanceName -> list Component -> VDirectory;
    node_location := fun n : VDirectory => match (n : ExampleParsing.directory) with Node i p => Some (i, p) | _ => None end;
  |}; done.
Defined.

Definition blobsDirectory (i : InstanceName) : BlobsDirectory.directory :=
  match blobsDirectoryLookupFunc (BE := environment) i with Ret d => d | Panic _ => BlobsDirectory.StaticDirectory 0 ∅ end.

Definition other (n : VDirectory) (name : Component) : st unit (vres DirectoryChild) := fun w => (VErr StatusErrNoEnt, w).

(** "foo/bar/blobs/md5/file/ab-c-12" *)
Lemma cas_path_witness :
  exists w', resolve_path blobsDirectory other (FromDirectory (cas_root blobs))
      [foo; bar; blobs; comp "md5" eq_refl; comp "file" eq_refl; name] tt =
    (VOk (FromLeaf ({| d_function := "md5"; d_hash := "ab-c"; d_size := 12 |} : VLeaf)), w').
Proof.
  destruct (cas_path (PL := path_laws) blobsDirectory other laws blobs eq_refl (fun i => eq_refl) [foo; bar] 1 3
    (comp "md5" eq_refl) 3 "file" (lookup_file (BE := environment)) (comp "file" eq_refl) name "ab-c" 12 [] tt)
    as [w1 H].
  - apply Forall_cons_2; [discriminate|]. apply Forall_cons_2; [discriminate|apply Forall_nil_2].
  - reflexivity.
  - apply valid_component.
  - reflexivity.
  - apply valid_component.
  - lia.
  - reflexivity.
  - destruct H as (df & Hdf & Hall). injection Hdf as <-. destruct (Hall _ eq_refl) as [w2 Heq].
    exists w2. exact Heq.
Defined.
End ExampleCasPath.
