(* ===== verification/CasTree.v ===== *)
(** * Browsing directories of the Content Addressable Storage

    What is found below the "directory" and "tree" directories of [CasPath.v]: the
    directories of [cas_directory.go], created by the two factories, one below the
    other. The reference is a walk along the messages, which for trees are those of the
    directory walker of [pkg/cas/tree_directory_walker.go]. *)

From S2P Require Import Prelude GoLib Errors StateFile Virtual Examples TreeWalker CasDirectory CasDirectoryFactories ParsingDirectories BlobsDirectory CasPath.
Import Binary Strings Strconv.
Local Open Scope Z_scope.
Set Warnings "-register-all".

(** ** The result of one lookup *)

Section OneLookup.
Context {E : Errors} {P : PathLib} {D : DigestLib} {VC : VirtualConstants}.
Context {W : Type} {VN : VirtualNodes W} {HA : HandleAllocators}.
Context {C : Type} {CC : CASDirectoryContext C} {CL : CASDirectoryLib C}.

(** The symbolic link at an index. *)
Definition symlink_result (d : casDirectory C) (i : nat) (e : SymlinkNode) : vres DirectoryChild :=
  match LookupSymlink (sn_Target e) with
  | Err _ => VErr StatusErrIO
  | Ok l => VOk (FromLeaf (AsLinkableLeaf (New (handleAllocator d) (PutUvarint (u64 (Z.of_nat i + 1)))) l))
  end.

(** The child for an entry, if its digest is valid. *)
Definition with_digest (df : DigestFunction) (p : option ProtoDigest) (f : Digest -> vres DirectoryChild)
  : vres DirectoryChild :=
  match NewDigestFromProto df p with Err _ => VErr StatusErrIO | Ok c => f c end.

Definition entry_result (d : casDirectory C) (e : entry) : vres DirectoryChild :=
  match e with
  | EDirectory e => with_digest (CasDirectory.digestFunction d) (rdn_Digest e) (fun c =>
      VOk (FromDirectory (LookupDirectory (directoryContext d) c)))
  | EFile e => with_digest (CasDirectory.digestFunction d) (fn_Digest e) (fun c =>
      VOk (FromLeaf (LookupFile (directoryContext d) c (fn_IsExecutable e))))
  | ESymlink i e => symlink_result d i e
  end.

Lemma make_entry_result d e w : (make_entry d e w).1 = entry_result d e.
Proof using.
  destruct e as [e|e|i e]; cbn; unfold make_directory, make_file, make_symlink, createSymlink, with_digest, symlink_result.
  - by destruct (NewDigestFromProto _ _) as [c|x]; [|destruct (LogError _ _ _)].
  - by destruct (NewDigestFromProto _ _) as [c|x]; [|destruct (LogError _ _ _)].
  - by destruct (LookupSymlink _) as [l|x]; [|destruct (LogError _ _ _)].
Qed.

Lemma with_attributes_result requested out m w : (with_attributes requested out m w).1.1 = (m w).1.
Proof using.
  unfold with_attributes. destruct (m w) as [[child|s] w1]; [|done].
  by destruct (Child_VirtualGetAttributes _ _ _ _) as [a w2].
Qed.

Lemma VirtualLookup_result d name requested out w :
  (forall directory, (GetDirectoryContents (directoryContext d) w).1 = VOk directory -> sorted directory) ->
  (VirtualLookup d name requested out w).1.1 =
    match (GetDirectoryContents (directoryContext d) w).1 with
    | VErr s => VErr s
    | VOk directory =>
        match find_entry directory (Component_String name) with
        | None => VErr StatusErrNoEnt
        | Some e => entry_result d e
        end
    end.
Proof using.
  intros Hsorted. destruct (GetDirectoryContents (directoryContext d) w) as [[directory|s] w1] eqn:Hd.
  - rewrite (VirtualLookup_find d name requested out w directory w1 Hd) by by apply Hsorted.
    cbn [fst]. destruct (find_entry _ _) as [e|]; [|done]. by rewrite with_attributes_result, make_entry_result.
  - unfold VirtualLookup. by rewrite Hd.
Qed.
End OneLookup.

Section CasTree.
Context {E : Errors} {P : PathLib} {PL : PathLaws P} {D : DigestLib} {VC : VirtualConstants}.
Context {W : Type} {VN : VirtualNodes W} {HA : HandleAllocators} {DF : DirectoryFetcher W} {FE : FactoryEnvironment}.
Context {CLD : CASDirectoryLib decomposedCASDirectoryContext}.
Context {CLR : CASDirectoryLib treeRootCASDirectoryContext}.
Context {CLC : CASDirectoryLib treeChildCASDirectoryContext}.

(** ** Where directories come from

    A message of its own, or a part of a tree: for the latter, the directory walkers
    of trees tell which part. *)
Inductive source : Type :=
| Decomposed (blobDigest : Digest)
| InTree (dw : treeDirectoryWalker).

Definition source_node (s : source) : VDirectory :=
  match s with
  | Decomposed d => CasDirectoryFactories.decomposed_LookupDirectory d
  | InTree (treeRootDirectoryWalker t) => treeFactory_LookupDirectory t
  | InTree (treeChildDirectoryWalker t c) => CasDirectoryFactories.tree_LookupDirectory (createTreeContext t) c
  end.

(** Looking up a name in the directory that was created for a source. *)
Definition source_VirtualLookup (s : source) (name : Component) (requested : Z) (out : Attributes)
  : st W (vres DirectoryChild * Attributes) :=
  match s with
  | Decomposed d => VirtualLookup (createDirectory d).2 name requested out
  | InTree (treeRootDirectoryWalker t) =>
      VirtualLookup (createRootDirectory (createTreeContext t)).2 name requested out
  | InTree (treeChildDirectoryWalker t c) =>
      VirtualLookup (createChildDirectory (createTreeContext t) c).2 name requested out
  end.

(** ** The reference *)

Definition fetch (s : source) : st W (res err REDirectory) :=
  match s with Decomposed d => GetDirectory d | InTree dw => walker_GetDirectory dw end.

Definition source_child (s : source) (childDigest : Digest) : source :=
  match s with Decomposed _ => Decomposed childDigest | InTree dw => InTree (GetChild dw childDigest) end.

(** Digests in the messages of a tree are of the digest function of the tree. *)
Definition source_function (s : source) : DigestFunction :=
  GetDigestFunction (match s with Decomposed d => d | InTree dw => GetContainingDigest dw end).

Definition source_symlink (s : source) (i : nat) (e : SymlinkNode) : vres DirectoryChild :=
  match s with
  | Decomposed d => symlink_result (createDirectory d).2 i e
  | InTree (treeRootDirectoryWalker t) => symlink_result (createRootDirectory (createTreeContext t)).2 i e
  | InTree (treeChildDirectoryWalker t c) => symlink_result (createChildDirectory (createTreeContext t) c).2 i e
  end.

(** Nothing is below a leaf. *)
Definition at_leaf (names : list Component) (r : vres DirectoryChild) : vres DirectoryChild :=
  match names, r with
  | [], _ | _, VErr _ => r
  | _ :: _, VOk _ => VErr StatusErrWrongType
  end.

(** Following a path along the messages. Objects of the storage do not change:
    [contents] is what fetching yields. *)
Fixpoint browse (contents : source -> res err REDirectory) (s : source) (names : list Component)
  : vres DirectoryChild :=
  match names with
  | [] => VOk (FromDirectory (source_node s))
  | name :: names =>
      match contents s with
      | Err _ => VErr StatusErrIO
      | Ok directory =>
          match find_entry directory (Component_String name) with
          | None => VErr StatusErrNoEnt
          | Some (EDirectory e) => with_digest (source_function s) (rdn_Digest e) (fun c =>
              browse contents (source_child s c) names)
          | Some (EFile e) => at_leaf names (with_digest (source_function s) (fn_Digest e) (fun c =>
              VOk (FromLeaf (CASFileFactory_LookupFile c (fn_IsExecutable e)))))
          | Some (ESymlink i e) => at_leaf names (source_symlink s i e)
          end
      end
  end.

(** One lookup in the directory of a source is one step of the reference. *)
Lemma source_VirtualLookup_result (s : source) (name : Component) requested out w :
  (forall directory, (fetch s w).1 = Ok directory -> sorted directory) ->
  (source_VirtualLookup s name requested out w).1.1 =
    match (fetch s w).1 with
    | Err _ => VErr StatusErrIO
    | Ok directory =>
        match find_entry directory (Component_String name) with
        | None => VErr StatusErrNoEnt
        | Some (EDirectory e) => with_digest (source_function s) (rdn_Digest e) (fun c =>
            VOk (FromDirectory (source_node (source_child s c))))
        | Some (EFile e) => with_digest (source_function s) (fn_Digest e) (fun c =>
            VOk (FromLeaf (CASFileFactory_LookupFile c (fn_IsExecutable e))))
        | Some (ESymlink i e) => source_symlink s i e
        end
    end.
Proof using.
  intros Hsorted.
  destruct s as [d|[t|t c]]; cbn [fetch walker_GetDirectory source_VirtualLookup] in *.
  - rewrite VirtualLookup_result; cbn; unfold decomposed_GetDirectoryContents; cbn;
      destruct (GetDirectory d w) as [[directory|e] w1]; cbn in *;
      [|by destruct (decomposed_LogError _ _ _)|intros x [= <-]; by apply Hsorted|by destruct (decomposed_LogError _ _ _)].
    by destruct (find_entry _ _) as [[]|].
  - rewrite VirtualLookup_result; cbn; unfold treeRoot_GetDirectoryContents; cbn;
      destruct (GetTreeRootDirectory t w) as [[directory|e] w1]; cbn in *;
      [|by destruct (treeRoot_LogError _ _ _)|intros x [= <-]; by apply Hsorted|by destruct (treeRoot_LogError _ _ _)].
    by destruct (find_entry _ _) as [[]|].
  - rewrite VirtualLookup_result; cbn; unfold treeChild_GetDirectoryContents; cbn;
      destruct (GetTreeChildDirectory t c w) as [[directory|e] w1]; cbn in *;
      [|by destruct (treeChild_LogError _ _ _)|intros x [= <-]; by apply Hsorted|by destruct (treeChild_LogError _ _ _)].
    by destruct (find_entry _ _) as [[]|].
Qed.

(** ** Paths *)

(** The nodes of these directories, which are not those of the other kinds. *)
Class CasNodes {IL : InstanceNameLib} {IW : InstanceNameLaws} (BN : BlobsNodes IW) : Type := {
  cas_source : VDirectory -> option source;
  cas_source_node s : cas_source (source_node s) = Some s;
  underlying_source_node s : underlying (source_node s) = None;
  node_location_source_node s : node_location (source_node s) = None;
}.

Context {BE : BlobsEnvironment} {IL : InstanceNameLib} {IW : InstanceNameLaws} {BN : BlobsNodes IW} {CN : CasNodes BN}.

Definition cas_VirtualLookup (n : VDirectory) (name : Component) : st W (vres DirectoryChild) := fun w =>
  match cas_source n with
  | Some s => let '((r, _), w) := source_VirtualLookup s name 0 no_Attributes w in (r, w)
  | None => (VErr StatusErrNoEnt, w)
  end.

Context (blobsDirectory : InstanceName -> directory).
Context (contents : source -> res err REDirectory) (Hcontents : forall s w, (fetch s w).1 = contents s).
Context (Hsorted : forall s directory, contents s = Ok directory -> sorted directory).

Lemma resolve_leaf names r w :
  match r with VOk (FromDirectory _) => False | _ => True end ->
  match r with VErr e => VErr e | VOk n => (resolve_path blobsDirectory cas_VirtualLookup n names w).1 end = at_leaf names r.
Proof using. destruct r as [[d|l]|e]; [done|..]; by destruct names. Qed.

Lemma with_digest_leaf df p f :
  match with_digest df p (fun c => VOk (FromLeaf (f c))) with VOk (FromDirectory _) => False | _ => True end.
Proof using. unfold with_digest. by destruct (NewDigestFromProto _ _). Qed.

Lemma source_symlink_leaf s i e : match source_symlink s i e with VOk (FromDirectory _) => False | _ => True end.
Proof using. destruct s as [d|[t|t c]]; cbn; unfold symlink_result; by destruct (LookupSymlink _). Qed.

(** Below a directory of the storage, resolving a path is following the messages. *)
Lemma resolve_browse s names w :
  (resolve_path blobsDirectory cas_VirtualLookup (FromDirectory (source_node s)) names w).1 = browse contents s names.
Proof using Hcontents Hsorted.
  revert s w. induction names as [|name names IH]; intros s w; [done|]. cbn [resolve_path browse].
  unfold lookup_child. rewrite underlying_source_node, node_location_source_node.
  unfold cas_VirtualLookup at 1. rewrite cas_source_node.
  pose proof (source_VirtualLookup_result s name 0 no_Attributes w) as Hl. rewrite Hcontents in Hl.
  specialize (Hl ltac:(apply Hsorted)).
  destruct (source_VirtualLookup s name 0 no_Attributes w) as [[r a] w1]. cbn in Hl.
  assert ((match r with VErr e => (VErr e, w1) | VOk n => resolve_path blobsDirectory cas_VirtualLookup n names w1 end).1 =
    match r with VErr e => VErr e | VOk n => (resolve_path blobsDirectory cas_VirtualLookup n names w1).1 end) as Hr by by destruct r.
  replace (match r with VOk n => _ | VErr s0 => _ end) with
    (match r with VErr e => (VErr e, w1) | VOk n => resolve_path blobsDirectory cas_VirtualLookup n names w1 end) by by destruct r.
  rewrite Hr, Hl. destruct (contents s) as [directory|e]; [|done].
  destruct (find_entry directory _) as [[e|e|i e]|]; [..|done].
  - unfold with_digest. destruct (NewDigestFromProto _ _) as [c|x]; [apply IH|done].
  - apply resolve_leaf, with_digest_leaf.
  - apply resolve_leaf, source_symlink_leaf.
Qed.

(** *** The complete path

    [main] gives the factories of [CasDirectoryFactories.v] to the functions that
    complete the parsing of digests. *)
Context (BL : BlobsLaws) (blobs : Component).
Context (Hfuncs : 6 * Z.of_nat (length SupportedDigestFunctions) + 1 < 256).
Context (Hcreated : forall i, blobsDirectoryLookupFunc i = Ret (blobsDirectory i)).
Context (Hdirectory : BlobsDirectory.decomposed_LookupDirectory = CasDirectoryFactories.decomposed_LookupDirectory).
Context (Htree : BlobsDirectory.tree_LookupDirectory = treeFactory_LookupDirectory).

(** Where the directories of these types get their contents from. *)
Definition browsable : list (string * (Digest -> source)) :=
  [("directory", Decomposed);
   ("tree", fun digest => InTree (NewTreeDirectoryWalker digest None))]%string.

Lemma browsable_lookup j type f : browsable !! j = Some (type, f) ->
  exists k lookup, object_types !! k = Some (type, lookup) /\
    forall digest w, lookup digest w = (VOk (FromDirectory (source_node (f digest))), w).
Proof using Hdirectory Htree.
  destruct j as [|[|j]]; [intros [= <- <-]..|done].
  - exists 1%nat, lookup_directory. split; [done|]. intros digest w. unfold lookup_directory. by rewrite Hdirectory.
  - exists 4%nat, lookup_tree. split; [done|]. intros digest w. unfold lookup_tree. by rewrite Htree.
Qed.

(** C7. Directories and trees of the Content Addressable Storage can be browsed by
    path: what a path below an instance name, "blobs", a digest function, "directory"
    or "tree", and a digest resolves to is what following the path along the messages
    yields, starting from the object with that digest (for trees, along the directory
    walkers). The node for the directory, file or symbolic link is found if every
    message on the way can be fetched and has the entry; otherwise the path does not
    exist, continues below a leaf, or fails with an I/O error where a message or
    digest cannot be obtained. *)
Theorem cas_tree_path j type f instanceNames i k v c t df name hash size digest rest w :
  browsable !! j = Some (type, f) -> NewComponent type = Some t ->
  Forall (fun n => n <> blobs) instanceNames ->
  NewInstanceNameFromComponents (Component_String <$> instanceNames) = Ok i ->
  SupportedDigestFunctions !! k = Some v -> NewComponent (lower_name v) = Some c ->
  InstanceName_GetDigestFunction i v 0 = Ok df -> NewDigest df hash size = Ok digest ->
  0 <= size < 2 ^ 63 -> Component_String name = hash +:+ String "-" (FormatInt size) ->
  (resolve_path blobsDirectory cas_VirtualLookup (FromDirectory (cas_root blobs))
     (instanceNames ++ [blobs; c; t; name] ++ rest) w).1 = browse contents (f digest) rest.
Proof using PL BL Hfuncs Hcreated Hdirectory Htree Hcontents Hsorted.
  intros Hj Ht Hnames Hi Hk Hc Hdf Hdigest Hsize Hname.
  destruct (browsable_lookup j type f Hj) as (l & lookup & Hl & Hlookup).
  destruct (resolve_type blobsDirectory cas_VirtualLookup BL blobs Hfuncs Hcreated instanceNames k v c l type lookup t
    (name :: rest) w Hnames Hk Hc Hl Ht) as [w1 Hw].
  rewrite Hi in Hw. destruct Hw as (df' & h & Hdf' & Hnode & Hw). rewrite Hdf' in Hdf. injection Hdf as ->.
  destruct (resolve_digest blobsDirectory cas_VirtualLookup i [c; t] h _ name hash size digest rest w1 Hnode Hsize Hname Hdigest)
    as [w2 Hr].
  cbn [app] in *. rewrite Hw, Hr. cbn [lookupFunc NewDigestParsingDirectory]. rewrite Hlookup. apply resolve_browse.
Qed.
End CasTree.

(** ** A concrete tree

    Its root directory contains "bin", with the program "run" and a symbolic link. *)

Module ExampleCasTree.
Import ErrorTree ExamplePath ExampleDigest ExampleVirtual.

Inductive node : Type :=
| Blobs (instanceName : string) (p : list component)
| Instances (funcs : gmap component (string -> node)) (p : list string)
| Source (s : @source errors digests).

Inductive leaf : Type :=
| File (dg : digest) (executable : bool)
| Symlink (target : string).

#[local] Instance nodes : VirtualNodes unit := {|
  VDirectory := node;
  VLeaf := leaf;
  Directory_VirtualGetAttributes _ _ a w := (a, w);
  Leaf_VirtualGetAttributes _ _ a w := (a, w);
  Leaf_VirtualOpenSelf _ _ _ _ a w := ((StatusOK, a), w);
  ToAttributesMask _ := 0;
|}.

#[local] Instance allocators : HandleAllocators := {|
  HandleAllocation := unit;
  HandleAllocator := unit;
  AsResolvableAllocator a := a;
  New a _ := a;
  AsLinkableLeaf _ l := l;
|}.

#[local] Instance decomposed_lib : CASDirectoryLib decomposedCASDirectoryContext := {|
  CasDirectory.AsStatelessDirectory _ d := Source (Decomposed (cdc_digest (directoryContext d))) : VDirectory;
  LookupSymlink target := Ok (Symlink target : VLeaf);
|}.

#[local] Instance root_lib : CASDirectoryLib treeRootCASDirectoryContext := {|
  CasDirectory.AsStatelessDirectory _ d :=
    Source (InTree (treeRootDirectoryWalker (treeDigest (root_context (directoryContext d))))) : VDirectory;
  LookupSymlink target := Ok (Symlink target : VLeaf);
|}.

#[local] Instance child_lib : CASDirectoryLib treeChildCASDirectoryContext := {|
  CasDirectory.AsStatelessDirectory _ d :=
    Source (InTree (treeChildDirectoryWalker (treeDigest (child_context (directoryContext d)))
      (childDigest (directoryContext d)))) : VDirectory;
  LookupSymlink target := Ok (Symlink target : VLeaf);
|}.

#[local] Instance factory : FactoryEnvironment := {|
  CASFileFactory_LookupFile dg x := File dg x : VLeaf;
  ErrorLogger_Log _ w := (tt, w);
  ResolvableDigestHandleAllocator_New _ := tt;
  GetInstanceName _ := "foo/bar"%string;
  GetCompactBinary _ := [];
  NewDigestFromCompactBinary _ _ := None;
|}.

Definition root : REDirectory := {|
  re_Directories := [{| rdn_Name := "bin"; rdn_Digest := Some {| hash := "d1"; size_bytes := 80 |} |};
                     {| rdn_Name := "lib"; rdn_Digest := Some {| hash := "d2"; size_bytes := 80 |} |}];
  re_Files := [];
  re_Symlinks := [];
|}.

Definition bin : REDirectory := {|
  re_Directories := [];
  re_Files := [{| fn_Name := "run"; fn_Digest := Some {| hash := "f1"; size_bytes := 5 |}; fn_IsExecutable := true |}];
  re_Symlinks := [{| sn_Name := "latest"; sn_Target := "run" |}];
|}.

(** Only "bin" can be fetched from the tree, next to its root directory. *)
Definition child_of (c : digest) : res err REDirectory :=
  if bool_decide (d_hash c = "d1"%string) then Ok bin else Err (status_Error NotFound "Directory not found").

#[local] Instance fetcher : DirectoryFetcher unit := {|
  GetDirectory _ w := (Ok bin, w);
  GetTreeRootDirectory _ w := (Ok root, w);
  GetTreeChildDirectory _ c w := (child_of c, w);
|}.

Definition contents (s : source) : res err REDirectory := (fetch s tt).1.

Lemma contents_sorted s directory : contents s = Ok directory -> sorted directory.
Proof.
  assert (sorted bin /\ sorted root) as [Hb Hr] by (repeat split; repeat constructor).
  destruct s as [d|[t|t c]]; unfold contents, fetch; cbn; [by intros [= <-]..|].
  unfold child_of. case_bool_decide; [|done]. by intros [= <-].
Qed.

Lemma contents_fetch s w : (fetch s w).1 = contents s.
Proof. by destruct w. Qed.

#[local] Instance environment : BlobsEnvironment :=
  ExampleBlobs.application (VN:=nodes) (fun dg w => (VOk (File dg false : VLeaf), w)) CASFileFactory_LookupFile
    CasDirectoryFactories.decomposed_LookupDirectory treeFactory_LookupDirectory.

#[local] Instance instance_names : InstanceNameLib := {|
  NewInstanceNameFromComponents p := Ok (String.concat "/" p : InstanceName);
  ParsingDirectories.AsStatelessDirectory _ d := Instances (lookupFuncs d) (path d) : VDirectory;
|}.

Definition underlying_of (n : node) : option instanceNameParsingDirectory :=
  match n with
  | Instances funcs p => Some {| lookupFuncs := (funcs : gmap Component (InstanceName -> VDirectory)); path := p |}
  | _ => None
  end.

#[local] Instance instance_laws : InstanceNameLaws (VN:=nodes).
Proof. unshelve eapply Build_InstanceNameLaws; [exact underlying_of|by intros id []]. Defined.

#[local] Instance blobs_nodes : BlobsNodes instance_laws.
Proof.
  refine {|
    node_of := Blobs : InstanceName -> list Component -> VDirectory;
    node_location := fun n : VDirectory => match (n : node) with Blobs i p => Some (i, p) | _ => None end;
  |}; done.
Defined.

#[local] Instance cas_nodes : CasNodes blobs_nodes.
Proof.
  refine {| cas_source := fun n : VDirectory => match (n : node) with Source s => Some s | _ => None end |};
    by intros [d|[t|t c]].
Defined.

Definition blobsDirectory (i : InstanceName) : BlobsDirectory.directory :=
  match blobsDirectoryLookupFunc i with Ret d => d | Panic _ => BlobsDirectory.StaticDirectory 0 ∅ end.

Definition blobs : Component := comp "blobs" eq_refl.
Definition prefix : list Component :=
  [comp "foo" eq_refl; blobs; comp "md5" eq_refl; comp "tree" eq_refl; comp "ab-c-12" eq_refl].

(** "foo/blobs/md5/tree/ab-c-12/bin/run", and "lib/run", which cannot be fetched *)
Lemma cas_tree_path_witness :
  (resolve_path blobsDirectory cas_VirtualLookup (FromDirectory (cas_root blobs))
     (prefix ++ [comp "bin" eq_refl; comp "run" eq_refl]) tt).1 =
    VOk (FromLeaf (File {| d_function := "md5"; d_hash := "f1"; d_size := 5 |} true : VLeaf)) /\
  (resolve_path blobsDirectory cas_VirtualLookup (FromDirectory (cas_root blobs))
     (prefix ++ [comp "lib" eq_refl; comp "run" eq_refl]) tt).1 = VErr StatusErrIO.
Proof.
  assert (Forall (fun n => n <> blobs) [comp "foo" eq_refl]) as Hn by (apply Forall_cons_2; [discriminate|apply Forall_nil_2]).
  split;
    (etransitivity;
      [exact (cas_tree_path (PL := path_laws) blobsDirectory contents contents_fetch contents_sorted
         (ExampleBlobs.application_laws _ _ _ _) blobs eq_refl (fun i => eq_refl) eq_refl eq_refl 1 "tree" _
         [comp "foo" eq_refl] "foo"%string 1 3 (comp "md5" eq_refl) (comp "tree" eq_refl) "md5"%string (comp "ab-c-12" eq_refl)
         "ab-c" 12 {| d_function := "md5"; d_hash := "ab-c"; d_size := 12 |} _ tt
         eq_refl (ExampleBlobs.valid_component _ _) Hn eq_refl eq_refl (ExampleBlobs.valid_component _ _) eq_refl eq_refl
         ltac:(lia) eq_refl)
      |reflexivity]).
Defined.
End ExampleCasTree.
