(* ===== verification/Main.v ===== *)
(** * The program

    [cmd/bb_clientd/main.go]: reading the configuration, creating the components and
    connecting them, exposing the file system and serving requests, in this order.
    The constructors of other projects are the fields of [Libraries]; what they
    create is opaque. *)

From S2P Require Import Prelude Errors StateFile Virtual Examples OutputPathFactory.
From S2P Require Import ErrorRetrying Store OutputPath OutputPathStack.
Local Open Scope Z_scope.
Set Warnings "-register-all".

(** ** The configuration ([bb_clientd.proto]) *)

(** Messages that other projects define, and [durationpb.Duration]. *)
Class ConfigurationMessages {E : Errors} : Type := {
  GlobalConfiguration : Type;
  ZstdPoolConfiguration : Type;
  BlobstoreConfiguration : Type;
  SchedulerConfiguration : Type;
  FilePoolConfiguration : Type;
  MountConfiguration : Type;
  CachingDirectoryFetcherConfiguration : Type;
  ServerConfiguration : Type;
  Duration : Type;
  (** [Duration.CheckValid] and [Duration.AsDuration], which accept nil *)
  Duration_CheckValid : option Duration -> option err;
  Duration_AsDuration : option Duration -> Z;
}.

Record OutputPathPersistencyConfiguration {E : Errors} {CM : ConfigurationMessages} : Type := {
  StateDirectoryPath : string;
  MaximumStateFileSizeBytes : Z;
  MaximumStateFileAge : option Duration;
  LocalFileUploadConcurrency : Z;
}.

Record ApplicationConfiguration {E : Errors} {CM : ConfigurationMessages} : Type := {
  Blobstore : BlobstoreConfiguration;
  MaximumMessageSizeBytes : Z;
  MaximumTreeSizeBytes : Z;
  Global : GlobalConfiguration;
  MountOptions : MountConfiguration;
  GrpcServers : list ServerConfiguration;
  Schedulers : gmap string SchedulerConfiguration;
  FilePool : FilePoolConfiguration;
  OutputPathPersistency : option OutputPathPersistencyConfiguration;
  MaximumFileSystemRetryDelay : option Duration;
  DirectoryCache : CachingDirectoryFetcherConfiguration;
  ZstdPool : ZstdPoolConfiguration;
}.

(** ** Objects

    What other projects create. *)

Class Objects : Type := {
  LifecycleState : Type;
  GrpcClientFactory : Type;
  ZstdPoolObject : Type;
  BlobAccessObject : Type;
  BuildQueue : Type;
  FilePoolObject : Type;
  MountObject : Type;
  HandleAllocator : Type;
  DirectoryFetcher : Type;
  AttributeCaching : Type;
  NoAttributeCaching : AttributeCaching;
  LongAttributeCaching : AttributeCaching;
  Clock : Type;
  SystemClock : Clock;
  ThreadSafeGenerator : Type;
  FastThreadSafeGenerator : ThreadSafeGenerator;
  ErrorLogger : Type;
  DefaultErrorLogger : ErrorLogger;
}.

(** ** Storage that retries *)

Section Retrying.
Context {E : Errors} {CM : ConfigurationMessages} {OB : Objects}.

(** A [blobstore.BlobAccess]: one that was configured, or its decorator. *)
Inductive storage : Type :=
| Bare (b : BlobAccessObject)
| Retrying (base : BlobAccessObject) (clock : Clock) (randomNumberGenerator : ThreadSafeGenerator)
    (errorLogger : ErrorLogger) (ba : errorRetryingBlobAccess).

Definition NewErrorRetryingBlobAccess (base : BlobAccessObject) (clock : Clock)
    (randomNumberGenerator : ThreadSafeGenerator) (errorLogger : ErrorLogger)
    (initialInterval maximumInterval maximumDelay : Z) : storage :=
  Retrying base clock randomNumberGenerator errorLogger
    {| initialInterval := initialInterval; maximumInterval := maximumInterval; maximumDelay := maximumDelay |}.

Definition retryingContentAddressableStorage (configuration : ApplicationConfiguration)
    (bareContentAddressableStorage : BlobAccessObject) : res err storage :=
  match MaximumFileSystemRetryDelay configuration with
  | Some maximumDelay =>
      match Duration_CheckValid (Some maximumDelay) with
      | Some e => Err (StatusWrap e "Invalid maximum file system retry delay")
      | None => Ok (NewErrorRetryingBlobAccess bareContentAddressableStorage SystemClock FastThreadSafeGenerator
                      DefaultErrorLogger Second (30 * Second) (Duration_AsDuration (Some maximumDelay)))
      end
  | None => Ok (Bare bareContentAddressableStorage)
  end.
End Retrying.

(** ** The output path factory

    [OPF] is the in-memory one. The state of the stores is [WS], that of the
    directories [WT]. *)

Section OutputPathFactories.
Context {E : Errors} {P : PathLib} {D : DigestLib} {CM : ConfigurationMessages} {TL : TimestampLib}.
Context {CD : ProtoCodec Directory} {CR : ProtoCodec RootDirectory}.
Context {WS WT : Type} (OPF : OutputPathFactory WT) (PD : PrepopulatedDirectory WT).
(** [flusher] of a batch with the given concurrency, [clock.SystemClock], and
    [filesystem.NewLocalDirectory] *)
Context (flusher : Z -> st WT (option err)) (clock_Now : st WS Z).
Context (NewLocalDirectory : string -> st (WS * WT) (res err (FilesystemDirectory WS))).
Context (fuel : nat).

Record factory_and_directories : Type := {
  the_factory : OutputPathFactory WT;
  the_directories : PrepopulatedDirectory WT;
}.

(** The decorator that uploads local files is only added when uploads may run. *)
Definition upload_local_files (concurrency : Z) : factory_and_directories :=
  if bool_decide (concurrency > 0)
  then {| the_factory := NewLocalFileUploadingOutputPathFactory OPF PD (flusher concurrency) fuel;
          the_directories := uploading_directory OPF PD (flusher concurrency) fuel |}
  else {| the_factory := OPF; the_directories := PD |}.

(** A factory that does not use the store. *)
Definition on_directories (OPF : OutputPathFactory WT) : OutputPathFactory (WS * WT) := {|
  OutputPath := OutputPath;
  CASFileFactory := CASFileFactory;
  opf_StartInitialBuild c cff df := on_tree (opf_StartInitialBuild c cff df);
  opf_Clean c := on_tree (opf_Clean c);
  op_RemoveAllChildren op b := on_tree (op_RemoveAllChildren op b);
  op_FinalizeBuild op df := on_tree (op_FinalizeBuild op df);
  NewCASFileFactory := on_tree NewCASFileFactory;
|}.

Definition stateStore (stateDirectory : FilesystemDirectory WS)
    (persistencyConfiguration : OutputPathPersistencyConfiguration) : Store WS :=
  NewMaximumAgeStore
    (NewDirectoryBackedStore (FD := stateDirectory) (MaximumStateFileSizeBytes persistencyConfiguration))
    clock_Now (Duration_AsDuration (MaximumStateFileAge persistencyConfiguration)).

Definition outputPathFactory (configuration : ApplicationConfiguration)
  : st (WS * WT) (res err (OutputPathFactory (WS * WT))) := fun w =>
  match OutputPathPersistency configuration with
  | None => (Ok (on_directories OPF), w)
  | Some persistencyConfiguration =>
      let decorated := upload_local_files (LocalFileUploadConcurrency persistencyConfiguration) in
      match NewLocalDirectory (StateDirectoryPath persistencyConfiguration) w with
      | (Err e, w) => (Err (StatusWrapf e "Failed to open persistent output path state directory %#v"
          [FStr (StateDirectoryPath persistencyConfiguration)]), w)
      | (Ok stateDirectory, w) =>
          match Duration_CheckValid (MaximumStateFileAge persistencyConfiguration) with
          | Some e => (Err (StatusWrap e "Invalid maximum state file age"), w)
          | None =>
              (Ok (NewPersistentOutputPathFactory (stateStore stateDirectory persistencyConfiguration)
                     (the_factory decorated) (the_directories decorated) fuel), w)
          end
      end
  end.
End OutputPathFactories.

(** ** Code that stops at the first error *)

Definition prog {E : Errors} (W A : Type) : Type := st W (outcome (res err A)).

#[export] Instance prog_ret {E : Errors} W : MRet (prog W) := fun A a w => (Ret (Ok a), w).
#[export] Instance prog_bind {E : Errors} W : MBind (prog W) := fun A B f m w =>
  match m w with
  | (Ret (Ok a), w) => f a w
  | (Ret (Err e), w) => (Ret (Err e), w)
  | (Panic msg, w) => (Panic msg, w)
  end.

(** [if err != nil { return wrap(err) }] *)
Definition try {E : Errors} {W A : Type} (wrap : err -> err) (m : st W (res err A)) : prog W A := fun w =>
  match m w with
  | (Ok a, w) => (Ret (Ok a), w)
  | (Err e, w) => (Ret (Err (wrap e)), w)
  end.

(** [if err := m; err != nil { return wrap(err) }] *)
Definition attempt {E : Errors} {W : Type} (wrap : err -> err) (m : st W (option err)) : prog W unit :=
  try wrap (fun w => let '(e, w) := m w in (match e with Some e => Err e | None => Ok tt end, w)).

(** [m; return nil], and [return e] *)
Definition finish {E : Errors} {W : Type} (m : st W unit) : prog W unit :=
  fun w => let '(_, w) := m w in (Ret (Ok tt), w).
Definition fail {E : Errors} {W A : Type} (e : err) : prog W A := fun w => (Ret (Err e), w).

Definition MustNewComponent {E : Errors} {P : PathLib} {W : Type} (name : string) : prog W Component := fun w =>
  match NewComponent name with
  | Some c => (Ret (Ok c), w)
  | None => (Panic "Failed to create component", w)
  end.

(** ** What is connected *)

Section Created.
Context {E : Errors} {P : PathLib} {D : DigestLib} {OB : Objects} {W : Type}.

(** The fields of [BazelOutputServiceDirectory] that never change. The state under the
    lock starts out as [OutputService.NewBazelOutputServiceDirectory]. *)
Record outputsDirectory : Type := {
  outputPathFactoryOf : OutputPathFactory W;
  bareContentAddressableStorageOf : BlobAccessObject;
  retryingContentAddressableStorageOf : storage;
  directoryFetcherOf : DirectoryFetcher;
  maximumTreeSizeBytesOf : Z;
}.

(** What creates the objects below "cas", without contexts, loggers and handles:
    [virtual.NewBlobAccessCASFileFactory], *)
Record blobAccessCASFileFactory : Type := {
  filesFrom : storage;
}.

(** [NewDecomposedCASDirectoryFactory] and [NewTreeCASDirectoryFactory], *)
Record decomposedCASDirectoryFactory : Type := {
  decomposedCASFileFactory : blobAccessCASFileFactory;
  decomposedDirectoryFetcher : DirectoryFetcher;
}.
Record treeCASDirectoryFactory : Type := {
  treeCASFileFactory : blobAccessCASFileFactory;
  treeDirectoryFetcher : DirectoryFetcher;
}.

(** and [NewBlobAccessCommandFileFactory]. *)
Record blobAccessCommandFileFactory : Type := {
  commandsFrom : storage;
  commandsUpTo : Z;
}.

(** What [blobsDirectoryLookupFunc] uses. *)
Record casFactories : Type := {
  casFileFactory : blobAccessCASFileFactory;
  decomposedFactory : decomposedCASDirectoryFactory;
  treeFactory : treeCASDirectoryFactory;
  commandFileFactory : blobAccessCommandFileFactory;
}.

Definition newCASFactories (retryingContentAddressableStorage : storage) (directoryFetcher : DirectoryFetcher)
    (maximumMessageSizeBytes : Z) : casFactories :=
  let casFileFactory := {| filesFrom := retryingContentAddressableStorage |} in
  let decomposedCASDirectoryFactory :=
    {| decomposedCASFileFactory := casFileFactory; decomposedDirectoryFetcher := directoryFetcher |} in
  let treeCASDirectoryFactory :=
    {| treeCASFileFactory := casFileFactory; treeDirectoryFetcher := directoryFetcher |} in
  let commandFileFactory :=
    {| commandsFrom := retryingContentAddressableStorage; commandsUpTo := maximumMessageSizeBytes |} in
  {| casFileFactory := casFileFactory; decomposedFactory := decomposedCASDirectoryFactory;
     treeFactory := treeCASDirectoryFactory; commandFileFactory := commandFileFactory |}.

(** The directories of the mount. *)
Inductive mountDirectory : Type :=
| StaticDirectory (children : gmap Component mountDirectory)
| InstanceNameParsingDirectory (lookupFuncs : gmap Component casFactories)
| OutputsDirectory (o : outputsDirectory)
| InMemoryDirectory (filePool : FilePoolObject).

Record version : Type := { major : Z; minor : Z }.

Inductive capabilitiesProvider : Type :=
| BlobAccessCapabilities (b : BlobAccessObject)
| BuildQueueCapabilities (q : BuildQueue)
| StaticCapabilities (deprecatedApiVersion lowApiVersion highApiVersion : version).

(** The servers that are registered. *)
Inductive service : Type :=
| ActionCacheServer (actionCache : BlobAccessObject) (maximumMessageSizeBytes : Z)
| ContentAddressableStorageServer (b : BlobAccessObject) (maximumMessageSizeBytes : Z)
| ByteStreamServer (b : BlobAccessObject) (readChunkSizeBytes : Z) (zstdPool : ZstdPoolObject)
| CapabilitiesServer (providers : list capabilitiesProvider)
| ExecutionServer (q : BuildQueue)
| BazelOutputServiceServer (o : outputsDirectory).
End Created.
Arguments outputsDirectory {E P D OB} W.
Arguments mountDirectory {E P D OB} W.
Arguments service {E P D OB} W.

(** ** The functions that are called *)

Class Libraries {E : Errors} {P : PathLib} {D : DigestLib} {CM : ConfigurationMessages} {OB : Objects}
    (WS WT : Type) : Type := {
  UnmarshalConfigurationFromFile : string -> st (WS * WT) (res err ApplicationConfiguration);
  ApplyConfiguration : GlobalConfiguration -> st (WS * WT) (res err (LifecycleState * GrpcClientFactory));
  NewPoolFromConfiguration : ZstdPoolConfiguration -> ZstdPoolObject;
  NewCASAndACBlobAccessFromConfiguration : BlobstoreConfiguration -> GrpcClientFactory -> Z -> ZstdPoolObject ->
    st (WS * WT) (res err (BlobAccessObject * BlobAccessObject));
  NewDemultiplexingBuildQueueFromConfiguration : gmap string SchedulerConfiguration -> GrpcClientFactory ->
    st (WS * WT) (res err BuildQueue);
  NewFilePoolFromConfiguration : FilePoolConfiguration -> st (WS * WT) (res err FilePoolObject);
  (** for the root directory, the directories and the leaves, and whether names are
      case sensitive *)
  NewMountFromConfiguration : MountConfiguration -> string -> AttributeCaching -> AttributeCaching ->
    AttributeCaching -> bool -> st (WS * WT) (res err (MountObject * HandleAllocator));
  (** on top of [NewBlobAccessDirectoryFetcher], with the limits on the sizes of messages
      and trees *)
  NewCachingDirectoryFetcherFromConfiguration : CachingDirectoryFetcherConfiguration ->
    storage -> Z -> Z -> st (WS * WT) (res err DirectoryFetcher);
  (** [NewInMemoryPrepopulatedDirectory] and the methods of what it returns, and the CAS
      file factory of a new output path, which reads from the given storage *)
  MemoryDirectory : Type;
  NewInMemoryPrepopulatedDirectory : FilePoolObject -> HandleAllocator -> st WT MemoryDirectory;
  MemoryDirectory_RemoveAllChildren : MemoryDirectory -> bool -> st WT (option err);
  CASFileFactoryObject : Type;
  CreateCASFileFactory : storage -> st WT CASFileFactoryObject;
  MemoryDirectories filePool allocator retryingContentAddressableStorage :
    PrepopulatedDirectory (OPF := inMemoryOutputPathFactory MemoryDirectory CASFileFactoryObject
      (NewInMemoryPrepopulatedDirectory filePool allocator) MemoryDirectory_RemoveAllChildren
      (CreateCASFileFactory retryingContentAddressableStorage)) WT;
  (** flushing a batch of uploads, [clock.SystemClock], [filesystem.NewLocalDirectory] *)
  batch_flusher : BlobAccessObject -> Z -> st WT (option err);
  SystemClock_Now : st WS Z;
  NewLocalDirectory : string -> st (WS * WT) (res err (FilesystemDirectory WS));
  Expose : MountObject -> mountDirectory (WS * WT) -> st (WS * WT) (option err);
  NewServersFromConfigurationAndServe : list ServerConfiguration -> list (service (WS * WT)) ->
    GrpcClientFactory -> st (WS * WT) (option err);
  MarkReadyAndWait : LifecycleState -> st (WS * WT) unit;
}.

Section Main.
Context {E : Errors} {P : PathLib} {D : DigestLib} {CM : ConfigurationMessages} {OB : Objects}.
Context {TL : TimestampLib} {CD : ProtoCodec Directory} {CR : ProtoCodec RootDirectory}.
Context {WS WT : Type} {LB : Libraries WS WT} (fuel : nat).
Abbreviation W := (WS * WT)%type.

(** Along with the storage that [BazelOutputServiceDirectory] makes the CAS file
    factories of its output paths of *)
Definition NewInMemoryOutputPathFactory (filePool : FilePoolObject) (allocator : HandleAllocator)
    (retryingContentAddressableStorage : storage) : OutputPathFactory WT :=
  inMemoryOutputPathFactory MemoryDirectory CASFileFactoryObject
    (NewInMemoryPrepopulatedDirectory filePool allocator) MemoryDirectory_RemoveAllChildren
    (CreateCASFileFactory retryingContentAddressableStorage).

(** The top-level directory. The names are evaluated in the order in which the
    directories are listed. *)
Definition rootDirectory (factories : casFactories) (outputs : outputsDirectory W) (filePool : FilePoolObject)
  : prog W (mountDirectory W) :=
  cas ← MustNewComponent "cas";
  blobs ← MustNewComponent "blobs";
  outputsName ← MustNewComponent "outputs";
  scratch ← MustNewComponent "scratch";
  mret (StaticDirectory
    (<[cas := InstanceNameParsingDirectory {[ blobs := factories ]}]>
      (<[outputsName := OutputsDirectory outputs]> {[ scratch := InMemoryDirectory filePool ]}))).

(** The servers that are registered with the gRPC servers. *)
Definition services (configuration : ApplicationConfiguration) (storage actionCache : BlobAccessObject)
    (zstdPool : ZstdPoolObject) (buildQueue : BuildQueue) (outputs : outputsDirectory W) : list (service W) :=
  [ActionCacheServer actionCache (i64 (MaximumMessageSizeBytes configuration));
   ContentAddressableStorageServer storage (MaximumMessageSizeBytes configuration);
   ByteStreamServer storage (Z.shiftl 1 16) zstdPool;
   CapabilitiesServer [BlobAccessCapabilities storage; BlobAccessCapabilities actionCache;
     BuildQueueCapabilities buildQueue;
     StaticCapabilities {| major := 2; minor := 0 |} {| major := 2; minor := 0 |} {| major := 2; minor := 11 |}];
   ExecutionServer buildQueue;
   BazelOutputServiceServer outputs].

(** The end of [main]: making the file system accessible, and then serving requests. *)
Definition expose_and_serve (configuration : ApplicationConfiguration) (mount : MountObject)
    (root : mountDirectory W) (servers : list (service W)) (grpcClientFactory : GrpcClientFactory)
    (lifecycleState : LifecycleState) : prog W unit :=
  _ ← attempt (fun e => StatusWrap e "Failed to expose virtual file system mount") (Expose mount root);
  _ ← attempt (fun e => StatusWrap e "gRPC server failure")
    (NewServersFromConfigurationAndServe (GrpcServers configuration) servers grpcClientFactory);
  finish (MarkReadyAndWait lifecycleState).

(** [main] once the configuration was read. *)
Definition start (configuration : ApplicationConfiguration) : prog W unit :=
  '(lifecycleState, grpcClientFactory) ←
    try (fun e => StatusWrap e "Failed to apply global configuration options")
      (ApplyConfiguration (Global configuration));
  let zstdPool := NewPoolFromConfiguration (ZstdPool configuration) in
  '(bareContentAddressableStorage, actionCache) ← try (fun e => e)
    (NewCASAndACBlobAccessFromConfiguration (Blobstore configuration) grpcClientFactory
      (i64 (MaximumMessageSizeBytes configuration)) zstdPool);
  buildQueue ← try (fun e => e)
    (NewDemultiplexingBuildQueueFromConfiguration (Schedulers configuration) grpcClientFactory);
  filePool ← try (fun e => StatusWrap e "Failed to create file pool")
    (NewFilePoolFromConfiguration (FilePool configuration));
  retrying ← try (fun e => e)
    (pair (retryingContentAddressableStorage configuration bareContentAddressableStorage));
  '(mount, rootHandleAllocator) ← try (fun e => StatusWrap e "Failed to create virtual file system mount")
    (NewMountFromConfiguration (MountOptions configuration) "bb_clientd"
      LongAttributeCaching NoAttributeCaching LongAttributeCaching true);
  directoryFetcher ← try (fun e => StatusWrap e "Failed to create caching directory fetcher")
    (NewCachingDirectoryFetcherFromConfiguration (DirectoryCache configuration) retrying
      (i64 (MaximumMessageSizeBytes configuration)) (MaximumTreeSizeBytes configuration));
  outputPathFactory ← try (fun e => e)
    (outputPathFactory (NewInMemoryOutputPathFactory filePool rootHandleAllocator retrying)
      (MemoryDirectories filePool rootHandleAllocator retrying) (batch_flusher bareContentAddressableStorage)
      SystemClock_Now NewLocalDirectory fuel configuration);
  let outputs := {|
    outputPathFactoryOf := outputPathFactory;
    bareContentAddressableStorageOf := bareContentAddressableStorage;
    retryingContentAddressableStorageOf := retrying;
    directoryFetcherOf := directoryFetcher;
    maximumTreeSizeBytesOf := MaximumTreeSizeBytes configuration;
  |} in
  let factories := newCASFactories retrying directoryFetcher (i64 (MaximumMessageSizeBytes configuration)) in
  root ← rootDirectory factories outputs filePool;
  expose_and_serve configuration mount root
    (services configuration bareContentAddressableStorage actionCache zstdPool buildQueue outputs)
    grpcClientFactory lifecycleState.

(** [main], given [os.Args]. *)
Definition main (args : list string) : prog W unit :=
  match args with
  | [_; file] =>
      configuration ← try (fun e => StatusWrapf e "Failed to read configuration from %s" [FStr file])
        (UnmarshalConfigurationFromFile file);
      start configuration
  | _ => fail (status_Error InvalidArgument "Usage: bb_clientd bb_clientd.jsonnet")
  end.
End Main.

(** ** Correctness: the stack of factories *)

Section ConfiguredFactory.
Context {E : Errors} {P : PathLib} {PL : PathLaws P} {D : DigestLib} {CM : ConfigurationMessages} {TL : TimestampLib}.
Context {CD : ProtoCodec Directory} {CR : ProtoCodec RootDirectory}.
Context {LD : ProtoLaws Directory empty_Directory} {LR : ProtoLaws RootDirectory empty_RootDirectory}.
Context {WS WT : Type} (OPF : OutputPathFactory WT) (PD : PrepopulatedDirectory WT).
Context (flusher : Z -> st WT (option err)) (clock_Now : st WS Z).
Context (NewLocalDirectory : string -> st (WS * WT) (res err (FilesystemDirectory WS))).
Context (fuel : nat).
Abbreviation configured :=
  (outputPathFactory OPF PD flusher clock_Now NewLocalDirectory fuel).

(** C21. The factory that is created is the one that was configured. Without
    persistency, it is the in-memory one and nothing is opened. With it, output
    paths are saved in state files of the configured directory, which is opened, up
    to the configured size and with the configured age as the maximum; that age is
    valid, and the store keeps its promises. Local files are uploaded first exactly
    if there may be uploads at all. The last case is the [stack] of which
    [service_restart] says that builds survive restarts. *)
Theorem configured_factory
    (FL : forall path w FD w', NewLocalDirectory path w = (Ok FD, w') -> FilesystemLaws FD)
    (Hclock : forall w, (clock_Now w).2 = w) configuration w opf w' :
  configured configuration w = (Ok opf, w') ->
  match OutputPathPersistency configuration with
  | None => opf = on_directories OPF /\ w' = w
  | Some pc =>
      exists FD,
        NewLocalDirectory (StateDirectoryPath pc) w = (Ok FD, w') /\
        Duration_CheckValid (MaximumStateFileAge pc) = None /\
        let S := NewMaximumAgeStore (NewDirectoryBackedStore (FD := FD) (MaximumStateFileSizeBytes pc))
                   clock_Now (Duration_AsDuration (MaximumStateFileAge pc)) in
        (exists SL : StoreLaws S, forall ds root,
           sl_fits ds root <-> fits ds root (MaximumStateFileSizeBytes pc) /\ Marshal root <> Ok []) /\
        (LocalFileUploadConcurrency pc <= 0 -> opf = NewPersistentOutputPathFactory S OPF PD fuel) /\
        (0 < LocalFileUploadConcurrency pc ->
           opf = stack (S := S) (OPF := OPF) (PD := PD) (flusher (LocalFileUploadConcurrency pc)) fuel)
  end.
Proof using PL LD LR.
  unfold outputPathFactory. destruct (OutputPathPersistency configuration) as [pc|]; [|by intros [= <- <-]].
  destruct (NewLocalDirectory _ w) as [[FD|] w1] eqn:HL; [|done].
  destruct (Duration_CheckValid _) eqn:HV; [done|]. intros [= <- <-]. specialize (FL _ _ _ _ HL).
  exists FD. split; [done|]. split; [done|]. cbn zeta.
  split; [|unfold upload_local_files, stateStore; split; intros Hc;
    [by rewrite bool_decide_false by lia|by rewrite bool_decide_true by lia]].
  by exists (maximumAgeStore_laws (directoryBackedStore_laws FL (MaximumStateFileSizeBytes pc) LD LR)
    clock_Now (Duration_AsDuration (MaximumStateFileAge pc))
    ltac:(intros sr v l Hr; rewrite Hclock; exact Hr)).
Qed.

(** C39. A maximum state file age of zero is accepted, but the first build for
    an output base whose state file can be opened then panics instead of starting
    with what was saved, or with an empty output path. *)
Theorem zero_age_panics configuration pc FD w w1 :
  OutputPathPersistency configuration = Some pc ->
  Duration_CheckValid (MaximumStateFileAge pc) = None ->
  Duration_AsDuration (MaximumStateFileAge pc) = 0 ->
  NewLocalDirectory (StateDirectoryPath pc) w = (Ok FD, w1) ->
  let S := stateStore clock_Now FD pc in
  let u := upload_local_files OPF PD flusher fuel (LocalFileUploadConcurrency pc) in
  let opf := NewPersistentOutputPathFactory S (the_factory u) (the_directories u) fuel in
  configured configuration w = (Ok opf, w1) /\
  forall c cff df t op t' ws rc root ws',
    opf_StartInitialBuild (OutputPathFactory := the_factory u) c cff df t = (Some (Ret op), t') ->
    store_Read (Store := NewDirectoryBackedStore (MaximumStateFileSizeBytes pc)) c ws = (Ret (Ok (rc, root)), ws') ->
    CheckValid (InitialCreationTime root) = None ->
    opf_StartInitialBuild (OutputPathFactory := opf) c cff df (ws, t) =
      (Some (Panic "integer divide by zero"), (ws', t')).
Proof using.
  intros Hpc Hvalid Hage HL S u opf. unfold outputPathFactory. rewrite Hpc, HL, Hvalid. split; [done|].
  subst S opf. clearbody u. intros c cff df t op t' ws rc root ws' Hstart HR Hct.
  cbn. unfold StartInitialBuild, on_tree, load_state, on_store. cbn [fst snd]. rewrite Hstart.
  cbn in HR |- *. unfold maximumAgeStore_Read. cbn. by rewrite HR, Hct, Hage.
Qed.
End ConfiguredFactory.

(** ** Correctness: what [main] does *)

(** What [main] calls, without the functions that only create values. *)
Inductive call : Type :=
| ReadConfiguration
| ApplyGlobalConfiguration
| ConnectStorage
| ConnectSchedulers
| CreateFilePool
| CreateMount
| CreateDirectoryFetcher
| OpenStateDirectory
| ExposeMount
| ServeRequests
| Wait.

(** All calls, in order. *)
Definition startup (persistent : bool) : list call :=
  [ReadConfiguration; ApplyGlobalConfiguration; ConnectStorage; ConnectSchedulers; CreateFilePool;
   CreateMount; CreateDirectoryFetcher] ++ (if persistent then [OpenStateDirectory] else []) ++
  [ExposeMount; ServeRequests] ++ [Wait].

Definition no_error {E : Errors} (e : option err) : bool := match e with None => true | Some _ => false end.

(** Every function appends its call to a trace, along with whether it succeeded. *)
Class Traced {E : Errors} {P : PathLib} {D : DigestLib} {CM : ConfigurationMessages} {OB : Objects}
    {WS WT : Type} (LB : Libraries WS WT) : Type := {
  trace : WS * WT -> list (call * bool);
  tr_Unmarshal f w : let r := UnmarshalConfigurationFromFile f w in
    trace r.2 = trace w ++ [(ReadConfiguration, is_Ok r.1)];
  tr_Apply g w : let r := ApplyConfiguration g w in
    trace r.2 = trace w ++ [(ApplyGlobalConfiguration, is_Ok r.1)];
  tr_Storage b c n z w : let r := NewCASAndACBlobAccessFromConfiguration b c n z w in
    trace r.2 = trace w ++ [(ConnectStorage, is_Ok r.1)];
  tr_Queue s c w : let r := NewDemultiplexingBuildQueueFromConfiguration s c w in
    trace r.2 = trace w ++ [(ConnectSchedulers, is_Ok r.1)];
  tr_FilePool c w : let r := NewFilePoolFromConfiguration c w in
    trace r.2 = trace w ++ [(CreateFilePool, is_Ok r.1)];
  tr_Mount c n x y z b w : let r := NewMountFromConfiguration c n x y z b w in
    trace r.2 = trace w ++ [(CreateMount, is_Ok r.1)];
  tr_Fetcher c b n m w : let r := NewCachingDirectoryFetcherFromConfiguration c b n m w in
    trace r.2 = trace w ++ [(CreateDirectoryFetcher, is_Ok r.1)];
  tr_LocalDirectory p w : let r := NewLocalDirectory p w in
    trace r.2 = trace w ++ [(OpenStateDirectory, is_Ok r.1)];
  tr_Expose m d w : let r := Expose m d w in
    trace r.2 = trace w ++ [(ExposeMount, no_error r.1)];
  tr_Serve c s f w : let r := NewServersFromConfigurationAndServe c s f w in
    trace r.2 = trace w ++ [(ServeRequests, no_error r.1)];
  tr_Wait l w : trace (MarkReadyAndWait l w).2 = trace w ++ [(Wait, true)];
}.

(** Calls that succeeded *)
Definition succeeded (calls : list call) : list (call * bool) := (fun c => (c, true)) <$> calls.

(** What is made of [calls] when there is an error. Either one of them failed, and
    was the last one that was made. Or all that were made had succeeded; that is for
    the reason [invalid], and before the last [1 - k] calls. *)
Definition stopped (invalid : Prop) (k : nat) (calls : list call) (evs : list (call * bool)) : Prop :=
  exists n,
    (exists c, calls !! n = Some c /\ evs = succeeded (take n calls) ++ [(c, false)]) \/
    (invalid /\ (n < length calls + k)%nat /\ evs = succeeded (take n calls)).

(** The names that [main] uses are valid. *)
Definition names_valid {P : PathLib} : Prop :=
  Forall (fun s => is_Some (NewComponent s)) ["cas"; "blobs"; "outputs"; "scratch"].

Section Correct.
Context {E : Errors} {P : PathLib} {D : DigestLib} {CM : ConfigurationMessages} {OB : Objects}.
Context {TL : TimestampLib} {CD : ProtoCodec Directory} {CR : ProtoCodec RootDirectory}.
Context {WS WT : Type} {LB : Libraries WS WT} (fuel : nat).
Abbreviation W := (WS * WT)%type.

Section Order.
Context {TR : Traced LB} (Hnames : names_valid).

(** [m] does not panic. It makes the given calls in order, all of which succeed, or
    stops at an error. *)
Definition follows {A} (invalid : Prop) (k : nat) (calls : list call) (m : prog W A) : Prop := forall w,
  exists r w' evs, m w = (Ret r, w') /\ trace w' = trace w ++ evs /\
    match r with Ok _ => evs = succeeded calls | Err _ => stopped invalid k calls evs end.

Lemma stopped_app invalid k c1 c2 evs :
  stopped invalid k c2 evs -> stopped invalid k (c1 ++ c2) (succeeded c1 ++ evs).
Proof using.
  intros [n Hn]. exists (length c1 + n)%nat. rewrite lookup_app_r by lia.
  rewrite Nat.add_comm, Nat.add_sub, Nat.add_comm, take_app_add. unfold succeeded. rewrite fmap_app, length_app.
  destruct Hn as [(c & Hc & ->)|(Hi & Hn & ->)].
  - left. exists c. by rewrite <-app_assoc.
  - right. split; [done|]. split; [lia|done].
Qed.

Lemma stopped_l invalid k c1 c2 evs :
  (0 < length c2 + k)%nat -> stopped invalid 1 c1 evs -> stopped invalid k (c1 ++ c2) evs.
Proof using.
  intros Hk [n Hn]. exists n. destruct Hn as [(c & Hc & ->)|(Hi & Hn & ->)].
  - left. exists c. pose proof (lookup_lt_Some _ _ _ Hc). split; [by apply lookup_app_l_Some|].
    by rewrite take_app_le by lia.
  - right. split; [done|]. rewrite length_app, take_app_le by lia. split; [lia|done].
Qed.

Lemma follows_bind {A B} invalid k c1 c2 (m : prog W A) (f : A -> prog W B) :
  follows invalid 1 c1 m -> (forall a, follows invalid k c2 (f a)) -> (0 < length c2 + k)%nat ->
  follows invalid k (c1 ++ c2) (m ≫= f).
Proof using.
  intros Hm Hf Hk w. destruct (Hm w) as (r & w1 & evs & Heq & Ht & Hr). unfold mbind, prog_bind. rewrite Heq.
  destruct r as [a|e].
  - subst evs. destruct (Hf a w1) as (r & w2 & evs & -> & Ht' & Hr'). exists r, w2, (succeeded c1 ++ evs).
    split; [done|]. rewrite Ht', Ht, app_assoc. split; [done|].
    destruct r; [subst evs; symmetry; apply fmap_app|by apply stopped_app].
  - exists (Err e), w1, evs. split; [done|]. split; [done|]. by apply stopped_l.
Qed.

Lemma follows_try {A} invalid wrap c (m : st W (res err A)) :
  (forall w, trace (m w).2 = trace w ++ [(c, is_Ok (m w).1)]) -> follows invalid 1 [c] (try wrap m).
Proof using.
  intros Hm w. specialize (Hm w). unfold try. destruct (m w) as [[a|e] w1]; eexists _, w1, _;
    (split; [done|]; split; [exact Hm|]); [done|].
  exists 0%nat. left. by exists c.
Qed.

Lemma follows_attempt invalid wrap c (m : st W (option err)) :
  (forall w, trace (m w).2 = trace w ++ [(c, no_error (m w).1)]) -> follows invalid 1 [c] (attempt wrap m).
Proof using. intros Hm. apply follows_try. intros w. specialize (Hm w). by destruct (m w) as [[]]. Qed.

Lemma follows_nil {A} (invalid : Prop) (m : prog W A) :
  (forall w, (exists a, m w = (Ret (Ok a), w)) \/ invalid /\ exists e, m w = (Ret (Err e), w)) ->
  follows invalid 1 [] m.
Proof using.
  intros Hm w. destruct (Hm w) as [[a ->]|[Hi [e ->]]]; eexists _, w, []; rewrite app_nil_r;
    (split; [done|]; split; [done|]); [done|]. exists 0%nat. right. cbn. auto with lia.
Qed.

Lemma follows_rootDirectory invalid factories outputs filePool :
  follows invalid 1 [] (rootDirectory factories outputs filePool).
Proof using Hnames.
  apply follows_nil. intros w. left. unfold rootDirectory, MustNewComponent, mbind, prog_bind.
  unfold names_valid in Hnames. rewrite !Forall_cons in Hnames.
  destruct Hnames as ([? ->] & [? ->] & [? ->] & [? ->] & _). by eexists.
Qed.

(** A duration in the configuration is not valid. *)
Definition invalid_durations (configuration : ApplicationConfiguration) : Prop :=
  (exists d, MaximumFileSystemRetryDelay configuration = Some d /\ Duration_CheckValid (Some d) <> None) \/
  (exists pc, OutputPathPersistency configuration = Some pc /\
     Duration_CheckValid (MaximumStateFileAge pc) <> None).

Lemma follows_retryingContentAddressableStorage configuration bare :
  follows (invalid_durations configuration) 1 []
    (try (fun e => e) (pair (retryingContentAddressableStorage configuration bare))).
Proof using.
  apply follows_nil. intros w. unfold try, retryingContentAddressableStorage, invalid_durations.
  destruct (MaximumFileSystemRetryDelay configuration) as [d|] eqn:Hd; [|left; by eexists].
  destruct (Duration_CheckValid (Some d)) eqn:Hv; [right|left; by eexists].
  split; [left; exists d; split; [done|by rewrite Hv]|by eexists].
Qed.

Lemma follows_outputPathFactory {OPF PD} fl configuration :
  follows (invalid_durations configuration) 1
    (if bool_decide (is_Some (OutputPathPersistency configuration)) then [OpenStateDirectory] else [])
    (try (fun e => e) (outputPathFactory (WT := WT) OPF PD fl SystemClock_Now NewLocalDirectory fuel configuration)).
Proof using TR.
  unfold outputPathFactory, invalid_durations. destruct (OutputPathPersistency configuration) as [pc|]; cbn.
  - intros w. pose proof (tr_LocalDirectory (StateDirectoryPath pc) w) as Ht. unfold try.
    destruct (NewLocalDirectory _ w) as [[FD|] w1].
    + destruct (Duration_CheckValid _) eqn:Hv; (eexists _, w1, _; split; [done|]; split; [exact Ht|]); [|done].
      exists 1%nat. right. split; [|split; [cbn; lia|done]]. right. exists pc. by rewrite Hv.
    + eexists _, w1, _. split; [done|]. split; [exact Ht|]. exists 0%nat. left. by eexists.
  - apply follows_nil. intros w. left. by eexists.
Qed.

Lemma follows_finish invalid c (m : st W unit) :
  (forall w, trace (m w).2 = trace w ++ [(c, true)]) -> follows invalid 0 [c] (finish m).
Proof using.
  intros Hm w. specialize (Hm w). unfold finish. destruct (m w) as [[] w1]. by eexists (Ok tt), w1, _.
Qed.

Lemma start_follows configuration :
  follows (invalid_durations configuration) 0
    (tail (startup (bool_decide (is_Some (OutputPathPersistency configuration))))) (start fuel configuration).
Proof using TR Hnames.
  unfold start, startup. cbn [tail app].
  apply (follows_bind _ 0 [_]); [apply follows_try, tr_Apply|intros [lifecycleState grpcClientFactory]|cbn; lia].
  apply (follows_bind _ 0 [_]); [apply follows_try; intros; apply tr_Storage|intros [bare actionCache]|cbn; lia].
  apply (follows_bind _ 0 [_]); [apply follows_try, tr_Queue|intros buildQueue|cbn; lia].
  apply (follows_bind _ 0 [_]); [apply follows_try, tr_FilePool|intros filePool|cbn; lia].
  apply (follows_bind _ 0 []); [apply follows_retryingContentAddressableStorage|intros retrying|cbn; lia].
  apply (follows_bind _ 0 [_]); [apply follows_try; intros; apply tr_Mount|intros [mount allocator]|cbn; lia].
  apply (follows_bind _ 0 [_]); [apply follows_try; intros; apply tr_Fetcher|intros fetcher|rewrite length_app; cbn; lia].
  apply follows_bind; [apply follows_outputPathFactory|intros opf|cbn; lia].
  apply (follows_bind _ 0 []); [apply follows_rootDirectory|intros root|cbn; lia]. unfold expose_and_serve.
  apply (follows_bind _ 0 [_]); [apply follows_attempt, tr_Expose|intros []|cbn; lia].
  apply (follows_bind _ 0 [_]); [apply follows_attempt; intros; apply tr_Serve|intros []|cbn; lia].
  apply follows_finish, tr_Wait.
Qed.

(** The arguments, or the durations of the configuration that they name, are not
    valid. *)
Definition invalid_startup (args : list string) (w : W) : Prop :=
  match args with
  | [program; file] =>
      match (UnmarshalConfigurationFromFile file w).1 with
      | Ok configuration => invalid_durations configuration
      | Err _ => False
      end
  | _ => True
  end.

(** C16. The daemon starts in a fixed order and stops at the first error. If [main]
    succeeds, all calls of this order were made and all of them succeeded. If it
    fails, then either the calls succeeded up to one that failed, after which no
    call was made, or the arguments or durations that were configured are not valid
    and all calls that were made succeeded. In particular the file system is not
    exposed before everything that it needs was created, no requests are served
    unless the file system was exposed successfully, the state directory is only
    opened if persistency is configured, and the daemon is only marked ready after
    all else succeeded. It does not panic, and does nothing without its argument. *)
Theorem main_order args w :
  exists r w' evs persistent,
    main fuel args w = (Ret r, w') /\
    trace w' = trace w ++ evs /\
    match r with
    | Ok _ => evs = succeeded (startup persistent)
    | Err _ => exists n,
        (exists c, startup persistent !! n = Some c /\
           evs = succeeded (take n (startup persistent)) ++ [(c, false)]) \/
        (invalid_startup args w /\ (n < length (startup persistent))%nat /\
           evs = succeeded (take n (startup persistent)))
    end /\
    (length args <> 2%nat -> evs = []) /\
    (forall program file configuration, args = [program; file] ->
       (UnmarshalConfigurationFromFile file w).1 = Ok configuration ->
       persistent = bool_decide (is_Some (OutputPathPersistency configuration))).
Proof using TR Hnames.
  assert (length args <> 2%nat \/ exists program file, args = [program; file]) as [Hargs|(program & file & ->)].
  { destruct args as [|? [|? [|? ?]]]; eauto; by left. }
  - assert (invalid_startup args w /\ exists e, main fuel args w = (Ret (Err e), w)) as [Hi [e Heq]].
    { destruct args as [|? [|? [|? ?]]]; try done; (split; [done|by eexists]). }
    exists (Err e), w, [], false. rewrite app_nil_r. split_and!; try done; [|by intros ? ? ? ->].
    exists 0%nat. right. split; [done|]. split; [cbn; lia|done].
  - cbn [main]. unfold mbind, prog_bind, try. pose proof (tr_Unmarshal file w) as Ht.
    unfold invalid_startup.
    destruct (UnmarshalConfigurationFromFile file w) as [[configuration|e] w1] eqn:HU; cbn in Ht.
    + destruct (start_follows configuration w1) as (r & w2 & evs & -> & Ht2 & Hr).
      set (persistent := bool_decide (is_Some (OutputPathPersistency configuration))) in *.
      exists r, w2, ((ReadConfiguration, true) :: evs), persistent. split; [done|].
      split; [by rewrite Ht2, Ht, <-app_assoc|].
      change (startup persistent) with ([ReadConfiguration] ++ tail (startup persistent)).
      split; [|split; [done|intros ? ? ? [= <- <-]; rewrite HU; by intros [= <-]]].
      destruct r as [[]|e]; [by subst evs|].
      pose proof (stopped_app _ 0 [ReadConfiguration] _ _ Hr) as Hs. unfold stopped in Hs.
      rewrite Nat.add_0_r in Hs. exact Hs.
    + eexists (Err _), w1, [(ReadConfiguration, false)], false. split_and!; try done.
      * exists 0%nat. left. by exists ReadConfiguration.
      * intros ? ? ? [= <- <-]. by rewrite HU.
Qed.
End Order.

(** *** What is mounted and what is served *)

Lemma prog_bind_Ok {A B} (m : prog W A) (f : A -> prog W B) w b w' :
  (m ≫= f) w = (Ret (Ok b), w') -> exists a w1, m w = (Ret (Ok a), w1) /\ f a w1 = (Ret (Ok b), w').
Proof using. unfold mbind, prog_bind. destruct (m w) as [[[a|]|] w1]; try done. by exists a, w1. Qed.

Lemma try_Ok {A} wrap (m : st W (res err A)) w a w' : try wrap m w = (Ret (Ok a), w') -> m w = (Ok a, w').
Proof using. unfold try. by destruct (m w) as [[]]; intros [= <- <-]. Qed.

Lemma attempt_Ok wrap (m : st W (option err)) w w' :
  attempt wrap m w = (Ret (Ok tt), w') -> m w = (None, w').
Proof using. unfold attempt. intros H%try_Ok. revert H. by destruct (m w) as [[] ?]; intros [= <-]. Qed.

Lemma MustNewComponent_Ok name w c w' : MustNewComponent name w = (Ret (Ok c), w' : W) -> NewComponent name = Some c.
Proof using. unfold MustNewComponent. by destruct (NewComponent name); intros [= <- <-]. Qed.

(** What has the given name in a static directory. *)
Definition child (d : mountDirectory W) (name : string) : option (mountDirectory W) :=
  match d with StaticDirectory children => NewComponent name ≫= fun c => children !! c | _ => None end.

Lemma NewComponent_ne {PL : PathLaws P} s s' c c' :
  NewComponent s = Some c -> NewComponent s' = Some c' -> s <> s' -> c <> c'.
Proof using. intros <-%NewComponent_String <-%NewComponent_String Hne ->. done. Qed.

Lemma rootDirectory_children {PL : PathLaws P} factories outputs filePool w root w' :
  rootDirectory factories outputs filePool w = (Ret (Ok root), w') ->
  child root "outputs" = Some (OutputsDirectory outputs) /\
  child root "scratch" = Some (InMemoryDirectory filePool) /\
  exists blobs, NewComponent "blobs" = Some blobs /\
    child root "cas" = Some (InstanceNameParsingDirectory {[ blobs := factories ]}).
Proof using.
  unfold rootDirectory. intros (cas & w1 & Hcas%MustNewComponent_Ok & H)%prog_bind_Ok.
  apply prog_bind_Ok in H as (blobs & w2 & Hblobs%MustNewComponent_Ok & H).
  apply prog_bind_Ok in H as (out & w3 & Hout%MustNewComponent_Ok & H).
  apply prog_bind_Ok in H as (scratch & w4 & Hscratch%MustNewComponent_Ok & [= <- <-]).
  pose proof (NewComponent_ne _ _ _ _ Hcas Hout ltac:(done)).
  pose proof (NewComponent_ne _ _ _ _ Hcas Hscratch ltac:(done)).
  pose proof (NewComponent_ne _ _ _ _ Hout Hscratch ltac:(done)).
  unfold child. rewrite Hcas, Hout, Hscratch. cbn. split_and!; [..|exists blobs; split; [done|]]; by simplify_map_eq.
Qed.

(** C17. When the daemon ran successfully, it was connected the way it should be. The
    directory that is mounted as "outputs" is the one whose requests are served as the
    Bazel Output Service, and its output paths are created by the configured factory.
    All that is below "cas" reads the Content Addressable Storage through the
    decorator that retries, if a maximum delay is configured: the files, the commands
    and, by way of the cache of directories, directories and trees, along with the
    files in these. So do the files and directories of output paths, which share that
    cache. Local files are uploaded to the bare storage. Remote execution clients are
    served from the bare storage, the action cache and the schedulers. All of these
    are the configured ones. The file system had been exposed before requests were
    served. *)
Theorem main_wiring (PL : PathLaws P) args w w' :
  main fuel args w = (Ret (Ok tt), w') ->
  exists configuration lifecycleState grpcClientFactory mount allocator root o factories servers actionCache
      buildQueue filePool w1 w2 w3,
    let bare := bareContentAddressableStorageOf o in
    let retrying := retryingContentAddressableStorageOf o in
    let messageSize := i64 (MaximumMessageSizeBytes configuration) in
    let zstdPool := NewPoolFromConfiguration (ZstdPool configuration) in
    (exists program file wa wb, args = [program; file] /\
       UnmarshalConfigurationFromFile file wa = (Ok configuration, wb)) /\
    Expose mount root w1 = (None, w2) /\
    NewServersFromConfigurationAndServe (GrpcServers configuration) servers grpcClientFactory w2 = (None, w3) /\
    MarkReadyAndWait lifecycleState w3 = (tt, w') /\
    child root "outputs" = Some (OutputsDirectory o) /\
    child root "scratch" = Some (InMemoryDirectory filePool) /\
    (exists blobs, NewComponent "blobs" = Some blobs /\
       child root "cas" = Some (InstanceNameParsingDirectory {[ blobs := factories ]})) /\
    (exists wa wb, ApplyConfiguration (Global configuration) wa = (Ok (lifecycleState, grpcClientFactory), wb)) /\
    (exists wa wb, NewCASAndACBlobAccessFromConfiguration (Blobstore configuration) grpcClientFactory messageSize
       zstdPool wa = (Ok (bare, actionCache), wb)) /\
    (exists wa wb, NewDemultiplexingBuildQueueFromConfiguration (Schedulers configuration) grpcClientFactory wa
       = (Ok buildQueue, wb)) /\
    (exists wa wb, NewFilePoolFromConfiguration (FilePool configuration) wa = (Ok filePool, wb)) /\
    (exists wa wb, NewMountFromConfiguration (MountOptions configuration) "bb_clientd" LongAttributeCaching
       NoAttributeCaching LongAttributeCaching true wa = (Ok (mount, allocator), wb)) /\
    retryingContentAddressableStorage configuration bare = Ok retrying /\
    (exists wa wb, NewCachingDirectoryFetcherFromConfiguration (DirectoryCache configuration) retrying messageSize
       (MaximumTreeSizeBytes configuration) wa = (Ok (directoryFetcherOf o), wb)) /\
    (exists wa wb,
       outputPathFactory (NewInMemoryOutputPathFactory filePool allocator retrying)
         (MemoryDirectories filePool allocator retrying) (batch_flusher bare) SystemClock_Now NewLocalDirectory fuel
         configuration wa = (Ok (outputPathFactoryOf o), wb)) /\
    maximumTreeSizeBytesOf o = MaximumTreeSizeBytes configuration /\
    (let files := {| filesFrom := retrying |} in
     factories = {|
       casFileFactory := files;
       decomposedFactory :=
         {| decomposedCASFileFactory := files; decomposedDirectoryFetcher := directoryFetcherOf o |};
       treeFactory := {| treeCASFileFactory := files; treeDirectoryFetcher := directoryFetcherOf o |};
       commandFileFactory := {| commandsFrom := retrying; commandsUpTo := messageSize |};
     |}) /\
    exists capabilities, servers = [
      ActionCacheServer actionCache messageSize;
      ContentAddressableStorageServer bare (MaximumMessageSizeBytes configuration);
      ByteStreamServer bare 65536 zstdPool;
      CapabilitiesServer ([BlobAccessCapabilities bare; BlobAccessCapabilities actionCache;
        BuildQueueCapabilities buildQueue] ++ capabilities);
      ExecutionServer buildQueue;
      BazelOutputServiceServer o].
Proof using.
  intros Hmain. assert (exists program file, args = [program; file]) as (program & file & ->).
  { destruct args as [|? [|? [|? ?]]]; try done; eauto. }
  cbn [main] in Hmain. apply prog_bind_Ok in Hmain as (configuration & w1 & Hconf%try_Ok & H). unfold start in H.
  apply prog_bind_Ok in H as ([lifecycleState grpcClientFactory] & w2 & Hglobal%try_Ok & H).
  apply prog_bind_Ok in H as ([bare actionCache] & w3 & Hstorage%try_Ok & H).
  apply prog_bind_Ok in H as (buildQueue & w4 & Hqueue%try_Ok & H).
  apply prog_bind_Ok in H as (filePool & w5 & Hpool%try_Ok & H).
  apply prog_bind_Ok in H as (retrying & w6 & [= Hretry <-]%try_Ok & H).
  apply prog_bind_Ok in H as ([mount allocator] & w7 & Hmount%try_Ok & H).
  apply prog_bind_Ok in H as (fetcher & w8 & Hfetcher%try_Ok & H).
  apply prog_bind_Ok in H as (opf & w9 & Hopf%try_Ok & H).
  apply prog_bind_Ok in H as (root & w10 & (Hout & Hscratch & Hcas)%rootDirectory_children & H).
  unfold expose_and_serve in H. apply prog_bind_Ok in H as ([] & w11 & Hexpose%attempt_Ok & H).
  apply prog_bind_Ok in H as ([] & w12 & Hserve%attempt_Ok & H).
  unfold finish in H. destruct (MarkReadyAndWait lifecycleState w12) as [[] w13] eqn:Hwait.
  injection H as <-.
  eexists configuration, lifecycleState, grpcClientFactory, mount, allocator, root, _, _, _, actionCache,
    buildQueue, filePool, w10, w11, w12. cbn zeta.
  split; [by eexists _, _, _, _|]. split; [done|]. split; [done|]. split; [done|]. split; [exact Hout|].
  split; [exact Hscratch|]. split; [exact Hcas|]. split_and!; try (by eexists _, _); [done..|].
  by eexists [_].
Qed.
End Correct.
