(* ===== verification/MainExamples.v ===== *)
(** * Concrete runs of the program

    Configurations with which the daemon starts, and one that it should not accept. *)

From S2P Require Import Prelude GoLib Errors GoIo StateFile Virtual Examples OutputPathFactory OutputService.
From S2P Require Import ErrorRetrying Store OutputPath OutputPathRoundTrip OutputPathResources OutputPathStack.
From S2P Require Import OutputPathExamples Main.
Local Open Scope Z_scope.
Set Warnings "-register-all".

Module ExampleMain.
Import ErrorTree ExamplePath ExampleDigest.

(** Durations are in nanoseconds, and all are valid. Whatever other projects define
    is a name. *)
#[export] Instance messages : ConfigurationMessages := {|
  GlobalConfiguration := string;
  ZstdPoolConfiguration := string;
  BlobstoreConfiguration := string;
  SchedulerConfiguration := string;
  FilePoolConfiguration := string;
  MountConfiguration := string;
  CachingDirectoryFetcherConfiguration := string;
  ServerConfiguration := string;
  Duration := Z;
  Duration_CheckValid d :=
    match d with None => Some (status_Error InvalidArgument "invalid nil Duration") | Some _ => None end;
  Duration_AsDuration d := default 0 d;
|}.

Definition configuration (persistency : option OutputPathPersistencyConfiguration) : ApplicationConfiguration := {|
  Blobstore := "storage";
  MaximumMessageSizeBytes := 2097152;
  MaximumTreeSizeBytes := 1048576;
  Global := "global";
  MountOptions := "mount";
  GrpcServers := ["unix:///tmp/bb_clientd"];
  Schedulers := {[ "" := "scheduler" ]};
  FilePool := "/tmp/pool";
  OutputPathPersistency := persistency;
  MaximumFileSystemRetryDelay := Some (300 * Second);
  DirectoryCache := "cache";
  ZstdPool := "";
|}.

(** State files of up to 100 bytes *)
Definition persistency (age concurrency : Z) : OutputPathPersistencyConfiguration := {|
  StateDirectoryPath := "/var/state";
  MaximumStateFileSizeBytes := 100;
  MaximumStateFileAge := Some age;
  LocalFileUploadConcurrency := concurrency;
|}.

(** ** The factory *)

Module Factory.
Import ExampleTree ExampleStore ExampleOutputPath ExampleStack.
#[local] Existing Instance tree_factory.
#[local] Existing Instance tree_directory.
#[local] Existing Instance tree_laws.
#[local] Existing Instance dirCodec3.
#[local] Existing Instance rootCodec3.
#[local] Existing Instance dirLaws.
#[local] Existing Instance rootLaws3.

Definition open_state (path : string) : st (files * world) (res err (FilesystemDirectory files)) :=
  fun w => (Ok filesystem, w).

Definition open_state_laws path w FD w' (H : open_state path w = (Ok FD, w')) : FilesystemLaws FD :=
  match H in _ = r return FilesystemLaws (match r.1 with Ok FD => FD | Err _ => filesystem end) with
  | eq_refl => filesystem_laws
  end.

Definition configured (age concurrency : Z) :=
  outputPathFactory tree_factory tree_directory (fun _ => flush) (clock (10 * Second)) open_state 3
    (configuration (Some (persistency age concurrency))) (fs0, empty_tree).

Lemma configured_factory_witness :
  let S := NewMaximumAgeStore (NewDirectoryBackedStore (FD := filesystem) 100) (clock (10 * Second)) two_days in
  configured two_days 10 =
    (Ok (stack (S := S) (OPF := tree_factory) (PD := tree_directory) flush 3), (fs0, empty_tree)) /\
  exists SL : StoreLaws S, sl_fits [message1] root3 <-> fits [message1] root3 100 /\ Marshal root3 <> Ok [].
Proof.
  destruct (configured_factory (PL := path_laws) tree_factory tree_directory (fun _ => flush) (clock (10 * Second))
    open_state 3 open_state_laws (fun _ => eq_refl) (configuration (Some (persistency two_days 10)))
    (fs0, empty_tree) _ _ eq_refl) as (FD & HL & _ & [SL Hfits] & _ & Hstack).
  injection HL as <-. split; [exact (f_equal (fun opf => (Ok opf, (fs0, empty_tree))) (Hstack eq_refl))|].
  exists SL. apply Hfits.
Defined.

Lemma zero_age_panics_witness :
  exists opf, (configured 0 0).1 = Ok opf /\
    opf = NewPersistentOutputPathFactory (stateStore (clock (10 * Second)) filesystem (persistency 0 0))
      tree_factory tree_directory 3 /\
    forall t, (StartInitialBuild (S := stateStore (clock (10 * Second)) filesystem (persistency 0 0))
        (OPF := tree_factory) (PD := tree_directory)
        3 base (tt : CASFileFactory (OutputPathFactory := tree_factory)) ("sha256" : DigestFunction) (saved1.1, t)).1 =
      Some (Panic "integer divide by zero").
Proof.
  destruct (zero_age_panics tree_factory tree_directory (fun _ => flush) (clock (10 * Second))
    open_state 3 (configuration (Some (persistency 0 0))) (persistency 0 0) filesystem
    (fs0, empty_tree) (fs0, empty_tree) eq_refl eq_refl eq_refl eq_refl) as [Heq Hpanic].
  eexists. split; [reflexivity|]. split; [reflexivity|]. intros t.
  refine (f_equal fst (Hpanic base (tt : CASFileFactory (OutputPathFactory := tree_factory)) ("sha256" : DigestFunction) t _ _ saved1.1 _ _ _ eq_refl eq_refl eq_refl)).
Defined.
End Factory.
(** ** The daemon

    The state is the trace of calls. A function fails if its configuration is empty. *)

Module Daemon.
#[local] Existing Instance ExampleStore.timestamps.
#[local] Existing Instance ExampleStack.dirCodec3.
#[local] Existing Instance ExampleStack.rootCodec3.

#[export] Instance objects : Objects := {|
  LifecycleState := string;
  GrpcClientFactory := unit;
  ZstdPoolObject := string;
  BlobAccessObject := string;
  BuildQueue := unit;
  FilePoolObject := string;
  MountObject := string;
  HandleAllocator := unit;
  DirectoryFetcher := string;
  AttributeCaching := bool;
  NoAttributeCaching := false;
  LongAttributeCaching := true;
  Clock := unit;
  SystemClock := tt;
  ThreadSafeGenerator := unit;
  FastThreadSafeGenerator := tt;
  ErrorLogger := unit;
  DefaultErrorLogger := tt;
|}.

Definition events : Type := list (call * bool).

Definition returns {A} (c : call) (r : res err A) : st (events * unit) (res err A) := fun w =>
  (r, (w.1 ++ [(c, is_Ok r)], w.2)).

Definition recorded {A} (c : call) (name : string) (a : A) : st (events * unit) (res err A) :=
  returns c (if bool_decide (name = "") then Err (status_Error InvalidArgument "Not configured") else Ok a).

Definition recorded_error (c : call) : st (events * unit) (option err) := fun w =>
  (None, (w.1 ++ [(c, true)], w.2)).

(** Directories that stay empty. *)
Definition empty_factory : OutputPathFactory unit :=
  inMemoryOutputPathFactory unit unit (pair tt) (fun _ _ => pair None) (pair tt).
Definition empty_directory : PrepopulatedDirectory (OPF := empty_factory) unit :=
  @Build_PrepopulatedDirectory errors path_lib digests unit empty_factory unit unit (fun _ => tt)
    (fun _ _ => pair (Err (Sys "EIO"))) (fun _ => pair (Ok ([], []))) (fun _ _ _ => pair None) (fun _ => pair tt)
    (fun _ _ _ => pair tt) (fun _ => pair (Ok tt)) (fun _ _ d => pair (Some d)) (fun _ _ => pair (Some None))
    (fun _ => pair tt) (pair {| seconds := 0; nanos := 0 |}).

(** "broken.jsonnet" has no schedulers. There is no state directory. *)
#[export] Instance libraries : Libraries events unit := {|
  UnmarshalConfigurationFromFile file :=
    recorded ReadConfiguration file (
      let c := configuration (if bool_decide (file = "persistent.jsonnet") then Some (persistency Second 0) else None) in
      {| Blobstore := Blobstore c; MaximumMessageSizeBytes := MaximumMessageSizeBytes c;
         MaximumTreeSizeBytes := MaximumTreeSizeBytes c; Global := Global c; MountOptions := MountOptions c;
         GrpcServers := GrpcServers c;
         Schedulers := if bool_decide (file = "broken.jsonnet") then ∅ else Schedulers c; FilePool := FilePool c;
         OutputPathPersistency := OutputPathPersistency c;
         MaximumFileSystemRetryDelay := MaximumFileSystemRetryDelay c; DirectoryCache := DirectoryCache c;
         ZstdPool := ZstdPool c |});
  ApplyConfiguration g := recorded ApplyGlobalConfiguration g ("state", tt);
  NewPoolFromConfiguration z := z;
  NewCASAndACBlobAccessFromConfiguration b _ _ _ := recorded ConnectStorage b ("CAS", "AC");
  NewDemultiplexingBuildQueueFromConfiguration s _ := recorded ConnectSchedulers (default "" (s !! "")) tt;
  NewFilePoolFromConfiguration c := recorded CreateFilePool c c;
  NewMountFromConfiguration c _ _ _ _ _ := recorded CreateMount c (c, tt);
  NewCachingDirectoryFetcherFromConfiguration c _ _ _ := recorded CreateDirectoryFetcher c c;
  MemoryDirectory := unit;
  NewInMemoryPrepopulatedDirectory _ _ := pair tt;
  MemoryDirectory_RemoveAllChildren _ _ := pair None;
  CASFileFactoryObject := unit;
  CreateCASFileFactory _ := pair tt;
  MemoryDirectories _ _ _ := empty_directory;
  batch_flusher _ _ := pair None;
  SystemClock_Now := pair 0;
  NewLocalDirectory _ := returns OpenStateDirectory (Err (Sys "ENOENT"));
  Expose _ _ := recorded_error ExposeMount;
  NewServersFromConfigurationAndServe _ _ _ := recorded_error ServeRequests;
  MarkReadyAndWait _ w := (tt, (w.1 ++ [(Wait, true)], w.2));
|}.

#[export] Instance traced : Traced libraries.
Proof. by refine {| trace := fst : events * unit -> events |}. Defined.

Lemma names_ok : names_valid.
Proof. repeat (apply Forall_cons_2; [by eexists|]). apply Forall_nil_2. Qed.

Definition run_daemon (args : list string) := main 1 args ([] : events, tt).

Example success : run_daemon ["bb_clientd"; "memory.jsonnet"] = (Ret (Ok tt), (succeeded (startup false), tt)).
Proof. reflexivity. Qed.

Example no_schedulers : run_daemon ["bb_clientd"; "broken.jsonnet"] =
  (Ret (Err (status_Error InvalidArgument "Not configured")),
   (succeeded (take 3 (startup false)) ++ [(ConnectSchedulers, false)], tt)).
Proof. reflexivity. Qed.

(** The state directory cannot be opened. *)
Lemma main_order_witness :
  exists r w' evs p, run_daemon ["bb_clientd"; "persistent.jsonnet"] = (Ret r, w') /\
    trace w' = evs /\ p = true /\
    match r with
    | Ok _ => evs = succeeded (startup p)
    | Err _ => exists n,
        (exists c, startup p !! n = Some c /\ evs = succeeded (take n (startup p)) ++ [(c, false)]) \/
        (invalid_startup ["bb_clientd"; "persistent.jsonnet"] ([] : events, tt) /\
           (n < length (startup p))%nat /\ evs = succeeded (take n (startup p)))
    end.
Proof.
  destruct (main_order 1 names_ok ["bb_clientd"; "persistent.jsonnet"] ([] : events, tt))
    as (r & w' & evs & p & Hrun & Ht & Hr & _ & Hp).
  exists r, w', evs, p. split; [exact Hrun|]. split; [exact Ht|]. split; [|exact Hr].
  exact (Hp _ _ _ eq_refl eq_refl).
Defined.

(** "outputs" is the directory that is served, and commands are read with retries. *)
Lemma main_wiring_witness :
  exists root o (servers : list (service (events * unit))) factories w2 gs,
    NewServersFromConfigurationAndServe gs servers tt w2 = (None, (removelast (succeeded (startup false)), tt)) /\
    child root "outputs" = Some (OutputsDirectory o) /\ BazelOutputServiceServer o ∈ servers /\
    (exists blobs, NewComponent "blobs" = Some blobs /\
       child root "cas" = Some (InstanceNameParsingDirectory {[ blobs := factories ]})) /\
    commandsFrom (commandFileFactory factories) = retryingContentAddressableStorageOf o.
Proof.
  destruct (main_wiring 1 path_laws ["bb_clientd"; "memory.jsonnet"] ([] : events, tt) _ success)
    as (c & ls & [] & m & a & root & o & f & servers & ac & q & fp & w1 & w2 & w3 & _ & _ & Hserve & Hwait &
        Hout & _ & Hcas & _ & _ & _ & _ & _ & _ & _ & _ & _ & Hf & capabilities & Hs).
  exists root, o, servers, f, w2, (GrpcServers c). split.
  { rewrite Hserve. f_equal. destruct w3 as [tr []]. cbn in Hwait. injection Hwait as Htr.
    by apply (app_inj_tail tr (removelast (succeeded (startup false))) (Wait, true) (Wait, true)) in Htr as [-> _]. }
  split; [exact Hout|]. split; [rewrite Hs; do 5 right; left|]. split; [exact Hcas|]. by rewrite Hf.
Defined.
End Daemon.
End ExampleMain.
